(** * TLScanner: address enumeration, IP arithmetic and probe classification

    A shallow embedding of the TypeScript sources
    - [utils/next-ip] ([expandIPv6], [bigIntToIPv6], [nextIP]),
    - the enumerator module of [utils] ([iterate], [iterateAddr]),
    - [utils/validate-domain-name.ts] ([validateDomainName]),
    - [utils/lookup-ip.ts] ([lookupIP]),
    - the array helpers of [utils] ([existOnlyOne], [removeDuplicateStr]),
    - [scanner/scanner.service.ts] ([scanTLS], [scanTLSBatch],
      [formatScanResult], [generateCSVOutput], [isFeasible]),
    - the GeoIP service ([getGeo], [validateIP], [isGeoIPAvailable]),
    - [app.service.ts] (the input check of [run], [getHostIterator],
      [setupOutputFile], [scannerWorker], the mode and the tail of
      [startScanning], [setupGracefulShutdown]),
    together with the properties of the specification that are stated about
    them, and further properties read off the code.

    Conventions.  JavaScript strings are modelled by [string] (sequences of
    8-bit code units; every literal the sources inspect is ASCII).  JavaScript
    numbers that hold integers are modelled by [Z]; the 32-bit conversions of
    the bit operators are written out.  [bigint] is [Z]. *)

From Stdlib Require Import ZArith String Ascii List Bool Lia Permutation.
Import ListNotations.

Local Open Scope string_scope.
Local Open Scope Z_scope.

(* ================================================================== *)
(** * JavaScript string and number primitives used by the sources *)
(* ================================================================== *)

Module JS.

Definition code (c : ascii) : Z := Z.of_N (N_of_ascii c).

Definition chr (n : Z) : ascii := ascii_of_N (Z.to_N n).

(** [\d] *)
Definition isDigit (c : ascii) : bool := (48 <=? code c) && (code c <=? 57).

Definition isLower (c : ascii) : bool := (97 <=? code c) && (code c <=? 122).

Definition isUpper (c : ascii) : bool := (65 <=? code c) && (code c <=? 90).

(** White space removed by [String.prototype.trim] and skipped by
    [parseInt], among the code units below 256. *)
Definition isSpace (c : ascii) : bool :=
  ((9 <=? code c) && (code c <=? 13)) || (code c =? 32) || (code c =? 160).

Fixpoint forall_chars (p : ascii -> bool) (s : string) : bool :=
  match s with
  | EmptyString => true
  | String c r => p c && forall_chars p r
  end.

Fixpoint mem_char (c : ascii) (s : string) : bool :=
  match s with
  | EmptyString => false
  | String a r => Ascii.eqb a c || mem_char c r
  end.

Definition len (s : string) : Z := Z.of_nat (String.length s).

(** [s.split(c)] for a one-character separator. *)
Fixpoint split_char (c : ascii) (s : string) : list string :=
  match s with
  | EmptyString => [EmptyString]
  | String a r =>
      if Ascii.eqb a c then EmptyString :: split_char c r
      else match split_char c r with
           | h :: t => String a h :: t
           | [] => [String a EmptyString]
           end
  end.

(** [s.split("::")]: left-to-right, non-overlapping. *)
Fixpoint split_dcolon (s : string) : list string :=
  match s with
  | EmptyString => [EmptyString]
  | String a r =>
      match r with
      | String b r' =>
          if Ascii.eqb a ":" && Ascii.eqb b ":"
          then EmptyString :: split_dcolon r'
          else match split_dcolon r with
               | h :: t => String a h :: t
               | [] => [String a EmptyString]
               end
      | EmptyString => [String a EmptyString]
      end
  end.

(** [l.join(sep)] *)
Fixpoint join (sep : string) (l : list string) : string :=
  match l with
  | [] => EmptyString
  | [x] => x
  | x :: r => x ++ sep ++ join sep r
  end.

Fixpoint trimStart (s : string) : string :=
  match s with
  | EmptyString => EmptyString
  | String c r => if isSpace c then trimStart r else s
  end.

Fixpoint trimEnd (s : string) : string :=
  match s with
  | EmptyString => EmptyString
  | String c r =>
      match trimEnd r with
      | EmptyString => if isSpace c then EmptyString else String c EmptyString
      | r' => String c r'
      end
  end.

(** [s.trim()] *)
Definition trim (s : string) : string := trimEnd (trimStart s).

Fixpoint repeat_char (c : ascii) (n : nat) : string :=
  match n with
  | O => EmptyString
  | S k => String c (repeat_char c k)
  end.

(** [s.padStart(n, "0")] *)
Definition padStart0 (n : nat) (s : string) : string :=
  repeat_char "0" (n - String.length s) ++ s.

(** [s.replace(/^0+/, '')] *)
Fixpoint stripLeadingZeros (s : string) : string :=
  match s with
  | String c r => if Ascii.eqb c "0" then stripLeadingZeros r else s
  | EmptyString => EmptyString
  end.

(** [s.slice(i, j)] for [0 <= i <= j]. *)
Definition slice (i j : nat) (s : string) : string := String.substring i (j - i) s.

(** The digit of a radix up to 16, lower case as [toString] prints it. *)
Definition digitChar (d : Z) : ascii :=
  if d <? 10 then chr (48 + d) else chr (87 + d).

Fixpoint digitsOf (radix : Z) (fuel : nat) (n : Z) (acc : string) : string :=
  match fuel with
  | O => acc
  | S f =>
      let acc' := String (digitChar (n mod radix)) acc in
      if n <? radix then acc' else digitsOf radix f (n / radix) acc'
  end.

(** [n.toString(radix)] of an integer (a number below 1e21, or a bigint). *)
Definition toStringRadix (radix : Z) (n : Z) : string :=
  if n <? 0
  then String "-" (digitsOf radix (S (Z.to_nat (Z.log2 (- n)))) (- n) EmptyString)
  else digitsOf radix (S (Z.to_nat (Z.log2 n))) n EmptyString.

(** The decimal conversion that [join] and template strings apply. *)
Definition toString (n : Z) : string := toStringRadix 10 n.

Definition digitVal (c : ascii) : Z := code c - 48.

Fixpoint numberAcc (s : string) (acc : Z) : Z :=
  match s with
  | EmptyString => acc
  | String c r => numberAcc r (10 * acc + digitVal c)
  end.

(** [Number(s)] and [parseInt(s, 10)] on a string of decimal digits, the
    only strings the sources pass to them (guaranteed by the CIDR regular
    expression, respectively by [net.isIP]).  Doubles are exact below
    2^53; an octet string with a larger value is above 255 either way. *)
Definition Number (s : string) : Z := numberAcc s 0.

Definition hexVal (c : ascii) : option Z :=
  if isDigit c then Some (code c - 48)
  else if (97 <=? code c) && (code c <=? 102) then Some (code c - 87)
  else if (65 <=? code c) && (code c <=? 70) then Some (code c - 55)
  else None.

(** Longest prefix of hexadecimal digits: its value and whether it is
    non-empty. *)
Fixpoint hexPrefix (s : string) (acc : Z) (seen : bool) : Z * bool :=
  match s with
  | EmptyString => (acc, seen)
  | String c r =>
      match hexVal c with
      | Some d => hexPrefix r (16 * acc + d) true
      | None => (acc, seen)
      end
  end.

Definition strip0x (s : string) : string :=
  match s with
  | String "0" (String x r) =>
      if Ascii.eqb x "x" || Ascii.eqb x "X" then r else s
  | _ => s
  end.

(** [parseInt(s, 16)]; [None] is NaN. *)
Definition parseInt16 (s : string) : option Z :=
  let s1 := trimStart s in
  let '(neg, s2) :=
    match s1 with
    | String "-" r => (true, r)
    | String "+" r => (false, r)
    | _ => (false, s1)
    end in
  let '(v, seen) := hexPrefix (strip0x s2) 0 false in
  if seen then Some (if neg then - v else v) else None.

(** [x || y] on strings: the empty string is falsy. *)
Definition orStr (x : option string) (y : string) : string :=
  match x with
  | Some s => if String.eqb s EmptyString then y else s
  | None => y
  end.

(** ** 32-bit integer operators *)

Definition toUint32 (x : Z) : Z := x mod 2 ^ 32.

Definition toInt32 (x : Z) : Z := (x + 2 ^ 31) mod 2 ^ 32 - 2 ^ 31.

(** [x << n] *)
Definition shl (x n : Z) : Z := toInt32 (Z.shiftl (toInt32 x) (n mod 32)).

(** [x | y] *)
Definition bor (x y : Z) : Z := toInt32 (Z.lor (toInt32 x) (toInt32 y)).

(** [x & y] *)
Definition band (x y : Z) : Z := toInt32 (Z.land (toInt32 x) (toInt32 y)).

(** [x >>> n] *)
Definition ushr (x n : Z) : Z := Z.shiftr (toUint32 x) (n mod 32).

Definition MAX_SAFE_INTEGER : Z := 2 ^ 53 - 1.

End JS.

(* ================================================================== *)
(** * [net.isIP] *)
(* ================================================================== *)

(** [net.isIP] belongs to the Node.js runtime.  Its IPv4 half is the dotted
    quad of four decimal octets [25[0-5]|2[0-4]\d|1\d\d|[1-9]?\d]; its IPv6
    half is kept abstract (see [Section Sources]). *)

Definition v4Seg (s : string) : bool :=
  match s with
  | String a EmptyString => JS.isDigit a
  | String a (String b EmptyString) =>
      JS.isDigit a && negb (Ascii.eqb a "0") && JS.isDigit b
  | String a (String b (String c EmptyString)) =>
      (Ascii.eqb a "1" && JS.isDigit b && JS.isDigit c)
      || (Ascii.eqb a "2" && JS.isDigit b && (JS.code b <=? 52) && JS.isDigit c)
      || (Ascii.eqb a "2" && Ascii.eqb b "5" && JS.isDigit c && (JS.code c <=? 53))
  | _ => false
  end.

Definition isIPv4 (s : string) : bool :=
  match JS.split_char "." s with
  | [a; b; c; d] => v4Seg a && v4Seg b && v4Seg c && v4Seg d
  | _ => false
  end.

(** The IPv6 half of [net.isIP], after the regular expression [IPv6Reg] of
    the runtime's [lib/internal/net.js]: groups of one to four hexadecimal
    digits joined by colons, eight of them or fewer around one [::]; the
    last two groups may be written as a dotted quad; a zone index [%...]
    may follow.  It instantiates the abstract runtime predicate in the
    examples below. *)

(** [[0-9a-fA-F]{1,4}] *)
Definition hexGroup (s : string) : bool :=
  match s with
  | EmptyString => false
  | _ => (String.length s <=? 4)%nat
         && JS.forall_chars (fun c => match JS.hexVal c with Some _ => true | None => false end) s
  end.

(** The number of groups of a run of groups joined by colons, when every
    one is a [hexGroup]. *)
Definition hexGroups (s : string) : option nat :=
  match s with
  | EmptyString => Some O
  | _ => let gs := JS.split_char ":" s in
         if forallb hexGroup gs then Some (List.length gs) else None
  end.

(** The same for the run that ends the address, whose last element may be
    a dotted quad, which stands for two groups. *)
Fixpoint tailUnits (gs : list string) : option nat :=
  match gs with
  | [] => Some O
  | g :: r =>
      match r with
      | [] =>
          if hexGroup g then Some 1%nat
          else if isIPv4 g then Some 2%nat
          else None
      | _ :: _ => if hexGroup g then option_map S (tailUnits r) else None
      end
  end.

Definition tailGroups (s : string) : option nat :=
  match s with
  | EmptyString => Some O
  | _ => tailUnits (JS.split_char ":" s)
  end.

(** The address without zone index: eight groups, or at most seven around
    one [::]. *)
Definition addrIPv6 (s : string) : bool :=
  match JS.split_dcolon s with
  | [g] => match tailGroups g with Some n => (n =? 8)%nat | None => false end
  | [l; r] =>
      match hexGroups l, tailGroups r with
      | Some n, Some m => (n + m <=? 7)%nat
      | _, _ => false
      end
  | _ => false
  end.

(** [[0-9a-zA-Z-.:]] *)
Definition zoneChar (c : ascii) : bool :=
  JS.isDigit c || JS.isLower c || JS.isUpper c
  || Ascii.eqb c "-" || Ascii.eqb c "." || Ascii.eqb c ":".

(** An address, or an address, a percent sign and a non-empty zone index.
    Every address holds a colon. *)
Definition isIPv6_ref (s : string) : bool :=
  JS.mem_char ":" s
  && (addrIPv6 s
      || match JS.split_char "%" s with
         | [a; z] =>
             addrIPv6 a && negb (String.eqb z EmptyString)
             && JS.forall_chars zoneChar z
         | _ => false
         end).

(* ================================================================== *)
(** * types/host.ts, types/tlsscan-result.ts *)
(* ================================================================== *)

Inductive HostType := IP | CIDR | Domain.

Record Host := mkHost { ip : option string; origin : string; type : HostType }.

Record TLSScanResult := mkResult {
  r_ip : string;
  r_origin : string;
  r_domain : string;
  r_issuer : string;
  r_geoCode : string;
  r_feasible : bool;
  r_tlsVersion : string;
  r_alpn : string
}.

(* ================================================================== *)
(** * utils: next-ip, the enumerator, validate-domain-name *)
(* ================================================================== *)

(** What a generator does, in order: a yielded host or a logger call. *)
Inductive Event :=
| Yield (h : Host)
| Warn (msg : string)
| Info (msg : string)
| Error (msg : string).

Definition yields (es : list Event) : list Host :=
  flat_map (fun e => match e with Yield h => [h] | _ => [] end) es.

Definition warnings (es : list Event) : list string :=
  flat_map (fun e => match e with Warn m => [m] | _ => [] end) es.

(** [/^[A-Za-z0-9\-.]+$/.test(domain)] *)
Definition validateDomainName (domain : string) : bool :=
  negb (String.eqb domain EmptyString)
  && JS.forall_chars
       (fun c => JS.isUpper c || JS.isLower c || JS.isDigit c
                 || Ascii.eqb c "-" || Ascii.eqb c ".")
       domain.

(** [\d+] *)
Definition digits1 (s : string) : bool :=
  negb (String.eqb s EmptyString) && JS.forall_chars JS.isDigit s.

(** [s.match(/^(\d+\.\d+\.\d+\.\d+)\/(\d{1,2})$/)]: the two groups. *)
Definition cidrMatch (s : string) : option (string * string) :=
  match JS.split_char "/" s with
  | [baseIp; mask] =>
      match JS.split_char "." baseIp with
      | [a; b; c; d] =>
          if digits1 a && digits1 b && digits1 c && digits1 d
             && digits1 mask && (String.length mask <=? 2)%nat
          then Some (baseIp, mask)
          else None
      | _ => None
      end
  | _ => None
  end.

(** [expandIPv6]; [None] is the [RangeError] of [Array(missingParts)] with a
    negative length. *)
Definition expandIPv6 (ip : string) : option string :=
  match JS.split_dcolon ip with
  | p0 :: p1 :: _ =>
      let leftParts :=
        if String.eqb p0 EmptyString then [] else JS.split_char ":" p0 in
      let rightParts :=
        if String.eqb p1 EmptyString then [] else JS.split_char ":" p1 in
      let missingParts :=
        8 - Z.of_nat (List.length leftParts) - Z.of_nat (List.length rightParts) in
      if missingParts <? 0 then None
      else
        let expandedParts :=
          (leftParts ++ repeat "0000" (Z.to_nat missingParts) ++ rightParts)%list in
        Some (JS.join ":" (map (JS.padStart0 4) expandedParts))
  | _ => Some (JS.join ":" (map (JS.padStart0 4) (JS.split_char ":" ip)))
  end.

(** The scan of [bigIntToIPv6] for the zero run to compress: the loop state
    is [(bestStart, bestLength, currentStart, currentLength)], [-1] for "no
    run". *)
Definition runStep (st : Z * Z * Z * Z) (ip : Z * string) : Z * Z * Z * Z :=
  let '(bestStart, bestLength, currentStart, currentLength) := st in
  let '(i, part) := ip in
  if String.eqb part "0" then
    if currentStart =? -1 then (bestStart, bestLength, i, 1)
    else (bestStart, bestLength, currentStart, currentLength + 1)
  else
    if currentLength >? bestLength then (currentStart, currentLength, -1, 0)
    else (bestStart, bestLength, -1, 0).

Fixpoint indexFrom {A} (i : Z) (l : list A) : list (Z * A) :=
  match l with
  | [] => []
  | x :: r => (i, x) :: indexFrom (i + 1) r
  end.

Definition bestRun (cleanParts : list string) : Z * Z :=
  let '(bestStart, bestLength, currentStart, currentLength) :=
    fold_left runStep (indexFrom 0 cleanParts) (-1, 0, -1, 0) in
  if currentLength >? bestLength then (currentStart, currentLength)
  else (bestStart, bestLength).

Definition compressParts (cleanParts : list string) : string :=
  let '(bestStart, bestLength) := bestRun cleanParts in
  if bestLength >=? 2 then
    let beforeCompression := firstn (Z.to_nat bestStart) cleanParts in
    let afterCompression := skipn (Z.to_nat (bestStart + bestLength)) cleanParts in
    match beforeCompression, afterCompression with
    | [], [] => "::"
    | [], _ => "::" ++ JS.join ":" afterCompression
    | _, [] => JS.join ":" beforeCompression ++ "::"
    | _, _ => JS.join ":" beforeCompression ++ "::" ++ JS.join ":" afterCompression
    end
  else JS.join ":" cleanParts.

(** [bigIntToIPv6], for a non-negative argument. *)
Definition bigIntToIPv6 (bigInt : Z) : string :=
  let hexString := JS.padStart0 32 (JS.toStringRadix 16 bigInt) in
  let parts :=
    map (fun k => JS.slice (4 * k) (4 * k + 4) hexString) (seq 0 8) in
  let cleanParts :=
    map (fun part =>
           match JS.stripLeadingZeros part with
           | EmptyString => "0"
           | s => s
           end) parts in
  compressParts cleanParts.

(** Lines 115-121 of [nextIP]: the groups folded into one bigint; [None] is
    the [RangeError] of [BigInt(NaN)]. *)
Fixpoint hexPartsValue (hexParts : list string) (bigIntValue : Z) : option Z :=
  match hexParts with
  | [] => Some bigIntValue
  | p :: r =>
      match JS.parseInt16 p with
      | Some hexValue => hexPartsValue r (Z.shiftl bigIntValue 16 + hexValue)
      | None => None
      end
  end.

Definition ipv6Value (expandedIP : string) : option Z :=
  hexPartsValue (JS.split_char ":" expandedIP) 0.

Section Sources.

(** The IPv6 half of [net.isIP] and DNS resolution are the runtime's:
    [dnsLookup addr] is the address that [dns.promises.lookup(addr, ..)]
    resolves with, [None] when it rejects. *)
Variable isIPv6 : string -> bool.
Variable dnsLookup : string -> option string.

Definition net_isIP (s : string) : Z :=
  if isIPv4 s then 4 else if isIPv6 s then 6 else 0.

(** [nextIP].  The array [parts] is only read when [ipAddr === 4], where
    [net.isIP] guarantees four octets.  Both [catch] blocks return
    [null]. *)
Definition nextIP (ip : string) (increment : bool) (enableIPv6 : bool)
  : option string :=
  let ipAddr := net_isIP ip in
  if ipAddr =? 0 then None
  else if ipAddr =? 4 then
    match map JS.Number (JS.split_char "." ip) with
    | p0 :: p1 :: p2 :: p3 :: _ =>
        let value :=
          JS.ushr (JS.bor (JS.bor (JS.bor (JS.shl p0 24) (JS.shl p1 16))
                                  (JS.shl p2 8)) p3) 0 in
        let value := if increment then value + 1 else value - 1 in
        if (value <? 0) || (value >? 4294967295) then None
        else Some (JS.join "."
                     (map JS.toString
                        [JS.band (JS.ushr value 24) 255;
                         JS.band (JS.ushr value 16) 255;
                         JS.band (JS.ushr value 8) 255;
                         JS.band value 255]))
    | _ => None
    end
  else if (ipAddr =? 6) && enableIPv6 then
    match expandIPv6 ip with
    | Some expandedIP =>
        match ipv6Value expandedIP with
        | Some bigIntValue =>
            let result := if increment then bigIntValue + 1 else bigIntValue - 1 in
            let maxIPv6 := Z.shiftl 1 128 - 1 in
            if (result <? 0) || (result >? maxIPv6) then None
            else Some (bigIntToIPv6 result)
        | None => None
        end
    | None => None
    end
  else None.

(** The body of the CIDR loop of [iterate], [n] iterations left. *)
Fixpoint cidrLoop (n : nat) (origin : string) (current : Z * Z * Z * Z)
  : list Event :=
  match n with
  | O => []
  | S k =>
      let '(c0, c1, c2, c3) := current in
      let ipStr := JS.join "." (map JS.toString [c0; c1; c2; c3]) in
      let out :=
        if net_isIP ipStr =? 0 then []
        else [Yield (mkHost (Some ipStr) origin CIDR)] in
      let c3 := c3 + 1 in
      if c3 >? 255 then
        let c3 := 0 in
        let c2 := c2 + 1 in
        if c2 >? 255 then
          let c2 := 0 in
          let c1 := c1 + 1 in
          if c1 >? 255 then out
          else (out ++ cidrLoop k origin (c0, c1, c2, c3))%list
        else (out ++ cidrLoop k origin (c0, c1, c2, c3))%list
      else (out ++ cidrLoop k origin (c0, c1, c2, c3))%list
  end.

(** One turn of the [for await] loop of [iterate]. *)
Definition iterateLine (enableIPv6 : bool) (line : string) : list Event :=
  let trimmedLine := JS.trim line in
  if String.eqb trimmedLine EmptyString then []
  else
    let ip := net_isIP trimmedLine in
    if negb (ip =? 0) && ((ip =? 4) || ((ip =? 6) && enableIPv6)) then
      [Yield (mkHost (Some trimmedLine) trimmedLine IP)]
    else
      match cidrMatch trimmedLine with
      | Some (baseIp, mask) =>
          let maskNum := JS.Number mask in
          if (maskNum >=? 0) && (maskNum <=? 32) then
            match map JS.Number (JS.split_char "." baseIp) with
            | [s0; s1; s2; s3] =>
                let max := 32 - maskNum in
                cidrLoop (Z.to_nat (2 ^ max)) trimmedLine (s0, s1, s2, s3)
            | _ => []
            end
          else []
      | None =>
          if validateDomainName trimmedLine then
            [Yield (mkHost None trimmedLine Domain)]
          else
            [Warn ("Not a valid IP, CIDR, or domain: " ++ trimmedLine)]
      end.

(** [iterate] over the lines that [readline] delivers. *)
Definition iterate (lines : list string) (enableIPv6 : bool) : list Event :=
  flat_map (iterateLine enableIPv6) lines.

(** The state of the endless loop of [iterateAddr]. *)
Record Walk := mkWalk { w_i : Z; lowIP : string; highIP : string }.

(** One turn of [for (let i = 0; i < Number.MAX_SAFE_INTEGER; i++)]: the
    host yielded and the next state, or [None] when the loop is over. *)
Definition walkStep (w : Walk) : option (Host * Walk) :=
  if w_i w <? JS.MAX_SAFE_INTEGER then
    if w_i w mod 2 =? 0 then
      let low := JS.orStr (nextIP (lowIP w) false true) (lowIP w) in
      Some (mkHost (Some low) low IP, mkWalk (w_i w + 1) low (highIP w))
    else
      let high := JS.orStr (nextIP (highIP w) true true) (highIP w) in
      Some (mkHost (Some high) high IP, mkWalk (w_i w + 1) (lowIP w) high)
  else None.

(** The hosts of the first [n] turns. *)
Fixpoint walkTake (n : nat) (w : Walk) : list Host :=
  match n with
  | O => []
  | S k =>
      match walkStep w with
      | Some (h, w') => h :: walkTake k w'
      | None => []
      end
  end.

(** utils/lookup-ip.ts, as [iterateAddr] calls it: the log entries and the
    address, [None] for [null].  A rejected lookup is logged as an error
    (the message ends with the serialised error, which is the runtime's
    and is left out here). *)
Definition lookupAddr (addr : string) : list Event * option string :=
  match dnsLookup addr with
  | Some address => ([], Some address)
  | None => ([Error ("Failed to lookup " ++ addr ++ ": ")], None)
  end.

(** [iterateAddr], observed for [n] turns of its endless loop. *)
Definition iterateAddr (addr : string) (n : nat) : list Event :=
  match cidrMatch addr with
  | Some _ => iterate [addr] true
  | None =>
      if negb (net_isIP addr =? 0) then
        Yield (mkHost (Some addr) addr IP)
        :: Info "Enable infinite mode"
        :: map Yield (walkTake n (mkWalk 0 addr addr))
      else
        let '(logged, resolved) := lookupAddr addr in
        (logged ++
         match resolved with
         | Some resolvedIP =>
             if String.eqb resolvedIP EmptyString
             then [Error "Not a valid IP, CIDR, or domain:"]
             else
               Yield (mkHost (Some resolvedIP) addr IP)
               :: Info "Enable infinite mode"
               :: map Yield (walkTake n (mkWalk 0 resolvedIP resolvedIP))
         | None => [Error "Not a valid IP, CIDR, or domain:"]
         end)%list
  end.

End Sources.

(* ================================================================== *)
(** * scanner/scanner.service.ts *)
(* ================================================================== *)

Module Scanner.

(** ** Effects: exceptions and a trace of logger and socket calls *)

Inductive Effect :=
| LogDebug (msg : string)
| LogInfo (msg : string)
| LogError (msg : string)
| SocketSetTimeout (ms : Z)
| SocketDestroy
| TlsDestroy.

Inductive Outcome (A : Type) :=
| Ok (a : A)
| Throw (error : string).
Arguments Ok {A} a.
Arguments Throw {A} error.

(** A computation appends to the trace and returns or throws. *)
Definition M (A : Type) : Type := list Effect -> Outcome A * list Effect.

Definition ret {A} (a : A) : M A := fun t => (Ok a, t).

Definition bind {A B} (m : M A) (k : A -> M B) : M B :=
  fun t =>
    match m t with
    | (Ok a, t') => k a t'
    | (Throw e, t') => (Throw e, t')
    end.

Definition emit (e : Effect) : M unit := fun t => (Ok tt, (t ++ [e])%list).

(** [await p] of a promise that settles with [o]. *)
Definition await {A} (o : Outcome A) : M A := fun t => (o, t).

(** [try { m } catch (error) { h error }] *)
Definition tryCatch {A} (m : M A) (h : string -> M A) : M A :=
  fun t =>
    match m t with
    | (Ok a, t') => (Ok a, t')
    | (Throw e, t') => h e t'
    end.

(** [try { m } finally { f }]: [f] runs on every exit; if it throws, its
    exception replaces the outcome of [m]. *)
Definition tryFinally {A} (m : M A) (f : M unit) : M A :=
  fun t =>
    match m t with
    | (o, t') =>
        match f t' with
        | (Ok _, t'') => (o, t'')
        | (Throw e, t'') => (Throw e, t'')
        end
    end.

Declare Scope js_scope.
Delimit Scope js_scope with js.
Notation "x <- m ;; k" := (bind m (fun x => k))
  (at level 61, m at next level, right associativity) : js_scope.
Notation "m ;; k" := (bind m (fun _ => k))
  (at level 61, right associativity) : js_scope.
Local Open Scope js_scope.

(** ** What the TLS layer reports *)

(** [cert.issuer.O]: one organisation or an array of them. *)
Inductive OrgField :=
| OrgOne (o : string)
| OrgMany (os : list string).

Record Subject := mkSubject { subject_CN : option string }.
Record Issuer := mkIssuer { issuer_O : option OrgField }.
Record PeerCertificate := mkCert {
  subject : option Subject;
  issuer : option Issuer
}.

Record TLSSocket := mkTLSSocket {
  getProtocol : option string;          (* string | null *)
  alpnProtocol : option string;         (* string | false *)
  getPeerCertificate : option PeerCertificate
}.

Record ConnectionOptions := mkOptions {
  rejectUnauthorized : bool;
  ALPNProtocols : list string;
  secureProtocol : string;
  servername : option string
}.

(** The collaborators of the prober: DNS, TCP connect, TLS handshake and
    the GeoIP lookup.  Each promise may reject. *)
Record Env := mkEnv {
  dns_lookup : string -> Outcome string;
  createConnection : string -> Z -> Outcome unit;
  performTLSHandshake : string -> ConnectionOptions -> Outcome TLSSocket;
  getGeo : string -> string
}.

Definition port : Z := 443.
Definition timeout : Z := 10.

(** utils/lookup-ip.ts: a rejected lookup is logged as an error and becomes
    [null].  The text [error] of a rejected lookup stands for what
    [JSON.stringify] makes of the value thrown. *)
Definition lookupIP (env : Env) (addr : string) : M (option string) :=
  tryCatch
    (a <- await (dns_lookup env addr) ;; ret (Some a))
    (fun error =>
       emit (LogError ("Failed to lookup " ++ addr ++ ": " ++ error)) ;;
       ret None).

(** [x || d] *)
Definition orDefault (x : option string) (d : string) : string :=
  match x with
  | Some s => if String.eqb s EmptyString then d else s
  | None => d
  end.

Definition truthy (x : option string) : bool :=
  match x with
  | Some s => negb (String.eqb s EmptyString)
  | None => false
  end.

Definition isFeasible (protocol : option string) (alpn domain issuers : string)
  : bool :=
  match protocol with
  | Some p => String.eqb p "TLSv1.3"
  | None => false
  end
  && String.eqb alpn "h2"
  && (JS.len domain >? 0)
  && (JS.len issuers >? 0).

(** [cert.issuer?.O ? (Array.isArray(O) ? O.join(' | ') : O) : ''] *)
Definition issuersOf (cert : PeerCertificate) : string :=
  match issuer cert with
  | Some i =>
      match issuer_O i with
      | Some (OrgOne o) => o
      | Some (OrgMany os) => JS.join " | " os
      | None => EmptyString
      end
  | None => EmptyString
  end.

(** [scanTLS].  The assignment [host.ip = resolvedIP] is the value [hip]
    that the rest of the body reads. *)
Definition scanTLS (env : Env) (host : Host) : M (option TLSScanResult) :=
  tryCatch
    (resolved <-
       (if truthy (ip host) then ret (ip host)
        else
          resolvedIP <- lookupIP env (origin host) ;;
          if truthy resolvedIP then ret resolvedIP
          else
            emit (LogDebug ("Failed to get IP from the origin { origin: "
                            ++ origin host ++ " }")) ;;
            ret None) ;;
     match resolved with
     | None => ret None
     | Some hip =>
         let hostPort := hip ++ ":" ++ JS.toString port in
         await (createConnection env hip port) ;;
         tryFinally
           (emit (SocketSetTimeout (timeout * 1000)) ;;
            let tlsOptions :=
              mkOptions false ["h2"; "http/1.1"] "TLS_method"
                (match type host with
                 | Domain => Some (origin host)
                 | _ => None
                 end) in
            tlsSocket <- await (performTLSHandshake env hip tlsOptions) ;;
            tryFinally
              (let protocol := getProtocol tlsSocket in
               let alpn := orDefault (alpnProtocol tlsSocket) EmptyString in
               match getPeerCertificate tlsSocket with
               | None =>
                   emit (LogDebug "No certificate received") ;; ret None
               | Some cert =>
                   match subject cert with
                   | None =>
                       emit (LogDebug "No certificate received") ;; ret None
                   | Some subj =>
                       let domain := orDefault (subject_CN subj) EmptyString in
                       let issuers := issuersOf cert in
                       let geoCode := getGeo env hip in
                       let feasible := isFeasible protocol alpn domain issuers in
                       let result :=
                         mkResult hip (origin host) domain issuers geoCode
                           feasible (orDefault protocol "unknown")
                           (orDefault (Some alpn) "none") in
                       emit ((if feasible then LogInfo else LogDebug)
                               "Connected to target") ;;
                       ret (Some result)
                   end
               end)
              (emit TlsDestroy))
           (emit SocketDestroy)
     end)
    (fun error => emit (LogDebug ("TLS scan failed: " ++ error)) ;; ret None).

Definition quote : string := String (ascii_of_nat 34) EmptyString.

Definition newline : string := String (ascii_of_nat 10) EmptyString.

(** [formatScanResult] *)
Definition formatScanResult (result : TLSScanResult) : string :=
  if negb (r_feasible result) then EmptyString
  else
    JS.join ","
      [r_ip result; r_origin result; r_domain result;
       quote ++ r_issuer result ++ quote; r_geoCode result]
    ++ newline.

(** [generateCSVOutput] *)
Definition generateCSVOutput (results : list TLSScanResult) : string :=
  let feasibleResults := filter r_feasible results in
  let header := "IP,Origin,Domain,Issuer,GeoCode" ++ newline in
  let rows := JS.join EmptyString (map formatScanResult feasibleResults) in
  header ++ rows.

End Scanner.

(* ================================================================== *)
(** * app.service.ts *)
(* ================================================================== *)

Module App.

Import Scanner.

(** The output file: whether the handle is still open and the chunks
    written so far. *)
Record File := mkFile { f_open : bool; f_chunks : list string }.

Definition csvHeader : string :=
  "IP,ORIGIN,CERT_DOMAIN,CERT_ISSUER,GEO_CODE" ++ newline.

(** [setupOutputFile] *)
Definition setupOutputFile (outputPath : string) : option File :=
  if negb (String.eqb outputPath EmptyString)
  then Some (mkFile true [csvHeader])
  else None.

(** Where a [scannerWorker] is suspended. *)
Inductive WorkerPhase :=
| Pulling                     (* for await: awaiting hostIterator.next() *)
| Probing (host : Host)       (* awaiting scannerService.scanTLS(host) *)
| Writing (csvLine : string)  (* awaiting outputFile.writeFile(csvLine) *)
| Sleeping                    (* awaiting the 50 ms pause *)
| Returning                   (* break: awaiting hostIterator.return() *)
| Exited.                     (* after the finally block *)

(** Where the [shutdown] handler is suspended. *)
Inductive ShutdownPhase :=
| NoSignal
| Waiting (startWait : Z)     (* in the while loop, awaiting 100 ms *)
| Closing (startWait : Z)     (* awaiting outputFile.close() *)
| Reported (startWait scanned feasible : Z).  (* logged; process.exit(0) *)

Record State := mkState {
  scanCount : Z;
  feasibleCount : Z;
  activeWorkers : Z;
  isShuttingDown : bool;
  outputFile : option File;
  workers : list WorkerPhase;
  shutdown : ShutdownPhase;
  infinite : bool;       (* options.addr && !options.addr.includes('/') *)
  settled : bool;        (* the tail of startScanning has run *)
  pulled : Z;            (* hosts the shared iterator has handed out *)
  now : Z                (* Date.now() *)
}.

Definition maxWait : Z := 30000.

(** The state when [startScanning] has pushed its [threadCount] workers:
    each has run [activeWorkers++] and awaits its first host. *)
Definition start (threadCount : nat) (out : option File) (inf : bool) (t0 : Z)
  : State :=
  mkState 0 0 (Z.of_nat threadCount) false out (repeat Pulling threadCount)
    NoSignal inf false 0 t0.

Fixpoint setPhase (w : nat) (p : WorkerPhase) (l : list WorkerPhase)
  : list WorkerPhase :=
  match l, w with
  | [], _ => []
  | _ :: r, O => p :: r
  | x :: r, S k => x :: setPhase k p r
  end.

Definition isExited (p : WorkerPhase) : bool :=
  match p with Exited => true | _ => false end.

(** The turns of the event loop; each runs a coroutine to its next [await]. *)
Inductive Label :=
| Next (w : nat) (h : option Host)  (* the iterator answers worker [w] *)
| Scanned (w : nat)                 (* scanTLS settles *)
| Written (w : nat)                 (* writeFile settles *)
| Woke (w : nat)                    (* the pause is over *)
| Returned (w : nat)                (* hostIterator.return() settles *)
| Settled                           (* Promise.allSettled(workers) *)
| Signal                            (* SIGINT, SIGTERM or a fatal error *)
| Poll                              (* the 100 ms timer of the wait loop *)
| Closed                            (* the close() of shutdown settles *)
| Tick (d : Z).                     (* time passes *)

Definition withWorker (s : State) (w : nat) (p : WorkerPhase) : State :=
  mkState (scanCount s) (feasibleCount s) (activeWorkers s) (isShuttingDown s)
    (outputFile s) (setPhase w p (workers s)) (shutdown s) (infinite s)
    (settled s) (pulled s) (now s).

Definition closeFile (f : option File) : option File :=
  match f with
  | Some f => Some (mkFile false (f_chunks f))
  | None => None
  end.

Definition writeFile (f : option File) (chunk : string) : option File :=
  match f with
  | Some f =>
      if f_open f then Some (mkFile true (f_chunks f ++ [chunk])%list)
      else Some f
  | None => None
  end.

(** The test of the wait loop of [shutdown], with [isShuttingDown]
    already set: wait another 100 ms, or leave the loop and call
    [outputFile.close()] (or report at once when there is no file). *)
Definition afterWait (s : State) (startWait : Z) : State :=
  if (activeWorkers s >? 0) && (now s - startWait <? maxWait)
  then
    mkState (scanCount s) (feasibleCount s) (activeWorkers s) true
      (outputFile s) (workers s) (Waiting startWait) (infinite s)
      (settled s) (pulled s) (now s)
  else
    mkState (scanCount s) (feasibleCount s) (activeWorkers s) true
      (closeFile (outputFile s)) (workers s)
      (match outputFile s with
       | Some _ => Closing startWait
       | None => Reported startWait (scanCount s) (feasibleCount s)
       end)
      (infinite s) (settled s) (pulled s) (now s).

(** Where a worker goes after [scanCount++]: to [writeFile] with the CSV
    line of a feasible result when there is an output file, else to its
    pause. *)
Definition afterScan (result : option TLSScanResult) (f : option File)
  : WorkerPhase :=
  match result, f with
  | Some r, Some _ =>
      if r_feasible r && negb (String.eqb (formatScanResult r) EmptyString)
      then Writing (formatScanResult r)
      else Sleeping
  | _, _ => Sleeping
  end.

Definition halted (s : State) : bool :=
  match shutdown s with Reported _ _ _ => true | _ => false end.

(** One turn of the event loop; [None] when it is not pending. *)
Definition step (env : Env) (s : State) (l : Label) : option State :=
  if halted s then None else
  match l with
  | Next w h =>
      match nth_error (workers s) w with
      | Some Pulling =>
          match h with
          | Some host =>
              let s' :=
                mkState (scanCount s) (feasibleCount s) (activeWorkers s)
                  (isShuttingDown s) (outputFile s) (workers s) (shutdown s)
                  (infinite s) (settled s) (pulled s + 1) (now s) in
              if isShuttingDown s then Some (withWorker s' w Returning)
              else Some (withWorker s' w (Probing host))
          | None =>
              Some (mkState (scanCount s) (feasibleCount s)
                      (activeWorkers s - 1) (isShuttingDown s) (outputFile s)
                      (setPhase w Exited (workers s)) (shutdown s)
                      (infinite s) (settled s) (pulled s) (now s))
          end
      | _ => None
      end
  | Scanned w =>
      match nth_error (workers s) w with
      | Some (Probing host) =>
          match fst (scanTLS env host []) with
          | Ok result =>
              let feasible :=
                match result with
                | Some r => r_feasible r
                | None => false
                end in
              Some (mkState (scanCount s + 1)
                      (if feasible then feasibleCount s + 1 else feasibleCount s)
                      (activeWorkers s) (isShuttingDown s) (outputFile s)
                      (setPhase w (afterScan result (outputFile s)) (workers s))
                      (shutdown s)
                      (infinite s) (settled s) (pulled s) (now s))
          | Throw _ => Some (withWorker s w Sleeping)
          end
      | _ => None
      end
  | Written w =>
      match nth_error (workers s) w with
      | Some (Writing csvLine) =>
          Some (mkState (scanCount s) (feasibleCount s) (activeWorkers s)
                  (isShuttingDown s) (writeFile (outputFile s) csvLine)
                  (setPhase w Sleeping (workers s)) (shutdown s)
                  (infinite s) (settled s) (pulled s) (now s))
      | _ => None
      end
  | Woke w =>
      match nth_error (workers s) w with
      | Some Sleeping => Some (withWorker s w Pulling)
      | _ => None
      end
  | Returned w =>
      match nth_error (workers s) w with
      | Some Returning =>
          Some (mkState (scanCount s) (feasibleCount s)
                  (activeWorkers s - 1) (isShuttingDown s) (outputFile s)
                  (setPhase w Exited (workers s)) (shutdown s)
                  (infinite s) (settled s) (pulled s) (now s))
      | _ => None
      end
  | Settled =>
      if negb (infinite s) && negb (settled s) && forallb isExited (workers s)
      then Some (mkState (scanCount s) (feasibleCount s) (activeWorkers s)
                   (isShuttingDown s) (closeFile (outputFile s)) (workers s)
                   (shutdown s) (infinite s) true (pulled s) (now s))
      else None
  | Signal =>
      match shutdown s with
      | NoSignal => Some (afterWait s (now s))
      | _ => None
      end
  | Poll =>
      match shutdown s with
      | Waiting startWait => Some (afterWait s startWait)
      | _ => None
      end
  | Closed =>
      match shutdown s with
      | Closing startWait =>
          Some (mkState (scanCount s) (feasibleCount s) (activeWorkers s)
                  (isShuttingDown s) (outputFile s) (workers s)
                  (Reported startWait (scanCount s) (feasibleCount s))
                  (infinite s) (settled s) (pulled s) (now s))
      | _ => None
      end
  | Tick d =>
      if d <? 0 then None
      else Some (mkState (scanCount s) (feasibleCount s) (activeWorkers s)
                   (isShuttingDown s) (outputFile s) (workers s) (shutdown s)
                   (infinite s) (settled s) (pulled s) (now s + d))
  end.

(** A schedule of turns, run from [s]. *)
Fixpoint run (env : Env) (s : State) (ls : list Label) : option State :=
  match ls with
  | [] => Some s
  | l :: r =>
      match step env s l with
      | Some s' => run env s' r
      | None => None
      end
  end.

End App.

(* ================================================================== *)
(** * utils: [existOnlyOne], [removeDuplicateStr] *)
(* ================================================================== *)

(** The loop of [existOnlyOne], entered with the current value of
    [exist]. *)
Fixpoint existOnlyOneFrom (exist : bool) (arr : list string) : bool :=
  match arr with
  | [] => exist
  | item :: r =>
      if negb (String.eqb item EmptyString) then
        if exist then false else existOnlyOneFrom true r
      else existOnlyOneFrom exist r
  end.

Definition existOnlyOne (arr : list string) : bool := existOnlyOneFrom false arr.

(** [seen.has(item)], the [Set] being the list of the strings added. *)
Definition setHas (seen : list string) (item : string) : bool :=
  existsb (String.eqb item) seen.

(** The [filter] of [removeDuplicateStr]; its callback reads and extends
    [seen]. *)
Fixpoint removeDuplicateFrom (seen : list string) (strSlice : list string)
  : list string :=
  match strSlice with
  | [] => []
  | item :: r =>
      let isNew := negb (setHas seen item) in
      let seen := item :: seen in
      if isNew then item :: removeDuplicateFrom seen r
      else removeDuplicateFrom seen r
  end.

Definition removeDuplicateStr (strSlice : list string) : list string :=
  removeDuplicateFrom [] strSlice.
(* ================================================================== *)
(** * The GeoIP service *)
(* ================================================================== *)

Module GeoService.

Import Scanner.

(** [CountryResponse], as far as [getGeo] reads it. *)
Record Country := mkCountry { iso_code : option string }.
Record CountryResponse := mkCountryResponse { country : option Country }.

(** [Reader<CountryResponse>]: [get] returns a record or [null], or throws
    (the library rejects what it cannot parse). *)
Record Reader := mkReader { get : string -> Outcome (option CountryResponse) }.

Section Service.

Variable isIPv6 : string -> bool.

(** [this.geoReader], [null] when no database file could be opened. *)
Variable geoReader : option Reader.

(** [validateIP] *)
Definition validateIP (ip : string) : option string :=
  let parsed := net_isIP isIPv6 ip in
  if parsed =? 0 then None else Some ip.

(** [result?.country?.iso_code] *)
Definition isoCodeOf (result : option CountryResponse) : option string :=
  match result with
  | Some response =>
      match country response with
      | Some c => iso_code c
      | None => None
      end
  | None => None
  end.

(** The [try] block of [getGeo]. *)
Definition readGeo (reader : Reader) (ip : string) : Outcome string :=
  match validateIP ip with
  | Some validIP =>
      if String.eqb validIP EmptyString then Throw "Invalid IP address"
      else
        match get reader validIP with
        | Ok result => Ok (orDefault (isoCodeOf result) "N/A")
        | Throw error => Throw error
        end
  | None => Throw "Invalid IP address"
  end.

(** [getGeo] *)
Definition getGeo (ip : string) : string :=
  match geoReader with
  | None => "N/A"
  | Some reader =>
      match readGeo reader ip with
      | Ok code => code
      | Throw _ => "N/A"
      end
  end.

(** [isGeoIPAvailable] *)
Definition isGeoIPAvailable : bool :=
  match geoReader with Some _ => true | None => false end.

End Service.

End GeoService.

(* ================================================================== *)
(** * scanner.service.ts: [scanTLSBatch] *)
(* ================================================================== *)

Module ScannerBatch.

Import Scanner.
Local Open Scope js_scope.

(** [l.slice(start, end)] on an array, negative indices counting from the
    end. *)
Definition sliceArray {A} (l : list A) (start end_ : Z) : list A :=
  let len := Z.of_nat (List.length l) in
  let from := if start <? 0 then Z.max (len + start) 0 else Z.min start len in
  let to := if end_ <? 0 then Z.max (len + end_) 0 else Z.min end_ len in
  firstn (Z.to_nat (to - from)) (skipn (Z.to_nat from) l).

(** One promise of [batchPromises]: it is always fulfilled. *)
Definition batchItem (env : Env) (host : Host) : M (option TLSScanResult) :=
  tryCatch (scanTLS env host)
    (fun error =>
       emit (LogDebug ("Batch scan error: host=" ++ origin host
                       ++ ", error=" ++ error)) ;;
       ret None).

(** [await Promise.allSettled(batch.map(...))]: the values in the order of
    the batch.  The probes of a batch run interleaved; the trace lists
    their effects probe by probe. *)
Fixpoint settleAll (env : Env) (batch : list Host)
  : M (list (option TLSScanResult)) :=
  match batch with
  | [] => ret []
  | host :: r =>
      v <- batchItem env host ;;
      vs <- settleAll env r ;;
      ret (v :: vs)
  end.

(** The fulfilled, truthy values. *)
Definition fulfilled (batchResults : list (option TLSScanResult))
  : list TLSScanResult :=
  flat_map (fun v => match v with Some r => [r] | None => [] end) batchResults.

(** The loop of [scanTLSBatch] from index [i] on, with the results pushed
    and the number of 100 ms pauses awaited so far.  [fuel] bounds the
    number of tests of the loop condition; [None] when it is used up. *)
Fixpoint scanTLSBatchFrom (fuel : nat) (env : Env) (hosts : list Host)
  (concurrency i : Z) (results : list TLSScanResult) (pauses : Z)
  : M (option (list TLSScanResult * Z)) :=
  match fuel with
  | O => ret None
  | S f =>
      if i <? Z.of_nat (List.length hosts) then
        let batch := sliceArray hosts i (i + concurrency) in
        batchResults <- settleAll env batch ;;
        let results := (results ++ fulfilled batchResults)%list in
        let pauses :=
          if i + concurrency <? Z.of_nat (List.length hosts)
          then pauses + 1 else pauses in
        scanTLSBatchFrom f env hosts concurrency (i + concurrency) results pauses
      else ret (Some (results, pauses))
  end.

(** [scanTLSBatch]: the results and the number of pauses. *)
Definition scanTLSBatch (fuel : nat) (env : Env) (hosts : list Host)
  (concurrency : Z) : M (option (list TLSScanResult * Z)) :=
  scanTLSBatchFrom fuel env hosts concurrency 0 [] 0.

End ScannerBatch.
(* ================================================================== *)
(** * app.service.ts: the workers on a shared iterator over a finite source *)
(* ================================================================== *)

Module Feed.

Import Scanner App.

(** The shared [hostIterator] of [startScanning] over a finite source: the
    hosts it has not handed out yet, and whether a [return()] has
    completed it. *)
Record Iterator := mkIterator { pending : list Host; returned : bool }.

(** The answer to [hostIterator.next()]: the next host, or [None] for
    [done]. *)
Definition next (it : Iterator) : option Host * Iterator :=
  if returned it then (None, it)
  else
    match pending it with
    | host :: r => (Some host, mkIterator r false)
    | [] => (None, it)
    end.

(** The turns of the event loop when the iterator answers the workers
    itself.  The order in which it serves the calls that are pending at
    the same time is left open. *)
Inductive Turn :=
| Pull (w : nat)     (* the iterator answers the next() of worker [w] *)
| Do (l : Label).    (* any other turn *)

Definition stepFed (env : Env) (c : State * Iterator) (turn : Turn)
  : option (State * Iterator) :=
  let '(s, it) := c in
  match turn with
  | Pull w =>
      let '(h, it') := next it in
      match step env s (Next w h) with
      | Some s' => Some (s', it')
      | None => None
      end
  | Do (Next _ _) => None
  | Do (Returned w) =>
      match step env s (Returned w) with
      | Some s' => Some (s', mkIterator (pending it) true)
      | None => None
      end
  | Do l =>
      match step env s l with
      | Some s' => Some (s', it)
      | None => None
      end
  end.

Fixpoint runFed (env : Env) (c : State * Iterator) (turns : list Turn)
  : option (State * Iterator) :=
  match turns with
  | [] => Some c
  | turn :: r =>
      match stepFed env c turn with
      | Some c' => runFed env c' r
      | None => None
      end
  end.

(** The generator serves the calls made on it first in, first out.  The
    queue lists the workers whose call is pending, the oldest first: a
    worker calls [next()] when it is started and each time its pause is
    over, and [return()] when it leaves its loop at the [break].  Only the
    call at the head of the queue can be answered. *)
Definition startQueue (threadCount : nat) : list nat := seq 0 threadCount.

Definition stepFifo (env : Env) (c : State * Iterator * list nat) (turn : Turn)
  : option (State * Iterator * list nat) :=
  let '(s, it, queue) := c in
  match stepFed env (s, it) turn with
  | Some (s', it') =>
      match turn with
      | Pull w | Do (Returned w) =>
          match queue with
          | first :: rest =>
              if Nat.eqb w first then
                Some (s', it',
                      match nth_error (workers s') w with
                      | Some Returning => (rest ++ [w])%list
                      | _ => rest
                      end)
              else None
          | [] => None
          end
      | Do (Woke w) => Some (s', it', (queue ++ [w])%list)
      | Do _ => Some (s', it', queue)
      end
  | None => None
  end.

Fixpoint runFifo (env : Env) (c : State * Iterator * list nat)
  (turns : list Turn) : option (State * Iterator * list nat) :=
  match turns with
  | [] => Some c
  | turn :: r =>
      match stepFifo env c turn with
      | Some c' => runFifo env c' r
      | None => None
      end
  end.

End Feed.
(* ================================================================== *)
(** * app.service.ts: the choice of the input *)
(* ================================================================== *)

Module Cli.

Import Scanner.

(** [v && v.trim() !== ''] *)
Definition given (v : option string) : bool :=
  match v with
  | Some s => negb (String.eqb s EmptyString)
              && negb (String.eqb (JS.trim s) EmptyString)
  | None => false
  end.

(** [[addr, inFile, url].filter(v => v && v.trim() !== '').length] *)
Definition inputCount (addr inFile url : option string) : nat :=
  List.length (filter given [addr; inFile; url]).

(** The value of an option that is truthy. *)
Definition whenTruthy (v : option string) : option string :=
  match v with
  | Some s => if String.eqb s EmptyString then None else Some s
  | None => None
  end.

(** The generator that [getHostIterator] returns: [iterateAddr] of the
    address, [iterate] over the content of the file, or [iterate] over the
    domains found at the URL. *)
Inductive HostSource :=
| FromAddr (addr : string)
| FromFile (path : string)
| FromUrl (url : string).

(** [getHostIterator]: the branch taken. *)
Definition getHostIterator (addr inFile url : option string) : Outcome HostSource :=
  match whenTruthy addr with
  | Some a => Ok (FromAddr a)
  | None =>
      match whenTruthy inFile with
      | Some f => Ok (FromFile f)
      | None =>
          match whenTruthy url with
          | Some u => Ok (FromUrl u)
          | None => Throw "No input specified"
          end
      end
  end.

(** [options.addr && !options.addr.includes('/')] in [startScanning] *)
Definition infiniteMode (addr : option string) : bool :=
  match whenTruthy addr with
  | Some a => negb (JS.mem_char "/" a)
  | None => false
  end.

(** [AppService.run], as far as the input is concerned: [None] when it prints its
    usage error and returns; else the iterator it scans and the mode of
    [startScanning]. *)
Definition runCommand (addr inFile url : option string)
  : option (Outcome HostSource * bool) :=
  if negb (inputCount addr inFile url =? 1)%nat then None
  else Some (getHostIterator addr inFile url, infiniteMode addr).

End Cli.

(* ================================================================== *)
(** * Notions used to state the properties *)
(* ================================================================== *)

(** The 32-bit integer a dotted quad denotes. *)
Definition ipv4Value (s : string) : Z :=
  match map JS.Number (JS.split_char "." s) with
  | [p0; p1; p2; p3] => p0 * 2 ^ 24 + p1 * 2 ^ 16 + p2 * 2 ^ 8 + p3
  | _ => 0
  end.

Definition octets (v : Z) : list Z :=
  [v / 2 ^ 24 mod 256; v / 2 ^ 16 mod 256; v / 2 ^ 8 mod 256; v mod 256].

(** The dotted quad of a 32-bit integer. *)
Definition ipv4OfZ (v : Z) : string := JS.join "." (map JS.toString (octets v)).

Definition ipHost (s : string) : Host := mkHost (Some s) s IP.

Definition cidrHost (origin : string) (v : Z) : Host :=
  mkHost (Some (ipv4OfZ v)) origin CIDR.

(** [n] consecutive integers from [v]. *)
Fixpoint zrange (v : Z) (n : nat) : list Z :=
  match n with
  | O => []
  | S k => v :: zrange (v + 1) k
  end.

(** The address [scanTLS] connects to: [host.ip], or else the address DNS
    gives for [host.origin]. *)
Definition hostAddress (env : Scanner.Env) (host : Host) : option string :=
  if Scanner.truthy (ip host) then ip host
  else match Scanner.dns_lookup env (origin host) with
       | Scanner.Ok a => if Scanner.truthy (Some a) then Some a else None
       | Scanner.Throw _ => None
       end.

(** The options [scanTLS] passes to the handshake. *)
Definition tlsOptionsFor (host : Host) : Scanner.ConnectionOptions :=
  Scanner.mkOptions false ["h2"; "http/1.1"] "TLS_method"
    (match type host with
     | Domain => Some (origin host)
     | _ => None
     end).

(** The failure paths of a probe. *)
Inductive ProbeFailure (env : Scanner.Env) (host : Host) : Prop :=
| DnsFailure :
    hostAddress env host = None -> ProbeFailure env host
| ConnectFailure hip error :
    hostAddress env host = Some hip ->
    Scanner.createConnection env hip Scanner.port = Scanner.Throw error ->
    ProbeFailure env host
| HandshakeFailure hip error :
    hostAddress env host = Some hip ->
    Scanner.createConnection env hip Scanner.port = Scanner.Ok tt ->
    Scanner.performTLSHandshake env hip (tlsOptionsFor host) = Scanner.Throw error ->
    ProbeFailure env host
| NoCertificate hip tlsSocket :
    hostAddress env host = Some hip ->
    Scanner.createConnection env hip Scanner.port = Scanner.Ok tt ->
    Scanner.performTLSHandshake env hip (tlsOptionsFor host) = Scanner.Ok tlsSocket ->
    Scanner.getPeerCertificate tlsSocket = None ->
    ProbeFailure env host
| NoCertificateSubject hip tlsSocket cert :
    hostAddress env host = Some hip ->
    Scanner.createConnection env hip Scanner.port = Scanner.Ok tt ->
    Scanner.performTLSHandshake env hip (tlsOptionsFor host) = Scanner.Ok tlsSocket ->
    Scanner.getPeerCertificate tlsSocket = Some cert ->
    Scanner.subject cert = None ->
    ProbeFailure env host.

(** Counting the workers in a class of phases. *)
Definition cnt (f : App.WorkerPhase -> bool) (l : list App.WorkerPhase) : Z :=
  Z.of_nat (List.length (filter f l)).

Definition isActive (p : App.WorkerPhase) : bool := negb (App.isExited p).

Definition isProbing (p : App.WorkerPhase) : bool :=
  match p with App.Probing _ => true | _ => false end.

(** The output file has been closed. *)
Definition fileClosedOpt (f : option App.File) : Prop :=
  match f with
  | Some f => App.f_open f = false
  | None => False
  end.

Definition fileClosed (s : App.State) : Prop := fileClosedOpt (App.outputFile s).

(** Once the handler of [shutdown] has left its wait loop, the output
    file, if there is one, is closed. *)
Definition closedAfterWait (s : App.State) : Prop :=
  match App.shutdown s with
  | App.Closing _ | App.Reported _ _ _ =>
      forall f, App.outputFile s = Some f -> App.f_open f = false
  | _ => True
  end.

(** Expansion, evaluation and re-serialisation of an IPv6 literal, as
    [nextIP] chains them (without the step). *)
Definition roundTripIPv6 (ip : string) : option string :=
  match expandIPv6 ip with
  | Some expandedIP => option_map bigIntToIPv6 (ipv6Value expandedIP)
  | None => None
  end.

(** A run of [n] zero groups at position [i] of [l]. *)
Definition zeroRun (l : list string) (i n : Z) : Prop :=
  0 <= i /\ 0 <= n /\ i + n <= Z.of_nat (List.length l) /\
  forall k, i <= k < i + n -> nth_error l (Z.to_nat k) = Some "0".

(** An octet string is canonical: it prints back from its value, which is
    at most 255. *)
Definition octetGood (s : string) : bool :=
  (0 <=? JS.Number s) && (JS.Number s <=? 255)
  && String.eqb (JS.toString (JS.Number s)) s.

Definition digitList : list Z := [0;1;2;3;4;5;6;7;8;9].

(** The character of a decimal digit. *)
Definition dch (d : Z) : ascii := JS.chr (48 + d).

(** The values 0 ... 255. *)
Definition octetList : list Z := map Z.of_nat (seq 0 256).

(** [[p0, p1, p2, p3].join(".")] *)
Definition quad (p0 p1 p2 p3 : Z) : string :=
  JS.join "." (map JS.toString [p0; p1; p2; p3]).

(** The characters of a line of the CIDR form, and of a domain token. *)
Definition cidrChar (c : ascii) : bool :=
  JS.isDigit c || Ascii.eqb c "." || Ascii.eqb c "/".

Definition domainChar (c : ascii) : bool :=
  JS.isUpper c || JS.isLower c || JS.isDigit c || Ascii.eqb c "-" || Ascii.eqb c ".".

Definition maxIPv4 : Z := 4294967295.

(** The walk on 32-bit values: the watermarks move by one and stay at the
    boundary of the address space. *)
Fixpoint walkVals (n : nat) (j l h : Z) : list Z :=
  match n with
  | O => []
  | S k =>
      if j mod 2 =? 0
      then Z.max 0 (l - 1) :: walkVals k (j + 1) (Z.max 0 (l - 1)) h
      else Z.min maxIPv4 (h + 1) :: walkVals k (j + 1) l (Z.min maxIPv4 (h + 1))
  end.

(** The address of the [idx]-th target of a walk seeded at value [v], while
    no boundary is met: the seed, then alternately one further down and one
    further up. *)
Definition walkAddr (v idx : Z) : Z :=
  if idx mod 2 =? 1 then v - (idx + 1) / 2 else v + idx / 2.

(** The watermark a turn of the walk steps from: [highIP] upward, [lowIP]
    downward. *)
Definition watermark (increment : bool) (w : Walk) : string :=
  if increment then highIP w else lowIP w.

Definition zlen {A} (l : list A) : Z := Z.of_nat (List.length l).

(** The loop invariant of the scan, after the groups [pre]: the current run
    is the maximal zero suffix, and the best run is the first longest zero
    run among those that ended before it. *)
Definition runInv (pre : list string) (st : Z * Z * Z * Z) : Prop :=
  let '(bestStart, bestLength, currentStart, currentLength) := st in
  0 <= currentLength <= zlen pre
  /\ currentStart = (if currentLength =? 0 then -1 else zlen pre - currentLength)
  /\ zeroRun pre (zlen pre - currentLength) currentLength
  /\ (currentLength < zlen pre ->
      nth_error pre (Z.to_nat (zlen pre - currentLength - 1)) <> Some "0")
  /\ 0 <= bestLength
  /\ (bestLength = 0 -> bestStart = -1)
  /\ (0 < bestLength ->
      zeroRun pre bestStart bestLength
      /\ bestStart + bestLength < zlen pre - currentLength)
  /\ (forall a n, zeroRun pre a n -> a + n < zlen pre - currentLength ->
                  n <= bestLength)
  /\ (forall a, 0 < bestLength -> zeroRun pre a bestLength ->
                a + bestLength < zlen pre - currentLength -> bestStart <= a).

(** A resolver that finds no address. *)
Definition no_dns (addr : string) : option string := None.

(** The invariant of the coordinator's event loop, and the collaborators
    and the schedule of the examples. *)
Module Fixtures.

Import Scanner App.

(** The invariant of the event loop. *)
Definition Inv (s : State) : Prop :=
  activeWorkers s = cnt isActive (workers s)
  /\ 0 <= scanCount s
  /\ scanCount s + cnt isProbing (workers s) <= pulled s
  /\ (settled s = true -> activeWorkers s = 0)
  /\ match shutdown s with
     | NoSignal =>
         isShuttingDown s = false /\ (fileClosed s -> settled s = true)
     | Waiting startWait =>
         isShuttingDown s = true /\ (fileClosed s -> settled s = true)
     | Closing startWait =>
         isShuttingDown s = true
         /\ (activeWorkers s = 0 \/ maxWait <= now s - startWait)
     | Reported startWait scanned feasible =>
         isShuttingDown s = true
         /\ scanned = scanCount s
         /\ (activeWorkers s = 0 \/ maxWait <= now s - startWait)
     end.

Definition exampleCert : PeerCertificate :=
  mkCert (Some (mkSubject (Some "example.com")))
         (Some (mkIssuer (Some (OrgOne "Example CA")))).

(** Every collaborator succeeds; TLS 1.3 with h2 is negotiated. *)
Definition envOk : Env :=
  mkEnv (fun _ => Ok "93.184.216.34") (fun _ _ => Ok tt)
        (fun _ _ => Ok (mkTLSSocket (Some "TLSv1.3") (Some "h2") (Some exampleCert)))
        (fun _ => "US").

(** The TCP connection is refused. *)
Definition envRefused : Env :=
  mkEnv (fun _ => Ok "93.184.216.34") (fun _ _ => Throw "ECONNREFUSED")
        (fun _ _ => Throw "unreachable") (fun _ => "N/A").

Definition exampleHost : Host := mkHost None "example.com" Domain.

Definition exampleResult : TLSScanResult :=
  mkResult "93.184.216.34" "example.com" "example.com" "Example CA" "US" true
    "TLSv1.3" "h2".

(** Two workers; the signal arrives while both probes are in flight. *)
Definition cancelledRun : list Label :=
  [Next 0 (Some exampleHost); Next 1 (Some exampleHost); Tick 40; Signal;
   Scanned 0; Written 0; Tick 100; Poll; Scanned 1; Written 1; Woke 0;
   Next 0 (Some exampleHost); Returned 0; Woke 1; Tick 100; Poll;
   Next 1 (Some exampleHost); Returned 1; Tick 100; Poll; Closed].

End Fixtures.

(** ** Notions for the properties beyond the specification's claims *)

(** The non-empty strings of an array. *)
Definition nonEmpty (s : string) : bool := negb (String.eqb s EmptyString).
(** What the enumerator promises of a host it yields: a literal address
    is its own origin, a member of a block carries a valid address and the
    block as origin, and a domain carries no address. *)
Definition hostWellFormed (isIPv6 : string -> bool) (h : Host) : Prop :=
  origin h <> EmptyString
  /\ match type h with
     | IP => ip h = Some (origin h) /\ net_isIP isIPv6 (origin h) <> 0
     | CIDR =>
         (exists s, ip h = Some s /\ net_isIP isIPv6 s <> 0)
         /\ cidrMatch (origin h) <> None
     | Domain => ip h = None /\ validateDomainName (origin h) = true
     end.

(** A line of white space only. *)
Definition blankLine (line : string) : bool := JS.forall_chars JS.isSpace line.

(** The characters of a dotted-decimal token. *)
Definition dottedChar (c : ascii) : bool := JS.isDigit c || Ascii.eqb c ".".

(** [k] successive calls of [nextIP], each on the result of the one
    before; [None] as soon as one returns [null]. *)
Fixpoint nextIPs (isIPv6 : string -> bool) (k : nat) (ip : string)
  (increment enableIPv6 : bool) : option string :=
  match k with
  | O => Some ip
  | S k' =>
      match nextIP isIPv6 ip increment enableIPv6 with
      | Some ip' => nextIPs isIPv6 k' ip' increment enableIPv6
      | None => None
      end
  end.
(** The socket operations among the effects of a probe. *)
Definition isSocketOp (e : Scanner.Effect) : bool :=
  match e with
  | Scanner.SocketSetTimeout _ | Scanner.SocketDestroy | Scanner.TlsDestroy => true
  | _ => false
  end.

(** The socket operations of a probe of [host]: none before a completed
    connect; then the timeout, the release of the TLS socket if the
    handshake completed, and the release of the TCP socket. *)
Definition socketOpsOf (env : Scanner.Env) (host : Host) : list Scanner.Effect :=
  match hostAddress env host with
  | Some hip =>
      match Scanner.createConnection env hip Scanner.port with
      | Scanner.Ok _ =>
          (Scanner.SocketSetTimeout 10000
           :: match Scanner.performTLSHandshake env hip (tlsOptionsFor host) with
              | Scanner.Ok _ => [Scanner.TlsDestroy]
              | Scanner.Throw _ => []
              end ++ [Scanner.SocketDestroy])%list
      | Scanner.Throw _ => []
      end
  | None => []
  end.

(** The same collaborators with another resolver. *)
Definition withDns (env : Scanner.Env) (d : string -> Scanner.Outcome string)
  : Scanner.Env :=
  Scanner.mkEnv d (Scanner.createConnection env)
    (Scanner.performTLSHandshake env) (Scanner.getGeo env).

(** The value a probe of [host] settles with. *)
Definition probe (env : Scanner.Env) (host : Host) : option TLSScanResult :=
  match fst (Scanner.scanTLS env host []) with
  | Scanner.Ok result => result
  | Scanner.Throw _ => None
  end.

(** The results of the hosts whose probe gives one, in the order of the
    hosts. *)
Definition probeAll (env : Scanner.Env) (hosts : list Host) : list TLSScanResult :=
  ScannerBatch.fulfilled (map (probe env) hosts).
Definition isWriting (p : App.WorkerPhase) : bool :=
  match p with App.Writing _ => true | _ => false end.

(** A chunk is a record: the CSV line of a feasible result. *)
Definition isRecord (line : string) : Prop :=
  exists r, r_feasible r = true /\ line = Scanner.formatScanResult r.

Definition recordPhase (p : App.WorkerPhase) : Prop :=
  match p with App.Writing csvLine => isRecord csvLine | _ => True end.

(** The invariant of the output file and of the two counters. *)
Definition FileInv (s : App.State) : Prop :=
  0 <= App.feasibleCount s <= App.scanCount s
  /\ Forall recordPhase (App.workers s)
  /\ match App.outputFile s with
     | Some f =>
         exists lines,
           App.f_chunks f = App.csvHeader :: lines
           /\ Forall isRecord lines
           /\ zlen lines + cnt isWriting (App.workers s) <= App.feasibleCount s
           /\ (App.f_open f = true ->
               zlen lines + cnt isWriting (App.workers s) = App.feasibleCount s)
     | None => cnt isWriting (App.workers s) = 0
     end.

Definition hasFile (f : option App.File) : bool :=
  match f with Some _ => true | None => false end.
(** The records a scan of [hosts] owes the output file: the CSV lines of
    the feasible results, in the order of the hosts. *)
Definition recordsOf (env : Scanner.Env) (hosts : list Host) : list string :=
  map Scanner.formatScanResult (filter r_feasible (probeAll env hosts)).

(** Occurrences of a line in a list of lines. *)
Definition occ (x : string) (l : list string) : Z :=
  Z.of_nat (count_occ string_dec l x).

Definition sumPhase (g : App.WorkerPhase -> Z) (l : list App.WorkerPhase) : Z :=
  fold_right (fun p a => g p + a) 0 l.

(** The records a worker still owes: those of the host it probes, or the
    line it is writing. *)
Definition owedBy (env : Scanner.Env) (p : App.WorkerPhase) : list string :=
  match p with
  | App.Probing host => recordsOf env [host]
  | App.Writing csvLine => [csvLine]
  | _ => []
  end.

Definition isReturning (p : App.WorkerPhase) : bool :=
  match p with App.Returning => true | _ => false end.

(** The invariant of a scan of the finite source [hosts] by [threadCount]
    workers, as long as no signal has arrived: every host is pending,
    being probed or counted, and every record owed is on file, owed by a
    worker or owed for a pending host. *)
Definition FedInv (env : Scanner.Env) (threadCount : nat) (hosts : list Host)
  (c : App.State * Feed.Iterator) : Prop :=
  let '(s, it) := c in
  App.shutdown s = App.NoSignal ->
  App.isShuttingDown s = false
  /\ Feed.returned it = false
  /\ List.length (App.workers s) = threadCount
  /\ cnt isReturning (App.workers s) = 0
  /\ App.scanCount s + cnt isProbing (App.workers s) + zlen (Feed.pending it)
     = zlen hosts
  /\ (0 < cnt App.isExited (App.workers s) -> Feed.pending it = [])
  /\ (App.settled s = true -> forallb App.isExited (App.workers s) = true)
  /\ exists f lines,
       App.outputFile s = Some f
       /\ App.f_chunks f = App.csvHeader :: lines
       /\ App.f_open f = negb (App.settled s)
       /\ App.feasibleCount s = zlen lines + cnt isWriting (App.workers s)
       /\ forall x,
            occ x lines
            + sumPhase (fun p => occ x (owedBy env p)) (App.workers s)
            + occ x (recordsOf env (Feed.pending it))
            = occ x (recordsOf env hosts).
(** The hexadecimal digits of [n] on exactly [k] positions. *)
Fixpoint hexFixed (k : nat) (n : Z) : string :=
  match k with
  | O => EmptyString
  | S k' => hexFixed k' (n / 16) ++ String (JS.digitChar (n mod 16)) EmptyString
  end.

(** A part of [bigIntToIPv6] without its leading zeros. *)
Definition cleanHex (part : string) : string :=
  match JS.stripLeadingZeros part with
  | EmptyString => "0"
  | s => s
  end.

(** The [k] 16-bit groups of [n], the least significant first. *)
Fixpoint groupsRev (k : nat) (n : Z) : list Z :=
  match k with
  | O => []
  | S k' => n mod 65536 :: groupsRev k' (n / 65536)
  end.

(** [l.join('')] *)
Fixpoint strcat (l : list string) : string :=
  match l with
  | [] => EmptyString
  | x :: r => x ++ strcat r
  end.

(** The eight groups of a 128-bit value, the most significant first. *)
Definition groupsOf (n : Z) : list Z := rev (groupsRev 8 n).

(** The text of a group in the output of [bigIntToIPv6]. *)
Definition groupText (g : Z) : string := cleanHex (hexFixed 4 g).

(** The values 0 ... 65535. *)
Definition groupList : list Z := zrange 0 (Z.to_nat 65536).

(** A part between colons: not empty and without colon. *)
Definition partOk (c : string) : Prop :=
  c <> EmptyString /\ JS.mem_char ":" c = false.

(** What is checked of every group value: its text is a part of one to
    four hexadecimal digits, it is "0" exactly for the value 0, and padded
    it is the four digits of the value and parses back to it. *)
Definition groupOk (g : Z) : bool :=
  let c := groupText g in
  negb (String.eqb c EmptyString)
  && negb (JS.mem_char ":" c)
  && (String.length c <=? 4)%nat
  && Bool.eqb (String.eqb c "0") (g =? 0)
  && match JS.parseInt16 (JS.padStart0 4 c) with
     | Some v => v =? g
     | None => false
     end
  && hexGroup c
  && String.eqb (JS.padStart0 4 c) (hexFixed 4 g).

Definition maxIPv6 : Z := 2 ^ 128 - 1.

Definition prependTo (x : string) (l : list string) : list string :=
  match l with
  | h :: t => (x ++ h) :: t
  | [] => [x]
  end.

(** The parts after the first one, each behind its colon. *)
Fixpoint colons (l : list string) : string :=
  match l with
  | [] => EmptyString
  | x :: r => ":" ++ x ++ colons r
  end.

(** The value of a list of groups, the most significant first. *)
Definition groupsValue (gs : list Z) (acc : Z) : Z :=
  fold_left (fun a g => a * 65536 + g) gs acc.

(** The walk on values up to [top]: the watermarks move by one and stay at
    the boundary of the address space. *)
Fixpoint walkValsTo (top : Z) (n : nat) (j l h : Z) : list Z :=
  match n with
  | O => []
  | S k =>
      if j mod 2 =? 0
      then Z.max 0 (l - 1) :: walkValsTo top k (j + 1) (Z.max 0 (l - 1)) h
      else Z.min top (h + 1) :: walkValsTo top k (j + 1) l (Z.min top (h + 1))
  end.
(** What a scan keeps from its start: the number of workers and the mode;
    in infinite mode the tail of [startScanning] never runs. *)
Definition ModeInv (threadCount : nat) (inf : bool) (s : App.State) : Prop :=
  List.length (App.workers s) = threadCount
  /\ App.infinite s = inf
  /\ (inf = true -> App.settled s = false).
(** An option that is set to white space only: truthy, but not counted
    by [run]. *)
Definition blankOption (v : option string) : bool :=
  match v with
  | Some s => negb (String.eqb s EmptyString) && String.eqb (JS.trim s) EmptyString
  | None => false
  end.

(** Whether the probe of [host] gives a feasible result. *)
Definition probeFeasible (env : Scanner.Env) (host : Host) : bool :=
  match probe env host with
  | Some r => r_feasible r
  | None => false
  end.

(** The turns in which worker [w] takes one host through its loop. *)
Definition serveHost (env : Scanner.Env) (w : nat) (host : Host)
  : list Feed.Turn :=
  ([Feed.Pull w; Feed.Do (App.Scanned w)]
   ++ (if probeFeasible env host then [Feed.Do (App.Written w)] else [])
   ++ [Feed.Do (App.Woke w)])%list.

(** A schedule that completes a scan of [hosts], from a state in which the
    workers of [queue] await the iterator: the worker whose call is the
    oldest takes the next host through its loop and calls the iterator
    again; when no host is left, every worker is told so in the order of
    the calls, and [Promise.allSettled] returns. *)
Fixpoint fifoSchedule (env : Scanner.Env) (queue : list nat)
  (hosts : list Host) : list Feed.Turn :=
  match hosts with
  | [] => (map Feed.Pull queue ++ [Feed.Do App.Settled])%list
  | host :: r =>
      match queue with
      | w :: rest =>
          (serveHost env w host ++ fifoSchedule env (rest ++ [w]) r)%list
      | [] => []
      end
  end.

(** Between two hosts of that schedule: every worker awaits the iterator,
    no signal has arrived and the file is open. *)
Definition Ready (threadCount : nat) (left : list Host) (queue : list nat)
  (c : App.State * Feed.Iterator * list nat) : Prop :=
  let '(s, it, q) := c in
  App.workers s = repeat App.Pulling threadCount
  /\ App.shutdown s = App.NoSignal
  /\ App.isShuttingDown s = false
  /\ App.settled s = false
  /\ App.infinite s = false
  /\ (exists f, App.outputFile s = Some f /\ App.f_open f = true)
  /\ it = Feed.mkIterator left false
  /\ q = queue.

(* ================================================================== *)
(** * Strings: splitting and joining *)
(* ================================================================== *)

(** Linear arithmetic with division and remainder by constants. *)
Ltac lia_dm := Z.div_mod_to_equations; lia.

Lemma mem_char_app c a b :
  JS.mem_char c (a ++ b) = JS.mem_char c a || JS.mem_char c b.
Proof.
  induction a as [|x a IH]; simpl; [reflexivity|].
  rewrite IH. now rewrite orb_assoc.
Qed.

Lemma append_assoc (a b c : string) : (a ++ b) ++ c = a ++ (b ++ c).
Proof. induction a as [|x a IH]; simpl; [reflexivity|now rewrite IH]. Qed.

Lemma split_char_cons c s : exists h t, JS.split_char c s = h :: t.
Proof.
  induction s as [|a s IH]; simpl.
  - now exists EmptyString, [].
  - destruct (Ascii.eqb a c); [now eexists; eexists|].
    destruct IH as (h & t & ->). now eexists; eexists.
Qed.

Lemma split_char_nomem c s :
  JS.mem_char c s = false -> JS.split_char c s = [s].
Proof.
  induction s as [|a s IH]; simpl; [reflexivity|].
  intros H. apply orb_false_iff in H as [Ha Hs].
  rewrite Ha, (IH Hs). reflexivity.
Qed.

Lemma split_char_app c a b :
  JS.mem_char c a = false ->
  JS.split_char c (a ++ String c b) = a :: JS.split_char c b.
Proof.
  induction a as [|x a IH]; simpl.
  - intros _. now rewrite Ascii.eqb_refl.
  - intros H. apply orb_false_iff in H as [Hx Ha].
    rewrite Hx, (IH Ha). reflexivity.
Qed.

Lemma split_char_parts c s :
  Forall (fun p => JS.mem_char c p = false) (JS.split_char c s).
Proof.
  induction s as [|a s IH]; simpl.
  - now constructor.
  - destruct (Ascii.eqb a c) eqn:E.
    + now constructor.
    + destruct (JS.split_char c s) as [|h t]; inversion IH; subst;
        constructor; simpl; auto; rewrite E; simpl; auto.
Qed.

Lemma join_split_char c s :
  JS.join (String c EmptyString) (JS.split_char c s) = s.
Proof.
  induction s as [|a s IH]; simpl; [reflexivity|].
  destruct (Ascii.eqb a c) eqn:E.
  - apply Ascii.eqb_eq in E. subst a.
    destruct (split_char_cons c s) as (h & t & Hs).
    rewrite Hs in *. simpl in *. now rewrite IH.
  - destruct (split_char_cons c s) as (h & t & Hs).
    rewrite Hs in *. destruct t; simpl in *; now rewrite <- IH.
Qed.

Lemma forall_chars_app p a b :
  JS.forall_chars p (a ++ b) = JS.forall_chars p a && JS.forall_chars p b.
Proof.
  induction a as [|x a IH]; simpl; [reflexivity|].
  rewrite IH. now rewrite andb_assoc.
Qed.

Lemma forall_chars_nomem p c s :
  p c = false -> JS.forall_chars p s = true -> JS.mem_char c s = false.
Proof.
  intros Hc. induction s as [|a s IH]; simpl; [reflexivity|].
  intros H. apply andb_true_iff in H as [Ha Hs].
  rewrite (IH Hs), orb_false_r.
  destruct (Ascii.eqb a c) eqn:E; [|reflexivity].
  apply Ascii.eqb_eq in E. congruence.
Qed.

Lemma chr_code c : JS.chr (JS.code c) = c.
Proof.
  unfold JS.chr, JS.code. rewrite N2Z.id. apply ascii_N_embedding.
Qed.

Lemma isDigit_inv c :
  JS.isDigit c = true -> exists d, In d [0;1;2;3;4;5;6;7;8;9] /\ c = JS.chr (48 + d).
Proof.
  unfold JS.isDigit. intros H. apply andb_true_iff in H as [H1 H2].
  apply Z.leb_le in H1, H2.
  exists (JS.code c - 48). split.
  - simpl. lia.
  - replace (48 + (JS.code c - 48)) with (JS.code c) by lia.
    symmetry. apply chr_code.
Qed.

(* ================================================================== *)
(** * Decimal octets *)
(* ================================================================== *)

Lemma v4Seg_check :
  forallb (fun a =>
    implb (v4Seg (String (dch a) EmptyString))
          (octetGood (String (dch a) EmptyString))
    && forallb (fun b =>
         implb (v4Seg (String (dch a) (String (dch b) EmptyString)))
               (octetGood (String (dch a) (String (dch b) EmptyString)))
         && forallb (fun c =>
              implb (v4Seg (String (dch a) (String (dch b) (String (dch c) EmptyString))))
                    (octetGood (String (dch a) (String (dch b) (String (dch c) EmptyString)))))
              digitList)
         digitList)
    digitList = true.
Proof. vm_compute. reflexivity. Qed.

Lemma v4Seg_digits s :
  v4Seg s = true ->
  (exists a, In a digitList /\ s = String (dch a) EmptyString)
  \/ (exists a b, In a digitList /\ In b digitList
                  /\ s = String (dch a) (String (dch b) EmptyString))
  \/ (exists a b c, In a digitList /\ In b digitList /\ In c digitList
                    /\ s = String (dch a) (String (dch b) (String (dch c) EmptyString))).
Proof.
  destruct s as [|a [|b [|c [|d s]]]]; simpl; try discriminate.
  - intros H. destruct (isDigit_inv _ H) as (x & Hx & ->).
    left. exists x. split; [exact Hx|reflexivity].
  - intros H. apply andb_true_iff in H as [H Hb].
    apply andb_true_iff in H as [Ha _].
    destruct (isDigit_inv _ Ha) as (x & Hx & ->).
    destruct (isDigit_inv _ Hb) as (y & Hy & ->).
    right; left. exists x, y. repeat split; assumption.
  - intros H.
    assert (JS.isDigit a = true /\ JS.isDigit b = true /\ JS.isDigit c = true)
      as (Ha & Hb & Hc).
    { repeat (apply orb_true_iff in H as [H|H]);
        repeat (apply andb_true_iff in H as [H ?]);
        repeat match goal with
               | E : Ascii.eqb _ _ = true |- _ => apply Ascii.eqb_eq in E; subst
               end; auto. }
    destruct (isDigit_inv _ Ha) as (x & Hx & ->).
    destruct (isDigit_inv _ Hb) as (y & Hy & ->).
    destruct (isDigit_inv _ Hc) as (z & Hz & ->).
    right; right. exists x, y, z. repeat split; assumption.
Qed.

Lemma v4Seg_good s : v4Seg s = true -> octetGood s = true.
Proof.
  intros H. pose proof v4Seg_check as K.
  rewrite forallb_forall in K.
  destruct (v4Seg_digits s H) as
    [(a & Ha & ->)|[(a & b & Ha & Hb & ->)|(a & b & c & Ha & Hb & Hc & ->)]];
    specialize (K a Ha); apply andb_true_iff in K as [K1 K2].
  - rewrite H in K1. exact K1.
  - rewrite forallb_forall in K2. specialize (K2 b Hb).
    apply andb_true_iff in K2 as [K2 _]. rewrite H in K2. exact K2.
  - rewrite forallb_forall in K2. specialize (K2 b Hb).
    apply andb_true_iff in K2 as [_ K3].
    rewrite forallb_forall in K3. specialize (K3 c Hc).
    rewrite H in K3. exact K3.
Qed.

Lemma v4Seg_canon s :
  v4Seg s = true ->
  0 <= JS.Number s <= 255 /\ JS.toString (JS.Number s) = s.
Proof.
  intros H. apply v4Seg_good in H. unfold octetGood in H.
  apply andb_true_iff in H as [H H3]. apply andb_true_iff in H as [H1 H2].
  apply Z.leb_le in H1, H2. apply String.eqb_eq in H3. auto.
Qed.

Lemma octetList_In n : 0 <= n <= 255 -> In n octetList.
Proof.
  intros H. unfold octetList. apply in_map_iff.
  exists (Z.to_nat n). split; [lia|]. apply in_seq. lia.
Qed.

Lemma octet_check :
  forallb (fun n =>
    v4Seg (JS.toString n) && (JS.Number (JS.toString n) =? n)
    && negb (JS.mem_char "." (JS.toString n)))
    octetList = true.
Proof. vm_compute. reflexivity. Qed.

Lemma octet_toString n :
  0 <= n <= 255 ->
  v4Seg (JS.toString n) = true /\ JS.Number (JS.toString n) = n
  /\ JS.mem_char "." (JS.toString n) = false.
Proof.
  intros H. pose proof octet_check as K. rewrite forallb_forall in K.
  specialize (K n (octetList_In n H)).
  apply andb_true_iff in K as [K K3]. apply andb_true_iff in K as [K1 K2].
  apply Z.eqb_eq in K2. apply negb_true_iff in K3. auto.
Qed.

(* ================================================================== *)
(** * The 32-bit operators on octets *)
(* ================================================================== *)

Lemma toInt32_small x : - 2 ^ 31 <= x < 2 ^ 31 -> JS.toInt32 x = x.
Proof. intros H. unfold JS.toInt32. rewrite Z.mod_small; lia. Qed.

Lemma toInt32_eqm x : exists q, JS.toInt32 x = x - 2 ^ 32 * q.
Proof.
  unfold JS.toInt32. exists ((x + 2 ^ 31) / 2 ^ 32).
  rewrite Z.mod_eq by lia. lia.
Qed.

Lemma toUint32_toInt32 x : JS.toUint32 (JS.toInt32 x) = JS.toUint32 x.
Proof.
  destruct (toInt32_eqm x) as [q ->]. unfold JS.toUint32.
  replace (x - 2 ^ 32 * q) with (x + (- q) * 2 ^ 32) by lia.
  apply Z.mod_add. lia.
Qed.

Lemma toUint32_lor a b :
  JS.toUint32 (Z.lor a b) = Z.lor (JS.toUint32 a) (JS.toUint32 b).
Proof.
  unfold JS.toUint32. rewrite <- !Z.land_ones by lia.
  apply Z.land_lor_distr_l.
Qed.

Lemma toUint32_bor x y :
  JS.toUint32 (JS.bor x y) = Z.lor (JS.toUint32 x) (JS.toUint32 y).
Proof.
  unfold JS.bor. now rewrite toUint32_toInt32, toUint32_lor, !toUint32_toInt32.
Qed.

Lemma toUint32_shl p n :
  0 <= p <= 255 -> 0 <= n <= 24 -> JS.toUint32 (JS.shl p n) = p * 2 ^ n.
Proof.
  intros Hp Hn. unfold JS.shl. rewrite toUint32_toInt32.
  rewrite toInt32_small by lia.
  rewrite (Z.mod_small n 32) by lia.
  rewrite Z.shiftl_mul_pow2 by lia.
  unfold JS.toUint32. apply Z.mod_small.
  assert (2 ^ n <= 2 ^ 24) by (apply Z.pow_le_mono_r; lia).
  assert (0 < 2 ^ n) by (apply Z.pow_pos_nonneg; lia).
  nia.
Qed.

Lemma land_high_low hi lo n :
  0 <= n -> 0 <= lo < 2 ^ n -> Z.land (hi * 2 ^ n) lo = 0.
Proof.
  intros Hn Hlo. apply Z.bits_inj'. intros m Hm.
  rewrite Z.land_spec, Z.bits_0.
  destruct (Z.lt_ge_cases m n).
  - now rewrite Z.mul_pow2_bits_low by lia.
  - replace lo with (lo mod 2 ^ n) by (apply Z.mod_small; lia).
    rewrite Z.mod_pow2_bits_high by lia. apply andb_false_r.
Qed.

Lemma lor_high_low hi lo n :
  0 <= n -> 0 <= lo < 2 ^ n -> Z.lor (hi * 2 ^ n) lo = hi * 2 ^ n + lo.
Proof.
  intros Hn Hlo. pose proof (Z.add_lor_land (hi * 2 ^ n) lo) as E.
  rewrite land_high_low in E by assumption. lia.
Qed.

(** The packing of four octets by [<<], [|] and [>>> 0]. *)
Lemma pack_octets p0 p1 p2 p3 :
  0 <= p0 <= 255 -> 0 <= p1 <= 255 -> 0 <= p2 <= 255 -> 0 <= p3 <= 255 ->
  JS.ushr (JS.bor (JS.bor (JS.bor (JS.shl p0 24) (JS.shl p1 16)) (JS.shl p2 8)) p3) 0
  = p0 * 2 ^ 24 + p1 * 2 ^ 16 + p2 * 2 ^ 8 + p3.
Proof.
  intros H0 H1 H2 H3. unfold JS.ushr.
  change (0 mod 32) with 0. rewrite Z.shiftr_0_r.
  rewrite !toUint32_bor, !toUint32_shl by lia.
  replace (JS.toUint32 p3) with p3 by (unfold JS.toUint32; rewrite Z.mod_small; lia).
  rewrite <- !Z.lor_assoc.
  rewrite (lor_high_low p2 p3 8) by lia.
  rewrite (lor_high_low p1 _ 16) by lia.
  rewrite (lor_high_low p0 _ 24) by lia.
  lia.
Qed.

Lemma band_255 x : JS.band x 255 = x mod 256.
Proof.
  unfold JS.band. rewrite (toInt32_small 255) by lia.
  change 255 with (Z.ones 8). rewrite Z.land_ones by lia.
  change (2 ^ 8) with 256.
  destruct (toInt32_eqm x) as [q ->].
  replace (x - 2 ^ 32 * q) with (x + (- q * 2 ^ 24) * 256) by lia.
  rewrite Z.mod_add by lia.
  apply toInt32_small. pose proof (Z.mod_pos_bound x 256). lia.
Qed.

Lemma ushr_div v n :
  0 <= v < 2 ^ 32 -> 0 <= n < 32 -> JS.ushr v n = v / 2 ^ n.
Proof.
  intros Hv Hn. unfold JS.ushr, JS.toUint32.
  rewrite (Z.mod_small v) by lia. rewrite (Z.mod_small n) by lia.
  apply Z.shiftr_div_pow2. lia.
Qed.

(** The unpacking by [>>>] and [& 0xff]. *)
Lemma unpack_octets v :
  0 <= v < 2 ^ 32 ->
  [JS.band (JS.ushr v 24) 255; JS.band (JS.ushr v 16) 255;
   JS.band (JS.ushr v 8) 255; JS.band v 255] = octets v.
Proof.
  intros Hv. rewrite !band_255, !ushr_div by lia. reflexivity.
Qed.

Lemma octets_bound v : Forall (fun o => 0 <= o <= 255) (octets v).
Proof.
  unfold octets.
  repeat (apply Forall_cons;
          [match goal with
           | |- _ <= ?x mod 256 <= _ => pose proof (Z.mod_pos_bound x 256); lia
           end|]).
  apply Forall_nil.
Qed.

Lemma octets_pack p0 p1 p2 p3 :
  0 <= p0 <= 255 -> 0 <= p1 <= 255 -> 0 <= p2 <= 255 -> 0 <= p3 <= 255 ->
  octets (p0 * 2 ^ 24 + p1 * 2 ^ 16 + p2 * 2 ^ 8 + p3) = [p0; p1; p2; p3].
Proof.
  intros H0 H1 H2 H3. unfold octets.
  assert (E3 : (p0 * 2 ^ 24 + p1 * 2 ^ 16 + p2 * 2 ^ 8 + p3) mod 256 = p3).
  { replace (p0 * 2 ^ 24 + p1 * 2 ^ 16 + p2 * 2 ^ 8 + p3)
      with (p3 + (p0 * 2 ^ 16 + p1 * 2 ^ 8 + p2) * 256) by lia.
    rewrite Z.mod_add by lia. apply Z.mod_small. lia. }
  assert (E2 : (p0 * 2 ^ 24 + p1 * 2 ^ 16 + p2 * 2 ^ 8 + p3) / 2 ^ 8
               = p0 * 2 ^ 16 + p1 * 2 ^ 8 + p2).
  { replace (p0 * 2 ^ 24 + p1 * 2 ^ 16 + p2 * 2 ^ 8 + p3)
      with (p3 + (p0 * 2 ^ 16 + p1 * 2 ^ 8 + p2) * 2 ^ 8) by lia.
    rewrite Z.div_add by lia. rewrite Z.div_small; lia. }
  assert (E1 : (p0 * 2 ^ 24 + p1 * 2 ^ 16 + p2 * 2 ^ 8 + p3) / 2 ^ 16
               = p0 * 2 ^ 8 + p1).
  { replace (p0 * 2 ^ 24 + p1 * 2 ^ 16 + p2 * 2 ^ 8 + p3)
      with ((p2 * 2 ^ 8 + p3) + (p0 * 2 ^ 8 + p1) * 2 ^ 16) by lia.
    rewrite Z.div_add by lia. rewrite Z.div_small; lia. }
  assert (E0 : (p0 * 2 ^ 24 + p1 * 2 ^ 16 + p2 * 2 ^ 8 + p3) / 2 ^ 24 = p0).
  { replace (p0 * 2 ^ 24 + p1 * 2 ^ 16 + p2 * 2 ^ 8 + p3)
      with ((p1 * 2 ^ 16 + p2 * 2 ^ 8 + p3) + p0 * 2 ^ 24) by lia.
    rewrite Z.div_add by lia. rewrite Z.div_small; lia. }
  rewrite E3, E2, E1, E0.
  f_equal; [apply Z.mod_small; lia|].
  f_equal; [replace (p0 * 2 ^ 8 + p1) with (p1 + p0 * 256) by lia;
            rewrite Z.mod_add by lia; apply Z.mod_small; lia|].
  f_equal.
  replace (p0 * 2 ^ 16 + p1 * 2 ^ 8 + p2) with (p2 + (p0 * 2 ^ 8 + p1) * 256) by lia.
  rewrite Z.mod_add by lia. apply Z.mod_small. lia.
Qed.

Lemma pack_of_octets v :
  0 <= v < 2 ^ 32 ->
  v / 2 ^ 24 mod 256 * 2 ^ 24 + v / 2 ^ 16 mod 256 * 2 ^ 16
  + v / 2 ^ 8 mod 256 * 2 ^ 8 + v mod 256 = v.
Proof.
  intros Hv.
  rewrite (Z.mod_small (v / 2 ^ 24)) by
    (split; [apply Z.div_pos; lia | apply Z.div_lt_upper_bound; lia]).
  pose proof (Z.div_mod v 256 ltac:(lia)) as D0.
  pose proof (Z.div_mod (v / 2 ^ 8) 256 ltac:(lia)) as D1.
  pose proof (Z.div_mod (v / 2 ^ 16) 256 ltac:(lia)) as D2.
  replace (v / 2 ^ 8 / 256) with (v / 2 ^ 16) in D1
    by (rewrite Z.div_div by lia; reflexivity).
  replace (v / 2 ^ 16 / 256) with (v / 2 ^ 24) in D2
    by (rewrite Z.div_div by lia; reflexivity).
  change (2 ^ 8) with 256 in *. lia.
Qed.

(* ================================================================== *)
(** * Dotted quads *)
(* ================================================================== *)

Lemma split_quad p0 p1 p2 p3 :
  0 <= p0 <= 255 -> 0 <= p1 <= 255 -> 0 <= p2 <= 255 -> 0 <= p3 <= 255 ->
  JS.split_char "." (quad p0 p1 p2 p3) = map JS.toString [p0; p1; p2; p3].
Proof.
  intros H0 H1 H2 H3.
  destruct (octet_toString p0 H0) as (_ & _ & N0).
  destruct (octet_toString p1 H1) as (_ & _ & N1).
  destruct (octet_toString p2 H2) as (_ & _ & N2).
  destruct (octet_toString p3 H3) as (_ & _ & N3).
  unfold quad. simpl.
  rewrite (split_char_app "." _ _ N0), (split_char_app "." _ _ N1),
    (split_char_app "." _ _ N2), (split_char_nomem "." _ N3).
  reflexivity.
Qed.

Lemma isIPv4_quad p0 p1 p2 p3 :
  0 <= p0 <= 255 -> 0 <= p1 <= 255 -> 0 <= p2 <= 255 -> 0 <= p3 <= 255 ->
  isIPv4 (quad p0 p1 p2 p3) = true.
Proof.
  intros H0 H1 H2 H3. unfold isIPv4. rewrite split_quad by assumption. simpl.
  destruct (octet_toString p0 H0) as (-> & _).
  destruct (octet_toString p1 H1) as (-> & _).
  destruct (octet_toString p2 H2) as (-> & _).
  destruct (octet_toString p3 H3) as (-> & _).
  reflexivity.
Qed.

Lemma numbers_quad p0 p1 p2 p3 :
  0 <= p0 <= 255 -> 0 <= p1 <= 255 -> 0 <= p2 <= 255 -> 0 <= p3 <= 255 ->
  map JS.Number (JS.split_char "." (quad p0 p1 p2 p3)) = [p0; p1; p2; p3].
Proof.
  intros H0 H1 H2 H3. rewrite split_quad by assumption. simpl.
  destruct (octet_toString p0 H0) as (_ & -> & _).
  destruct (octet_toString p1 H1) as (_ & -> & _).
  destruct (octet_toString p2 H2) as (_ & -> & _).
  destruct (octet_toString p3 H3) as (_ & -> & _).
  reflexivity.
Qed.

(** Every literal that [net.isIP] classifies as IPv4 is the canonical
    dotted quad of its four octets. *)
Lemma isIPv4_inv s :
  isIPv4 s = true ->
  exists p0 p1 p2 p3,
    (0 <= p0 <= 255) /\ (0 <= p1 <= 255) /\ (0 <= p2 <= 255) /\ (0 <= p3 <= 255)
    /\ s = quad p0 p1 p2 p3.
Proof.
  unfold isIPv4. intros H. pose proof (join_split_char "." s) as J.
  destruct (JS.split_char "." s) as [|a [|b [|c [|d [|e l]]]]]; try discriminate.
  repeat (apply andb_true_iff in H as [H ?]).
  destruct (v4Seg_canon a) as (Ba & Ea); [assumption|].
  destruct (v4Seg_canon b) as (Bb & Eb); [assumption|].
  destruct (v4Seg_canon c) as (Bc & Ec); [assumption|].
  destruct (v4Seg_canon d) as (Bd & Ed); [assumption|].
  exists (JS.Number a), (JS.Number b), (JS.Number c), (JS.Number d).
  repeat split; try lia.
  unfold quad. simpl map. rewrite Ea, Eb, Ec, Ed. symmetry. exact J.
Qed.

Lemma ipv4OfZ_quad p0 p1 p2 p3 :
  0 <= p0 <= 255 -> 0 <= p1 <= 255 -> 0 <= p2 <= 255 -> 0 <= p3 <= 255 ->
  ipv4OfZ (p0 * 2 ^ 24 + p1 * 2 ^ 16 + p2 * 2 ^ 8 + p3) = quad p0 p1 p2 p3.
Proof.
  intros. unfold ipv4OfZ. now rewrite octets_pack.
Qed.

Lemma ipv4Value_quad p0 p1 p2 p3 :
  0 <= p0 <= 255 -> 0 <= p1 <= 255 -> 0 <= p2 <= 255 -> 0 <= p3 <= 255 ->
  ipv4Value (quad p0 p1 p2 p3) = p0 * 2 ^ 24 + p1 * 2 ^ 16 + p2 * 2 ^ 8 + p3.
Proof.
  intros. unfold ipv4Value. now rewrite numbers_quad.
Qed.

Lemma ipv4OfZ_as_quad v :
  ipv4OfZ v = quad (v / 2 ^ 24 mod 256) (v / 2 ^ 16 mod 256)
                   (v / 2 ^ 8 mod 256) (v mod 256).
Proof. reflexivity. Qed.

Lemma isIPv4_ofZ v : isIPv4 (ipv4OfZ v) = true.
Proof.
  rewrite ipv4OfZ_as_quad.
  apply isIPv4_quad; apply Z.mod_pos_bound || idtac;
    match goal with |- _ <= ?x mod 256 <= _ =>
      pose proof (Z.mod_pos_bound x 256); lia end.
Qed.

Lemma ipv4Value_ofZ v : 0 <= v < 2 ^ 32 -> ipv4Value (ipv4OfZ v) = v.
Proof.
  intros Hv. rewrite ipv4OfZ_as_quad.
  rewrite ipv4Value_quad;
    try match goal with |- _ <= ?x mod 256 <= _ =>
      pose proof (Z.mod_pos_bound x 256); lia end.
  now apply pack_of_octets.
Qed.

Lemma ipv4Value_bound s : isIPv4 s = true -> 0 <= ipv4Value s < 2 ^ 32.
Proof.
  intros H. destruct (isIPv4_inv s H) as (p0 & p1 & p2 & p3 & ? & ? & ? & ? & ->).
  rewrite ipv4Value_quad by assumption. lia.
Qed.

Lemma ipv4OfZ_value s : isIPv4 s = true -> ipv4OfZ (ipv4Value s) = s.
Proof.
  intros H. destruct (isIPv4_inv s H) as (p0 & p1 & p2 & p3 & ? & ? & ? & ? & ->).
  rewrite ipv4Value_quad by assumption. now apply ipv4OfZ_quad.
Qed.

Lemma ipv4OfZ_inj v w :
  0 <= v < 2 ^ 32 -> 0 <= w < 2 ^ 32 -> ipv4OfZ v = ipv4OfZ w -> v = w.
Proof.
  intros Hv Hw E. rewrite <- (ipv4Value_ofZ v Hv), <- (ipv4Value_ofZ w Hw).
  now rewrite E.
Qed.

Lemma ipv4OfZ_nonempty v : ipv4OfZ v <> EmptyString.
Proof.
  intros E. pose proof (isIPv4_ofZ v) as H. rewrite E in H. discriminate.
Qed.

(* ================================================================== *)
(** * Properties of the address arithmetic and of the enumerator *)
(* ================================================================== *)

Section Properties.

Variable isIPv6 : string -> bool.
Variable dnsLookup : string -> option string.

(** Every IPv6 literal contains a colon: all that is needed of the IPv6
    half of [net.isIP]. *)
Hypothesis isIPv6_colon : forall s, isIPv6 s = true -> JS.mem_char ":" s = true.

Lemma net_isIP_v4 s : isIPv4 s = true -> net_isIP isIPv6 s = 4.
Proof. intros H. unfold net_isIP. now rewrite H. Qed.

(** [nextIP] on an IPv4 literal is [+1] or [-1] on its 32-bit value, and
    [null] outside [0, 2^32-1]. *)
Lemma nextIP_v4 s increment enableIPv6 :
  isIPv4 s = true ->
  nextIP isIPv6 s increment enableIPv6 =
    let v := if increment then ipv4Value s + 1 else ipv4Value s - 1 in
    if (v <? 0) || (v >? 4294967295) then None else Some (ipv4OfZ v).
Proof.
  intros H. unfold nextIP. rewrite (net_isIP_v4 s H). simpl Z.eqb. cbv iota.
  destruct (isIPv4_inv s H) as (p0 & p1 & p2 & p3 & H0 & H1 & H2 & H3 & ->).
  rewrite numbers_quad by assumption.
  rewrite pack_octets by assumption.
  rewrite ipv4Value_quad by assumption.
  cbv zeta.
  set (v := if increment then _ else _).
  destruct ((v <? 0) || (v >? 4294967295)) eqn:E; [reflexivity|].
  apply orb_false_iff in E as [E1 E2].
  apply Z.ltb_ge in E1.
  assert (0 <= v < 2 ^ 32) as Hv.
  { split; [assumption|]. rewrite Z.gtb_ltb in E2. apply Z.ltb_ge in E2. lia. }
  now rewrite unpack_octets.
Qed.

Lemma ipv4_max_literal s :
  isIPv4 s = true -> (ipv4Value s = 4294967295 <-> s = "255.255.255.255").
Proof.
  intros H. split.
  - intros E. rewrite <- (ipv4OfZ_value s H), E. reflexivity.
  - intros ->. reflexivity.
Qed.

Lemma ipv4_min_literal s :
  isIPv4 s = true -> (ipv4Value s = 0 <-> s = "0.0.0.0").
Proof.
  intros H. split.
  - intros E. rewrite <- (ipv4OfZ_value s H), E. reflexivity.
  - intros ->. reflexivity.
Qed.

Lemma nextIP_v4_up s e :
  isIPv4 s = true -> ipv4Value s < 4294967295 ->
  nextIP isIPv6 s true e = Some (ipv4OfZ (ipv4Value s + 1)).
Proof.
  intros H Hlt. rewrite nextIP_v4 by assumption. cbv zeta.
  pose proof (ipv4Value_bound s H).
  destruct (Z.ltb_spec (ipv4Value s + 1) 0); [lia|].
  rewrite Z.gtb_ltb.
  destruct (Z.ltb_spec 4294967295 (ipv4Value s + 1)); [lia|]. reflexivity.
Qed.

Lemma nextIP_v4_down s e :
  isIPv4 s = true -> 0 < ipv4Value s ->
  nextIP isIPv6 s false e = Some (ipv4OfZ (ipv4Value s - 1)).
Proof.
  intros H Hlt. rewrite nextIP_v4 by assumption. cbv zeta.
  pose proof (ipv4Value_bound s H).
  destruct (Z.ltb_spec (ipv4Value s - 1) 0); [lia|].
  rewrite Z.gtb_ltb.
  destruct (Z.ltb_spec 4294967295 (ipv4Value s - 1)); [lia|]. reflexivity.
Qed.

Lemma nextIP_v4_top s e :
  isIPv4 s = true -> ipv4Value s = 4294967295 -> nextIP isIPv6 s true e = None.
Proof.
  intros H E. rewrite nextIP_v4 by assumption. cbv zeta. now rewrite E.
Qed.

Lemma nextIP_v4_bottom s e :
  isIPv4 s = true -> ipv4Value s = 0 -> nextIP isIPv6 s false e = None.
Proof.
  intros H E. rewrite nextIP_v4 by assumption. cbv zeta. now rewrite E.
Qed.

(** C2.  For every valid IPv4 literal [a]: stepping up and then down
    returns [a], except that the step up is [null] exactly when [a] is
    255.255.255.255; stepping down and then up returns [a], except that the
    step down is [null] exactly when [a] is 0.0.0.0.  The walk stops at the
    boundary of the address space and never wraps. *)
Theorem nextIP_ipv4_step_inverse (a : string) (e1 e2 : bool) :
  isIPv4 a = true ->
  (a = "255.255.255.255" -> nextIP isIPv6 a true e1 = None)
  /\ (a <> "255.255.255.255" ->
      exists b, nextIP isIPv6 a true e1 = Some b
                /\ ipv4Value b = ipv4Value a + 1
                /\ nextIP isIPv6 b false e2 = Some a)
  /\ (a = "0.0.0.0" -> nextIP isIPv6 a false e1 = None)
  /\ (a <> "0.0.0.0" ->
      exists b, nextIP isIPv6 a false e1 = Some b
                /\ ipv4Value b = ipv4Value a - 1
                /\ nextIP isIPv6 b true e2 = Some a).
Proof.
  intros H. pose proof (ipv4Value_bound a H) as B.
  repeat split.
  - intros E. apply nextIP_v4_top; [assumption|]. now apply ipv4_max_literal.
  - intros N.
    assert (ipv4Value a < 4294967295) as L.
    { destruct (Z.eq_dec (ipv4Value a) 4294967295) as [E|E]; [|lia].
      apply ipv4_max_literal in E; [contradiction|assumption]. }
    exists (ipv4OfZ (ipv4Value a + 1)).
    assert (ipv4Value (ipv4OfZ (ipv4Value a + 1)) = ipv4Value a + 1) as V
      by (apply ipv4Value_ofZ; lia).
    split; [now apply nextIP_v4_up|]. split; [exact V|].
    rewrite nextIP_v4_down; [|apply isIPv4_ofZ|lia].
    rewrite V. replace (ipv4Value a + 1 - 1) with (ipv4Value a) by lia.
    now rewrite ipv4OfZ_value.
  - intros E. apply nextIP_v4_bottom; [assumption|]. now apply ipv4_min_literal.
  - intros N.
    assert (0 < ipv4Value a) as L.
    { destruct (Z.eq_dec (ipv4Value a) 0) as [E|E]; [|lia].
      apply ipv4_min_literal in E; [contradiction|assumption]. }
    exists (ipv4OfZ (ipv4Value a - 1)).
    assert (ipv4Value (ipv4OfZ (ipv4Value a - 1)) = ipv4Value a - 1) as V
      by (apply ipv4Value_ofZ; lia).
    split; [now apply nextIP_v4_down|]. split; [exact V|].
    rewrite nextIP_v4_up; [|apply isIPv4_ofZ|lia].
    rewrite V. replace (ipv4Value a - 1 + 1) with (ipv4Value a) by lia.
    now rewrite ipv4OfZ_value.
Qed.

(** ** The CIDR branch of [iterate] *)

Lemma forall_chars_impl (p q : ascii -> bool) s :
  (forall c, p c = true -> q c = true) ->
  JS.forall_chars p s = true -> JS.forall_chars q s = true.
Proof.
  intros I. induction s as [|a s IH]; simpl; [reflexivity|].
  intros H. apply andb_true_iff in H as [Ha Hs].
  now rewrite (I a Ha), (IH Hs).
Qed.

Lemma octet_digits_check :
  forallb (fun n => digits1 (JS.toString n)) octetList = true.
Proof. vm_compute. reflexivity. Qed.

Lemma octet_digits n : 0 <= n <= 255 -> digits1 (JS.toString n) = true.
Proof.
  intros H. pose proof octet_digits_check as K. rewrite forallb_forall in K.
  exact (K n (octetList_In n H)).
Qed.

Lemma digits1_chars s : digits1 s = true -> JS.forall_chars JS.isDigit s = true.
Proof. unfold digits1. intros H. now apply andb_true_iff in H as [_ H]. Qed.

Lemma digits1_cidrChar s : digits1 s = true -> JS.forall_chars cidrChar s = true.
Proof.
  intros H. apply (forall_chars_impl JS.isDigit); [|now apply digits1_chars].
  intros c Hc. unfold cidrChar. now rewrite Hc.
Qed.

Lemma quad_chars p0 p1 p2 p3 :
  0 <= p0 <= 255 -> 0 <= p1 <= 255 -> 0 <= p2 <= 255 -> 0 <= p3 <= 255 ->
  JS.forall_chars cidrChar (quad p0 p1 p2 p3) = true.
Proof.
  intros H0 H1 H2 H3. unfold quad. cbn [map JS.join].
  rewrite !forall_chars_app. cbn [JS.forall_chars].
  rewrite !digits1_cidrChar by (apply octet_digits; assumption).
  reflexivity.
Qed.

Lemma quad_no_slash p0 p1 p2 p3 :
  0 <= p0 <= 255 -> 0 <= p1 <= 255 -> 0 <= p2 <= 255 -> 0 <= p3 <= 255 ->
  JS.mem_char "/" (quad p0 p1 p2 p3) = false.
Proof.
  intros H0 H1 H2 H3.
  apply (forall_chars_nomem (fun c => JS.isDigit c || Ascii.eqb c "."));
    [reflexivity|].
  unfold quad. cbn [map JS.join]. rewrite !forall_chars_app.
  cbn [JS.forall_chars].
  assert (forall n, 0 <= n <= 255 ->
            JS.forall_chars (fun c => JS.isDigit c || Ascii.eqb c ".")
              (JS.toString n) = true) as D.
  { intros n Hn. apply (forall_chars_impl JS.isDigit).
    - intros c ->. reflexivity.
    - apply digits1_chars. now apply octet_digits. }
  rewrite !D by assumption. reflexivity.
Qed.

Lemma cidr_line_chars base mask :
  isIPv4 base = true -> digits1 mask = true ->
  JS.forall_chars cidrChar (base ++ "/" ++ mask) = true.
Proof.
  intros Hb Hm.
  destruct (isIPv4_inv base Hb) as (p0 & p1 & p2 & p3 & ? & ? & ? & ? & ->).
  rewrite forall_chars_app. cbn [String.append JS.forall_chars].
  rewrite quad_chars by assumption. now rewrite digits1_cidrChar.
Qed.

Lemma isIPv4_no_slash s : isIPv4 s = true -> JS.mem_char "/" s = false.
Proof.
  intros H.
  destruct (isIPv4_inv s H) as (p0 & p1 & p2 & p3 & ? & ? & ? & ? & ->).
  now apply quad_no_slash.
Qed.

Lemma slash_not_IPv4 a b : isIPv4 (a ++ "/" ++ b) = false.
Proof.
  destruct (isIPv4 (a ++ "/" ++ b)) eqn:E; [|reflexivity].
  apply isIPv4_no_slash in E. rewrite mem_char_app in E. simpl in E.
  now rewrite orb_true_r in E.
Qed.

Lemma cidrChar_not_IPv6 s :
  JS.forall_chars cidrChar s = true -> isIPv6 s = false.
Proof.
  intros H. destruct (isIPv6 s) eqn:E; [|reflexivity].
  apply isIPv6_colon in E.
  rewrite (forall_chars_nomem cidrChar ":" s) in E; [discriminate|reflexivity|exact H].
Qed.

Lemma cidr_line_not_IP base mask :
  isIPv4 base = true -> digits1 mask = true ->
  net_isIP isIPv6 (base ++ "/" ++ mask) = 0.
Proof.
  intros Hb Hm. unfold net_isIP.
  rewrite slash_not_IPv4, cidrChar_not_IPv6; [reflexivity|].
  now apply cidr_line_chars.
Qed.

Lemma v4Seg_digits1 s : v4Seg s = true -> digits1 s = true.
Proof.
  intros H. destruct (v4Seg_canon s H) as (B & E).
  rewrite <- E. now apply octet_digits.
Qed.

Lemma cidrMatch_line base mask :
  isIPv4 base = true -> digits1 mask = true -> (String.length mask <= 2)%nat ->
  cidrMatch (base ++ "/" ++ mask) = Some (base, mask).
Proof.
  intros Hb Hm Hl. unfold cidrMatch.
  change (base ++ "/" ++ mask) with (base ++ String "/" mask).
  rewrite split_char_app by now apply isIPv4_no_slash.
  rewrite split_char_nomem
    by (apply (forall_chars_nomem JS.isDigit); [reflexivity|now apply digits1_chars]).
  unfold isIPv4 in Hb.
  destruct (JS.split_char "." base) as [|a [|b [|c [|d [|e l]]]]]; try discriminate.
  repeat (apply andb_true_iff in Hb as [Hb ?]).
  rewrite !v4Seg_digits1 by assumption. rewrite Hm. simpl.
  apply Nat.leb_le in Hl. now rewrite Hl.
Qed.

Lemma trimEnd_id s :
  JS.forall_chars (fun c => negb (JS.isSpace c)) s = true -> JS.trimEnd s = s.
Proof.
  induction s as [|a s IH]; simpl; [reflexivity|].
  intros H. apply andb_true_iff in H as [Ha Hs].
  rewrite (IH Hs). apply negb_true_iff in Ha. rewrite Ha.
  now destruct s.
Qed.

Lemma trimStart_id s :
  JS.forall_chars (fun c => negb (JS.isSpace c)) s = true -> JS.trimStart s = s.
Proof.
  destruct s as [|a s]; simpl; [reflexivity|].
  intros H. apply andb_true_iff in H as [Ha _].
  apply negb_true_iff in Ha. now rewrite Ha.
Qed.

Lemma trim_id s :
  JS.forall_chars (fun c => negb (JS.isSpace c)) s = true -> JS.trim s = s.
Proof.
  intros H. unfold JS.trim. rewrite trimStart_id by assumption.
  now apply trimEnd_id.
Qed.

Lemma cidrChar_not_space c : cidrChar c = true -> negb (JS.isSpace c) = true.
Proof.
  unfold cidrChar, JS.isSpace, JS.isDigit. intros H.
  apply negb_true_iff.
  repeat (apply orb_true_iff in H as [H|H]).
  - apply andb_true_iff in H as [H1 H2]. apply Z.leb_le in H1, H2.
    destruct (Z.leb_spec 9 (JS.code c)), (Z.leb_spec (JS.code c) 13),
      (Z.eqb_spec (JS.code c) 32), (Z.eqb_spec (JS.code c) 160);
      simpl; try reflexivity; lia.
  - apply Ascii.eqb_eq in H. now subst c.
  - apply Ascii.eqb_eq in H. now subst c.
Qed.

Lemma numberAcc_nonneg s acc :
  JS.forall_chars JS.isDigit s = true -> 0 <= acc -> 0 <= JS.numberAcc s acc.
Proof.
  revert acc.
  induction s as [|a s IH]; cbn [JS.numberAcc JS.forall_chars];
    intros acc H Ha; [assumption|].
  apply andb_true_iff in H as [Hd Hs]. apply IH; [assumption|].
  unfold JS.isDigit in Hd. apply andb_true_iff in Hd as [H1 H2].
  apply Z.leb_le in H1, H2. unfold JS.digitVal. lia.
Qed.

Lemma Number_nonneg s : digits1 s = true -> 0 <= JS.Number s.
Proof.
  intros H. apply numberAcc_nonneg; [now apply digits1_chars|lia].
Qed.

Lemma zrange_length v n : List.length (zrange v n) = n.
Proof. revert v. induction n; simpl; intros; [reflexivity|now rewrite IHn]. Qed.

Lemma zrange_nth v n k :
  (k < n)%nat -> nth_error (zrange v n) k = Some (v + Z.of_nat k).
Proof.
  revert v k. induction n as [|n IH]; intros v k Hk; [lia|].
  destruct k as [|k]; simpl.
  - f_equal. lia.
  - rewrite IH by lia. f_equal. lia.
Qed.

(** The loop yields consecutive addresses from [current] and stops at the
    iteration count or after the last address [c0.255.255.255]. *)
Lemma cidrLoop_spec origin c0 : 0 <= c0 <= 255 ->
  forall n c1 c2 c3,
    0 <= c1 <= 255 -> 0 <= c2 <= 255 -> 0 <= c3 <= 255 ->
    cidrLoop isIPv6 n origin (c0, c1, c2, c3) =
      map (fun u => Yield (cidrHost origin u))
        (zrange (c0 * 2 ^ 24 + c1 * 2 ^ 16 + c2 * 2 ^ 8 + c3)
           (Nat.min n (Z.to_nat (2 ^ 24 - (c1 * 2 ^ 16 + c2 * 2 ^ 8 + c3))))).
Proof.
  intros H0. induction n as [|n IH]; intros c1 c2 c3 H1 H2 H3; [reflexivity|].
  cbn [cidrLoop].
  change (JS.join "." (map JS.toString [c0; c1; c2; c3])) with (quad c0 c1 c2 c3).
  rewrite (net_isIP_v4 _ (isIPv4_quad c0 c1 c2 c3 H0 H1 H2 H3)).
  cbn [Z.eqb]. cbv iota.
  rewrite <- (ipv4OfZ_quad c0 c1 c2 c3) by assumption.
  set (w := c1 * 2 ^ 16 + c2 * 2 ^ 8 + c3).
  set (v := c0 * 2 ^ 24 + c1 * 2 ^ 16 + c2 * 2 ^ 8 + c3).
  assert (forall m, 0 <= m -> Z.to_nat (2 ^ 24 - w) = S (Z.to_nat m) ->
            Nat.min (S n) (Z.to_nat (2 ^ 24 - w)) = S (Nat.min n (Z.to_nat m))) as Hmin
    by (intros; lia).
  rewrite Z.gtb_ltb.
  destruct (Z.ltb_spec 255 (c3 + 1)) as [C3|C3].
  - rewrite Z.gtb_ltb. destruct (Z.ltb_spec 255 (c2 + 1)) as [C2|C2].
    + rewrite Z.gtb_ltb. destruct (Z.ltb_spec 255 (c1 + 1)) as [C1|C1].
      * replace (Nat.min (S n) (Z.to_nat (2 ^ 24 - w))) with 1%nat
          by (subst w; lia).
        reflexivity.
      * rewrite IH by lia.
        rewrite (Hmin (2 ^ 24 - ((c1 + 1) * 2 ^ 16 + 0 * 2 ^ 8 + 0)))
          by (subst w; lia).
        cbn [zrange map app]. do 3 f_equal. subst v. lia.
    + rewrite IH by lia.
      rewrite (Hmin (2 ^ 24 - (c1 * 2 ^ 16 + (c2 + 1) * 2 ^ 8 + 0)))
        by (subst w; lia).
      cbn [zrange map app]. do 3 f_equal. subst v. lia.
  - rewrite IH by lia.
    rewrite (Hmin (2 ^ 24 - (c1 * 2 ^ 16 + c2 * 2 ^ 8 + (c3 + 1))))
      by (subst w; lia).
    cbn [zrange map app]. do 3 f_equal. subst v. lia.
Qed.

Lemma append_not_empty a c b : String.eqb (a ++ String c b) EmptyString = false.
Proof. now destruct a. Qed.

(** A line that trims to [base/mask], [base] an IPv4 literal and the mask at
    most 32, expands to consecutive members from [base]. *)
Lemma iterateLine_cidr line base mask e :
  JS.trim line = base ++ "/" ++ mask ->
  isIPv4 base = true -> digits1 mask = true -> (String.length mask <= 2)%nat ->
  JS.Number mask <= 32 ->
  iterateLine isIPv6 e line =
    map (fun u => Yield (cidrHost (base ++ "/" ++ mask) u))
      (zrange (ipv4Value base)
         (Z.to_nat (Z.min (2 ^ (32 - JS.Number mask))
                          (2 ^ 24 - ipv4Value base mod 2 ^ 24)))).
Proof.
  intros Ht Hb Hm Hl Hle. unfold iterateLine. rewrite Ht.
  change (base ++ "/" ++ mask) with (base ++ String "/" mask) at 1.
  rewrite append_not_empty.
  rewrite (cidr_line_not_IP base mask Hb Hm). cbn [Z.eqb negb andb].
  rewrite (cidrMatch_line base mask Hb Hm Hl).
  pose proof (Number_nonneg mask Hm) as Hge.
  replace (JS.Number mask >=? 0) with true by (symmetry; apply Z.geb_le; lia).
  replace (JS.Number mask <=? 32) with true by (symmetry; apply Z.leb_le; lia).
  cbn [andb].
  destruct (isIPv4_inv base Hb) as (p0 & p1 & p2 & p3 & H0 & H1 & H2 & H3 & E).
  assert (map JS.Number (JS.split_char "." base) = [p0; p1; p2; p3]) as En
    by (rewrite E; now apply numbers_quad).
  assert (ipv4Value base = p0 * 2 ^ 24 + p1 * 2 ^ 16 + p2 * 2 ^ 8 + p3) as Ev
    by (rewrite E; now apply ipv4Value_quad).
  rewrite En, Ev. rewrite cidrLoop_spec by assumption.
  replace ((p0 * 2 ^ 24 + p1 * 2 ^ 16 + p2 * 2 ^ 8 + p3) mod 2 ^ 24)
    with (p1 * 2 ^ 16 + p2 * 2 ^ 8 + p3).
  2:{ replace (p0 * 2 ^ 24 + p1 * 2 ^ 16 + p2 * 2 ^ 8 + p3)
        with ((p1 * 2 ^ 16 + p2 * 2 ^ 8 + p3) + p0 * 2 ^ 24) by lia.
      rewrite Z.mod_add by lia. symmetry. apply Z.mod_small. lia. }
  rewrite Z2Nat.inj_min. reflexivity.
Qed.

Lemma iterateLine_cidr_bad_mask line base mask e :
  JS.trim line = base ++ "/" ++ mask ->
  isIPv4 base = true -> digits1 mask = true -> (String.length mask <= 2)%nat ->
  32 < JS.Number mask ->
  iterateLine isIPv6 e line = [].
Proof.
  intros Ht Hb Hm Hl Hgt. unfold iterateLine. rewrite Ht.
  change (base ++ "/" ++ mask) with (base ++ String "/" mask) at 1.
  rewrite append_not_empty.
  rewrite (cidr_line_not_IP base mask Hb Hm). cbn [Z.eqb negb andb].
  rewrite (cidrMatch_line base mask Hb Hm Hl).
  replace (JS.Number mask <=? 32) with false by (symmetry; apply Z.leb_gt; lia).
  now rewrite andb_false_r.
Qed.

Lemma iterateLine_ip line e :
  isIPv4 (JS.trim line) = true \/ (isIPv6 (JS.trim line) = true /\ e = true) ->
  iterateLine isIPv6 e line = [Yield (ipHost (JS.trim line))].
Proof.
  intros H. unfold iterateLine, net_isIP.
  assert (String.eqb (JS.trim line) EmptyString = false) as Hne.
  { destruct (JS.trim line); [|reflexivity].
    destruct H as [H|[H _]]; [discriminate|].
    apply isIPv6_colon in H. discriminate. }
  rewrite Hne.
  destruct (isIPv4 (JS.trim line)) eqn:E4; [reflexivity|].
  destruct H as [H|[H ->]]; [discriminate|]. now rewrite H.
Qed.

Lemma domain_chars s :
  validateDomainName s = true -> JS.forall_chars domainChar s = true.
Proof. unfold validateDomainName. intros H. now apply andb_true_iff in H as [_ H]. Qed.

Lemma iterateLine_domain line e :
  validateDomainName (JS.trim line) = true -> isIPv4 (JS.trim line) = false ->
  iterateLine isIPv6 e line = [Yield (mkHost None (JS.trim line) Domain)].
Proof.
  intros Hd H4. unfold iterateLine, net_isIP. rewrite H4.
  pose proof (domain_chars _ Hd) as Hc.
  assert (isIPv6 (JS.trim line) = false) as H6.
  { destruct (isIPv6 (JS.trim line)) eqn:E; [|reflexivity].
    apply isIPv6_colon in E.
    rewrite (forall_chars_nomem domainChar ":" _ eq_refl Hc) in E. discriminate. }
  rewrite H6.
  assert (cidrMatch (JS.trim line) = None) as Hm.
  { unfold cidrMatch.
    now rewrite (split_char_nomem "/" _
                   (forall_chars_nomem domainChar "/" _ eq_refl Hc)). }
  rewrite Hm, Hd.
  unfold validateDomainName in Hd. apply andb_true_iff in Hd as [Hne _].
  apply negb_true_iff in Hne. now rewrite Hne.
Qed.

Lemma iterateLine_invalid line e :
  JS.trim line <> EmptyString ->
  net_isIP isIPv6 (JS.trim line) = 0 ->
  cidrMatch (JS.trim line) = None ->
  validateDomainName (JS.trim line) = false ->
  iterateLine isIPv6 e line =
    [Warn ("Not a valid IP, CIDR, or domain: " ++ JS.trim line)].
Proof.
  intros Hne H0 Hm Hd. unfold iterateLine.
  apply String.eqb_neq in Hne. now rewrite Hne, H0, Hm, Hd.
Qed.

Lemma yields_app a b : yields (a ++ b) = (yields a ++ yields b)%list.
Proof. unfold yields. apply flat_map_app. Qed.

Lemma warnings_app a b : warnings (a ++ b) = (warnings a ++ warnings b)%list.
Proof. unfold warnings. apply flat_map_app. Qed.

Lemma yields_map_Yield l : yields (map Yield l) = l.
Proof. induction l; simpl; [reflexivity|now f_equal]. Qed.

Lemma warnings_map_Yield l : warnings (map Yield l) = [].
Proof. induction l; simpl; [reflexivity|assumption]. Qed.

Lemma yields_flat_map {A} (f : A -> list Event) l :
  yields (flat_map f l) = flat_map (fun x => yields (f x)) l.
Proof.
  induction l as [|x l IH]; simpl; [reflexivity|].
  now rewrite yields_app, IH.
Qed.

Lemma warnings_flat_map {A} (f : A -> list Event) l :
  warnings (flat_map f l) = flat_map (fun x => warnings (f x)) l.
Proof.
  induction l as [|x l IH]; simpl; [reflexivity|].
  now rewrite warnings_app, IH.
Qed.

(** C1.  What the loop of [iterate] does with a line [base/mask], [base] a
    valid IPv4 literal of value [v] and [mask] in [0,32]: without any
    warning it yields the addresses [v], [v+1], ... in ascending order from
    the base address, each of kind CIDR with the CIDR literal as origin,
    [min (2^(32-mask)) (2^24 - v mod 2^24)] of them.  These are the
    [2^(32-mask)] members of the block when it does not run past the last
    address that shares the first octet of [base].  When it does, the
    loop leaves at the carry out of the second octet (it never carries into
    the first) and members are missing: [10.0.0.0/7] names [2^25] addresses
    and yields [2^24]. *)
Theorem cidr_expansion_members (line base mask : string) (e : bool) :
  JS.trim line = base ++ "/" ++ mask ->
  isIPv4 base = true -> digits1 mask = true -> (String.length mask <= 2)%nat ->
  JS.Number mask <= 32 ->
  let v := ipv4Value base in
  let n := Z.min (2 ^ (32 - JS.Number mask)) (2 ^ 24 - v mod 2 ^ 24) in
  let out := iterate isIPv6 [line] e in
  warnings out = []
  /\ Z.of_nat (List.length (yields out)) = n
  /\ 1 <= n <= 2 ^ (32 - JS.Number mask)
  /\ (v mod 2 ^ 24 + 2 ^ (32 - JS.Number mask) <= 2 ^ 24 ->
      n = 2 ^ (32 - JS.Number mask))
  /\ (forall k, 0 <= k < n ->
        nth_error (yields out) (Z.to_nat k)
          = Some (mkHost (Some (ipv4OfZ (v + k))) (base ++ "/" ++ mask) CIDR)
        /\ ipv4Value (ipv4OfZ (v + k)) = v + k)
  /\ (2 ^ 24 < v mod 2 ^ 24 + 2 ^ (32 - JS.Number mask) ->
      n < 2 ^ (32 - JS.Number mask))
  /\ Z.of_nat (List.length (yields (iterate isIPv6 ["10.0.0.0/7"] e))) = 2 ^ 24
  /\ 2 ^ 24 < 2 ^ (32 - 7).
Proof.
  intros Ht Hb Hm Hl Hle v n out.
  pose proof (Number_nonneg mask Hm) as Hge.
  pose proof (ipv4Value_bound base Hb) as Hv. fold v in Hv.
  pose proof (Z.mod_pos_bound v (2 ^ 24) ltac:(lia)) as Hw.
  assert (0 < 2 ^ (32 - JS.Number mask)) as Hp by (apply Z.pow_pos_nonneg; lia).
  assert (out = map (fun u => Yield (cidrHost (base ++ "/" ++ mask) u))
                  (zrange v (Z.to_nat n))) as Eo.
  { unfold out, iterate. cbn [flat_map]. rewrite app_nil_r.
    now apply iterateLine_cidr. }
  assert (yields out = map (cidrHost (base ++ "/" ++ mask)) (zrange v (Z.to_nat n)))
    as Ey.
  { rewrite Eo, <- (map_map (cidrHost (base ++ "/" ++ mask)) Yield).
    apply yields_map_Yield. }
  assert (v + n <= 2 ^ 32) as Hvn.
  { assert (v = v mod 2 ^ 24 + 2 ^ 24 * (v / 2 ^ 24)) as D
      by (rewrite Z.add_comm; apply Z.div_mod; lia).
    assert (v / 2 ^ 24 <= 255) by (apply Z.lt_succ_r, Z.div_lt_upper_bound; lia).
    subst n. lia. }
  split; [|split; [|split; [|split; [|split; [|split; [|split]]]]]].
  - rewrite Eo, <- (map_map (cidrHost (base ++ "/" ++ mask)) Yield).
    apply warnings_map_Yield.
  - rewrite Ey, length_map, zrange_length. subst n. lia.
  - subst n. lia.
  - intros Hfit. subst n. lia.
  - intros k Hk. split.
    + rewrite Ey, nth_error_map.
      rewrite zrange_nth by (apply Z2Nat.inj_lt; lia).
      cbn [option_map]. unfold cidrHost. rewrite Z2Nat.id by lia. reflexivity.
    + apply ipv4Value_ofZ. lia.
  - intros Hpast. subst n. lia.
  - assert (JS.Number "7" <= 32) as H7 by (vm_compute; discriminate).
    assert (String.length "7" <= 2)%nat as L7 by (simpl; lia).
    unfold iterate. cbn [flat_map]. rewrite app_nil_r.
    rewrite (iterateLine_cidr "10.0.0.0/7" "10.0.0.0" "7" e eq_refl eq_refl
               eq_refl L7 H7).
    rewrite <- (map_map (cidrHost ("10.0.0.0" ++ "/" ++ "7")) Yield).
    rewrite yields_map_Yield, length_map, zrange_length.
    rewrite Z2Nat.id by (vm_compute; discriminate).
    vm_compute. reflexivity.
  - vm_compute. reflexivity.
Qed.

Lemma aligned30_fits v :
  0 <= v -> v mod 4 = 0 -> Z.min (2 ^ (32 - 30)) (2 ^ 24 - v mod 2 ^ 24) = 4.
Proof.
  intros Hv Ha.
  pose proof (Z.mod_pos_bound v (2 ^ 24) ltac:(lia)) as Hw.
  assert ((v mod 2 ^ 24) mod 4 = 0) as Hw4.
  { rewrite <- Ha. apply Z.mod_mod_divide. exists (2 ^ 22). lia. }
  pose proof (Z.div_mod (v mod 2 ^ 24) 4 ltac:(lia)) as D.
  change (2 ^ (32 - 30)) with 4. lia.
Qed.

(** C5.  A line source made of one valid literal IP, one valid [/30] CIDR
    (base a valid IPv4 literal with its two host bits clear), one [/33]
    CIDR, one domain token and one token that is none of these, in any
    order, yields exactly 6 targets; the [/33] line produces nothing at all
    (neither target nor warning), the invalid token produces no target and
    the one warning of the run, and the lines after it are still
    enumerated. *)
Theorem enumerate_mixed_line_source
  (ipL cidrL badL domL invL base30 base33 : string) (lines : list string)
  (e : bool) :
  (isIPv4 (JS.trim ipL) = true \/ (isIPv6 (JS.trim ipL) = true /\ e = true)) ->
  JS.trim cidrL = base30 ++ "/" ++ "30" -> isIPv4 base30 = true ->
  ipv4Value base30 mod 4 = 0 ->
  JS.trim badL = base33 ++ "/" ++ "33" -> isIPv4 base33 = true ->
  validateDomainName (JS.trim domL) = true -> isIPv4 (JS.trim domL) = false ->
  JS.trim invL <> EmptyString -> net_isIP isIPv6 (JS.trim invL) = 0 ->
  cidrMatch (JS.trim invL) = None -> validateDomainName (JS.trim invL) = false ->
  Permutation lines [ipL; cidrL; badL; domL; invL] ->
  List.length (yields (iterate isIPv6 lines e)) = 6%nat
  /\ List.length (yields (iterateLine isIPv6 e ipL)) = 1%nat
  /\ List.length (yields (iterateLine isIPv6 e cidrL)) = 4%nat
  /\ iterateLine isIPv6 e badL = []
  /\ List.length (yields (iterateLine isIPv6 e domL)) = 1%nat
  /\ yields (iterateLine isIPv6 e invL) = []
  /\ warnings (iterate isIPv6 lines e)
     = ["Not a valid IP, CIDR, or domain: " ++ JS.trim invL].
Proof.
  intros Hip Hc Hcb Hca Hb Hbb Hd Hd4 Hi1 Hi2 Hi3 Hi4 Hperm.
  pose proof (iterateLine_ip ipL e Hip) as E1.
  pose proof (iterateLine_cidr cidrL base30 "30" e Hc Hcb eq_refl
                ltac:(simpl; lia) ltac:(vm_compute; discriminate)) as E2.
  change (JS.Number "30") with 30 in E2.
  rewrite aligned30_fits in E2
    by (try apply (ipv4Value_bound base30 Hcb); assumption).
  pose proof (iterateLine_cidr_bad_mask badL base33 "33" e Hb Hbb eq_refl
                ltac:(simpl; lia) ltac:(vm_compute; reflexivity)) as E3.
  pose proof (iterateLine_domain domL e Hd Hd4) as E4.
  pose proof (iterateLine_invalid invL e Hi1 Hi2 Hi3 Hi4) as E5.
  assert (Permutation (yields (iterate isIPv6 lines e))
            (yields (iterate isIPv6 [ipL; cidrL; badL; domL; invL] e))) as Py.
  { unfold iterate. rewrite !yields_flat_map. now apply Permutation_flat_map. }
  assert (Permutation (warnings (iterate isIPv6 lines e))
            (warnings (iterate isIPv6 [ipL; cidrL; badL; domL; invL] e))) as Pw.
  { unfold iterate. rewrite !warnings_flat_map. now apply Permutation_flat_map. }
  unfold iterate in Py, Pw. cbn [flat_map] in Py, Pw.
  rewrite E1, E2, E3, E4, E5 in Py, Pw.
  rewrite E1, E2, E3, E4, E5.
  repeat split; try reflexivity.
  - unfold iterate. now rewrite (Permutation_length Py).
  - unfold iterate.
    apply Permutation_sym, Permutation_length_1_inv in Pw. exact Pw.
Qed.

(** ** The endless walk of [iterateAddr] *)

Lemma orStr_ipv4 u y : JS.orStr (Some (ipv4OfZ u)) y = ipv4OfZ u.
Proof.
  unfold JS.orStr.
  destruct (String.eqb_spec (ipv4OfZ u) EmptyString) as [E|E]; [|reflexivity].
  now apply ipv4OfZ_nonempty in E.
Qed.

Lemma walkStep_v4 j l h :
  0 <= j < JS.MAX_SAFE_INTEGER -> 0 <= l <= maxIPv4 -> 0 <= h <= maxIPv4 ->
  walkStep isIPv6 (mkWalk j (ipv4OfZ l) (ipv4OfZ h)) =
    Some (if j mod 2 =? 0
          then (ipHost (ipv4OfZ (Z.max 0 (l - 1))),
                mkWalk (j + 1) (ipv4OfZ (Z.max 0 (l - 1))) (ipv4OfZ h))
          else (ipHost (ipv4OfZ (Z.min maxIPv4 (h + 1))),
                mkWalk (j + 1) (ipv4OfZ l) (ipv4OfZ (Z.min maxIPv4 (h + 1))))).
Proof.
  unfold maxIPv4. intros Hj Hl Hh. unfold walkStep. cbn [w_i lowIP highIP].
  destruct (Z.ltb_spec j JS.MAX_SAFE_INTEGER) as [_|C]; [|lia].
  rewrite !nextIP_v4 by apply isIPv4_ofZ. cbv zeta.
  rewrite !ipv4Value_ofZ by lia.
  destruct (j mod 2 =? 0).
  - destruct (Z.ltb_spec (l - 1) 0) as [L|L]; cbn [orb].
    + replace (Z.max 0 (l - 1)) with l by lia. reflexivity.
    + rewrite Z.gtb_ltb. destruct (Z.ltb_spec 4294967295 (l - 1)); [lia|].
      rewrite orStr_ipv4.
      replace (Z.max 0 (l - 1)) with (l - 1) by lia. reflexivity.
  - destruct (Z.ltb_spec (h + 1) 0) as [L|L]; [lia|]. cbn [orb].
    rewrite Z.gtb_ltb. destruct (Z.ltb_spec 4294967295 (h + 1)).
    + replace (Z.min 4294967295 (h + 1)) with h by lia. reflexivity.
    + rewrite orStr_ipv4.
      replace (Z.min 4294967295 (h + 1)) with (h + 1) by lia. reflexivity.
Qed.

Lemma walkTake_v4 n : forall j l h,
  0 <= j -> j + Z.of_nat n <= JS.MAX_SAFE_INTEGER ->
  0 <= l <= maxIPv4 -> 0 <= h <= maxIPv4 ->
  walkTake isIPv6 n (mkWalk j (ipv4OfZ l) (ipv4OfZ h))
  = map (fun u => ipHost (ipv4OfZ u)) (walkVals n j l h).
Proof.
  induction n as [|n IH]; intros j l h Hj Hn Hl Hh; [reflexivity|].
  cbn [walkTake walkVals]. rewrite walkStep_v4 by lia.
  destruct (j mod 2 =? 0); cbn [map]; f_equal; apply IH; unfold maxIPv4 in *; lia.
Qed.

Lemma walkVals_length n : forall j l h, List.length (walkVals n j l h) = n.
Proof.
  induction n as [|n IH]; intros j l h; [reflexivity|].
  cbn [walkVals]. destruct (j mod 2 =? 0); cbn [List.length]; now rewrite IH.
Qed.

Lemma walkVals_nth n : forall j l h k,
  0 <= j -> (k < n)%nat ->
  nth_error (walkVals n j l h) k =
    Some (if (j + Z.of_nat k) mod 2 =? 0
          then Z.max 0 (l - (Z.of_nat k + 2 - j mod 2) / 2)
          else Z.min maxIPv4 (h + (Z.of_nat k + 1 + j mod 2) / 2)).
Proof.
  induction n as [|n IH]; intros j l h k Hj Hk; [lia|].
  cbn [walkVals].
  destruct k as [|k].
  - replace (j + Z.of_nat 0) with j by lia.
    destruct (Z.eqb_spec (j mod 2) 0) as [E|E]; cbn [nth_error]; f_equal.
    + rewrite E. f_equal.
    + assert (j mod 2 = 1) as -> by lia_dm.
      f_equal.
  - replace (j + Z.of_nat (S k)) with ((j + 1) + Z.of_nat k) by lia.
    destruct (Z.eqb_spec (j mod 2) 0) as [E|E]; cbn [nth_error];
      rewrite IH by lia; apply f_equal.
    + assert ((j + 1) mod 2 = 1) as E1 by lia_dm.
      rewrite E, E1.
      destruct ((j + 1 + Z.of_nat k) mod 2 =? 0); lia_dm.
    + assert (j mod 2 = 1) as E0 by lia_dm.
      assert ((j + 1) mod 2 = 0) as E1 by lia_dm.
      rewrite E0, E1.
      destruct ((j + 1 + Z.of_nat k) mod 2 =? 0); lia_dm.
Qed.

Lemma cidrMatch_IPv4 s : isIPv4 s = true -> cidrMatch s = None.
Proof.
  intros H. unfold cidrMatch.
  now rewrite (split_char_nomem "/" s (isIPv4_no_slash s H)).
Qed.

Lemma digits1_no_colon s : digits1 s = true -> JS.mem_char ":" s = false.
Proof.
  intros H. apply (forall_chars_nomem JS.isDigit); [reflexivity|].
  now apply digits1_chars.
Qed.

(** No string of the CIDR form is an IP literal. *)
Lemma cidrMatch_not_IP s bm : cidrMatch s = Some bm -> net_isIP isIPv6 s = 0.
Proof.
  unfold cidrMatch. intros H.
  pose proof (join_split_char "/" s) as Js.
  destruct (JS.split_char "/" s) as [|b [|m [|x l]]]; try discriminate.
  pose proof (join_split_char "." b) as Jb.
  destruct (JS.split_char "." b) as [|p0 [|p1 [|p2 [|p3 [|y l]]]]];
    try discriminate.
  destruct (digits1 p0 && digits1 p1 && digits1 p2 && digits1 p3 && digits1 m
            && (String.length m <=? 2)%nat) eqn:E; [|discriminate].
  apply andb_true_iff in E as [E Hl]. apply andb_true_iff in E as [E Dm].
  apply andb_true_iff in E as [E D3]. apply andb_true_iff in E as [E D2].
  apply andb_true_iff in E as [D0 D1].
  cbn [JS.join] in Js, Jb. unfold net_isIP.
  assert (isIPv4 s = false) as ->.
  { rewrite <- Js. change (String "/" EmptyString ++ m) with ("/" ++ m).
    apply slash_not_IPv4. }
  assert (JS.mem_char ":" s = false) as Hc.
  { rewrite <- Js, <- Jb.
    repeat (rewrite mem_char_app; cbn [String.append JS.mem_char]).
    rewrite (digits1_no_colon p0), (digits1_no_colon p1), (digits1_no_colon p2),
      (digits1_no_colon p3), (digits1_no_colon m) by assumption.
    reflexivity. }
  destruct (isIPv6 s) eqn:E6; [|reflexivity].
  apply isIPv6_colon in E6. congruence.
Qed.

Lemma walkTake_length n : forall w,
  0 <= w_i w -> w_i w + Z.of_nat n <= JS.MAX_SAFE_INTEGER ->
  List.length (walkTake isIPv6 n w) = n.
Proof.
  induction n as [|n IH]; intros w H0 H1; [reflexivity|].
  cbn [walkTake]. unfold walkStep at 1.
  destruct (Z.ltb_spec (w_i w) JS.MAX_SAFE_INTEGER) as [_|C]; [|lia].
  destruct (w_i w mod 2 =? 0); cbn [List.length]; f_equal;
    apply IH; cbn [w_i]; lia.
Qed.

(** A literal IP seeds the endless walk. *)
Lemma iterateAddr_literal lit n :
  net_isIP isIPv6 lit <> 0 ->
  yields (iterateAddr isIPv6 dnsLookup lit n)
  = ipHost lit :: walkTake isIPv6 n (mkWalk 0 lit lit).
Proof.
  intros H. unfold iterateAddr.
  destruct (cidrMatch lit) as [bm|] eqn:E.
  - apply cidrMatch_not_IP in E. contradiction.
  - apply Z.eqb_neq in H. rewrite H.
    cbn [negb yields flat_map app].
    fold (yields (map Yield (walkTake isIPv6 n (mkWalk 0 lit lit)))).
    now rewrite yields_map_Yield.
Qed.

Lemma iterateAddr_v4 seed n :
  isIPv4 seed = true -> Z.of_nat n <= JS.MAX_SAFE_INTEGER ->
  yields (iterateAddr isIPv6 dnsLookup seed n)
  = ipHost seed
    :: map (fun u => ipHost (ipv4OfZ u))
         (walkVals n 0 (ipv4Value seed) (ipv4Value seed)).
Proof.
  intros H Hn. unfold iterateAddr.
  rewrite (cidrMatch_IPv4 seed H), (net_isIP_v4 seed H).
  cbn [Z.eqb negb yields flat_map app]. fold (yields (map Yield
    (walkTake isIPv6 n (mkWalk 0 seed seed)))).
  rewrite yields_map_Yield. f_equal.
  pose proof (ipv4Value_bound seed H) as B.
  rewrite <- (ipv4OfZ_value seed H) at 1 2.
  apply walkTake_v4; unfold maxIPv4; lia.
Qed.

Lemma walkAddr_inj v i j : 0 <= i -> 0 <= j -> walkAddr v i = walkAddr v j -> i = j.
Proof.
  unfold walkAddr. intros Hi Hj.
  destruct (Z.eqb_spec (i mod 2) 1), (Z.eqb_spec (j mod 2) 1); lia_dm.
Qed.

(** C4.  The walk seeded at an IPv4 literal of value [v] yields the seed
    unchanged, then strictly alternates one step down and one step up from
    the low and high watermark: target [2k+1] is [v-(k+1)] and target
    [2k+2] is [v+(k+1)], for as long as that address is inside the address
    space.  Hence no address is skipped on either side, and no address is
    yielded twice before a boundary is met.  Seeded at 10.0.0.5, the first
    three targets are 10.0.0.5, 10.0.0.4 and 10.0.0.6.  For every literal IP
    (IPv4 or IPv6) the first target is the seed unchanged, and the walk goes
    on after it.

    For a seed that [net.isIP] accepts as IPv6 with its last two groups
    written as a dotted quad, the walk does skip addresses: [nextIP] splits
    the expanded text at the colons and reads the part 1.2.3.4 with
    [parseInt(.., 16)], which stops at the first dot.  The seed
    ::ffff:1.2.3.4, whose value is 0xffff01020304, is followed by ::ffff:0
    and ::ffff:2, not by its neighbours ::ffff:102:303 and
    ::ffff:102:305. *)
Theorem single_address_walk (seed : string) (n : nat) :
  isIPv4 seed = true -> Z.of_nat n <= JS.MAX_SAFE_INTEGER ->
  let v := ipv4Value seed in
  let out := yields (iterateAddr isIPv6 dnsLookup seed n) in
  List.length out = S n
  /\ nth_error out 0 = Some (ipHost seed)
  /\ (forall idx, 0 <= idx <= Z.of_nat n -> 0 <= walkAddr v idx <= maxIPv4 ->
        nth_error out (Z.to_nat idx) = Some (ipHost (ipv4OfZ (walkAddr v idx)))
        /\ ipv4Value (ipv4OfZ (walkAddr v idx)) = walkAddr v idx)
  /\ (forall k, 0 <= k -> walkAddr v (2 * k + 1) = v - (k + 1)
                          /\ walkAddr v (2 * k + 2) = v + (k + 1))
  /\ (forall i j, 0 <= i < j -> j <= Z.of_nat n ->
        0 <= walkAddr v i <= maxIPv4 -> 0 <= walkAddr v j <= maxIPv4 ->
        nth_error out (Z.to_nat i) <> nth_error out (Z.to_nat j))
  /\ firstn 3 (yields (iterateAddr isIPv6 dnsLookup "10.0.0.5" 2))
     = [ipHost "10.0.0.5"; ipHost "10.0.0.4"; ipHost "10.0.0.6"]
  /\ (forall lit, net_isIP isIPv6 lit <> 0 ->
        List.length (yields (iterateAddr isIPv6 dnsLookup lit n)) = S n
        /\ nth_error (yields (iterateAddr isIPv6 dnsLookup lit n)) 0
           = Some (ipHost lit))
  /\ (isIPv6 "::ffff:1.2.3.4" = true ->
      yields (iterateAddr isIPv6 dnsLookup "::ffff:1.2.3.4" 2)
      = [ipHost "::ffff:1.2.3.4"; ipHost "::ffff:0"; ipHost "::ffff:2"]
      /\ bigIntToIPv6 (0xffff01020304 - 1) = "::ffff:102:303"
      /\ bigIntToIPv6 (0xffff01020304 + 1) = "::ffff:102:305").
Proof.
  intros H Hn v out.
  pose proof (ipv4Value_bound seed H) as B. fold v in B.
  assert (out = ipHost seed
                :: map (fun u => ipHost (ipv4OfZ u)) (walkVals n 0 v v)) as Eo
    by (now apply iterateAddr_v4).
  assert (forall idx, 0 <= idx <= Z.of_nat n -> 0 <= walkAddr v idx <= maxIPv4 ->
            nth_error out (Z.to_nat idx) = Some (ipHost (ipv4OfZ (walkAddr v idx))))
    as Hnth.
  { intros idx Hidx Hr. rewrite Eo.
    destruct (Z.eq_dec idx 0) as [->|Hz].
    - assert (walkAddr v 0 = v) as ->
        by (unfold walkAddr; change (0 mod 2 =? 1) with false;
            change (0 / 2) with 0; cbv iota; lia).
      unfold v. rewrite (ipv4OfZ_value seed H). reflexivity.
    - replace (Z.to_nat idx) with (S (Z.to_nat (idx - 1))) by lia.
      cbn [nth_error]. rewrite nth_error_map, walkVals_nth by lia.
      cbn [option_map]. do 3 f_equal.
      rewrite Z2Nat.id by lia. unfold walkAddr in *. unfold maxIPv4 in *.
      change (0 mod 2) with 0.
      destruct (Z.eqb_spec ((0 + (idx - 1)) mod 2) 0),
        (Z.eqb_spec (idx mod 2) 1); lia_dm. }
  split; [|split; [|split; [|split; [|split; [|split; [|split]]]]]].
  - rewrite Eo. cbn [List.length]. now rewrite length_map, walkVals_length.
  - rewrite Eo. reflexivity.
  - intros idx Hidx Hr. split; [now apply Hnth|].
    apply ipv4Value_ofZ. unfold maxIPv4 in Hr. lia.
  - intros k Hk. unfold walkAddr.
    destruct (Z.eqb_spec ((2 * k + 1) mod 2) 1),
      (Z.eqb_spec ((2 * k + 2) mod 2) 1); lia_dm.
  - intros i j Hij Hj Hi' Hj' E.
    rewrite !Hnth in E by lia.
    injection E as E. apply ipv4OfZ_inj in E; unfold maxIPv4 in *; try lia.
    apply walkAddr_inj in E; lia.
  - vm_compute. reflexivity.
  - intros lit Hlit. rewrite iterateAddr_literal by assumption.
    cbn [List.length nth_error]. split; [|reflexivity].
    f_equal. apply walkTake_length; cbn [w_i]; lia.
  - intros H6.
    assert (net_isIP isIPv6 "::ffff:1.2.3.4" = 6) as Hnet
      by (unfold net_isIP; rewrite H6; reflexivity).
    assert (nextIP isIPv6 "::ffff:1.2.3.4" false true = Some "::ffff:0") as Hdown
      by (unfold nextIP; rewrite Hnet; vm_compute; reflexivity).
    assert (nextIP isIPv6 "::ffff:1.2.3.4" true true = Some "::ffff:2") as Hup
      by (unfold nextIP; rewrite Hnet; vm_compute; reflexivity).
    split; [| split; vm_compute; reflexivity].
    rewrite iterateAddr_literal by (rewrite Hnet; discriminate).
    cbn [yields flat_map app walkTake]. unfold walkStep.
    cbn [w_i lowIP highIP]. change (0 <? JS.MAX_SAFE_INTEGER) with true.
    change (0 mod 2 =? 0) with true. cbv iota. rewrite Hdown.
    cbn [JS.orStr String.eqb Ascii.eqb Bool.eqb w_i lowIP highIP].
    change (0 + 1 <? JS.MAX_SAFE_INTEGER) with true.
    change ((0 + 1) mod 2 =? 0) with false. cbv iota. rewrite Hup.
    reflexivity.
Qed.

(** ** An exhausted side *)

Lemma walkStep_exhausted increment w :
  0 <= w_i w < JS.MAX_SAFE_INTEGER ->
  nextIP isIPv6 (watermark increment w) increment true = None ->
  exists h w',
    walkStep isIPv6 w = Some (h, w')
    /\ w_i w' = w_i w + 1
    /\ watermark increment w' = watermark increment w
    /\ (w_i w mod 2 = (if increment then 1 else 0) ->
        h = ipHost (watermark increment w)).
Proof.
  intros Hi Hx. unfold walkStep.
  destruct (Z.ltb_spec (w_i w) JS.MAX_SAFE_INTEGER) as [_|C]; [|lia].
  destruct (Z.eqb_spec (w_i w mod 2) 0) as [E|E];
    eexists; eexists; (split; [reflexivity|]); cbn [w_i lowIP highIP];
    (split; [reflexivity|]); destruct increment; cbn [watermark lowIP highIP] in *.
  - split; [reflexivity|]. intros; lia.
  - rewrite Hx. cbn [JS.orStr]. split; reflexivity.
  - rewrite Hx. cbn [JS.orStr]. split; reflexivity.
  - split; [reflexivity|]. intros; lia_dm.
Qed.

(** C10.  From any state of the walk in which the step function returns
    [null] for the watermark of one side, every later turn of that side,
    for as long as the loop runs, yields that unchanged watermark again as
    a target: the exhausted side is neither withheld nor pruned. *)
Theorem exhausted_side_repeats_watermark
  (increment : bool) (n : nat) : forall (w : Walk) (k : nat),
  0 <= w_i w -> w_i w + Z.of_nat n <= JS.MAX_SAFE_INTEGER ->
  nextIP isIPv6 (watermark increment w) increment true = None ->
  (k < n)%nat ->
  (w_i w + Z.of_nat k) mod 2 = (if increment then 1 else 0) ->
  List.length (walkTake isIPv6 n w) = n
  /\ nth_error (walkTake isIPv6 n w) k = Some (ipHost (watermark increment w)).
Proof.
  induction n as [|n IH]; intros w k Hi Hn Hx Hk Hpar; [lia|].
  destruct (walkStep_exhausted increment w ltac:(lia) Hx)
    as (h & w' & Es & Ei & Ew & Eh).
  cbn [walkTake]. rewrite Es. cbn [List.length].
  assert (List.length (walkTake isIPv6 n w') = n) as Hlen
    by (apply walkTake_length; lia).
  split; [now rewrite Hlen|].
  destruct k as [|k].
  - cbn [nth_error]. f_equal. apply Eh. rewrite <- Hpar. f_equal. lia.
  - cbn [nth_error]. rewrite <- Ew.
    apply IH; try lia.
    + now rewrite Ew.
    + rewrite <- Hpar. f_equal. lia.
Qed.

End Properties.

(* ================================================================== *)
(** * The enumerator with the IPv6 recogniser of the runtime *)
(* ================================================================== *)

Lemma isIPv6_ref_colon s : isIPv6_ref s = true -> JS.mem_char ":" s = true.
Proof. unfold isIPv6_ref. intros H. now apply andb_true_iff in H as [H _]. Qed.

Lemma nextIP_ipv4_step_inverse_witness :
  isIPv4 "10.0.0.5" = true
  /\ ("10.0.0.5" = "255.255.255.255" ->
      nextIP isIPv6_ref "10.0.0.5" true true = None)
  /\ ("10.0.0.5" <> "255.255.255.255" ->
      exists b, nextIP isIPv6_ref "10.0.0.5" true true = Some b
                /\ ipv4Value b = ipv4Value "10.0.0.5" + 1
                /\ nextIP isIPv6_ref b false true = Some "10.0.0.5")
  /\ ("10.0.0.5" = "0.0.0.0" -> nextIP isIPv6_ref "10.0.0.5" false true = None)
  /\ ("10.0.0.5" <> "0.0.0.0" ->
      exists b, nextIP isIPv6_ref "10.0.0.5" false true = Some b
                /\ ipv4Value b = ipv4Value "10.0.0.5" - 1
                /\ nextIP isIPv6_ref b true true = Some "10.0.0.5").
Proof.
  split; [reflexivity|].
  apply (nextIP_ipv4_step_inverse isIPv6_ref "10.0.0.5" true true).
  reflexivity.
Defined.

Lemma cidr_expansion_members_witness :
  JS.trim " 10.0.0.0/30" = "10.0.0.0" ++ "/" ++ "30"
  /\ isIPv4 "10.0.0.0" = true /\ digits1 "30" = true
  /\ (String.length "30" <= 2)%nat /\ JS.Number "30" <= 32
  /\ let v := ipv4Value "10.0.0.0" in
     let n := Z.min (2 ^ (32 - JS.Number "30")) (2 ^ 24 - v mod 2 ^ 24) in
     let out := iterate isIPv6_ref [" 10.0.0.0/30"] true in
     warnings out = []
     /\ Z.of_nat (List.length (yields out)) = n
     /\ 1 <= n <= 2 ^ (32 - JS.Number "30")
     /\ (v mod 2 ^ 24 + 2 ^ (32 - JS.Number "30") <= 2 ^ 24 ->
         n = 2 ^ (32 - JS.Number "30"))
     /\ (forall k, 0 <= k < n ->
           nth_error (yields out) (Z.to_nat k)
             = Some (mkHost (Some (ipv4OfZ (v + k))) ("10.0.0.0" ++ "/" ++ "30") CIDR)
           /\ ipv4Value (ipv4OfZ (v + k)) = v + k)
     /\ (2 ^ 24 < v mod 2 ^ 24 + 2 ^ (32 - JS.Number "30") ->
         n < 2 ^ (32 - JS.Number "30"))
     /\ Z.of_nat (List.length (yields (iterate isIPv6_ref ["10.0.0.0/7"] true)))
        = 2 ^ 24
     /\ 2 ^ 24 < 2 ^ (32 - 7).
Proof.
  assert (JS.Number "30" <= 32) as Hm by (vm_compute; discriminate).
  assert (String.length "30" <= 2)%nat as Hl by (simpl; lia).
  split; [reflexivity|]. split; [reflexivity|]. split; [reflexivity|].
  split; [exact Hl|]. split; [exact Hm|].
  exact (cidr_expansion_members isIPv6_ref isIPv6_ref_colon
           " 10.0.0.0/30" "10.0.0.0" "30" true eq_refl eq_refl eq_refl Hl Hm).
Defined.

(** Blocks that the loop cuts short.  [10.0.0.0/7] names [2^25]
    addresses, but the loop leaves at the first carry out of the second
    octet and yields the [2^24] addresses 10.0.0.0 ... 10.255.255.255 only;
    [10.255.255.255/31] yields one member, not two. *)
Lemma cidr_expansion_stops_at_first_octet :
  Z.of_nat (List.length (yields (iterate isIPv6_ref ["10.0.0.0/7"] true))) = 2 ^ 24
  /\ 2 ^ 24 <> 2 ^ (32 - 7)
  /\ yields (iterate isIPv6_ref ["10.255.255.255/31"] true)
     = [mkHost (Some "10.255.255.255") "10.255.255.255/31" CIDR]
  /\ (1 <> 2 ^ (32 - 31)).
Proof.
  split; [|split; [|split]].
  - assert (JS.Number "7" <= 32) as Hm by (vm_compute; discriminate).
    assert (String.length "7" <= 2)%nat as Hl by (simpl; lia).
    unfold iterate. cbn [flat_map]. rewrite app_nil_r.
    rewrite (iterateLine_cidr isIPv6_ref isIPv6_ref_colon
               "10.0.0.0/7" "10.0.0.0" "7" true eq_refl eq_refl eq_refl Hl Hm).
    rewrite <- (map_map (cidrHost ("10.0.0.0" ++ "/" ++ "7")) Yield).
    rewrite yields_map_Yield, length_map, zrange_length.
    rewrite Z2Nat.id by (vm_compute; discriminate).
    vm_compute. reflexivity.
  - vm_compute. discriminate.
  - vm_compute. reflexivity.
  - vm_compute. discriminate.
Qed.

Lemma enumerate_mixed_line_source_witness :
  let lines := ["example.com"; "10.0.0.0/33"; "not a host!"; "192.168.1.0/30";
                "1.1.1.1"] in
  Permutation lines
    ["1.1.1.1"; "192.168.1.0/30"; "10.0.0.0/33"; "example.com"; "not a host!"]
  /\ List.length (yields (iterate isIPv6_ref lines true)) = 6%nat
  /\ List.length (yields (iterateLine isIPv6_ref true "1.1.1.1")) = 1%nat
  /\ List.length (yields (iterateLine isIPv6_ref true "192.168.1.0/30")) = 4%nat
  /\ iterateLine isIPv6_ref true "10.0.0.0/33" = []
  /\ List.length (yields (iterateLine isIPv6_ref true "example.com")) = 1%nat
  /\ yields (iterateLine isIPv6_ref true "not a host!") = []
  /\ warnings (iterate isIPv6_ref lines true)
     = ["Not a valid IP, CIDR, or domain: " ++ JS.trim "not a host!"].
Proof.
  intros lines.
  assert (Permutation lines
            ["1.1.1.1"; "192.168.1.0/30"; "10.0.0.0/33"; "example.com";
             "not a host!"]) as P.
  { unfold lines.
    apply Permutation_sym.
    apply (Permutation_trans
             (l' := ["example.com"; "1.1.1.1"; "192.168.1.0/30"; "10.0.0.0/33";
                     "not a host!"])).
    - apply Permutation_sym.
      apply (Permutation_middle ["1.1.1.1"; "192.168.1.0/30"; "10.0.0.0/33"]
               ["not a host!"] "example.com").
    - apply perm_skip.
      apply (Permutation_trans
               (l' := ["10.0.0.0/33"; "1.1.1.1"; "192.168.1.0/30"; "not a host!"])).
      + apply Permutation_sym.
        apply (Permutation_middle ["1.1.1.1"; "192.168.1.0/30"]
                 ["not a host!"] "10.0.0.0/33").
      + apply perm_skip.
        apply (Permutation_trans
                 (l' := ["not a host!"; "1.1.1.1"; "192.168.1.0/30"])).
        * apply Permutation_sym.
          apply (Permutation_middle ["1.1.1.1"; "192.168.1.0/30"] []
                   "not a host!").
        * apply perm_skip. apply perm_swap. }
  split; [exact P|].
  refine (enumerate_mixed_line_source isIPv6_ref isIPv6_ref_colon
            "1.1.1.1" "192.168.1.0/30" "10.0.0.0/33" "example.com" "not a host!"
            "192.168.1.0" "10.0.0.0" lines true
            (or_introl eq_refl) eq_refl eq_refl eq_refl eq_refl eq_refl
            eq_refl eq_refl _ eq_refl eq_refl eq_refl P).
  discriminate.
Defined.

Lemma single_address_walk_witness :
  isIPv4 "10.0.0.5" = true /\ Z.of_nat 6 <= JS.MAX_SAFE_INTEGER
  /\ isIPv6_ref "::ffff:1.2.3.4" = true
  /\ let v := ipv4Value "10.0.0.5" in
     let out := yields (iterateAddr isIPv6_ref no_dns "10.0.0.5" 6) in
     List.length out = 7%nat
     /\ nth_error out 0 = Some (ipHost "10.0.0.5")
     /\ (forall idx, 0 <= idx <= Z.of_nat 6 -> 0 <= walkAddr v idx <= maxIPv4 ->
           nth_error out (Z.to_nat idx) = Some (ipHost (ipv4OfZ (walkAddr v idx)))
           /\ ipv4Value (ipv4OfZ (walkAddr v idx)) = walkAddr v idx)
     /\ (forall k, 0 <= k -> walkAddr v (2 * k + 1) = v - (k + 1)
                             /\ walkAddr v (2 * k + 2) = v + (k + 1))
     /\ (forall i j, 0 <= i < j -> j <= Z.of_nat 6 ->
           0 <= walkAddr v i <= maxIPv4 -> 0 <= walkAddr v j <= maxIPv4 ->
           nth_error out (Z.to_nat i) <> nth_error out (Z.to_nat j))
     /\ firstn 3 (yields (iterateAddr isIPv6_ref no_dns "10.0.0.5" 2))
        = [ipHost "10.0.0.5"; ipHost "10.0.0.4"; ipHost "10.0.0.6"]
     /\ (forall lit, net_isIP isIPv6_ref lit <> 0 ->
           List.length (yields (iterateAddr isIPv6_ref no_dns lit 6)) = 7%nat
           /\ nth_error (yields (iterateAddr isIPv6_ref no_dns lit 6)) 0
              = Some (ipHost lit))
     /\ (isIPv6_ref "::ffff:1.2.3.4" = true ->
         yields (iterateAddr isIPv6_ref no_dns "::ffff:1.2.3.4" 2)
         = [ipHost "::ffff:1.2.3.4"; ipHost "::ffff:0"; ipHost "::ffff:2"]
         /\ bigIntToIPv6 (0xffff01020304 - 1) = "::ffff:102:303"
         /\ bigIntToIPv6 (0xffff01020304 + 1) = "::ffff:102:305").
Proof.
  assert (Z.of_nat 6 <= JS.MAX_SAFE_INTEGER) as Hn by (vm_compute; discriminate).
  split; [reflexivity|]. split; [exact Hn|]. split; [reflexivity|].
  apply (single_address_walk isIPv6_ref no_dns isIPv6_ref_colon "10.0.0.5" 6
           eq_refl Hn).
Defined.

Lemma exhausted_side_repeats_watermark_witness :
  let w := mkWalk 0 "0.0.0.0" "0.0.0.0" in
  0 <= w_i w /\ w_i w + Z.of_nat 6 <= JS.MAX_SAFE_INTEGER
  /\ nextIP isIPv6_ref (watermark false w) false true = None
  /\ (4 < 6)%nat
  /\ (w_i w + Z.of_nat 4) mod 2 = 0
  /\ List.length (walkTake isIPv6_ref 6 w) = 6%nat
  /\ nth_error (walkTake isIPv6_ref 6 w) 4 = Some (ipHost "0.0.0.0").
Proof.
  intros w.
  assert (0 <= w_i w) as H0 by (vm_compute; discriminate).
  assert (w_i w + Z.of_nat 6 <= JS.MAX_SAFE_INTEGER) as H1
    by (vm_compute; discriminate).
  assert (4 < 6)%nat as H2 by lia.
  split; [exact H0|]. split; [exact H1|]. split; [reflexivity|].
  split; [exact H2|]. split; [reflexivity|].
  exact (exhausted_side_repeats_watermark isIPv6_ref false 6 w 4 H0 H1 eq_refl H2
           eq_refl).
Defined.

(* ================================================================== *)
(** * The zero run that [bigIntToIPv6] compresses *)
(* ================================================================== *)

Lemma zlen_app {A} (a b : list A) : zlen (a ++ b) = zlen a + zlen b.
Proof. unfold zlen. rewrite length_app. lia. Qed.

Lemma nth_app_lt {A} (pre s : list A) k :
  0 <= k < zlen pre ->
  nth_error (pre ++ s) (Z.to_nat k) = nth_error pre (Z.to_nat k).
Proof. unfold zlen. intros H. apply nth_error_app1. lia. Qed.

Lemma nth_app_last {A} (pre : list A) x :
  nth_error (pre ++ [x]) (Z.to_nat (zlen pre)) = Some x.
Proof.
  unfold zlen. rewrite Nat2Z.id, nth_error_app2 by lia.
  now rewrite Nat.sub_diag.
Qed.

Lemma zeroRun_app_l pre s a n : zeroRun pre a n -> zeroRun (pre ++ s) a n.
Proof.
  intros (Ha & Hn & Hb & Hz). fold (zlen pre) in Hb.
  repeat split; try assumption.
  - fold (zlen (pre ++ s)). rewrite zlen_app. unfold zlen at 2. lia.
  - intros k Hk. rewrite nth_app_lt by lia. now apply Hz.
Qed.

Lemma zeroRun_restrict pre s a n :
  zeroRun (pre ++ s) a n -> a + n <= zlen pre -> zeroRun pre a n.
Proof.
  intros (Ha & Hn & Hb & Hz) Hle.
  repeat split; try assumption.
  intros k Hk. rewrite <- (nth_app_lt pre s) by lia. now apply Hz.
Qed.

Lemma zeroRun_snoc pre a n :
  zeroRun pre a n -> a + n = zlen pre -> zeroRun (pre ++ ["0"]) a (n + 1).
Proof.
  intros (Ha & Hn & Hb & Hz) He.
  repeat split; try lia.
  - fold (zlen (pre ++ ["0"])). rewrite zlen_app. unfold zlen at 2. simpl. lia.
  - intros k Hk. destruct (Z.eq_dec k (zlen pre)) as [->|Hne].
    + apply nth_app_last.
    + rewrite nth_app_lt by lia. apply Hz. lia.
Qed.

Lemma zeroRun_empty l a : 0 <= a <= zlen l -> zeroRun l a 0.
Proof. intros H. repeat split; intros; unfold zlen in *; lia. Qed.

Lemma runInv_init : runInv [] (-1, 0, -1, 0).
Proof.
  unfold runInv. cbn [Z.eqb]. change (zlen (@nil string)) with 0.
  repeat split; try lia; try (intros; lia).
  intros a n (Ha & Hn & Hb & _) H. simpl in Hb. lia.
Qed.

Lemma runInv_step pre st x :
  runInv pre st -> runInv (pre ++ [x]) (runStep st (zlen pre, x)).
Proof.
  destruct st as [[[bs bl] cs] cl].
  intros (Hcl & Hcs & Hrun & Hsep & Hbl & Hb0 & Hbest & Hmax & Hfirst).
  assert (zlen (pre ++ [x]) = zlen pre + 1) as HL
    by (rewrite zlen_app; reflexivity).
  unfold runStep.
  destruct (String.eqb_spec x "0") as [->|Hx].
  - (* a zero group extends the current run *)
    assert (runInv (pre ++ ["0"]) (bs, bl, zlen pre - cl, cl + 1)) as Goal.
    { unfold runInv. rewrite HL.
      replace (cl + 1 =? 0) with false by (symmetry; apply Z.eqb_neq; lia).
      replace (zlen pre + 1 - (cl + 1)) with (zlen pre - cl) by lia.
      split; [lia|]. split; [reflexivity|].
      split; [apply zeroRun_snoc; [assumption|lia]|].
      split; [intros Hlt; rewrite nth_app_lt by lia; apply Hsep; lia|].
      split; [assumption|]. split; [assumption|].
      split; [intros Hpos; destruct (Hbest Hpos); split;
              [now apply zeroRun_app_l|assumption]|].
      split.
      - intros a n Hr Hlt. apply (Hmax a); [|assumption].
        apply (zeroRun_restrict pre ["0"]); [assumption|lia].
      - intros a Hpos Hr Hlt. apply Hfirst; try assumption.
        apply (zeroRun_restrict pre ["0"]); [assumption|lia]. }
    destruct (Z.eqb_spec cs (-1)) as [E|E].
    + assert (cl = 0) as -> by (destruct (Z.eqb_spec cl 0); lia).
      now replace (zlen pre - 0) with (zlen pre) in Goal by lia.
    + destruct (Z.eqb_spec cl 0); [lia|]. now rewrite Hcs.
  - (* a non-zero group ends the current run *)
    assert (forall a n, zeroRun (pre ++ [x]) a n -> a + n < zlen pre + 1 - 0 ->
              zeroRun pre a n
              /\ (n = 0 \/ a + n < zlen pre - cl \/ zlen pre - cl <= a)) as Hdich.
    { intros a n Hr Hlt.
      assert (zeroRun pre a n) as Hr'
        by (apply (zeroRun_restrict pre [x]); [assumption|lia]).
      split; [assumption|].
      destruct Hr' as (Ha & Hn & Hb & Hz).
      destruct (Z.eq_dec n 0); [now left|right].
      destruct (Z.lt_ge_cases (a + n) (zlen pre - cl)); [now left|right].
      destruct (Z.le_gt_cases (zlen pre - cl) a); [assumption|exfalso].
      apply Hsep; [lia|]. apply Hz. lia. }
    assert (zeroRun (pre ++ [x]) (zlen pre + 1 - 0) 0) as Hcur
      by (apply zeroRun_empty; rewrite HL; lia).
    assert (zlen pre + 1 - 0 - 1 = zlen pre) as Hidx by lia.
    assert (nth_error (pre ++ [x]) (Z.to_nat (zlen pre)) <> Some "0") as Hsep'
      by (rewrite nth_app_last; congruence).
    rewrite Z.gtb_ltb.
    destruct (Z.ltb_spec bl cl) as [Hgt|Hle]; unfold runInv; rewrite HL;
      cbn [Z.eqb]; (split; [lia|]); (split; [reflexivity|]);
      (split; [exact Hcur|]); (split; [intros _; rewrite Hidx; exact Hsep'|]).
    + (* the ended run is strictly longer: it becomes the best *)
      assert (cs = zlen pre - cl) as ->
        by (destruct (Z.eqb_spec cl 0); lia).
      split; [lia|]. split; [lia|].
      split; [intros _; split; [now apply zeroRun_app_l|lia]|].
      split.
      * intros a n Hr Hlt. destruct (Hdich a n Hr Hlt) as (Hr' & [H0|[H1|H2]]).
        -- lia.
        -- specialize (Hmax a n Hr' H1). lia.
        -- destruct Hr' as (_ & _ & Hb & _). fold (zlen pre) in Hb. lia.
      * intros a Hpos Hr Hlt. destruct (Hdich a cl Hr Hlt) as (Hr' & [H0|[H1|H2]]).
        -- lia.
        -- specialize (Hmax a cl Hr' H1). lia.
        -- lia.
    + (* the best run stays *)
      split; [assumption|]. split; [assumption|].
      split; [intros Hpos; destruct (Hbest Hpos); split;
              [now apply zeroRun_app_l|lia]|].
      split.
      * intros a n Hr Hlt. destruct (Hdich a n Hr Hlt) as (Hr' & [H0|[H1|H2]]).
        -- lia.
        -- exact (Hmax a n Hr' H1).
        -- destruct Hr' as (_ & _ & Hb & _). fold (zlen pre) in Hb. lia.
      * intros a Hpos Hr Hlt.
        destruct (Hdich a bl Hr Hlt) as (Hr' & [H0|[H1|H2]]).
        -- lia.
        -- now apply Hfirst.
        -- destruct (Hbest Hpos). lia.
Qed.

Lemma runInv_fold l : forall pre st,
  runInv pre st ->
  runInv (pre ++ l) (fold_left runStep (indexFrom (zlen pre) l) st).
Proof.
  induction l as [|x l IH]; intros pre st H; cbn [indexFrom fold_left].
  - now rewrite app_nil_r.
  - replace (pre ++ x :: l)%list with ((pre ++ [x]) ++ l)%list
      by (rewrite <- app_assoc; reflexivity).
    replace (zlen pre + 1) with (zlen (pre ++ [x]))
      by (rewrite zlen_app; reflexivity).
    apply IH. now apply runInv_step.
Qed.

(** [bestRun] returns the first longest run of zero groups, or [(-1, 0)]
    when there is no zero group. *)
Lemma bestRun_spec cleanParts :
  let '(bestStart, bestLength) := bestRun cleanParts in
  0 <= bestLength
  /\ (bestLength = 0 -> bestStart = -1)
  /\ (0 < bestLength -> zeroRun cleanParts bestStart bestLength)
  /\ (forall a n, zeroRun cleanParts a n -> n <= bestLength)
  /\ (forall a, 0 < bestLength -> zeroRun cleanParts a bestLength ->
                bestStart <= a).
Proof.
  unfold bestRun.
  pose proof (runInv_fold cleanParts [] (-1, 0, -1, 0) runInv_init) as H.
  cbn [app] in H. change (zlen (@nil string)) with 0 in H.
  destruct (fold_left runStep (indexFrom 0 cleanParts) (-1, 0, -1, 0))
    as [[[bs bl] cs] cl].
  destruct H as (Hcl & Hcs & Hrun & Hsep & Hbl & Hb0 & Hbest & Hmax & Hfirst).
  set (L := zlen cleanParts) in *.
  assert (forall a n, zeroRun cleanParts a n ->
            n = 0 \/ a + n < L - cl \/ L - cl <= a) as Hdich.
  { intros a n (Ha & Hn & Hb & Hz).
    destruct (Z.eq_dec n 0); [now left|right].
    destruct (Z.lt_ge_cases (a + n) (L - cl)); [now left|right].
    destruct (Z.le_gt_cases (L - cl) a); [assumption|exfalso].
    apply Hsep; [lia|]. apply Hz. lia. }
  rewrite Z.gtb_ltb. destruct (Z.ltb_spec bl cl) as [Hgt|Hle].
  - assert (cs = L - cl) as -> by (destruct (Z.eqb_spec cl 0); lia).
    split; [lia|]. split; [lia|]. split; [intros _; assumption|]. split.
    + intros a n Hr. destruct (Hdich a n Hr) as [H0|[H1|H2]].
      * lia.
      * specialize (Hmax a n Hr H1). lia.
      * destruct Hr as (_ & _ & Hb & _). fold (zlen cleanParts) in Hb. lia.
    + intros a Hpos Hr. destruct (Hdich a cl Hr) as [H0|[H1|H2]].
      * lia.
      * specialize (Hmax a cl Hr H1). lia.
      * lia.
  - split; [assumption|]. split; [assumption|].
    split; [intros Hpos; now destruct (Hbest Hpos)|]. split.
    + intros a n Hr. destruct (Hdich a n Hr) as [H0|[H1|H2]].
      * lia.
      * exact (Hmax a n Hr H1).
      * destruct Hr as (_ & _ & Hb & _). fold (zlen cleanParts) in Hb. lia.
    + intros a Hpos Hr. destruct (Hdich a bl Hr) as [H0|[H1|H2]].
      * lia.
      * now apply Hfirst.
      * destruct (Hbest Hpos). lia.
Qed.

(** The four return statements of the compression are one formula. *)
Lemma compressParts_eq cleanParts :
  compressParts cleanParts =
    let '(bestStart, bestLength) := bestRun cleanParts in
    if bestLength >=? 2 then
      JS.join ":" (firstn (Z.to_nat bestStart) cleanParts) ++ "::"
      ++ JS.join ":" (skipn (Z.to_nat (bestStart + bestLength)) cleanParts)
    else JS.join ":" cleanParts.
Proof.
  unfold compressParts. destruct (bestRun cleanParts) as [bs bl].
  destruct (bl >=? 2); [|reflexivity].
  destruct (firstn (Z.to_nat bs) cleanParts) as [|b bl'];
    destruct (skipn (Z.to_nat (bs + bl)) cleanParts) as [|a al];
    reflexivity.
Qed.

(** C7.  [expandIPv6 "2001:db8::1"] is the eight zero-padded groups
    2001:0db8:0000:0000:0000:0000:0000:0001, and re-serialising their value
    gives back exactly "2001:db8::1".  In general the serialiser compresses
    the first longest run of zero groups, and only a run of at least two
    groups: a run returned by the scan is a zero run, no zero run is longer,
    no zero run of the same length starts earlier, and shorter best runs
    leave the groups joined uncompressed.  A literal with a longer spelling
    (2001:db8:0:0:0:0:0:1) round-trips to the more compact one; on a tie
    (1:0:0:2:0:0:3:4) the first run is compressed; a single zero group is
    kept. *)
Theorem ipv6_expand_compress_roundtrip (cleanParts : list string) :
  expandIPv6 "2001:db8::1" = Some "2001:0db8:0000:0000:0000:0000:0000:0001"
  /\ ipv6Value "2001:0db8:0000:0000:0000:0000:0000:0001"
     = Some 0x20010db8000000000000000000000001
  /\ bigIntToIPv6 0x20010db8000000000000000000000001 = "2001:db8::1"
  /\ roundTripIPv6 "2001:db8::1" = Some "2001:db8::1"
  /\ roundTripIPv6 "2001:db8:0:0:0:0:0:1" = Some "2001:db8::1"
  /\ roundTripIPv6 "1:0:0:2:0:0:3:4" = Some "1::2:0:0:3:4"
  /\ roundTripIPv6 "1:0:2:3:4:5:6:7" = Some "1:0:2:3:4:5:6:7"
  /\ (let '(bestStart, bestLength) := bestRun cleanParts in
      0 <= bestLength
      /\ (0 < bestLength -> zeroRun cleanParts bestStart bestLength)
      /\ (forall a n, zeroRun cleanParts a n -> n <= bestLength)
      /\ (forall a, 0 < bestLength -> zeroRun cleanParts a bestLength ->
                    bestStart <= a)
      /\ compressParts cleanParts =
           if bestLength >=? 2 then
             JS.join ":" (firstn (Z.to_nat bestStart) cleanParts) ++ "::"
             ++ JS.join ":" (skipn (Z.to_nat (bestStart + bestLength)) cleanParts)
           else JS.join ":" cleanParts).
Proof.
  repeat (split; [vm_compute; reflexivity|]).
  pose proof (bestRun_spec cleanParts) as H.
  pose proof (compressParts_eq cleanParts) as C.
  destruct (bestRun cleanParts) as [bs bl].
  destruct H as (H1 & _ & H3 & H4 & H5). auto.
Qed.

Lemma ipv6_expand_compress_roundtrip_witness :
  let cleanParts := ["1"; "0"; "0"; "2"; "0"; "0"; "3"; "4"] in
  bestRun cleanParts = (1, 2)
  /\ zeroRun cleanParts 1 2
  /\ (forall a n, zeroRun cleanParts a n -> n <= 2)
  /\ (forall a, zeroRun cleanParts a 2 -> 1 <= a)
  /\ compressParts cleanParts = "1::2:0:0:3:4".
Proof.
  intros cleanParts.
  pose proof (ipv6_expand_compress_roundtrip cleanParts) as H.
  do 7 apply proj2 in H.
  change (bestRun cleanParts) with (1, 2) in H.
  destruct H as (_ & H2 & H3 & H4 & H5).
  split; [reflexivity|]. split; [apply H2; lia|]. split; [exact H3|].
  split; [intros a; apply H4; lia|exact H5].
Defined.

(* ================================================================== *)
(** * The prober *)
(* ================================================================== *)

Module ScannerProps.

Import Scanner Fixtures.
Local Open Scope js_scope.

Lemma orDefault_eq_iff x d v :
  v <> EmptyString -> d <> v -> (orDefault x d = v <-> x = Some v).
Proof.
  intros Hv Hd. unfold orDefault. destruct x as [s|].
  - destruct (String.eqb_spec s EmptyString) as [->|Hs].
    + split; [congruence|]. intros E. injection E as E. congruence.
    + split; congruence.
  - split; congruence.
Qed.

Lemma len_pos_iff s : (JS.len s >? 0) = true <-> s <> EmptyString.
Proof.
  unfold JS.len. rewrite Z.gtb_ltb, Z.ltb_lt.
  destruct s; simpl; split; intros; try congruence; lia.
Qed.

Lemma isFeasible_iff protocol alpn domain issuers :
  isFeasible protocol alpn domain issuers = true <->
  protocol = Some "TLSv1.3" /\ alpn = "h2"
  /\ domain <> EmptyString /\ issuers <> EmptyString.
Proof.
  unfold isFeasible. rewrite !andb_true_iff, !len_pos_iff, String.eqb_eq.
  destruct protocol as [p|].
  - rewrite String.eqb_eq. intuition congruence.
  - intuition congruence.
Qed.

(** What a probe that returns a result has computed. *)
Lemma scanTLS_result env host t r t' :
  scanTLS env host t = (Ok (Some r), t') ->
  exists hip tlsSocket cert subj,
    hostAddress env host = Some hip
    /\ createConnection env hip port = Ok tt
    /\ performTLSHandshake env hip (tlsOptionsFor host) = Ok tlsSocket
    /\ getPeerCertificate tlsSocket = Some cert
    /\ subject cert = Some subj
    /\ r = mkResult hip (origin host)
             (orDefault (subject_CN subj) EmptyString) (issuersOf cert)
             (getGeo env hip)
             (isFeasible (getProtocol tlsSocket)
                (orDefault (alpnProtocol tlsSocket) EmptyString)
                (orDefault (subject_CN subj) EmptyString) (issuersOf cert))
             (orDefault (getProtocol tlsSocket) "unknown")
             (orDefault (Some (orDefault (alpnProtocol tlsSocket) EmptyString))
                "none").
Proof.
  unfold scanTLS, hostAddress, lookupIP, tryCatch, tryFinally, bind, ret, emit,
    await, tlsOptionsFor.
  intros H.
  destruct (truthy (ip host)) eqn:Eip.
  - destruct (ip host) as [hip|] eqn:Ehip; [|discriminate].
    destruct (createConnection env hip port) as [[]|e] eqn:Ec; [|discriminate].
    destruct (performTLSHandshake env hip _) as [tlsSocket|e] eqn:Eh; [|discriminate].
    destruct (getPeerCertificate tlsSocket) as [cert|] eqn:Ecert; [|discriminate].
    destruct (subject cert) as [subj|] eqn:Esubj; [|discriminate].
    injection H as H _. exists hip, tlsSocket, cert, subj.
    repeat split; try assumption. now symmetry.
  - destruct (dns_lookup env (origin host)) as [a|e] eqn:Ed.
    + destruct (truthy (Some a)) eqn:Et; [|discriminate].
      destruct (createConnection env a port) as [[]|e] eqn:Ec; [|discriminate].
      destruct (performTLSHandshake env a _) as [tlsSocket|e] eqn:Eh; [|discriminate].
      destruct (getPeerCertificate tlsSocket) as [cert|] eqn:Ecert; [|discriminate].
      destruct (subject cert) as [subj|] eqn:Esubj; [|discriminate].
      injection H as H _. exists a, tlsSocket, cert, subj.
      repeat split; try assumption. now symmetry.
    + discriminate.
Qed.

(** C3.  A completed probe is one whose handshake gave a socket with a
    certificate that has a subject.  The [feasible] flag of its result is
    true if and only if the protocol that socket negotiated
    ([getProtocol()]) is "TLSv1.3", the ALPN it negotiated
    ([alpnProtocol]) is "h2", and the certificate domain (the subject's CN,
    or the empty string without one) and the certificate issuer (the
    issuer's organisations) are both non-empty.  The domain and the issuer
    tested are the ones the result carries, and its [tlsVersion] and [alpn]
    fields hold the negotiated values (or "unknown" and "none").  The
    predicate is the conjunction of its four clauses: for each of the 16
    combinations of their truth values it returns their conjunction. *)
Theorem feasible_iff_four_clauses
  (env : Env) (host : Host) (t t' : list Effect) (r : TLSScanResult) :
  scanTLS env host t = (Ok (Some r), t') ->
  (exists hip tlsSocket cert subj,
      hostAddress env host = Some hip
      /\ createConnection env hip port = Ok tt
      /\ performTLSHandshake env hip (tlsOptionsFor host) = Ok tlsSocket
      /\ getPeerCertificate tlsSocket = Some cert
      /\ subject cert = Some subj
      /\ r_domain r = orDefault (subject_CN subj) EmptyString
      /\ r_issuer r = issuersOf cert
      /\ r_tlsVersion r = orDefault (getProtocol tlsSocket) "unknown"
      /\ r_alpn r = orDefault (alpnProtocol tlsSocket) "none"
      /\ (r_feasible r = true <->
            getProtocol tlsSocket = Some "TLSv1.3"
            /\ alpnProtocol tlsSocket = Some "h2"
            /\ orDefault (subject_CN subj) EmptyString <> EmptyString
            /\ issuersOf cert <> EmptyString)
      /\ (orDefault (subject_CN subj) EmptyString <> EmptyString <->
            exists cn, subject_CN subj = Some cn /\ cn <> EmptyString))
  /\ (r_feasible r = true <->
       r_tlsVersion r = "TLSv1.3" /\ r_alpn r = "h2"
       /\ r_domain r <> EmptyString /\ r_issuer r <> EmptyString)
  /\ (forall protocol alpn domain issuers (c1 c2 c3 c4 : bool),
        (c1 = true <-> protocol = Some "TLSv1.3") ->
        (c2 = true <-> alpn = "h2") ->
        (c3 = true <-> domain <> EmptyString) ->
        (c4 = true <-> issuers <> EmptyString) ->
        isFeasible protocol alpn domain issuers = c1 && c2 && c3 && c4).
Proof.
  intros H.
  destruct (scanTLS_result env host t r t' H)
    as (hip & tlsSocket & cert & subj & Ha & Hc & Hh & Hcert & Hsubj & ->).
  cbn [r_feasible r_tlsVersion r_alpn r_domain r_issuer].
  assert (Ealpn : forall d, d <> EmptyString ->
            orDefault (Some (orDefault (alpnProtocol tlsSocket) EmptyString)) d
            = orDefault (alpnProtocol tlsSocket) d).
  { intros d Hd. unfold orDefault. destruct (alpnProtocol tlsSocket) as [a|].
    - destruct (String.eqb_spec a EmptyString) as [->|Hne]; [reflexivity |].
      apply String.eqb_neq in Hne. rewrite Hne. reflexivity.
    - reflexivity. }
  split; [|split].
  - exists hip, tlsSocket, cert, subj.
    split; [exact Ha |]. split; [exact Hc |]. split; [exact Hh |].
    split; [exact Hcert |]. split; [exact Hsubj |].
    split; [reflexivity |]. split; [reflexivity |]. split; [reflexivity |].
    split; [apply Ealpn; discriminate |]. split.
    + rewrite isFeasible_iff.
      rewrite (orDefault_eq_iff (alpnProtocol tlsSocket) EmptyString "h2")
        by discriminate.
      tauto.
    + unfold orDefault. destruct (subject_CN subj) as [cn|].
      * destruct (String.eqb_spec cn EmptyString) as [->|Hne].
        -- split; [congruence |]. intros (cn & E & Hcn). congruence.
        -- split; [eauto |]. intros _. assumption.
      * split; [congruence |]. intros (cn & E & _). discriminate.
  - rewrite isFeasible_iff.
    rewrite (orDefault_eq_iff (getProtocol tlsSocket) "unknown" "TLSv1.3")
      by discriminate.
    rewrite (orDefault_eq_iff (Some _) "none" "h2") by discriminate.
    intuition congruence.
  - intros protocol alpn domain issuers c1 c2 c3 c4 H1 H2 H3 H4.
    destruct (isFeasible protocol alpn domain issuers) eqn:E.
    + apply isFeasible_iff in E as (E1 & E2 & E3 & E4).
      apply H1 in E1. apply H2 in E2. apply H3 in E3. apply H4 in E4.
      now subst.
    + symmetry. apply not_true_is_false. intros C.
      repeat (apply andb_true_iff in C as [C ?]).
      assert (isFeasible protocol alpn domain issuers = true) as F
        by (apply isFeasible_iff; repeat split;
            [apply H1|apply H2|apply H3|apply H4]; assumption).
      congruence.
Qed.

Lemma scanTLS_total env host t :
  exists result t', scanTLS env host t = (Ok result, t').
Proof.
  unfold scanTLS, lookupIP, tryCatch, tryFinally, bind, ret, emit, await.
  repeat match goal with
         | |- context [match ?x with _ => _ end] => destruct x eqn:?
         end; eauto.
Qed.

Lemma nth_setPhase w p l :
  (w < List.length l)%nat -> nth_error (App.setPhase w p l) w = Some p.
Proof.
  revert w. induction l as [|x l IH]; intros w H; simpl in H; [lia|].
  destruct w; simpl; [reflexivity|]. apply IH. lia.
Qed.

Lemma length_setPhase w p l :
  List.length (App.setPhase w p l) = List.length l.
Proof.
  revert w. induction l as [|x l IH]; intros w; [now destruct w|].
  destruct w; simpl; [reflexivity|]. now rewrite IH.
Qed.

(** C6.  [scanTLS] always returns: it never throws.  On each failure path
    (no address from DNS, connect rejected or timed out, handshake rejected
    or timed out, no certificate or no certificate subject) it returns
    [null]; so the worker that awaits it always counts the scan and goes on
    to its pause, and no target can abort the others. *)
Theorem scanTLS_failure_is_null
  (env : Env) (host : Host) (t : list Effect) :
  (exists result t', scanTLS env host t = (Ok result, t'))
  /\ (ProbeFailure env host -> fst (scanTLS env host t) = Ok None)
  /\ (forall s w,
        App.halted s = false ->
        nth_error (App.workers s) w = Some (App.Probing host) ->
        exists s',
          App.step env s (App.Scanned w) = Some s'
          /\ App.scanCount s' = App.scanCount s + 1
          /\ App.activeWorkers s' = App.activeWorkers s
          /\ (nth_error (App.workers s') w = Some App.Sleeping
              \/ exists csvLine,
                   nth_error (App.workers s') w = Some (App.Writing csvLine))).
Proof.
  split; [apply scanTLS_total|]. split.
  - intros F. unfold scanTLS, lookupIP, tryCatch, tryFinally, bind, ret, emit, await.
    destruct F as [Ha|hip e Ha Hc|hip e Ha Hc Hh|hip tls Ha Hc Hh Hn
                  |hip tls cert Ha Hc Hh Hn Hs];
      unfold hostAddress, tlsOptionsFor in *;
      destruct (truthy (ip host)) eqn:Eip;
      try (destruct (dns_lookup env (origin host)) as [a|e'] eqn:Ed;
           [destruct (truthy (Some a)) eqn:Et|]);
      try discriminate; try reflexivity;
      try (rewrite Ha); try (injection Ha as ->);
      try (rewrite Hc); try (rewrite Hh); try (rewrite Hn); try (rewrite Hs);
      try (cbn [truthy] in Eip; discriminate);
      reflexivity.
  - intros s w Hh Hw.
    destruct (scanTLS_total env host []) as (result & t' & E).
    unfold App.step. rewrite Hh, Hw, E. cbn [fst].
    eexists. split; [reflexivity|]. cbn [App.scanCount App.activeWorkers App.workers].
    split; [reflexivity|]. split; [reflexivity|].
    rewrite nth_setPhase by (apply nth_error_Some; congruence).
    unfold App.afterScan.
    destruct result as [r|]; [|now left].
    destruct (App.outputFile s); [|now left].
    destruct (_ && _); [right; eauto|now left].
Qed.

Lemma feasible_iff_four_clauses_witness :
  exists t',
    scanTLS envOk exampleHost [] = (Ok (Some exampleResult), t')
    /\ (exists hip tlsSocket cert subj,
          hostAddress envOk exampleHost = Some hip
          /\ createConnection envOk hip port = Ok tt
          /\ performTLSHandshake envOk hip (tlsOptionsFor exampleHost)
             = Ok tlsSocket
          /\ getPeerCertificate tlsSocket = Some cert
          /\ subject cert = Some subj
          /\ r_domain exampleResult = orDefault (subject_CN subj) EmptyString
          /\ r_issuer exampleResult = issuersOf cert
          /\ r_tlsVersion exampleResult
             = orDefault (getProtocol tlsSocket) "unknown"
          /\ r_alpn exampleResult = orDefault (alpnProtocol tlsSocket) "none"
          /\ (r_feasible exampleResult = true <->
                getProtocol tlsSocket = Some "TLSv1.3"
                /\ alpnProtocol tlsSocket = Some "h2"
                /\ orDefault (subject_CN subj) EmptyString <> EmptyString
                /\ issuersOf cert <> EmptyString)
          /\ (orDefault (subject_CN subj) EmptyString <> EmptyString <->
                exists cn, subject_CN subj = Some cn /\ cn <> EmptyString))
    /\ (r_feasible exampleResult = true <->
          r_tlsVersion exampleResult = "TLSv1.3" /\ r_alpn exampleResult = "h2"
          /\ r_domain exampleResult <> EmptyString
          /\ r_issuer exampleResult <> EmptyString).
Proof.
  eexists. split; [vm_compute; reflexivity|].
  match goal with
  | |- _ /\ _ =>
      pose proof (feasible_iff_four_clauses envOk exampleHost [] _ exampleResult
                    eq_refl) as H
  end.
  split; [exact (proj1 H) | exact (proj1 (proj2 H))].
Defined.

Lemma scanTLS_failure_is_null_witness :
  ProbeFailure envRefused exampleHost
  /\ fst (scanTLS envRefused exampleHost []) = Ok None.
Proof.
  assert (ProbeFailure envRefused exampleHost) as F
    by (apply (ConnectFailure envRefused exampleHost "93.184.216.34" "ECONNREFUSED");
        reflexivity).
  split; [exact F|].
  exact (proj1 (proj2 (scanTLS_failure_is_null envRefused exampleHost [])) F).
Defined.

(** ** The output records *)

Lemma formatScanResult_feasible r :
  r_feasible r = true ->
  formatScanResult r =
    r_ip r ++ "," ++ r_origin r ++ "," ++ r_domain r ++ ","
    ++ quote ++ r_issuer r ++ quote ++ "," ++ r_geoCode r ++ newline.
Proof.
  intros H. unfold formatScanResult. rewrite H. cbn [negb JS.join].
  rewrite !append_assoc. reflexivity.
Qed.

(** C8.  [formatScanResult] returns the empty string for a result that is
    not feasible and the line ip,origin,domain,"issuer",geoCode for a
    feasible one; a worker hands a line to the output file only for a
    feasible result, and the file opens with the header
    IP,ORIGIN,CERT_DOMAIN,CERT_ISSUER,GEO_CODE.  [generateCSVOutput] keeps
    the feasible results and formats each with [formatScanResult], but puts
    them under another header, IP,Origin,Domain,Issuer,GeoCode. *)
Theorem csv_output_records (r : TLSScanResult) (results : list TLSScanResult) :
  (r_feasible r = false -> formatScanResult r = EmptyString)
  /\ (r_feasible r = true ->
      formatScanResult r =
        r_ip r ++ "," ++ r_origin r ++ "," ++ r_domain r ++ ","
        ++ quote ++ r_issuer r ++ quote ++ "," ++ r_geoCode r ++ newline)
  /\ App.setupOutputFile "out.csv"
     = Some (App.mkFile true
               ["IP,ORIGIN,CERT_DOMAIN,CERT_ISSUER,GEO_CODE" ++ newline])
  /\ (forall env s s' w csvLine,
        App.step env s (App.Scanned w) = Some s' ->
        nth_error (App.workers s') w = Some (App.Writing csvLine) ->
        (w < List.length (App.workers s))%nat ->
        exists result,
          r_feasible result = true /\ csvLine = formatScanResult result)
  /\ generateCSVOutput results
     = "IP,Origin,Domain,Issuer,GeoCode" ++ newline
       ++ JS.join EmptyString (map formatScanResult (filter r_feasible results))
  /\ generateCSVOutput [exampleResult]
     = "IP,Origin,Domain,Issuer,GeoCode" ++ newline
       ++ "93.184.216.34,example.com,example.com," ++ quote ++ "Example CA"
       ++ quote ++ ",US" ++ newline
  /\ "IP,Origin,Domain,Issuer,GeoCode" ++ newline <> App.csvHeader.
Proof.
  split; [|split; [|split; [|split; [|split; [|split]]]]].
  - intros H. unfold formatScanResult. now rewrite H.
  - apply formatScanResult_feasible.
  - reflexivity.
  - intros env s s' w csvLine Hs Hw Hlt. unfold App.step in Hs.
    destruct (App.halted s); [discriminate|].
    destruct (nth_error (App.workers s) w) as [[| host | | | |]|]; try discriminate.
    destruct (fst (scanTLS env host [])) as [result|e].
    + injection Hs as <-. cbn [App.workers] in Hw.
      rewrite nth_setPhase in Hw by assumption. injection Hw as Hw.
      unfold App.afterScan in Hw.
      destruct result as [res|]; [|discriminate].
      destruct (App.outputFile s); [|discriminate].
      destruct (r_feasible res) eqn:F; [|discriminate].
      cbn [andb] in Hw.
      destruct (negb _); [|discriminate].
      injection Hw as <-. now exists res.
    + injection Hs as <-. cbn [App.withWorker App.workers] in Hw.
      rewrite nth_setPhase in Hw by assumption. discriminate.
  - unfold generateCSVOutput. now rewrite append_assoc.
  - vm_compute. reflexivity.
  - vm_compute. discriminate.
Qed.

End ScannerProps.

(* ================================================================== *)
(** * The scan coordinator under cancellation *)
(* ================================================================== *)

Module AppProps.

Import Scanner App Fixtures ScannerProps.

Lemma cnt_nonneg f l : 0 <= cnt f l.
Proof. unfold cnt. lia. Qed.

Lemma cnt_cons f x l : cnt f (x :: l) = Z.b2z (f x) + cnt f l.
Proof.
  unfold cnt. cbn [filter]. destruct (f x); cbn [List.length Z.b2z]; lia.
Qed.

Lemma cnt_setPhase f w p l old :
  nth_error l w = Some old ->
  cnt f (setPhase w p l) = cnt f l - Z.b2z (f old) + Z.b2z (f p).
Proof.
  revert w. induction l as [|x l IH]; intros w H.
  - destruct w; discriminate.
  - destruct w as [|w]; cbn [setPhase nth_error] in *.
    + injection H as ->. rewrite !cnt_cons. lia.
    + rewrite !cnt_cons, (IH w H). lia.
Qed.

Lemma cnt_repeat f p n :
  cnt f (repeat p n) = if f p then Z.of_nat n else 0.
Proof.
  induction n as [|n IH]; [now destruct (f p)|].
  cbn [repeat]. rewrite cnt_cons, IH. destruct (f p); cbn [Z.b2z]; lia.
Qed.

Lemma cnt_all_exited l : forallb isExited l = true -> cnt isActive l = 0.
Proof.
  induction l as [|x l IH]; [reflexivity|].
  cbn [forallb]. intros H. apply andb_true_iff in H as [Hx Hl].
  rewrite cnt_cons, (IH Hl). unfold isActive. now rewrite Hx.
Qed.

Lemma Inv_start threadCount outputPath inf t0 :
  Inv (start threadCount (setupOutputFile outputPath) inf t0).
Proof.
  unfold Inv, start. cbn. rewrite !cnt_repeat. cbn.
  repeat split; try lia; try discriminate.
  unfold fileClosed, setupOutputFile. cbn.
  destruct (negb _); cbn; [discriminate|contradiction].
Qed.

Lemma fileClosed_writeFile f chunk :
  fileClosedOpt (writeFile f chunk) <-> fileClosedOpt f.
Proof.
  destruct f as [[o c]|]; cbn; [|tauto].
  destruct o; cbn; intuition congruence.
Qed.

Ltac inv_counts :=
  repeat match goal with
         | H : nth_error ?l ?w = Some ?old |- context [cnt ?f (setPhase ?w ?p ?l)] =>
             rewrite (cnt_setPhase f w p l old H)
         end;
  cbn [isActive isExited isProbing negb Z.b2z].

Lemma Inv_afterWait s startWait :
  Inv s ->
  (shutdown s = NoSignal /\ startWait = now s) \/ shutdown s = Waiting startWait ->
  Inv (afterWait s startWait).
Proof.
  intros (I1 & I2 & I3 & I4 & I5) Hsh. unfold afterWait.
  pose proof (cnt_nonneg isActive (workers s)) as Hc.
  assert (fileClosed s -> settled s = true) as Hf
    by (destruct Hsh as [[E _]|E]; rewrite E in I5; apply I5).
  destruct ((activeWorkers s >? 0) && (now s - startWait <? maxWait)) eqn:E.
  - unfold Inv. cbn. repeat split; assumption.
  - assert (activeWorkers s = 0 \/ maxWait <= now s - startWait) as Hw.
    { apply andb_false_iff in E as [E|E].
      - left. rewrite Z.gtb_ltb in E. apply Z.ltb_ge in E. lia.
      - right. now apply Z.ltb_ge in E. }
    unfold Inv. cbn. repeat split; try assumption.
    destruct (outputFile s); repeat split; assumption.
Qed.

Ltac inv_finish :=
  unfold Inv, withWorker, fileClosed in *; cbn in *; inv_counts;
  repeat split; try lia; try (intros; lia); try (intuition lia);
  try match goal with
      | |- context [shutdown ?s] =>
          destruct (shutdown s); cbn in *; rewrite ?fileClosed_writeFile;
          intuition (try lia; try discriminate)
      end.

Lemma active_worker s w old :
  Inv s -> nth_error (workers s) w = Some old -> isActive old = true ->
  1 <= activeWorkers s.
Proof.
  intros (I1 & _) Ho Ha. rewrite I1.
  pose proof (cnt_setPhase isActive w Exited (workers s) old Ho) as C.
  pose proof (cnt_nonneg isActive (setPhase w Exited (workers s))).
  rewrite Ha in C. cbn in C. lia.
Qed.

Lemma Inv_step env s l s' : Inv s -> step env s l = Some s' -> Inv s'.
Proof.
  intros I Hs. pose proof I as (I1 & I2 & I3 & I4 & I5).
  pose proof (cnt_nonneg isActive (workers s)) as Hc.
  unfold step in Hs. destruct (halted s) eqn:Hh; [discriminate|].
  unfold halted in Hh.
  destruct l as [w h|w|w|w|w| | | | |d].
  - (* Next *)
    destruct (nth_error (workers s) w) as [[| | | | |]|] eqn:Ew; try discriminate.
    pose proof (active_worker s w _ I Ew eq_refl) as H1.
    destruct h as [host|].
    + destruct (isShuttingDown s) eqn:Ef; injection Hs as <-; inv_finish.
    + injection Hs as <-. inv_finish.
  - (* Scanned *)
    destruct (nth_error (workers s) w) as [[|host | | | |]|] eqn:Ew; try discriminate.
    destruct (fst (scanTLS env host [])) as [result|e].
    + injection Hs as <-.
      assert (isActive (afterScan result (outputFile s)) = true
              /\ isProbing (afterScan result (outputFile s)) = false) as [Ha Hb].
      { unfold afterScan. destruct result; [|now split].
        destruct (outputFile s); [|now split].
        destruct (_ && _); now split. }
      unfold Inv. cbn. inv_counts. rewrite Ha, Hb. inv_finish.
    + injection Hs as <-. inv_finish.
  - (* Written *)
    destruct (nth_error (workers s) w) as [[| |csvLine | | |]|] eqn:Ew; try discriminate.
    injection Hs as <-. inv_finish.
  - (* Woke *)
    destruct (nth_error (workers s) w) as [[| | | | |]|] eqn:Ew; try discriminate.
    injection Hs as <-. inv_finish.
  - (* Returned *)
    destruct (nth_error (workers s) w) as [[| | | | |]|] eqn:Ew; try discriminate.
    pose proof (active_worker s w _ I Ew eq_refl) as H1.
    injection Hs as <-. inv_finish.
  - (* Settled *)
    destruct (negb (infinite s) && negb (settled s) && forallb isExited (workers s))
      eqn:E; [|discriminate].
    apply andb_true_iff in E as [_ E]. apply cnt_all_exited in E.
    injection Hs as <-. inv_finish.
  - (* Signal *)
    destruct (shutdown s) eqn:Esh; try discriminate.
    injection Hs as <-. apply Inv_afterWait; [assumption|]. left. now split.
  - (* Poll *)
    destruct (shutdown s) eqn:Esh; try discriminate.
    injection Hs as <-. apply Inv_afterWait; [assumption|]. now right.
  - (* Closed *)
    destruct (shutdown s) eqn:Esh; try discriminate.
    injection Hs as <-. unfold Inv. cbn.
    repeat split; try lia; try (intros; lia); try apply I5; assumption.
  - (* Tick *)
    destruct (Z.ltb_spec d 0); [discriminate|].
    injection Hs as <-. inv_finish.
Qed.

Lemma Inv_run env ls : forall s s', Inv s -> run env s ls = Some s' -> Inv s'.
Proof.
  induction ls as [|l ls IH]; intros s s' I H; cbn [run] in H.
  - now injection H as <-.
  - destruct (step env s l) as [s1|] eqn:E; [|discriminate].
    apply (IH s1); [|assumption]. now apply (Inv_step env s l).
Qed.

Lemma step_counters env s l s' :
  step env s l = Some s' ->
  scanCount s <= scanCount s' /\ pulled s <= pulled s'.
Proof.
  unfold step. destruct (halted s); [discriminate|].
  destruct l as [w h|w|w|w|w| | | | |d]; intros H;
    repeat match type of H with
           | context [match ?x with _ => _ end] => destruct x eqn:?; try discriminate
           end;
    injection H as <-; unfold afterWait; cbn;
    repeat match goal with
           | |- context [if ?b then _ else _] => destruct b
           end; cbn; lia.
Qed.

Lemma sink_step env s l s' :
  step env s l = Some s' -> (outputFile s' = None <-> outputFile s = None).
Proof.
  unfold step. destruct (halted s); [discriminate|].
  destruct l as [w h|w|w|w|w| | | | |d]; intros H;
    repeat match type of H with
           | context [match ?x with _ => _ end] => destruct x eqn:?; try discriminate
           end;
    injection H as <-; unfold afterWait, withWorker, writeFile, closeFile; cbn;
    repeat match goal with
           | |- context [if ?b then _ else _] => destruct b
           | |- context [match outputFile ?s with _ => _ end] =>
               destruct (outputFile s)
           end; cbn; split; congruence.
Qed.

Lemma sink_run env ls : forall s s',
  run env s ls = Some s' -> (outputFile s' = None <-> outputFile s = None).
Proof.
  induction ls as [|l ls IH]; intros s s' H; cbn [run] in H.
  - injection H as <-. tauto.
  - destruct (step env s l) as [s1|] eqn:E; [|discriminate].
    rewrite (IH s1 s' H). exact (sink_step env s l s1 E).
Qed.

Lemma closedAfterWait_afterWait s startWait :
  shutdown s = NoSignal \/ shutdown s = Waiting startWait ->
  closedAfterWait (afterWait s startWait).
Proof.
  intros _. unfold closedAfterWait, afterWait.
  destruct ((activeWorkers s >? 0) && (now s - startWait <? maxWait));
    cbn [shutdown outputFile]; [exact I |].
  destruct (outputFile s) as [f0|]; cbn [closeFile].
  - intros f E. injection E as <-. reflexivity.
  - intros f E. discriminate.
Qed.

Lemma closedAfterWait_step env s l s' :
  closedAfterWait s -> step env s l = Some s' -> closedAfterWait s'.
Proof.
  intros C Hs. unfold step in Hs. destruct (halted s) eqn:Hh; [discriminate|].
  assert (K : forall f', (forall f, outputFile s = Some f -> f_open f = false)
                         -> forall chunk, writeFile (outputFile s) chunk = Some f'
                         -> f_open f' = false).
  { intros f' Hc chunk E. unfold writeFile in E.
    destruct (outputFile s) as [f0|]; [| discriminate].
    pose proof (Hc f0 eq_refl) as Hf. rewrite Hf in E.
    injection E as <-. assumption. }
  assert (K2 : forall f', closeFile (outputFile s) = Some f' -> f_open f' = false).
  { intros f' E. unfold closeFile in E.
    destruct (outputFile s) as [f0|]; [| discriminate].
    injection E as <-. reflexivity. }
  destruct l as [w h|w|w|w|w| | | | |d].
  - destruct (nth_error (workers s) w) as [[| | | | |]|]; try discriminate.
    destruct h as [host|];
      [destruct (isShuttingDown s) |]; injection Hs as <-; exact C.
  - destruct (nth_error (workers s) w) as [[|host | | | |]|]; try discriminate.
    destruct (fst (scanTLS env host [])); injection Hs as <-; exact C.
  - destruct (nth_error (workers s) w) as [[| |csvLine | | |]|]; try discriminate.
    injection Hs as <-. unfold closedAfterWait in *. cbn [shutdown outputFile].
    destruct (shutdown s); try exact I; intros f' E; exact (K f' C csvLine E).
  - destruct (nth_error (workers s) w) as [[| | | | |]|]; try discriminate.
    injection Hs as <-. exact C.
  - destruct (nth_error (workers s) w) as [[| | | | |]|]; try discriminate.
    injection Hs as <-. exact C.
  - destruct (negb (infinite s) && negb (settled s) && forallb isExited (workers s));
      [|discriminate].
    injection Hs as <-. unfold closedAfterWait in *. cbn [shutdown outputFile].
    destruct (shutdown s); try exact I; intros f' E; exact (K2 f' E).
  - destruct (shutdown s) eqn:Esh; try discriminate.
    injection Hs as <-. apply closedAfterWait_afterWait. now left.
  - destruct (shutdown s) eqn:Esh; try discriminate.
    injection Hs as <-. apply closedAfterWait_afterWait. now right.
  - destruct (shutdown s) eqn:Esh; try discriminate.
    injection Hs as <-. unfold closedAfterWait in *. rewrite Esh in C.
    cbn [shutdown outputFile]. exact C.
  - destruct (d <? 0); [discriminate|].
    injection Hs as <-. exact C.
Qed.

Lemma closedAfterWait_run env ls : forall s s',
  closedAfterWait s -> run env s ls = Some s' -> closedAfterWait s'.
Proof.
  induction ls as [|l ls IH]; intros s s' C H; cbn [run] in H.
  - now injection H as <-.
  - destruct (step env s l) as [s1|] eqn:E; [|discriminate].
    apply (IH s1); [|assumption]. now apply (closedAfterWait_step env s l).
Qed.

Lemma sink_present env threadCount outputPath inf t0 ls s :
  run env (start threadCount (setupOutputFile outputPath) inf t0) ls = Some s ->
  outputPath <> EmptyString -> outputFile s <> None.
Proof.
  intros Hrun Hp Hn. apply (sink_run env ls _ s Hrun) in Hn.
  unfold start, setupOutputFile in Hn. cbn [outputFile] in Hn.
  apply String.eqb_neq in Hp. rewrite Hp in Hn. discriminate.
Qed.

Lemma fileClosed_closeFile f : f <> None -> fileClosedOpt (closeFile f).
Proof. destruct f as [f|]; [reflexivity | congruence]. Qed.

(** C9.  In every state the event loop can reach from the start of a scan:
    [scanCount] never decreases and never exceeds the number of hosts the
    shared iterator has handed out; once [isShuttingDown] is set, a worker
    that gets its next host leaves the loop without probing it and
    decrements [activeWorkers]; the handler of [shutdown] sets the flag and
    its wait loop goes on only while [activeWorkers > 0] and less than
    [maxWait = 30000] ms have passed; when the loop ends, the output file
    is closed; so the file is closed only with [activeWorkers = 0] or after
    the full 30000 ms, it is closed whenever the handler is past its wait
    loop, and the counters are reported after that, [scanned] being the
    final [scanCount]. *)
Theorem shutdown_waits_for_workers
  (env : Env) (threadCount : nat) (outputPath : string) (inf : bool) (t0 : Z)
  (ls : list Label) (s : State) :
  run env (start threadCount (setupOutputFile outputPath) inf t0) ls = Some s ->
  0 <= scanCount s <= pulled s
  /\ (forall l s', step env s l = Some s' ->
        scanCount s <= scanCount s' /\ pulled s <= pulled s')
  /\ (forall w host s',
        isShuttingDown s = true ->
        nth_error (workers s) w = Some Pulling ->
        step env s (Next w (Some host)) = Some s' ->
        nth_error (workers s') w = Some Returning
        /\ scanCount s' = scanCount s
        /\ exists s'',
             step env s' (Returned w) = Some s''
             /\ nth_error (workers s'') w = Some Exited
             /\ activeWorkers s'' = activeWorkers s' - 1)
  /\ maxWait = 30000
  /\ (forall startWait s',
        shutdown s = Waiting startWait -> step env s Poll = Some s' ->
        if (activeWorkers s >? 0) && (now s - startWait <? 30000)
        then shutdown s' = Waiting startWait /\ outputFile s' = outputFile s
        else outputFile s' = closeFile (outputFile s)
             /\ (outputPath <> EmptyString -> fileClosed s')
             /\ (shutdown s' = Closing startWait
                 \/ shutdown s' = Reported startWait (scanCount s) (feasibleCount s)))
  /\ (fileClosed s ->
      activeWorkers s = 0
      \/ exists startWait,
           (shutdown s = Closing startWait
            \/ exists a b, shutdown s = Reported startWait a b)
           /\ 30000 <= now s - startWait)
  /\ (forall startWait scanned feasible,
        shutdown s = Reported startWait scanned feasible ->
        scanned = scanCount s /\ scanned <= pulled s)
  /\ (forall s',
        shutdown s = NoSignal -> step env s Signal = Some s' ->
        isShuttingDown s' = true
        /\ if activeWorkers s >? 0
           then shutdown s' = Waiting (now s) /\ outputFile s' = outputFile s
           else outputFile s' = closeFile (outputFile s)
                /\ (outputPath <> EmptyString -> fileClosed s')
                /\ (shutdown s' = Closing (now s)
                    \/ shutdown s' = Reported (now s) (scanCount s)
                                       (feasibleCount s)))
  /\ (forall startWait,
        shutdown s = Closing startWait
        \/ (exists a b, shutdown s = Reported startWait a b) ->
        outputPath <> EmptyString -> fileClosed s).
Proof.
  intros Hrun.
  pose proof (Inv_run env ls _ s (Inv_start threadCount outputPath inf t0) Hrun)
    as (I1 & I2 & I3 & I4 & I5).
  pose proof (cnt_nonneg isProbing (workers s)) as Hp.
  pose proof (sink_present env threadCount outputPath inf t0 ls s Hrun) as Hsink.
  assert (Hcl : closedAfterWait s)
    by (apply (closedAfterWait_run env ls
                 (start threadCount (setupOutputFile outputPath) inf t0) s);
        [exact I | exact Hrun]).
  split; [lia|]. split; [apply step_counters|].
  split; [|split; [reflexivity|split; [|split; [|split; [|split]]]]].
  - intros w host s' Hflag Hw Hs. unfold step in Hs.
    destruct (halted s) eqn:Hh; [discriminate|].
    rewrite Hw, Hflag in Hs. injection Hs as <-.
    assert (w < List.length (workers s))%nat as Hlt
      by (apply nth_error_Some; congruence).
    cbn. rewrite nth_setPhase by assumption.
    split; [reflexivity|]. split; [reflexivity|].
    unfold step, halted in *. cbn. rewrite Hh.
    rewrite nth_setPhase by assumption.
    eexists. split; [reflexivity|]. cbn.
    rewrite nth_setPhase; [split; reflexivity|].
    now rewrite length_setPhase.
  - intros startWait s' Hsh Hs. unfold step in Hs.
    destruct (halted s); [discriminate|]. rewrite Hsh in Hs.
    injection Hs as <-. unfold afterWait, maxWait.
    destruct ((activeWorkers s >? 0) && (now s - startWait <? 30000)); cbn.
    + split; reflexivity.
    + split; [reflexivity|].
      split; [intros P; apply fileClosed_closeFile, Hsink, P |].
      destruct (outputFile s); auto.
  - intros Hc. unfold maxWait in I5.
    destruct (shutdown s) as [|sw|sw|sw a b] eqn:Esh.
    + left. apply I4, I5, Hc.
    + left. apply I4, I5, Hc.
    + destruct I5 as (_ & [H|H]); [now left|right].
      exists sw. split; [now left|assumption].
    + destruct I5 as (_ & _ & [H|H]); [now left|right].
      exists sw. split; [right; eauto|assumption].
  - intros sw a b Esh. rewrite Esh in I5. destruct I5 as (_ & -> & _). lia.
  - intros s' Hsh Hs. unfold step in Hs.
    destruct (halted s); [discriminate|]. rewrite Hsh in Hs.
    injection Hs as <-. unfold afterWait, maxWait.
    replace (now s - now s <? 30000) with true
      by (symmetry; apply Z.ltb_lt; lia).
    rewrite andb_true_r.
    destruct (activeWorkers s >? 0); cbn.
    + split; [reflexivity |]. split; reflexivity.
    + split; [reflexivity |]. split; [reflexivity|].
      split; [intros P; apply fileClosed_closeFile, Hsink, P |].
      destruct (outputFile s); auto.
  - intros sw Hsh P. pose proof (Hsink P) as Hn.
    unfold closedAfterWait in Hcl. unfold fileClosed, fileClosedOpt.
    destruct (outputFile s) as [f|] eqn:Ef; [| congruence].
    destruct Hsh as [Hsh | (a & b & Hsh)]; rewrite Hsh in Hcl;
      exact (Hcl f eq_refl).
Qed.

Lemma shutdown_waits_for_workers_witness :
  exists s,
    run envOk (start 2 (setupOutputFile "out.csv") true 0) cancelledRun = Some s
    /\ shutdown s = Reported 40 2 2
    /\ activeWorkers s = 0
    /\ 0 <= scanCount s <= pulled s
    /\ (fileClosed s ->
        activeWorkers s = 0
        \/ exists startWait,
             (shutdown s = Closing startWait
              \/ exists a b, shutdown s = Reported startWait a b)
             /\ 30000 <= now s - startWait)
    /\ fileClosed s.
Proof.
  eexists. split; [vm_compute; reflexivity|].
  split; [reflexivity|]. split; [reflexivity|].
  match goal with
  | |- context [scanCount ?s] =>
      pose proof (shutdown_waits_for_workers envOk 2 "out.csv" true 0
                    cancelledRun s eq_refl) as H
  end.
  split; [exact (proj1 H)|].
  split; [exact (proj1 (proj2 (proj2 (proj2 (proj2 (proj2 H))))))|].
  refine (proj2 (proj2 (proj2 (proj2 (proj2 (proj2 (proj2 (proj2 H))))))) 40 _ _).
  - right. eexists. eexists. reflexivity.
  - discriminate.
Defined.

End AppProps.

(* ================================================================== *)
(** * [existOnlyOne] and [removeDuplicateStr] *)
(* ================================================================== *)

Lemma existOnlyOneFrom_true arr :
  existOnlyOneFrom true arr = true <-> filter nonEmpty arr = [].
Proof.
  induction arr as [|x r IH]; cbn [existOnlyOneFrom filter].
  - tauto.
  - unfold nonEmpty at 1. destruct (negb (x =? EmptyString)%string).
    + split; discriminate.
    + exact IH.
Qed.

(** X1. [existOnlyOne] holds exactly of the arrays with one non-empty
    entry: such an array is a run of empty strings, one non-empty string
    and another run of empty strings.  The empty array and an array of
    empty strings are rejected. *)
Theorem existOnlyOne_iff arr :
  existOnlyOne arr = true <-> exists x, x <> EmptyString /\ filter nonEmpty arr = [x].
Proof.
  unfold existOnlyOne.
  induction arr as [|x r IH]; cbn [existOnlyOneFrom filter].
  - split; [discriminate | intros (x & _ & H); discriminate].
  - unfold nonEmpty at 1 3. destruct (String.eqb_spec x EmptyString); cbn [negb].
    + exact IH.
    + rewrite existOnlyOneFrom_true. split.
      * intros ->. exists x. split; [assumption | reflexivity].
      * intros (y & _ & H). congruence.
Qed.

Lemma setHas_In seen x : setHas seen x = true <-> In x seen.
Proof.
  unfold setHas. rewrite existsb_exists. split.
  - intros (y & Hy & E). apply String.eqb_eq in E. subst. assumption.
  - intros H. exists x. split; [assumption | apply String.eqb_refl].
Qed.

Lemma removeDuplicateFrom_In seen l x :
  In x (removeDuplicateFrom seen l) <-> In x l /\ ~ In x seen.
Proof.
  revert seen. induction l as [|a r IH]; intros seen; cbn [removeDuplicateFrom].
  - cbn. tauto.
  - destruct (setHas seen a) eqn:E; cbn [negb In]; rewrite IH; cbn [In].
    + apply setHas_In in E. split.
      * intros [H N]. split; [right; assumption | tauto].
      * intros [[->|H] N]; [contradiction |].
        split; [assumption | intros [->|?]; contradiction].
    + assert (~ In a seen) by (rewrite <- setHas_In, E; discriminate).
      split.
      * intros [->|[Hx N]]; [split; [left; reflexivity | assumption] | tauto].
      * intros [[->|Hx] N]; [left; reflexivity |].
        destruct (string_dec a x); [left; assumption | right; tauto].
Qed.

Lemma removeDuplicateFrom_NoDup seen l : NoDup (removeDuplicateFrom seen l).
Proof.
  revert seen. induction l as [|a r IH]; intros seen; cbn [removeDuplicateFrom].
  - constructor.
  - destruct (setHas seen a); cbn [negb]; [apply IH |].
    constructor; [| apply IH].
    rewrite removeDuplicateFrom_In. cbn [In]. tauto.
Qed.

Lemma removeDuplicateFrom_snoc seen l x :
  removeDuplicateFrom seen (l ++ [x])%list =
  if setHas seen x || setHas l x then removeDuplicateFrom seen l
  else (removeDuplicateFrom seen l ++ [x])%list.
Proof.
  revert seen. induction l as [|a r IH]; intros seen;
    cbn [app removeDuplicateFrom].
  - cbn [setHas existsb]. rewrite orb_false_r.
    destruct (setHas seen x); reflexivity.
  - assert (E : setHas (a :: seen) x || setHas r x
               = setHas seen x || setHas (a :: r) x).
    { unfold setHas. cbn [existsb].
      destruct (x =? a)%string, (existsb (String.eqb x) seen),
        (existsb (String.eqb x) r); reflexivity. }
    rewrite IH, E.
    destruct (setHas seen a); cbn [negb];
      destruct (setHas seen x || setHas (a :: r) x); reflexivity.
Qed.

Lemma removeDuplicateFrom_id seen l :
  NoDup l -> (forall x, In x l -> ~ In x seen) ->
  removeDuplicateFrom seen l = l.
Proof.
  revert seen. induction l as [|a r IH]; intros seen N D;
    cbn [removeDuplicateFrom]; [reflexivity |].
  inversion N as [|? ? Ha Nr]; subst.
  destruct (setHas seen a) eqn:E.
  - apply setHas_In in E. exfalso. apply (D a); [left; reflexivity | assumption].
  - cbn [negb]. f_equal. apply IH; [assumption |].
    intros x Hx [->|Hs]; [contradiction |].
    apply (D x); [right; assumption | assumption].
Qed.

(** X2. [removeDuplicateStr] keeps the first occurrence of every string, in
    the order of the input: the result has no duplicates and the same
    members as the input; appending a string to the input appends it to
    the result exactly when it is new; and the function leaves its own
    results unchanged. *)
Theorem removeDuplicateStr_first_occurrences l :
  NoDup (removeDuplicateStr l)
  /\ (forall x, In x (removeDuplicateStr l) <-> In x l)
  /\ (forall x, removeDuplicateStr (l ++ [x])%list =
                if setHas l x then removeDuplicateStr l
                else (removeDuplicateStr l ++ [x])%list)
  /\ removeDuplicateStr (removeDuplicateStr l) = removeDuplicateStr l.
Proof.
  unfold removeDuplicateStr. split; [apply removeDuplicateFrom_NoDup |].
  split; [intros x; rewrite removeDuplicateFrom_In; cbn; tauto |].
  split; [intros x; apply removeDuplicateFrom_snoc |].
  apply removeDuplicateFrom_id; [apply removeDuplicateFrom_NoDup |].
  intros x _ [].
Qed.

(* ================================================================== *)
(** * The enumerator: well-formed hosts, skipped and reclassified lines *)
(* ================================================================== *)

Section MoreSources.

Variable isIPv6 : string -> bool.
Variable dnsLookup : string -> option string.
Hypothesis isIPv6_colon : forall s, isIPv6 s = true -> JS.mem_char ":" s = true.

Lemma net_isIP_nonempty s : net_isIP isIPv6 s <> 0 -> s <> EmptyString.
Proof.
  intros H ->. apply H. unfold net_isIP. cbn.
  destruct (isIPv6 EmptyString) eqn:E; [| reflexivity].
  apply isIPv6_colon in E. discriminate.
Qed.

Lemma cidrLoop_hosts origin0 n : forall current h,
  In (Yield h) (cidrLoop isIPv6 n origin0 current) ->
  origin h = origin0 /\ type h = CIDR
  /\ exists s, ip h = Some s /\ net_isIP isIPv6 s <> 0.
Proof.
  induction n as [|k IH]; intros [[[c0 c1] c2] c3] h; cbn [cidrLoop];
    [intros [] |].
  set (ipStr := JS.join "." (map JS.toString [c0; c1; c2; c3])).
  assert (Hout : In (Yield h)
            (if net_isIP isIPv6 ipStr =? 0 then []
             else [Yield (mkHost (Some ipStr) origin0 CIDR)]) ->
          origin h = origin0 /\ type h = CIDR
          /\ exists s, ip h = Some s /\ net_isIP isIPv6 s <> 0).
  { destruct (net_isIP isIPv6 ipStr =? 0) eqn:E; [intros [] |].
    intros [H|[]]. injection H as <-. cbn.
    split; [reflexivity |]. split; [reflexivity |].
    exists ipStr. split; [reflexivity |]. apply Z.eqb_neq. exact E. }
  destruct (c3 + 1 >? 255); [destruct (c2 + 1 >? 255);
    [destruct (c1 + 1 >? 255) |] |];
    try (intros H; apply in_app_or in H as [H|H];
         [exact (Hout H) | exact (IH _ _ H)]).
  exact Hout.
Qed.

Lemma in_yields h es : In h (yields es) <-> In (Yield h) es.
Proof.
  unfold yields. rewrite in_flat_map. split.
  - intros (e & He & Hh). destruct e; cbn in Hh; try contradiction.
    destruct Hh as [<-|[]]. assumption.
  - intros H. exists (Yield h). split; [assumption | left; reflexivity].
Qed.

Lemma iterateLine_host e line h :
  In (Yield h) (iterateLine isIPv6 e line) ->
  hostWellFormed isIPv6 h /\ origin h = JS.trim line.
Proof.
  unfold iterateLine, hostWellFormed.
  destruct (String.eqb_spec (JS.trim line) EmptyString); [intros [] |].
  destruct (negb (net_isIP isIPv6 (JS.trim line) =? 0)
            && ((net_isIP isIPv6 (JS.trim line) =? 4)
                || (net_isIP isIPv6 (JS.trim line) =? 6) && e)) eqn:E.
  - intros [H|[]]. injection H as <-. cbn.
    apply andb_true_iff in E as [E _]. apply negb_true_iff, Z.eqb_neq in E.
    repeat split; assumption.
  - destruct (cidrMatch (JS.trim line)) as [[baseIp mask]|] eqn:C.
    + destruct ((JS.Number mask >=? 0) && (JS.Number mask <=? 32));
        [| intros []].
      destruct (map JS.Number (JS.split_char "." baseIp))
        as [|s0 [|s1 [|s2 [|s3 [|]]]]]; try (intros []).
      intros H. apply cidrLoop_hosts in H as (Ho & Ht & Hs).
      rewrite Ho, Ht. repeat split; try assumption. congruence.
    + destruct (validateDomainName (JS.trim line)) eqn:V.
      * intros [H|[]]. injection H as <-. cbn. repeat split; assumption.
      * intros [H|[]]. discriminate.
Qed.

(** X3. Every host that [iterate] yields is well formed, whatever the
    lines are: its origin is the trimmed line it came from and is not
    empty; a host of type IP has the origin as its address and [net.isIP]
    accepts it; a host of type CIDR has an address that [net.isIP] accepts
    and a line of the CIDR form as origin; a host of type Domain has no
    address and an origin that [validateDomainName] accepts.  So exactly
    the Domain hosts reach the prober without an address. *)
Theorem iterate_hosts_well_formed lines e h :
  In h (yields (iterate isIPv6 lines e)) ->
  hostWellFormed isIPv6 h
  /\ (exists line, In line lines /\ origin h = JS.trim line)
  /\ (Scanner.truthy (ip h) = false <-> type h = Domain).
Proof.
  intros H. apply in_yields in H. unfold iterate in H.
  apply in_flat_map in H as (line & Hl & H).
  apply iterateLine_host in H as [W O].
  split; [exact W |]. split; [exists line; split; assumption |].
  destruct W as [_ W]. destruct (type h).
  - destruct W as [-> N]. cbn.
    apply net_isIP_nonempty in N. apply String.eqb_neq in N. rewrite N.
    split; discriminate.
  - destruct W as [(s & -> & N) _]. cbn.
    apply net_isIP_nonempty in N. apply String.eqb_neq in N. rewrite N.
    split; discriminate.
  - destruct W as [-> _]. cbn. split; reflexivity.
Qed.

(** X4. Of the hosts that [iterate] yields, only those of type Domain
    make the prober consult DNS: for a host of type IP or CIDR, [scanTLS]
    behaves the same (outcome and effects) whatever the resolver would
    answer. *)
Theorem iterate_address_hosts_skip_dns lines e h env d t :
  In h (yields (iterate isIPv6 lines e)) ->
  type h <> Domain ->
  Scanner.scanTLS (withDns env d) h t = Scanner.scanTLS env h t.
Proof.
  intros H Ht. apply in_yields in H. unfold iterate in H.
  apply in_flat_map in H as (line & _ & H).
  apply iterateLine_host in H as [[_ W] _].
  assert (E : Scanner.truthy (ip h) = true).
  { destruct (type h); [| | contradiction].
    - destruct W as [-> N]. cbn.
      apply net_isIP_nonempty in N. apply String.eqb_neq in N. rewrite N.
      reflexivity.
    - destruct W as [(s & -> & N) _]. cbn.
      apply net_isIP_nonempty in N. apply String.eqb_neq in N. rewrite N.
      reflexivity. }
  unfold Scanner.scanTLS, withDns. rewrite E. reflexivity.
Qed.

Lemma trimStart_blank s : blankLine s = true -> JS.trimStart s = EmptyString.
Proof.
  unfold blankLine. induction s as [|c r IH]; cbn [JS.forall_chars JS.trimStart];
    [reflexivity |].
  intros H. apply andb_true_iff in H as [-> H]. exact (IH H).
Qed.

Lemma iterateLine_blank e line :
  blankLine line = true -> iterateLine isIPv6 e line = [].
Proof.
  intros H. unfold iterateLine, JS.trim. rewrite (trimStart_blank _ H).
  reflexivity.
Qed.

(** X5. Empty lines and lines of white space only (spaces, tabs, carriage
    returns) produce nothing, neither a host nor a log entry: removing them
    from the source leaves the events of [iterate] unchanged. *)
Theorem iterate_skips_blank_lines lines e :
  iterate isIPv6 (filter (fun line => negb (blankLine line)) lines) e
  = iterate isIPv6 lines e.
Proof.
  unfold iterate. induction lines as [|line r IH]; cbn [filter flat_map];
    [reflexivity |].
  destruct (blankLine line) eqn:B; cbn [negb flat_map].
  - rewrite (iterateLine_blank _ _ B). exact IH.
  - rewrite IH. reflexivity.
Qed.

Lemma colon_not_domain s :
  JS.mem_char ":" s = true -> validateDomainName s = false.
Proof.
  intros H. unfold validateDomainName.
  destruct (JS.forall_chars
              (fun c => JS.isUpper c || JS.isLower c || JS.isDigit c
                        || Ascii.eqb c "-" || Ascii.eqb c ".") s) eqn:E;
    [| apply andb_false_r].
  apply (forall_chars_nomem _ ":") in E; [congruence | reflexivity].
Qed.

Lemma isIPv4_no_colon s : isIPv4 s = true -> JS.mem_char ":" s = false.
Proof.
  intros H. apply isIPv4_inv in H as (p0 & p1 & p2 & p3 & H0 & H1 & H2 & H3 & ->).
  apply (forall_chars_nomem cidrChar); [reflexivity |].
  apply quad_chars; assumption.
Qed.

(** X6. With IPv6 switched off, a line holding an IPv6 literal is not
    enumerated: [iterate] yields no host for it and logs it as invalid
    input; with IPv6 switched on the same line yields the literal as a
    host of type IP. *)
Theorem iterate_ipv6_literal line :
  isIPv6 (JS.trim line) = true ->
  iterateLine isIPv6 false line
  = [Warn ("Not a valid IP, CIDR, or domain: " ++ JS.trim line)]
  /\ iterateLine isIPv6 true line = [Yield (ipHost (JS.trim line))].
Proof.
  intros H6. pose proof (isIPv6_colon _ H6) as Hc.
  assert (H4 : isIPv4 (JS.trim line) = false).
  { destruct (isIPv4 (JS.trim line)) eqn:E; [| reflexivity].
    apply isIPv4_no_colon in E. congruence. }
  assert (Hn : net_isIP isIPv6 (JS.trim line) = 6).
  { unfold net_isIP. rewrite H4, H6. reflexivity. }
  assert (Hne : JS.trim line <> EmptyString) by (intros E; rewrite E in Hc; discriminate).
  split.
  - unfold iterateLine. apply String.eqb_neq in Hne. rewrite Hne, Hn.
    cbn [Z.eqb negb andb orb Pos.eqb].
    destruct (cidrMatch (JS.trim line)) as [bm|] eqn:C.
    + apply (cidrMatch_not_IP isIPv6 isIPv6_colon) in C. congruence.
    + rewrite (colon_not_domain _ Hc). reflexivity.
  - apply (iterateLine_ip isIPv6 isIPv6_colon). right. split; [assumption | reflexivity].
Qed.

Lemma dotted_domain s :
  s <> EmptyString -> JS.forall_chars dottedChar s = true ->
  validateDomainName s = true.
Proof.
  intros Hne H. unfold validateDomainName.
  apply String.eqb_neq in Hne. rewrite Hne. cbn [negb andb].
  revert H. apply forall_chars_impl. intros c. unfold dottedChar.
  destruct (JS.isUpper c), (JS.isLower c), (JS.isDigit c), (Ascii.eqb c "-");
    cbn; auto.
Qed.

(** X7. A dotted-decimal token that is not a valid IPv4 literal (an octet
    above 255, a leading zero, too few or too many octets) is not
    rejected: it passes [validateDomainName] and [iterate] yields it as a
    host of type Domain, without address and without a warning. *)
Theorem iterate_malformed_dotted_decimal line e :
  JS.trim line <> EmptyString ->
  JS.forall_chars dottedChar (JS.trim line) = true ->
  isIPv4 (JS.trim line) = false ->
  iterateLine isIPv6 e line = [Yield (mkHost None (JS.trim line) Domain)].
Proof.
  intros Hne Hd H4.
  apply (iterateLine_domain isIPv6 isIPv6_colon); [| assumption].
  apply dotted_domain; assumption.
Qed.

(** X8. A seed that is neither a CIDR block nor an IP literal is resolved
    once.  When the lookup is rejected, [iterateAddr] yields nothing and
    logs two errors, the one of [lookupIP] and then its own, without
    entering the walk; when the lookup gives an empty address, it yields
    nothing and logs its own error only.  When the lookup gives an address,
    nothing is logged before the first host, which carries that address
    with the seed as origin, and the walk then proceeds from the resolved
    address exactly as for a literal seed: after the first host the
    sequence is that of [iterateAddr] of the resolved address, every later
    host having its own address as origin.  For an IPv4 address the walk is
    the one on 32-bit values. *)
Theorem iterateAddr_domain_seed addr n :
  net_isIP isIPv6 addr = 0 ->
  cidrMatch addr = None ->
  (Z.of_nat n <= JS.MAX_SAFE_INTEGER) ->
  match dnsLookup addr with
  | None => iterateAddr isIPv6 dnsLookup addr n
            = [Error ("Failed to lookup " ++ addr ++ ": ");
               Error "Not a valid IP, CIDR, or domain:"]
  | Some resolvedIP =>
      (resolvedIP = EmptyString ->
       iterateAddr isIPv6 dnsLookup addr n
       = [Error "Not a valid IP, CIDR, or domain:"])
      /\ (resolvedIP <> EmptyString ->
          iterateAddr isIPv6 dnsLookup addr n
          = Yield (mkHost (Some resolvedIP) addr IP)
            :: Info "Enable infinite mode"
            :: map Yield (walkTake isIPv6 n (mkWalk 0 resolvedIP resolvedIP)))
      /\ (resolvedIP <> EmptyString ->
          yields (iterateAddr isIPv6 dnsLookup addr n)
          = mkHost (Some resolvedIP) addr IP
            :: walkTake isIPv6 n (mkWalk 0 resolvedIP resolvedIP))
      /\ (net_isIP isIPv6 resolvedIP <> 0 ->
          tl (yields (iterateAddr isIPv6 dnsLookup addr n))
          = tl (yields (iterateAddr isIPv6 dnsLookup resolvedIP n)))
      /\ (isIPv4 resolvedIP = true ->
          yields (iterateAddr isIPv6 dnsLookup addr n)
          = mkHost (Some resolvedIP) addr IP
            :: map (fun u => ipHost (ipv4OfZ u))
                 (walkVals n 0 (ipv4Value resolvedIP) (ipv4Value resolvedIP)))
  end.
Proof.
  intros Hn Hc Hb.
  destruct (dnsLookup addr) as [r|] eqn:Ed.
  2:{ unfold iterateAddr, lookupAddr. rewrite Hc, Hn, Ed. reflexivity. }
  assert (He : r <> EmptyString ->
               iterateAddr isIPv6 dnsLookup addr n
               = Yield (mkHost (Some r) addr IP)
                 :: Info "Enable infinite mode"
                 :: map Yield (walkTake isIPv6 n (mkWalk 0 r r))).
  { intros Hne. apply String.eqb_neq in Hne.
    unfold iterateAddr, lookupAddr. rewrite Hc, Hn, Ed, Hne. reflexivity. }
  assert (Hw : r <> EmptyString ->
               yields (iterateAddr isIPv6 dnsLookup addr n)
               = mkHost (Some r) addr IP :: walkTake isIPv6 n (mkWalk 0 r r)).
  { intros Hne. rewrite (He Hne). cbn [yields flat_map app].
    f_equal. fold (yields (map Yield (walkTake isIPv6 n (mkWalk 0 r r)))).
    apply yields_map_Yield. }
  split; [| split; [exact He | split; [exact Hw | split]]].
  - intros ->. unfold iterateAddr, lookupAddr. rewrite Hc, Hn, Ed. reflexivity.
  - intros Hr. rewrite (Hw (net_isIP_nonempty r Hr)).
    rewrite (iterateAddr_literal isIPv6 dnsLookup isIPv6_colon r n Hr).
    reflexivity.
  - intros H4. rewrite Hw by (intros ->; discriminate). f_equal.
    pose proof (ipv4Value_bound _ H4) as B.
    rewrite <- (ipv4OfZ_value _ H4) at 1 2.
    apply walkTake_v4; unfold maxIPv4; lia.
Qed.

Lemma nextIPs_up e k : forall v,
  0 <= v <= maxIPv4 ->
  nextIPs isIPv6 k (ipv4OfZ v) true e
  = if v + Z.of_nat k <=? maxIPv4 then Some (ipv4OfZ (v + Z.of_nat k)) else None.
Proof.
  unfold maxIPv4.
  induction k as [|k IH]; intros v Hv; cbn [nextIPs].
  - rewrite Z.add_0_r. destruct (Z.leb_spec v 4294967295); [reflexivity | lia].
  - pose proof (isIPv4_ofZ v) as H4.
    assert (Ev : ipv4Value (ipv4OfZ v) = v) by (apply ipv4Value_ofZ; lia).
    destruct (Z.eq_dec v 4294967295) as [->|Hneq].
    + rewrite (nextIP_v4_top isIPv6 _ e H4 Ev).
      destruct (Z.leb_spec (4294967295 + Z.of_nat (S k)) 4294967295);
        [lia | reflexivity].
    + rewrite (nextIP_v4_up isIPv6 _ e H4) by lia.
      rewrite Ev, IH by lia.
      replace (v + 1 + Z.of_nat k) with (v + Z.of_nat (S k)) by lia.
      reflexivity.
Qed.

Lemma nextIPs_down e k : forall v,
  0 <= v <= maxIPv4 ->
  nextIPs isIPv6 k (ipv4OfZ v) false e
  = if 0 <=? v - Z.of_nat k then Some (ipv4OfZ (v - Z.of_nat k)) else None.
Proof.
  unfold maxIPv4.
  induction k as [|k IH]; intros v Hv; cbn [nextIPs].
  - rewrite Z.sub_0_r. destruct (Z.leb_spec 0 v); [reflexivity | lia].
  - pose proof (isIPv4_ofZ v) as H4.
    assert (Ev : ipv4Value (ipv4OfZ v) = v) by (apply ipv4Value_ofZ; lia).
    destruct (Z.eq_dec v 0) as [->|Hneq].
    + rewrite (nextIP_v4_bottom isIPv6 _ e H4 Ev).
      destruct (Z.leb_spec 0 (0 - Z.of_nat (S k))); [lia | reflexivity].
    + rewrite (nextIP_v4_down isIPv6 _ e H4) by lia.
      rewrite Ev, IH by lia.
      replace (v - 1 - Z.of_nat k) with (v - Z.of_nat (S k)) by lia.
      reflexivity.
Qed.

(** X9. [nextIP] can be iterated on IPv4 literals: [k] successive
    increments of a literal of value [v] give the literal of [v + k], and
    [null] as soon as [v + k] exceeds 2^32 - 1; [k] decrements give the
    literal of [v - k], and [null] as soon as [v - k] is negative.  Neither
    direction wraps around, the IPv6 flag has no effect, and [k] increments
    followed by [k] decrements return the literal started from. *)
Theorem nextIP_ipv4_steps a k e :
  isIPv4 a = true ->
  nextIPs isIPv6 k a true e
  = (if ipv4Value a + Z.of_nat k <=? maxIPv4
     then Some (ipv4OfZ (ipv4Value a + Z.of_nat k)) else None)
  /\ nextIPs isIPv6 k a false e
     = (if 0 <=? ipv4Value a - Z.of_nat k
        then Some (ipv4OfZ (ipv4Value a - Z.of_nat k)) else None)
  /\ (forall b, nextIPs isIPv6 k a true e = Some b ->
                nextIPs isIPv6 k b false e = Some a).
Proof.
  intros H4. pose proof (ipv4Value_bound _ H4) as B.
  assert (Hv : 0 <= ipv4Value a <= maxIPv4) by (unfold maxIPv4; lia).
  pose proof (nextIPs_up e k _ Hv) as Hu.
  pose proof (nextIPs_down e k _ Hv) as Hd.
  rewrite (ipv4OfZ_value _ H4) in Hu, Hd.
  split; [exact Hu |]. split; [exact Hd |].
  intros b Hb. rewrite Hu in Hb.
  destruct (Z.leb_spec (ipv4Value a + Z.of_nat k) maxIPv4) as [Hle|];
    [| discriminate].
  injection Hb as <-. rewrite nextIPs_down by lia.
  replace (ipv4Value a + Z.of_nat k - Z.of_nat k) with (ipv4Value a) by lia.
  destruct (Z.leb_spec 0 (ipv4Value a)); [| lia].
  rewrite (ipv4OfZ_value _ H4). reflexivity.
Qed.

End MoreSources.

Lemma iterate_hosts_well_formed_witness :
  let lines := ["10.0.0.0/30"; " example.com "] in
  let h := mkHost (Some "10.0.0.2") "10.0.0.0/30" CIDR in
  In h (yields (iterate isIPv6_ref lines true))
  /\ hostWellFormed isIPv6_ref h
  /\ (exists line, In line lines /\ origin h = JS.trim line)
  /\ (Scanner.truthy (ip h) = false <-> type h = Domain).
Proof.
  cbv zeta.
  assert (H : In (mkHost (Some "10.0.0.2") "10.0.0.0/30" CIDR)
                (yields (iterate isIPv6_ref ["10.0.0.0/30"; " example.com "] true))).
  { vm_compute. right. right. left. reflexivity. }
  split; [exact H |].
  exact (iterate_hosts_well_formed isIPv6_ref isIPv6_ref_colon _ _ _ H).
Defined.

Lemma iterate_address_hosts_skip_dns_witness :
  let h := ipHost "10.0.0.1" in
  let d := fun _ : string => Scanner.Throw (A := string) "ENOTFOUND" in
  In h (yields (iterate isIPv6_ref ["10.0.0.1"] false))
  /\ type h <> Domain
  /\ Scanner.scanTLS (withDns Fixtures.envOk d) h []
     = Scanner.scanTLS Fixtures.envOk h [].
Proof.
  cbv zeta.
  assert (H : In (ipHost "10.0.0.1") (yields (iterate isIPv6_ref ["10.0.0.1"] false))).
  { vm_compute. left. reflexivity. }
  assert (T : type (ipHost "10.0.0.1") <> Domain) by discriminate.
  split; [exact H |]. split; [exact T |].
  exact (iterate_address_hosts_skip_dns isIPv6_ref isIPv6_ref_colon _ _ _
           Fixtures.envOk _ [] H T).
Defined.

Lemma iterate_ipv6_literal_witness :
  isIPv6_ref (JS.trim " 2001:db8::1") = true
  /\ iterateLine isIPv6_ref false " 2001:db8::1"
     = [Warn ("Not a valid IP, CIDR, or domain: " ++ JS.trim " 2001:db8::1")]
  /\ iterateLine isIPv6_ref true " 2001:db8::1"
     = [Yield (ipHost (JS.trim " 2001:db8::1"))].
Proof.
  assert (H : isIPv6_ref (JS.trim " 2001:db8::1") = true)
    by (vm_compute; reflexivity).
  split; [exact H |].
  exact (iterate_ipv6_literal isIPv6_ref isIPv6_ref_colon _ H).
Defined.

Lemma iterate_malformed_dotted_decimal_witness :
  JS.trim "256.1.1.1" <> EmptyString
  /\ JS.forall_chars dottedChar (JS.trim "256.1.1.1") = true
  /\ isIPv4 (JS.trim "256.1.1.1") = false
  /\ iterateLine isIPv6_ref true "256.1.1.1"
     = [Yield (mkHost None (JS.trim "256.1.1.1") Domain)].
Proof.
  assert (H1 : JS.trim "256.1.1.1" <> EmptyString) by (vm_compute; discriminate).
  assert (H2 : JS.forall_chars dottedChar (JS.trim "256.1.1.1") = true)
    by (vm_compute; reflexivity).
  assert (H3 : isIPv4 (JS.trim "256.1.1.1") = false) by (vm_compute; reflexivity).
  split; [exact H1 |]. split; [exact H2 |]. split; [exact H3 |].
  exact (iterate_malformed_dotted_decimal isIPv6_ref isIPv6_ref_colon _ true
           H1 H2 H3).
Defined.

Lemma iterateAddr_domain_seed_witness :
  let dns := fun _ : string => Some "93.184.216.34" in
  net_isIP isIPv6_ref "example.com" = 0
  /\ cidrMatch "example.com" = None
  /\ Z.of_nat 4 <= JS.MAX_SAFE_INTEGER
  /\ yields (iterateAddr isIPv6_ref dns "example.com" 4)
     = mkHost (Some "93.184.216.34") "example.com" IP
       :: map (fun u => ipHost (ipv4OfZ u))
            (walkVals 4 0 (ipv4Value "93.184.216.34") (ipv4Value "93.184.216.34"))
  /\ iterateAddr isIPv6_ref no_dns "example.com" 4
     = [Error "Failed to lookup example.com: ";
        Error "Not a valid IP, CIDR, or domain:"].
Proof.
  cbv zeta.
  assert (H1 : net_isIP isIPv6_ref "example.com" = 0) by (vm_compute; reflexivity).
  assert (H2 : cidrMatch "example.com" = None) by (vm_compute; reflexivity).
  assert (H3 : Z.of_nat 4 <= JS.MAX_SAFE_INTEGER) by (vm_compute; discriminate).
  split; [exact H1 |]. split; [exact H2 |]. split; [exact H3 |]. split.
  - exact (proj2 (proj2 (proj2 (proj2 (iterateAddr_domain_seed isIPv6_ref
                    (fun _ : string => Some "93.184.216.34") isIPv6_ref_colon
                    "example.com" 4 H1 H2 H3)))) eq_refl).
  - exact (iterateAddr_domain_seed isIPv6_ref no_dns isIPv6_ref_colon
             "example.com" 4 H1 H2 H3).
Defined.

Lemma nextIP_ipv4_steps_witness :
  isIPv4 "10.0.0.250" = true
  /\ nextIPs isIPv6_ref 10 "10.0.0.250" true false
     = (if ipv4Value "10.0.0.250" + Z.of_nat 10 <=? maxIPv4
        then Some (ipv4OfZ (ipv4Value "10.0.0.250" + Z.of_nat 10)) else None)
  /\ nextIPs isIPv6_ref 10 "10.0.0.250" false false
     = (if 0 <=? ipv4Value "10.0.0.250" - Z.of_nat 10
        then Some (ipv4OfZ (ipv4Value "10.0.0.250" - Z.of_nat 10)) else None)
  /\ (forall b, nextIPs isIPv6_ref 10 "10.0.0.250" true false = Some b ->
                nextIPs isIPv6_ref 10 b false false = Some "10.0.0.250").
Proof.
  assert (H : isIPv4 "10.0.0.250" = true) by (vm_compute; reflexivity).
  split; [exact H |].
  exact (nextIP_ipv4_steps isIPv6_ref "10.0.0.250" 10 false H).
Defined.

(* ================================================================== *)
(** * The prober: sockets, results, batches; the GeoIP service *)
(* ================================================================== *)

Module ProbeProps.

Import Scanner Fixtures ScannerBatch ScannerProps.
Local Open Scope js_scope.

(** Case analysis on what the collaborators answer to a probe. *)
Ltac probe_cases :=
  unfold scanTLS, lookupIP, tryCatch, tryFinally, bind, ret, emit, await;
  repeat match goal with
         | |- context [truthy ?x] => destruct (truthy x) eqn:?
         | |- context [dns_lookup ?e ?a] => destruct (dns_lookup e a) eqn:?
         | |- context [ip ?h] => destruct (ip h) eqn:?
         | |- context [createConnection ?e ?a ?p] =>
             destruct (createConnection e a p) as [[]|?] eqn:?
         | |- context [performTLSHandshake ?e ?a ?o] =>
             destruct (performTLSHandshake e a o) eqn:?
         | |- context [getPeerCertificate ?s] =>
             destruct (getPeerCertificate s) eqn:?
         | |- context [subject ?c] => destruct (subject c) eqn:?
         | |- context [isFeasible ?a ?b ?c ?d] =>
             destruct (isFeasible a b c d) eqn:?
         end.

(** A probe reads nothing from the trace and only appends to it. *)
Lemma scanTLS_trace env host t :
  scanTLS env host t
  = (fst (scanTLS env host []), (t ++ snd (scanTLS env host []))%list).
Proof.
  probe_cases; cbn [fst snd app]; rewrite <- ?app_assoc; cbn [app];
    rewrite ?app_nil_r; reflexivity.
Qed.

(** X10. A probe releases what it acquired, on every exit path: among the
    effects it appends to the trace, the socket operations are none when
    no connection was made; otherwise the 10 s timeout, then the release
    of the TLS socket exactly when the handshake completed, then the
    release of the TCP socket, once each and in this order, whether the
    probe ends with a result, without certificate or in the catch. *)
Theorem scanTLS_releases_sockets env host t :
  filter isSocketOp (snd (scanTLS env host t))
  = (filter isSocketOp t ++ socketOpsOf env host)%list.
Proof.
  rewrite scanTLS_trace. cbn [snd]. rewrite filter_app. f_equal.
  unfold socketOpsOf, hostAddress, tlsOptionsFor.
  probe_cases; try reflexivity; try discriminate.
Qed.


Lemma orDefault_nonempty x d : d <> EmptyString -> orDefault x d <> EmptyString.
Proof.
  intros Hd. unfold orDefault. destruct x as [s|]; [| exact Hd].
  destruct (String.eqb_spec s EmptyString); [exact Hd | assumption].
Qed.

Lemma hostAddress_nonempty env host hip :
  hostAddress env host = Some hip -> hip <> EmptyString.
Proof.
  unfold hostAddress. destruct (truthy (ip host)) eqn:E.
  - intros H. rewrite H in E. cbn in E.
    apply negb_true_iff, String.eqb_neq in E. exact E.
  - destruct (dns_lookup env (origin host)) as [a|]; [| discriminate].
    destruct (truthy (Some a)) eqn:Ea; [| discriminate].
    intros H. injection H as <-. cbn in Ea.
    apply negb_true_iff, String.eqb_neq in Ea. exact Ea.
Qed.

(** X11. Whatever the collaborators answer, a result that [scanTLS]
    returns names the probe as it was made: its origin is the host's
    origin, its address is the non-empty address that was connected to
    (the host's own address when it has one, else the address DNS gave for
    the origin), its country code is the GeoIP answer for that address,
    and its protocol and ALPN fields are never empty (they read "unknown"
    and "none" when the socket reports nothing). *)
Theorem scanTLS_result_fields env host t r t' :
  scanTLS env host t = (Ok (Some r), t') ->
  r_origin r = origin host
  /\ hostAddress env host = Some (r_ip r)
  /\ r_ip r <> EmptyString
  /\ (truthy (ip host) = true -> ip host = Some (r_ip r))
  /\ (truthy (ip host) = false -> dns_lookup env (origin host) = Ok (r_ip r))
  /\ r_geoCode r = getGeo env (r_ip r)
  /\ r_tlsVersion r <> EmptyString
  /\ r_alpn r <> EmptyString.
Proof.
  intros H. apply scanTLS_result in H
    as (hip & tlsSocket & cert & subj & Ha & _ & _ & _ & _ & ->).
  cbn [r_origin r_ip r_geoCode r_tlsVersion r_alpn].
  split; [reflexivity |]. split; [exact Ha |].
  split; [exact (hostAddress_nonempty _ _ _ Ha) |].
  split; [| split].
  - intros E. unfold hostAddress in Ha. rewrite E in Ha. exact Ha.
  - intros E. unfold hostAddress in Ha. rewrite E in Ha.
    destruct (dns_lookup env (origin host)) as [a|]; [| discriminate].
    destruct (truthy (Some a)); [| discriminate]. congruence.
  - split; [reflexivity |].
    split; apply orDefault_nonempty; discriminate.
Qed.

Lemma scanTLS_result_fields_witness :
  exists r t',
    scanTLS envOk exampleHost [] = (Ok (Some r), t')
    /\ r_origin r = origin exampleHost
    /\ hostAddress envOk exampleHost = Some (r_ip r)
    /\ r_ip r <> EmptyString
    /\ (truthy (ip exampleHost) = true -> ip exampleHost = Some (r_ip r))
    /\ (truthy (ip exampleHost) = false ->
        dns_lookup envOk (origin exampleHost) = Ok (r_ip r))
    /\ r_geoCode r = getGeo envOk (r_ip r)
    /\ r_tlsVersion r <> EmptyString
    /\ r_alpn r <> EmptyString.
Proof.
  eexists. eexists. split; [vm_compute; reflexivity |].
  apply (scanTLS_result_fields envOk exampleHost []
           exampleResult
           [SocketSetTimeout 10000; LogInfo "Connected to target"; TlsDestroy;
            SocketDestroy]).
  vm_compute. reflexivity.
Defined.

Lemma scanTLS_with_address env host d :
  truthy (ip host) = true ->
  scanTLS (withDns env d) host = scanTLS env host.
Proof.
  intros E. unfold scanTLS, withDns. rewrite E. reflexivity.
Qed.

(** ** Batches *)

Lemma probe_run env host t :
  exists t', scanTLS env host t = (Ok (probe env host), t').
Proof.
  rewrite scanTLS_trace. unfold probe.
  destruct (scanTLS_total env host []) as (result & t0 & E).
  rewrite E. cbn [fst snd]. eexists. reflexivity.
Qed.

Lemma batchItem_run env host t :
  exists t', batchItem env host t = (Ok (probe env host), t').
Proof.
  unfold batchItem, tryCatch.
  destruct (probe_run env host t) as (t' & ->). eexists. reflexivity.
Qed.

Lemma settleAll_run env batch : forall t,
  exists t', settleAll env batch t = (Ok (map (probe env) batch), t').
Proof.
  induction batch as [|host r IH]; intros t; cbn [settleAll map].
  - eexists. reflexivity.
  - unfold bind. destruct (batchItem_run env host t) as (t1 & ->).
    destruct (IH t1) as (t2 & ->). eexists. reflexivity.
Qed.

Lemma fulfilled_app a b : fulfilled (a ++ b) = (fulfilled a ++ fulfilled b)%list.
Proof. apply flat_map_app. Qed.

Lemma slice_batch {A} (l : list A) i c :
  0 <= i < Z.of_nat (List.length l) -> 1 <= c ->
  skipn (Z.to_nat i) l
  = (sliceArray l i (i + c) ++ skipn (Z.to_nat (i + c)) l)%list.
Proof.
  intros Hi Hc. unfold sliceArray.
  destruct (Z.ltb_spec i 0); [lia |].
  destruct (Z.ltb_spec (i + c) 0); [lia |].
  rewrite (Z.min_l i) by lia.
  set (len := Z.of_nat (List.length l)) in *.
  rewrite <- (firstn_skipn (Z.to_nat (Z.min (i + c) len - i))
                (skipn (Z.to_nat i) l)) at 1.
  f_equal. rewrite skipn_skipn.
  destruct (Z.le_ge_cases (i + c) len).
  - rewrite Z.min_l by lia. f_equal. lia.
  - rewrite Z.min_r by lia.
    rewrite !skipn_all2; [reflexivity | unfold len in *; lia | unfold len in *; lia].
Qed.

(** The pauses still to come when the loop stands at index [i]. *)
Lemma scanTLSBatchFrom_run env hosts c fuel : forall i results pauses t,
  1 <= c -> 0 <= i ->
  Z.max 0 (Z.of_nat (List.length hosts) - i) < Z.of_nat fuel ->
  exists t',
    scanTLSBatchFrom fuel env hosts c i results pauses t
    = (Ok (Some ((results ++ probeAll env (skipn (Z.to_nat i) hosts))%list,
                 pauses + (if i <? Z.of_nat (List.length hosts)
                           then (Z.of_nat (List.length hosts) - 1 - i) / c
                           else 0))),
       t').
Proof.
  set (n := Z.of_nat (List.length hosts)).
  induction fuel as [|f IH]; intros i results pauses t Hc Hi Hf; [lia |].
  cbn [scanTLSBatchFrom]. fold n.
  destruct (Z.ltb_spec i n) as [Hlt|Hge].
  - unfold bind.
    destruct (settleAll_run env (sliceArray hosts i (i + c)) t) as (t1 & ->).
    destruct (IH (i + c)
                (results ++ fulfilled (map (probe env) (sliceArray hosts i (i + c))))%list
                (if i + c <? n then pauses + 1 else pauses) t1)
      as (t2 & ->); [lia | lia | lia |].
    exists t2.
    assert (E1 : ((results ++ fulfilled (map (probe env) (sliceArray hosts i (i + c))))
                  ++ probeAll env (skipn (Z.to_nat (i + c)) hosts))%list
                 = (results ++ probeAll env (skipn (Z.to_nat i) hosts))%list).
    { rewrite <- app_assoc. unfold probeAll.
      rewrite <- fulfilled_app, <- map_app.
      rewrite <- slice_batch by (fold n; lia). reflexivity. }
    assert (E2 : (if i + c <? n then pauses + 1 else pauses)
                 + (if i + c <? n then (n - 1 - (i + c)) / c else 0)
                 = pauses + (n - 1 - i) / c).
    { destruct (Z.ltb_spec (i + c) n).
      - replace (n - 1 - i) with ((n - 1 - (i + c)) + 1 * c) by lia.
        rewrite Z.div_add by lia. lia.
      - rewrite (Z.div_small (n - 1 - i)) by lia. lia. }
    rewrite E1, E2. reflexivity.
  - exists t. unfold ret.
    unfold probeAll. rewrite skipn_all2 by (fold n; lia).
    cbn [map fulfilled flat_map]. rewrite app_nil_r, Z.add_0_r. reflexivity.
Qed.

(** X12. For every concurrency of at least 1, [scanTLSBatch] returns and
    never throws; the batches are invisible in its result, which holds
    the results of the hosts whose probe gives one, in the order of the
    hosts; and it pauses between batches only: [(n - 1) / concurrency]
    times for [n > 0] hosts, never after the last batch. *)
Theorem scanTLSBatch_results env hosts concurrency fuel t :
  1 <= concurrency ->
  (List.length hosts < fuel)%nat ->
  exists t',
    scanTLSBatch fuel env hosts concurrency t
    = (Ok (Some (probeAll env hosts,
                 if (0 <? Z.of_nat (List.length hosts))
                 then (Z.of_nat (List.length hosts) - 1) / concurrency
                 else 0)),
       t').
Proof.
  intros Hc Hf. unfold scanTLSBatch.
  destruct (scanTLSBatchFrom_run env hosts concurrency fuel 0 [] 0 t)
    as (t' & E); [lia | lia | lia |].
  exists t'. rewrite E. cbn [skipn Z.to_nat app]. rewrite Z.sub_0_r.
  reflexivity.
Qed.

Lemma scanTLSBatch_results_witness :
  let hosts := [exampleHost; ipHost "10.0.0.1"; exampleHost] in
  1 <= 2
  /\ (List.length hosts < 4)%nat
  /\ exists t',
       scanTLSBatch 4 envOk hosts 2 []
       = (Ok (Some (probeAll envOk hosts,
                    if (0 <? Z.of_nat (List.length hosts))
                    then (Z.of_nat (List.length hosts) - 1) / 2
                    else 0)),
          t').
Proof.
  cbv zeta.
  assert (H1 : 1 <= 2) by lia.
  assert (H2 : (List.length [exampleHost; ipHost "10.0.0.1"; exampleHost] < 4)%nat)
    by (cbn; lia).
  split; [exact H1 |]. split; [exact H2 |].
  exact (scanTLSBatch_results envOk _ 2 4 [] H1 H2).
Defined.

(** X13. With a concurrency of 0 or less, [scanTLSBatch] never returns
    when there is a host: the index does not advance past the first host,
    so the loop condition stays true for any number of turns.  With a
    concurrency of 0 it does so without probing any host. *)
Theorem scanTLSBatch_diverges env hosts concurrency :
  concurrency <= 0 -> hosts <> [] ->
  forall fuel t,
    fst (scanTLSBatch fuel env hosts concurrency t) = Ok None
    /\ (concurrency = 0 -> snd (scanTLSBatch fuel env hosts concurrency t) = t).
Proof.
  intros Hc Hne fuel. unfold scanTLSBatch.
  assert (Hn : 0 < Z.of_nat (List.length hosts)).
  { destruct hosts; [contradiction | cbn [List.length]; lia]. }
  assert (G : forall i results pauses t, i <= 0 ->
              fst (scanTLSBatchFrom fuel env hosts concurrency i results pauses t)
              = Ok None
              /\ (concurrency = 0 ->
                  snd (scanTLSBatchFrom fuel env hosts concurrency i results
                         pauses t) = t)).
  { induction fuel as [|f IH]; intros i results pauses t Hi;
      cbn [scanTLSBatchFrom]; [split; reflexivity |].
    destruct (Z.ltb_spec i (Z.of_nat (List.length hosts))); [| lia].
    unfold bind.
    destruct (settleAll_run env (sliceArray hosts i (i + concurrency)) t)
      as (t1 & E).
    rewrite E. split; [apply IH; lia |].
    intros ->.
    assert (Es : sliceArray hosts i (i + 0) = []).
    { unfold sliceArray.
      destruct (Z.ltb_spec i 0); destruct (Z.ltb_spec (i + 0) 0);
        match goal with
        | |- firstn (Z.to_nat ?d) _ = _ =>
            replace (Z.to_nat d) with O by lia; reflexivity
        end. }
    rewrite Es in E. cbn [settleAll] in E. unfold ret in E.
    injection E as <-. apply IH; [lia | reflexivity]. }
  intros t. apply G. lia.
Qed.

Lemma scanTLSBatch_diverges_witness :
  0 <= 0
  /\ [exampleHost] <> []
  /\ fst (scanTLSBatch 1000 envOk [exampleHost] 0 []) = Ok None
  /\ (0 = 0 -> snd (scanTLSBatch 1000 envOk [exampleHost] 0 []) = []).
Proof.
  assert (H1 : 0 <= 0) by lia.
  assert (H2 : [exampleHost] <> []) by discriminate.
  split; [exact H1 |]. split; [exact H2 |].
  exact (scanTLSBatch_diverges envOk [exampleHost] 0 H1 H2 1000%nat []).
Defined.

End ProbeProps.

Module GeoProps.

Import Scanner GeoService.

(** X14. [getGeo] never throws and never returns the empty string.  It
    returns "N/A" when no database is loaded, when the argument is not an
    IP literal, and when the reader throws; any other answer is the ISO
    code that the reader found for the address. *)
Theorem getGeo_total isIPv6 geoReader ip :
  getGeo isIPv6 geoReader ip <> EmptyString
  /\ (geoReader = None -> getGeo isIPv6 geoReader ip = "N/A")
  /\ (net_isIP isIPv6 ip = 0 -> getGeo isIPv6 geoReader ip = "N/A")
  /\ (forall reader error,
        geoReader = Some reader -> get reader ip = Throw error ->
        getGeo isIPv6 geoReader ip = "N/A")
  /\ (getGeo isIPv6 geoReader ip <> "N/A" ->
      exists reader response c,
        geoReader = Some reader /\ net_isIP isIPv6 ip <> 0
        /\ get reader ip = Ok (Some response)
        /\ country response = Some c
        /\ iso_code c = Some (getGeo isIPv6 geoReader ip)).
Proof.
  unfold getGeo, readGeo, validateIP, isoCodeOf.
  destruct geoReader as [reader|].
  2:{ split; [discriminate |]. split; [reflexivity |]. split; [reflexivity |].
      split; [discriminate |]. intros H; contradiction H; reflexivity. }
  destruct (Z.eqb_spec (net_isIP isIPv6 ip) 0) as [E0|E0].
  { split; [discriminate |]. split; [reflexivity |]. split; [reflexivity |].
    split; [reflexivity |]. intros H; contradiction H; reflexivity. }
  destruct (String.eqb_spec ip EmptyString) as [Ei|Ei].
  { split; [discriminate |]. split; [reflexivity |]. split; [reflexivity |].
    split; [reflexivity |]. intros H; contradiction H; reflexivity. }
  destruct (get reader ip) as [result|error] eqn:Eg.
  2:{ split; [discriminate |]. split; [reflexivity |]. split; [reflexivity |].
      split; [reflexivity |]. intros H; contradiction H; reflexivity. }
  split; [apply ProbeProps.orDefault_nonempty; discriminate |].
  split; [discriminate |]. split; [contradiction |].
  split.
  - intros reader' error H. injection H as <-. rewrite Eg. discriminate.
  - intros H. destruct result as [response|]; [| contradiction H; reflexivity].
    destruct (country response) as [c|] eqn:Ec; [| contradiction H; reflexivity].
    destruct (iso_code c) as [code|] eqn:Eo; [| contradiction H; reflexivity].
    exists reader, response, c. repeat split; try assumption.
    rewrite Eo. f_equal. cbn [orDefault] in *.
    destruct (String.eqb_spec code EmptyString); [contradiction H; reflexivity | reflexivity].
Qed.

End GeoProps.

(* ================================================================== *)
(** * The coordinator: the output file under every schedule *)
(* ================================================================== *)

Module FileProps.

Import Scanner App Fixtures ScannerProps AppProps.

Lemma formatScanResult_nonempty r :
  r_feasible r = true -> formatScanResult r <> EmptyString.
Proof.
  intros H. rewrite (formatScanResult_feasible r H).
  destruct (r_ip r); discriminate.
Qed.

Lemma Forall_setPhase (P : WorkerPhase -> Prop) w p l :
  Forall P l -> P p -> Forall P (setPhase w p l).
Proof.
  intros Hl Hp. revert w. induction Hl as [|x l Hx Hl IH]; intros w.
  - destruct w; constructor.
  - destruct w; cbn [setPhase]; constructor; auto.
Qed.

Lemma afterScan_record result f :
  recordPhase (afterScan result f).
Proof.
  unfold afterScan. destruct result as [r|]; [| exact I].
  destruct f; [| exact I].
  destruct (r_feasible r) eqn:E; cbn [andb]; [| exact I].
  destruct (negb _); [| exact I].
  exists r. split; [assumption | reflexivity].
Qed.

Lemma afterScan_writing result f :
  isWriting (afterScan result f)
  = match result, f with
    | Some r, Some _ => r_feasible r
    | _, _ => false
    end.
Proof.
  unfold afterScan. destruct result as [r|]; [| reflexivity].
  destruct f; [| reflexivity].
  destruct (r_feasible r) eqn:E; cbn [andb]; [| reflexivity].
  pose proof (formatScanResult_nonempty r E) as N.
  apply String.eqb_neq in N. rewrite N. reflexivity.
Qed.

Lemma FileInv_start threadCount outputPath inf t0 :
  FileInv (start threadCount (setupOutputFile outputPath) inf t0).
Proof.
  unfold FileInv, start, setupOutputFile. cbn.
  split; [lia |]. split.
  - induction threadCount; cbn; constructor; [exact I | assumption].
  - rewrite cnt_repeat. cbn [isWriting].
    destruct (negb _); [| reflexivity].
    exists []. cbn. repeat split; try lia. constructor.
Qed.

Lemma FileInv_closeFile s s' :
  FileInv s ->
  scanCount s' = scanCount s -> feasibleCount s' = feasibleCount s ->
  workers s' = workers s ->
  (outputFile s' = outputFile s \/ outputFile s' = closeFile (outputFile s)) ->
  FileInv s'.
Proof.
  intros (F1 & F2 & F3) Es Ef Ew Eo. unfold FileInv.
  rewrite Es, Ef, Ew. split; [assumption |]. split; [assumption |].
  destruct Eo as [->| ->]; [assumption |].
  destruct (outputFile s) as [f|]; cbn [closeFile]; [| assumption].
  destruct F3 as (lines & Hc & Hr & Hle & _).
  exists lines. cbn. repeat split; try assumption. discriminate.
Qed.

Lemma FileInv_step env s l s' : FileInv s -> step env s l = Some s' -> FileInv s'.
Proof.
  intros F Hs. pose proof F as (F1 & F2 & F3).
  unfold step in Hs. destruct (halted s); [discriminate |].
  destruct l as [w h|w|w|w|w| | | | |d].
  - (* Next *)
    destruct (nth_error (workers s) w) as [[| | | | |]|] eqn:Ew; try discriminate.
    destruct h as [host|]; [destruct (isShuttingDown s) |];
      injection Hs as <-; unfold FileInv, withWorker; cbn;
      rewrite (cnt_setPhase _ _ _ _ _ Ew); cbn [isWriting Z.b2z];
      rewrite Z.sub_0_r, Z.add_0_r;
      (split; [assumption |]); (split; [apply Forall_setPhase; [assumption | exact I] |]);
      assumption.
  - (* Scanned *)
    destruct (nth_error (workers s) w) as [[|host | | | |]|] eqn:Ew; try discriminate.
    destruct (fst (scanTLS env host [])) as [result|e].
    + injection Hs as <-. unfold FileInv. cbn.
      rewrite (cnt_setPhase _ _ _ _ _ Ew), afterScan_writing.
      cbn [isWriting Z.b2z]. rewrite Z.sub_0_r.
      split; [destruct result as [r|]; [destruct (r_feasible r) |]; lia |].
      split; [apply Forall_setPhase; [assumption | apply afterScan_record] |].
      destruct (outputFile s) as [f|].
      * destruct F3 as (lines & Hc & Hr & Hle & Heq).
        exists lines. split; [assumption |]. split; [assumption |].
        destruct result as [r|]; [destruct (r_feasible r) |];
          cbn [Z.b2z]; split; try lia; intros Ho; specialize (Heq Ho); lia.
      * destruct result as [r|]; cbn [Z.b2z]; lia.
    + injection Hs as <-. unfold FileInv, withWorker. cbn.
      rewrite (cnt_setPhase _ _ _ _ _ Ew). cbn [isWriting Z.b2z].
      rewrite Z.sub_0_r, Z.add_0_r.
      split; [assumption |]. split; [apply Forall_setPhase; [assumption | exact I] |].
      assumption.
  - (* Written *)
    destruct (nth_error (workers s) w) as [[| |csvLine | | |]|] eqn:Ew; try discriminate.
    injection Hs as <-. unfold FileInv. cbn.
    rewrite (cnt_setPhase _ _ _ _ _ Ew). cbn [isWriting Z.b2z].
    pose proof (cnt_nonneg isWriting (setPhase w Sleeping (workers s))) as Hn.
    rewrite (cnt_setPhase _ _ _ _ _ Ew) in Hn. cbn [isWriting Z.b2z] in Hn.
    assert (Hline : isRecord csvLine).
    { apply nth_error_In in Ew. rewrite Forall_forall in F2.
      exact (F2 _ Ew). }
    split; [assumption |]. split; [apply Forall_setPhase; [assumption | exact I] |].
    destruct (outputFile s) as [f|]; cbn [writeFile]; [| lia].
    destruct F3 as (lines & Hc & Hr & Hle & Heq).
    destruct (f_open f) eqn:Eo.
    + exists (lines ++ [csvLine])%list. cbn. rewrite Hc.
      split; [reflexivity |].
      split; [apply Forall_app; split; [assumption | constructor; [assumption | constructor]] |].
      unfold zlen in *. rewrite length_app. cbn [List.length].
      specialize (Heq eq_refl). split; [lia | intros _; lia].
    + exists lines. rewrite Eo. repeat split; try assumption; try lia;
        try discriminate.
  - (* Woke *)
    destruct (nth_error (workers s) w) as [[| | | | |]|] eqn:Ew; try discriminate.
    injection Hs as <-. unfold FileInv, withWorker. cbn.
    rewrite (cnt_setPhase _ _ _ _ _ Ew). cbn [isWriting Z.b2z].
    rewrite Z.sub_0_r, Z.add_0_r.
    split; [assumption |]. split; [apply Forall_setPhase; [assumption | exact I] |].
    assumption.
  - (* Returned *)
    destruct (nth_error (workers s) w) as [[| | | | |]|] eqn:Ew; try discriminate.
    injection Hs as <-. unfold FileInv. cbn.
    rewrite (cnt_setPhase _ _ _ _ _ Ew). cbn [isWriting Z.b2z].
    rewrite Z.sub_0_r, Z.add_0_r.
    split; [assumption |]. split; [apply Forall_setPhase; [assumption | exact I] |].
    assumption.
  - (* Settled *)
    destruct (negb (infinite s) && negb (settled s) && forallb isExited (workers s));
      [| discriminate].
    injection Hs as <-.
    apply (FileInv_closeFile s); try reflexivity; [assumption | right; reflexivity].
  - (* Signal *)
    destruct (shutdown s); try discriminate. injection Hs as <-.
    unfold afterWait.
    destruct ((activeWorkers s >? 0) && (now s - now s <? maxWait));
      apply (FileInv_closeFile s); try reflexivity; try assumption;
      [left | right]; reflexivity.
  - (* Poll *)
    destruct (shutdown s) as [|startWait| |]; try discriminate.
    injection Hs as <-. unfold afterWait.
    destruct ((activeWorkers s >? 0) && (now s - startWait <? maxWait));
      apply (FileInv_closeFile s); try reflexivity; try assumption;
      [left | right]; reflexivity.
  - (* Closed *)
    destruct (shutdown s); try discriminate. injection Hs as <-.
    apply (FileInv_closeFile s); try reflexivity; [assumption | left; reflexivity].
  - (* Tick *)
    destruct (d <? 0); [discriminate |]. injection Hs as <-.
    apply (FileInv_closeFile s); try reflexivity; [assumption | left; reflexivity].
Qed.

Lemma FileInv_run env ls : forall s s',
  FileInv s -> run env s ls = Some s' -> FileInv s'.
Proof.
  induction ls as [|l r IH]; intros s s' F H; cbn [run] in H.
  - injection H as <-. assumption.
  - destruct (step env s l) as [s1|] eqn:E; [| discriminate].
    exact (IH _ _ (FileInv_step _ _ _ _ F E) H).
Qed.

Lemma closeFile_closed f : fileClosedOpt f -> closeFile f = f.
Proof.
  destruct f as [[o c]|]; cbn; [| contradiction]. intros ->. reflexivity.
Qed.

Lemma closed_step env s l s' :
  step env s l = Some s' -> fileClosed s -> outputFile s' = outputFile s.
Proof.
  unfold fileClosed. intros Hs Hc. unfold step in Hs.
  destruct (halted s); [discriminate |].
  destruct l as [w h|w|w|w|w| | | | |d].
  - destruct (nth_error (workers s) w) as [[| | | | |]|]; try discriminate.
    destruct h; [destruct (isShuttingDown s) |]; injection Hs as <-; reflexivity.
  - destruct (nth_error (workers s) w) as [[| | | | |]|]; try discriminate.
    destruct (fst (scanTLS env host [])); injection Hs as <-; reflexivity.
  - destruct (nth_error (workers s) w) as [[| | | | |]|]; try discriminate.
    injection Hs as <-. cbn.
    destruct (outputFile s) as [[o c]|]; cbn in *; [| contradiction].
    rewrite Hc. reflexivity.
  - destruct (nth_error (workers s) w) as [[| | | | |]|]; try discriminate.
    injection Hs as <-. reflexivity.
  - destruct (nth_error (workers s) w) as [[| | | | |]|]; try discriminate.
    injection Hs as <-. reflexivity.
  - destruct (_ && _); [| discriminate]. injection Hs as <-. cbn.
    apply closeFile_closed. assumption.
  - destruct (shutdown s); try discriminate. injection Hs as <-.
    unfold afterWait. destruct (_ && _); cbn; [reflexivity |].
    apply closeFile_closed. assumption.
  - destruct (shutdown s); try discriminate. injection Hs as <-.
    unfold afterWait. destruct (_ && _); cbn; [reflexivity |].
    apply closeFile_closed. assumption.
  - destruct (shutdown s); try discriminate. injection Hs as <-. reflexivity.
  - destruct (d <? 0); [discriminate |]. injection Hs as <-. reflexivity.
Qed.

Lemma closed_run env ls : forall s s',
  run env s ls = Some s' -> fileClosed s -> outputFile s' = outputFile s.
Proof.
  induction ls as [|l r IH]; intros s s' H Hc; cbn [run] in H.
  - injection H as <-. reflexivity.
  - destruct (step env s l) as [s1|] eqn:E; [| discriminate].
    pose proof (closed_step _ _ _ _ E Hc) as E1.
    rewrite (IH _ _ H); [assumption |].
    unfold fileClosed. rewrite E1. assumption.
Qed.

Lemma hasFile_step env s l s' :
  step env s l = Some s' -> hasFile (outputFile s') = hasFile (outputFile s).
Proof.
  intros Hs. unfold step in Hs. destruct (halted s); [discriminate |].
  destruct l as [w h|w|w|w|w| | | | |d].
  - destruct (nth_error (workers s) w) as [[| | | | |]|]; try discriminate.
    destruct h; [destruct (isShuttingDown s) |]; injection Hs as <-; reflexivity.
  - destruct (nth_error (workers s) w) as [[| | | | |]|]; try discriminate.
    destruct (fst (scanTLS env host [])); injection Hs as <-; reflexivity.
  - destruct (nth_error (workers s) w) as [[| | | | |]|]; try discriminate.
    injection Hs as <-. cbn.
    destruct (outputFile s) as [[[] c]|]; reflexivity.
  - destruct (nth_error (workers s) w) as [[| | | | |]|]; try discriminate.
    injection Hs as <-. reflexivity.
  - destruct (nth_error (workers s) w) as [[| | | | |]|]; try discriminate.
    injection Hs as <-. reflexivity.
  - destruct (_ && _); [| discriminate]. injection Hs as <-. cbn.
    destruct (outputFile s); reflexivity.
  - destruct (shutdown s); try discriminate. injection Hs as <-.
    unfold afterWait. destruct (_ && _); cbn; [reflexivity |].
    destruct (outputFile s); reflexivity.
  - destruct (shutdown s); try discriminate. injection Hs as <-.
    unfold afterWait. destruct (_ && _); cbn; [reflexivity |].
    destruct (outputFile s); reflexivity.
  - destruct (shutdown s); try discriminate. injection Hs as <-. reflexivity.
  - destruct (d <? 0); [discriminate |]. injection Hs as <-. reflexivity.
Qed.

Lemma hasFile_run env ls : forall s s',
  run env s ls = Some s' -> hasFile (outputFile s') = hasFile (outputFile s).
Proof.
  induction ls as [|l r IH]; intros s s' H; cbn [run] in H.
  - injection H as <-. reflexivity.
  - destruct (step env s l) as [s1|] eqn:E; [| discriminate].
    rewrite (IH _ _ H). exact (hasFile_step _ _ _ _ E).
Qed.

(** X15. Under every schedule of the event loop, with or without a
    shutdown signal: the feasible count never exceeds the scan count; the
    output file holds the header written by [setupOutputFile] followed
    only by complete records, each the CSV line of a feasible result;
    there are never more records than feasible results counted, and while
    the file is open every feasible result counted is on file or being
    written; once the file is closed its content never changes again. *)
Theorem output_file_records env threadCount outputPath inf t0 ls s :
  run env (start threadCount (setupOutputFile outputPath) inf t0) ls = Some s ->
  0 <= feasibleCount s <= scanCount s
  /\ match outputFile s with
     | Some f =>
         outputPath <> EmptyString
         /\ exists lines,
              f_chunks f = csvHeader :: lines
              /\ Forall isRecord lines
              /\ zlen lines <= feasibleCount s
              /\ (f_open f = true ->
                  zlen lines + cnt isWriting (workers s) = feasibleCount s)
     | None => outputPath = EmptyString
     end
  /\ forall ls' s',
       run env s ls' = Some s' -> fileClosed s -> outputFile s' = outputFile s.
Proof.
  intros H.
  pose proof (FileInv_run env ls _ _ (FileInv_start _ _ _ _) H) as (F1 & F2 & F3).
  split; [assumption |]. split.
  - assert (Hp : match outputFile s with
                 | Some _ => outputPath <> EmptyString
                 | None => outputPath = EmptyString
                 end).
    { pose proof (hasFile_run env ls _ _ H) as Hf.
      unfold start, setupOutputFile in Hf. cbn in Hf.
      destruct (String.eqb_spec outputPath EmptyString) as [E|E];
        destruct (outputFile s); cbn in Hf; try discriminate; assumption. }
    destruct (outputFile s) as [f|]; [| assumption].
    split; [assumption |].
    destruct F3 as (lines & Hc & Hr & Hle & Heq).
    exists lines. pose proof (cnt_nonneg isWriting (workers s)).
    repeat split; try assumption; lia.
  - intros ls' s'. apply closed_run.
Qed.

Lemma output_file_records_witness :
  exists s,
    run envOk (start 2 (setupOutputFile "out.csv") true 0) cancelledRun = Some s
    /\ 0 <= feasibleCount s <= scanCount s
    /\ match outputFile s with
       | Some f =>
           "out.csv" <> EmptyString
           /\ exists lines,
                f_chunks f = csvHeader :: lines
                /\ Forall isRecord lines
                /\ zlen lines <= feasibleCount s
                /\ (f_open f = true ->
                    zlen lines + cnt isWriting (workers s) = feasibleCount s)
       | None => "out.csv" = EmptyString
       end
    /\ forall ls' s',
         run envOk s ls' = Some s' -> fileClosed s -> outputFile s' = outputFile s.
Proof.
  eexists. split; [vm_compute; reflexivity |].
  apply (output_file_records envOk 2 "out.csv" true 0 cancelledRun).
  vm_compute. reflexivity.
Defined.

End FileProps.

(* ================================================================== *)
(** * The coordinator on a finite source: every host is accounted for *)
(* ================================================================== *)

Module FeedProps.

Import Scanner App Fixtures ScannerProps AppProps ProbeProps FileProps Feed.

(** A turn of the fed loop is a turn of the event loop. *)
Lemma stepFed_step env s it turn s' it' :
  stepFed env (s, it) turn = Some (s', it') ->
  exists l, step env s l = Some s'.
Proof.
  unfold stepFed. destruct turn as [w|l].
  - destruct (next it) as [h it1].
    destruct (step env s (Next w h)) as [s1|] eqn:E; [| discriminate].
    intros H. injection H as <- _. exists (Next w h). exact E.
  - destruct l; try discriminate;
      match goal with
      | |- match step env s ?l with _ => _ end = _ -> _ =>
          destruct (step env s l) as [s1|] eqn:E; [| discriminate];
          intros H; injection H as <- _; exists l; exact E
      end.
Qed.

Lemma occ_app x a b : occ x (a ++ b) = occ x a + occ x b.
Proof. unfold occ. rewrite count_occ_app. lia. Qed.

Lemma occ_nil x : occ x [] = 0.
Proof. reflexivity. Qed.

Lemma recordsOf_nil env : recordsOf env [] = [].
Proof. reflexivity. Qed.

Lemma recordsOf_cons env host r :
  recordsOf env (host :: r) = (recordsOf env [host] ++ recordsOf env r)%list.
Proof.
  unfold recordsOf, probeAll, ScannerBatch.fulfilled. cbn [map flat_map].
  rewrite app_nil_r, filter_app, map_app. reflexivity.
Qed.

Lemma zlen_recordsOf_cons env host r :
  zlen (recordsOf env (host :: r))
  = zlen (recordsOf env [host]) + zlen (recordsOf env r).
Proof. rewrite recordsOf_cons. unfold zlen. rewrite length_app. lia. Qed.

Lemma sumPhase_setPhase g w p l old :
  nth_error l w = Some old ->
  sumPhase g (setPhase w p l) = sumPhase g l - g old + g p.
Proof.
  revert w. induction l as [|x l IH]; intros w H.
  - destruct w; discriminate.
  - destruct w as [|w]; cbn [setPhase nth_error sumPhase fold_right] in *.
    + injection H as ->. lia.
    + fold (sumPhase g (setPhase w p l)). fold (sumPhase g l).
      rewrite (IH w H). lia.
Qed.

Lemma sumPhase_exited g l :
  g Exited = 0 -> forallb isExited l = true -> sumPhase g l = 0.
Proof.
  intros Hg. induction l as [|x l IH]; [reflexivity |].
  cbn [forallb sumPhase fold_right]. intros H.
  apply andb_true_iff in H as [Hx Hl]. fold (sumPhase g l). rewrite (IH Hl).
  destruct x; try discriminate. lia.
Qed.

Lemma forallb_nth {A} (f : A -> bool) l w p :
  forallb f l = true -> nth_error l w = Some p -> f p = true.
Proof.
  intros H Hn. apply nth_error_In in Hn. rewrite forallb_forall in H. auto.
Qed.

Lemma cnt_member f l w old :
  nth_error l w = Some old -> f old = true -> 1 <= cnt f l.
Proof.
  revert w. induction l as [|x l IH]; intros w Ho Ha.
  - destruct w; discriminate.
  - rewrite cnt_cons. pose proof (cnt_nonneg f l).
    destruct w as [|w]; cbn [nth_error] in Ho.
    + injection Ho as ->. rewrite Ha. cbn [Z.b2z]. lia.
    + specialize (IH w Ho Ha). destruct (f x); cbn [Z.b2z]; lia.
Qed.

(** What a worker owes after its probe is what it owed for the host. *)
Lemma owedBy_afterScan env host result f :
  fst (scanTLS env host []) = Ok result ->
  owedBy env (afterScan result (Some f)) = recordsOf env [host]
  /\ Z.b2z (isWriting (afterScan result (Some f))) = zlen (recordsOf env [host])
  /\ (match result with Some r => r_feasible r | None => false end
      = isWriting (afterScan result (Some f))).
Proof.
  intros E. rewrite afterScan_writing.
  unfold recordsOf, probeAll, ScannerBatch.fulfilled, probe, afterScan.
  cbn [map flat_map]. rewrite E, app_nil_r.
  destruct result as [r|]; [| repeat split].
  cbn [filter]. destruct (r_feasible r) eqn:Ef; cbn [andb map]; [| repeat split].
  pose proof (formatScanResult_nonempty r Ef) as N.
  apply String.eqb_neq in N. rewrite N. repeat split.
Qed.

Lemma FedInv_start env threadCount outputPath inf t0 hosts :
  outputPath <> EmptyString ->
  FedInv env threadCount hosts
    (start threadCount (setupOutputFile outputPath) inf t0,
     mkIterator hosts false).
Proof.
  intros Hp. unfold FedInv, start, setupOutputFile.
  apply String.eqb_neq in Hp. rewrite Hp.
  cbn -[cnt sumPhase occ recordsOf zlen csvHeader]. intros _.
  rewrite repeat_length, !cnt_repeat. cbn [isReturning isProbing isExited isWriting].
  split; [reflexivity |]. split; [reflexivity |]. split; [reflexivity |].
  split; [reflexivity |]. split; [lia |]. split; [lia |].
  split; [discriminate |].
  exists (mkFile true [csvHeader]), [].
  cbn -[cnt sumPhase occ recordsOf zlen csvHeader]. cbn [isWriting].
  split; [reflexivity |]. split; [reflexivity |]. split; [reflexivity |].
  split; [reflexivity |]. intros x.
  assert (E : sumPhase (fun p => occ x (owedBy env p)) (repeat Pulling threadCount) = 0).
  { induction threadCount as [|n IH]; [reflexivity |].
    cbn [repeat sumPhase fold_right].
    fold (sumPhase (fun p => occ x (owedBy env p)) (repeat Pulling n)).
    rewrite IH. reflexivity. }
  rewrite E, occ_nil. lia.
Qed.


Lemma NoSignal_step env s l s' :
  step env s l = Some s' -> shutdown s' = NoSignal -> shutdown s = NoSignal.
Proof.
  unfold step. destruct (halted s); [discriminate |].
  destruct l as [w h|w|w|w|w| | | | |d].
  - destruct (nth_error (workers s) w) as [[| | | | |]|]; try discriminate.
    destruct h; [destruct (isShuttingDown s) |]; intros H; injection H as <-;
      exact (fun E => E).
  - destruct (nth_error (workers s) w) as [[| | | | |]|]; try discriminate.
    destruct (fst (scanTLS env host [])); intros H; injection H as <-;
      exact (fun E => E).
  - destruct (nth_error (workers s) w) as [[| | | | |]|]; try discriminate.
    intros H; injection H as <-; exact (fun E => E).
  - destruct (nth_error (workers s) w) as [[| | | | |]|]; try discriminate.
    intros H; injection H as <-; exact (fun E => E).
  - destruct (nth_error (workers s) w) as [[| | | | |]|]; try discriminate.
    intros H; injection H as <-; exact (fun E => E).
  - destruct (_ && _); [| discriminate]. intros H; injection H as <-.
    exact (fun E => E).
  - destruct (shutdown s); try discriminate. intros _ _. reflexivity.
  - destruct (shutdown s); try discriminate. intros H; injection H as <-.
    unfold afterWait. destruct (_ && _); cbn; [discriminate |].
    destruct (outputFile s); discriminate.
  - destruct (shutdown s); try discriminate. intros H; injection H as <-.
    discriminate.
  - destruct (d <? 0); [discriminate |]. intros H; injection H as <-.
    exact (fun E => E).
Qed.

Lemma Signal_step env s s' :
  step env s Signal = Some s' -> shutdown s' <> NoSignal.
Proof.
  unfold step. destruct (halted s); [discriminate |].
  destruct (shutdown s); try discriminate. intros H; injection H as <-.
  unfold afterWait. destruct (_ && _); cbn; [discriminate |].
  destruct (outputFile s); discriminate.
Qed.

(** Rewriting the counts of a list of phases after one worker moved. *)
Ltac fed_counts Ew :=
  rewrite ?(cnt_setPhase _ _ _ _ _ Ew), ?(sumPhase_setPhase _ _ _ _ _ Ew),
    ?length_setPhase;
  cbn [isReturning isProbing isExited isWriting owedBy Z.b2z];
  rewrite ?occ_nil.

Lemma FedInv_step env threadCount hosts c turn c' :
  FedInv env threadCount hosts c -> stepFed env c turn = Some c' ->
  FedInv env threadCount hosts c'.
Proof.
  destruct c as [s it], c' as [s' it']. unfold FedInv. intros I Hs Hsh'.
  assert (Hsh : shutdown s = NoSignal).
  { destruct (stepFed_step _ _ _ _ _ _ Hs) as (l & Hl).
    exact (NoSignal_step _ _ _ _ Hl Hsh'). }
  destruct (I Hsh) as (Iflag & Iret & Ilen & Irt & Icount & Iex & Iset
                       & f & lines & If & Ichunks & Iopen & Ifeas & Iocc).
  clear I.
  assert (Hh : halted s = false) by (unfold halted; rewrite Hsh; reflexivity).
  unfold stepFed in Hs.
  destruct turn as [w|l].
  - (* Pull *)
    unfold next in Hs. rewrite Iret in Hs.
    destruct (pending it) as [|host r] eqn:Ep.
    + unfold step in Hs. rewrite Hh in Hs.
      destruct (nth_error (workers s) w) as [[| | | | |]|] eqn:Ew;
        try discriminate.
      injection Hs as <- <-. cbn -[cnt sumPhase occ recordsOf zlen csvHeader].
      assert (Es : settled s = false).
      { destruct (settled s); [| reflexivity].
        pose proof (forallb_nth _ _ _ _ (Iset eq_refl) Ew). discriminate. }
      fed_counts Ew. rewrite Ep in *.
      split; [assumption |]. split; [assumption |]. split; [assumption |].
      split; [lia |]. split; [lia |]. split; [reflexivity |].
      split; [rewrite Es; discriminate |].
      exists f, lines. repeat split; try assumption; try lia.
      intros x. specialize (Iocc x). fed_counts Ew.
      rewrite recordsOf_nil, occ_nil in *. lia.
    + unfold step in Hs. rewrite Hh in Hs.
      destruct (nth_error (workers s) w) as [[| | | | |]|] eqn:Ew;
        try discriminate.
      rewrite Iflag in Hs. injection Hs as <- <-.
      unfold withWorker. cbn -[cnt sumPhase occ recordsOf zlen csvHeader].
      assert (Es : settled s = false).
      { destruct (settled s); [| reflexivity].
        pose proof (forallb_nth _ _ _ _ (Iset eq_refl) Ew). discriminate. }
      fed_counts Ew.
      split; [reflexivity |]. split; [reflexivity |]. split; [assumption |].
      split; [lia |].
      split; [unfold zlen in *; cbn [List.length] in Icount; lia |].
      split; [intros Hx; specialize (Iex ltac:(lia)); discriminate |].
      split; [rewrite Es; discriminate |].
      exists f, lines. repeat split; try assumption; try lia.
      intros x. specialize (Iocc x). fed_counts Ew.
      rewrite recordsOf_cons, occ_app in Iocc. lia.
  - (* the other turns *)
    destruct l as [w h|w|w|w|w| | | | |d]; try discriminate.
    + (* Scanned *)
      unfold step in Hs. rewrite Hh in Hs.
      destruct (nth_error (workers s) w) as [[|host | | | |]|] eqn:Ew;
        try discriminate.
      destruct (scanTLS_total env host []) as (result & t' & Et).
      assert (Er : fst (scanTLS env host []) = Ok result) by (rewrite Et; reflexivity).
      rewrite Er in Hs. injection Hs as <- <-.
      cbn -[cnt sumPhase occ recordsOf zlen csvHeader].
      assert (Es : settled s = false).
      { destruct (settled s); [| reflexivity].
        pose proof (forallb_nth _ _ _ _ (Iset eq_refl) Ew). discriminate. }
      rewrite If.
      destruct (owedBy_afterScan env host result f Er) as (Eo & Ew1 & Ew2).
      assert (Hph : isReturning (afterScan result (Some f)) = false
                    /\ isProbing (afterScan result (Some f)) = false
                    /\ isExited (afterScan result (Some f)) = false).
      { unfold afterScan. destruct result; [| repeat split].
        destruct (_ && _); repeat split. }
      destruct Hph as (P1 & P2 & P3).
      rewrite ?(cnt_setPhase _ _ _ _ _ Ew), ?(sumPhase_setPhase _ _ _ _ _ Ew),
        ?length_setPhase.
      rewrite ?P1, ?P2, ?P3, ?Ew1.
      cbn [isReturning isProbing isExited isWriting owedBy Z.b2z].
      split; [assumption |]. split; [assumption |]. split; [assumption |].
      split; [lia |]. split; [lia |]. split; [intros Hx; apply Iex; lia |].
      split; [rewrite Es; discriminate |].
      exists f, lines. split; [reflexivity |]. split; [assumption |].
      split; [assumption |]. split.
      * rewrite Ew2, <- Ew1.
        destruct (isWriting (afterScan result (Some f))); cbn [Z.b2z]; lia.
      * intros x. specialize (Iocc x).
        rewrite (sumPhase_setPhase _ _ _ _ _ Ew), Eo. cbn [owedBy]. lia.
    + (* Written *)
      unfold step in Hs. rewrite Hh in Hs.
      destruct (nth_error (workers s) w) as [[| |csvLine | | |]|] eqn:Ew;
        try discriminate.
      injection Hs as <- <-.
      cbn -[cnt sumPhase occ recordsOf zlen csvHeader].
      assert (Es : settled s = false).
      { destruct (settled s); [| reflexivity].
        pose proof (forallb_nth _ _ _ _ (Iset eq_refl) Ew). discriminate. }
      fed_counts Ew.
      split; [assumption |]. split; [assumption |]. split; [assumption |].
      split; [lia |]. split; [lia |]. split; [intros Hx; apply Iex; lia |].
      split; [rewrite Es; discriminate |].
      rewrite If. cbn [writeFile]. rewrite Iopen, Es. cbn [negb].
      exists (mkFile true (f_chunks f ++ [csvLine])), (lines ++ [csvLine])%list.
      cbn [f_chunks f_open]. rewrite Ichunks.
      split; [reflexivity |]. split; [reflexivity |]. split; [reflexivity |].
      split.
      * unfold zlen in *. rewrite length_app. cbn [List.length]. lia.
      * intros x. specialize (Iocc x). fed_counts Ew. rewrite occ_app. lia.
    + (* Woke *)
      unfold step in Hs. rewrite Hh in Hs.
      destruct (nth_error (workers s) w) as [[| | | | |]|] eqn:Ew;
        try discriminate.
      injection Hs as <- <-. unfold withWorker.
      cbn -[cnt sumPhase occ recordsOf zlen csvHeader].
      assert (Es : settled s = false).
      { destruct (settled s); [| reflexivity].
        pose proof (forallb_nth _ _ _ _ (Iset eq_refl) Ew). discriminate. }
      fed_counts Ew.
      split; [assumption |]. split; [assumption |]. split; [assumption |].
      split; [lia |]. split; [lia |]. split; [intros Hx; apply Iex; lia |].
      split; [rewrite Es; discriminate |].
      exists f, lines. repeat split; try assumption; try lia.
      intros x. specialize (Iocc x). fed_counts Ew. lia.
    + (* Returned: no worker is returning *)
      destruct (step env s (Returned w)) as [s1|] eqn:E; [| discriminate].
      exfalso. unfold step in E. rewrite Hh in E.
      destruct (nth_error (workers s) w) as [[| | | | |]|] eqn:Ew;
        try discriminate.
      pose proof (cnt_member isReturning _ _ _ Ew eq_refl). lia.
    + (* Settled *)
      unfold step in Hs. rewrite Hh in Hs.
      destruct (negb (infinite s) && negb (settled s) && forallb isExited (workers s))
        eqn:E; [| discriminate].
      apply andb_true_iff in E as [E Eall]. apply andb_true_iff in E as [_ Es].
      apply negb_true_iff in Es.
      injection Hs as <- <-.
      cbn -[cnt sumPhase occ recordsOf zlen csvHeader].
      split; [assumption |]. split; [assumption |]. split; [assumption |].
      split; [assumption |]. split; [assumption |]. split; [assumption |].
      split; [intros _; assumption |].
      rewrite If. cbn [closeFile negb].
      exists (mkFile false (f_chunks f)), lines. cbn [f_chunks f_open].
      repeat split; assumption.
    + (* Signal *)
      destruct (step env s Signal) as [s1|] eqn:E; [| discriminate].
      injection Hs as <- <-. exfalso.
      exact (Signal_step _ _ _ E Hsh').
    + (* Poll *)
      unfold step in Hs. rewrite Hh, Hsh in Hs. discriminate.
    + (* Closed *)
      unfold step in Hs. rewrite Hh, Hsh in Hs. discriminate.
    + (* Tick *)
      unfold step in Hs. rewrite Hh in Hs.
      destruct (d <? 0); [discriminate |]. injection Hs as <- <-.
      cbn -[cnt sumPhase occ recordsOf zlen csvHeader].
      split; [assumption |]. split; [assumption |]. split; [assumption |].
      split; [assumption |]. split; [assumption |]. split; [assumption |].
      split; [assumption |].
      exists f, lines. repeat split; assumption.
Qed.

Lemma FedInv_run env threadCount hosts turns : forall c c',
  FedInv env threadCount hosts c -> runFed env c turns = Some c' ->
  FedInv env threadCount hosts c'.
Proof.
  induction turns as [|turn r IH]; intros c c' I H; cbn [runFed] in H.
  - injection H as <-. assumption.
  - destruct (stepFed env c turn) as [c1|] eqn:E; [| discriminate].
    exact (IH _ _ (FedInv_step _ _ _ _ _ _ I E) H).
Qed.

(** X16. A scan of a finite source that no signal interrupts accounts for
    every host exactly once, whatever the number of workers (at least
    one) and the interleaving of their turns: when
    [Promise.allSettled(workers)] has returned, the iterator is
    exhausted, [scanCount] is the number of hosts, [feasibleCount] is the
    number of feasible results among them, and the closed output file
    holds the header followed by the CSV lines of the feasible results,
    each once, in the order the writes completed (a permutation of the
    order of the source). *)
Theorem finite_scan_accounts_for_every_host
  env threadCount outputPath inf t0 hosts turns s it :
  (1 <= threadCount)%nat ->
  outputPath <> EmptyString ->
  runFed env (start threadCount (setupOutputFile outputPath) inf t0,
              mkIterator hosts false) turns = Some (s, it) ->
  settled s = true ->
  shutdown s = NoSignal ->
  pending it = []
  /\ scanCount s = zlen hosts
  /\ feasibleCount s = zlen (recordsOf env hosts)
  /\ exists f lines,
       outputFile s = Some f
       /\ f_open f = false
       /\ f_chunks f = csvHeader :: lines
       /\ Permutation lines (recordsOf env hosts).
Proof.
  intros Hn Hp Hrun Hset Hsh.
  pose proof (FedInv_run env threadCount hosts turns _ _
                (FedInv_start env threadCount outputPath inf t0 hosts Hp) Hrun)
    as I.
  destruct (I Hsh) as (_ & _ & Ilen & _ & Icount & Iex & Iall
                       & f & lines & If & Ichunks & Iopen & Ifeas & Iocc).
  specialize (Iall Hset).
  assert (Hex : 0 < cnt isExited (workers s)).
  { destruct (workers s) as [|p l] eqn:Ew; [cbn in Ilen; lia |].
    cbn [forallb] in Iall. apply andb_true_iff in Iall as [Hp0 _].
    rewrite cnt_cons, Hp0. pose proof (cnt_nonneg isExited l).
    cbn [Z.b2z]. lia. }
  specialize (Iex Hex).
  assert (Hz : forall g, (forall p, isExited p = true -> g p = false) ->
                         cnt g (workers s) = 0).
  { intros g Hg. clear -Iall Hg. induction (workers s) as [|p l IH];
      [reflexivity |].
    cbn [forallb] in Iall. apply andb_true_iff in Iall as [Hp0 Hl].
    rewrite cnt_cons, (IH Hl), (Hg p Hp0). reflexivity. }
  assert (Hpr : cnt isProbing (workers s) = 0)
    by (apply Hz; intros []; discriminate || reflexivity).
  assert (Hwr : cnt isWriting (workers s) = 0)
    by (apply Hz; intros []; discriminate || reflexivity).
  rewrite Iex in *. rewrite Hset in Iopen. cbn [negb] in Iopen.
  assert (Hperm : Permutation lines (recordsOf env hosts)).
  { apply (Permutation_count_occ string_dec). intros x.
    specialize (Iocc x).
    rewrite (sumPhase_exited _ _ eq_refl Iall) in Iocc.
    unfold occ in Iocc. cbn [recordsOf probeAll map ScannerBatch.fulfilled
      flat_map filter count_occ] in Iocc. lia. }
  split; [reflexivity |].
  split; [unfold zlen in *; cbn [List.length] in Icount; lia |].
  split.
  - rewrite Ifeas, Hwr. unfold zlen.
    rewrite (Permutation_length Hperm). lia.
  - exists f, lines. repeat split; assumption.
Qed.

Lemma finite_scan_accounts_for_every_host_witness :
  let hosts := [exampleHost; ipHost "10.0.0.1"] in
  let turns :=
    [Pull 0; Pull 1; Do (Scanned 1); Do (Written 1); Do (Scanned 0);
     Do (Written 0); Do (Woke 0); Do (Woke 1); Pull 0; Pull 1; Do Settled] in
  (1 <= 2)%nat
  /\ "out.csv" <> EmptyString
  /\ exists s it,
       runFed envOk (start 2 (setupOutputFile "out.csv") false 0,
                     mkIterator hosts false) turns = Some (s, it)
       /\ settled s = true
       /\ shutdown s = NoSignal
       /\ pending it = []
       /\ scanCount s = zlen hosts
       /\ feasibleCount s = zlen (recordsOf envOk hosts)
       /\ exists f lines,
            outputFile s = Some f
            /\ f_open f = false
            /\ f_chunks f = csvHeader :: lines
            /\ Permutation lines (recordsOf envOk hosts).
Proof.
  cbv zeta.
  assert (H1 : (1 <= 2)%nat) by lia.
  assert (H2 : "out.csv" <> EmptyString) by discriminate.
  split; [exact H1 |]. split; [exact H2 |].
  eexists. eexists. split; [vm_compute; reflexivity |].
  split; [reflexivity |]. split; [reflexivity |].
  apply (finite_scan_accounts_for_every_host envOk 2 "out.csv" false 0
           [exampleHost; ipHost "10.0.0.1"]
           [Pull 0; Pull 1; Do (Scanned 1); Do (Written 1); Do (Scanned 0);
            Do (Written 0); Do (Woke 0); Do (Woke 1); Pull 0; Pull 1; Do Settled]
           _ _ H1 H2);
    [vm_compute; reflexivity | reflexivity | reflexivity].
Defined.

End FeedProps.

(* ================================================================== *)
(** * [bigIntToIPv6] and [expandIPv6]: printing and parsing 128-bit values *)
(* ================================================================== *)

Lemma append_nil_r s : s ++ EmptyString = s.
Proof. induction s as [|c r IH]; cbn; [reflexivity | now rewrite IH]. Qed.

Lemma length_append a b :
  String.length (a ++ b) = (String.length a + String.length b)%nat.
Proof. induction a as [|c r IH]; cbn; [reflexivity | now rewrite IH]. Qed.

Lemma repeat_char_snoc c k :
  JS.repeat_char c k ++ String c EmptyString = JS.repeat_char c (S k).
Proof. induction k as [|k IH]; cbn; [reflexivity |]. cbn in IH. now rewrite IH. Qed.

Lemma hexFixed_zero k : hexFixed k 0 = JS.repeat_char "0" k.
Proof.
  induction k as [|k IH]; [reflexivity |].
  cbn [hexFixed]. change (0 / 16) with 0. change (0 mod 16) with 0.
  rewrite IH. apply repeat_char_snoc.
Qed.

Lemma pow16_pos k : 0 < 16 ^ Z.of_nat k.
Proof. apply Z.pow_pos_nonneg; lia. Qed.

Lemma pow16_S k : 16 ^ Z.of_nat (S k) = 16 * 16 ^ Z.of_nat k.
Proof. rewrite Nat2Z.inj_succ, Z.pow_succ_r by lia. reflexivity. Qed.

(** The digits [toString(16)] produces are the shortest fixed-width
    form: padding them gives the fixed-width form of any larger width. *)
Lemma digitsOf_hex fuel : forall n acc,
  0 <= n < 16 ^ Z.of_nat fuel ->
  exists d,
    JS.digitsOf 16 fuel n acc = d ++ acc
    /\ forall k, n < 16 ^ Z.of_nat k -> (1 <= k)%nat ->
         (String.length d <= k)%nat
         /\ hexFixed k n = JS.repeat_char "0" (k - String.length d) ++ d.
Proof.
  induction fuel as [|f IH]; intros n acc Hn.
  - cbn in Hn. assert (n = 0) by lia. subst n.
    exists EmptyString. split; [reflexivity |].
    intros k _ Hk. split; [cbn; lia |].
    rewrite hexFixed_zero, append_nil_r. cbn. f_equal. lia.
  - cbn [JS.digitsOf].
    destruct (Z.ltb_spec n 16) as [Hlt|Hge].
    + exists (String (JS.digitChar (n mod 16)) EmptyString).
      split; [reflexivity |].
      intros k _ Hk. cbn [String.length]. split; [lia |].
      destruct k as [|k]; [lia |]. cbn [hexFixed].
      rewrite (Z.div_small n 16) by lia. rewrite hexFixed_zero.
      f_equal. f_equal. lia.
    + rewrite pow16_S in Hn.
      destruct (IH (n / 16) (String (JS.digitChar (n mod 16)) acc))
        as (d & Ed & Hd).
      { split; [apply Z.div_pos; lia |].
        apply Z.div_lt_upper_bound; lia. }
      exists (d ++ String (JS.digitChar (n mod 16)) EmptyString).
      split; [rewrite Ed, append_assoc; reflexivity |].
      intros k Hk Hk1. destruct k as [|k]; [lia |].
      rewrite pow16_S in Hk.
      assert (Hk' : (1 <= k)%nat).
      { destruct k; [cbn in Hk; lia | lia]. }
      destruct (Hd k) as (Hlen & Hfix); [apply Z.div_lt_upper_bound; lia | assumption |].
      rewrite length_append. cbn [String.length]. split; [lia |].
      cbn [hexFixed]. rewrite Hfix, append_assoc. f_equal. f_equal. lia.
Qed.

Lemma toString16_fuel n : 0 <= n -> n < 16 ^ Z.of_nat (S (Z.to_nat (Z.log2 n))).
Proof.
  intros Hn. rewrite Nat2Z.inj_succ, Z2Nat.id by apply Z.log2_nonneg.
  destruct (Z.eq_dec n 0) as [->|Hne]; [cbn; lia |].
  pose proof (Z.log2_spec n ltac:(lia)) as [_ H].
  pose proof (Z.log2_nonneg n) as Hl.
  apply (Z.lt_le_trans _ _ _ H).
  change 16 with (2 ^ 4). rewrite <- Z.pow_mul_r by lia.
  apply Z.pow_le_mono_r; lia.
Qed.

Lemma padStart_hex k n :
  (1 <= k)%nat -> 0 <= n < 16 ^ Z.of_nat k ->
  JS.padStart0 k (JS.toStringRadix 16 n) = hexFixed k n.
Proof.
  intros Hk Hn. unfold JS.toStringRadix.
  destruct (Z.ltb_spec n 0); [lia |].
  destruct (digitsOf_hex _ n EmptyString (conj (proj1 Hn) (toString16_fuel n (proj1 Hn))))
    as (d & Ed & Hd).
  rewrite Ed, append_nil_r. unfold JS.padStart0.
  destruct (Hd k (proj2 Hn) Hk) as [_ ->]. reflexivity.
Qed.

Lemma hexFixed_split b : forall a n,
  hexFixed (a + b) n
  = hexFixed a (n / 16 ^ Z.of_nat b) ++ hexFixed b (n mod 16 ^ Z.of_nat b).
Proof.
  induction b as [|b IH]; intros a n.
  - rewrite Nat.add_0_r. cbn [hexFixed Z.of_nat]. rewrite Z.pow_0_r, Z.div_1_r.
    now rewrite append_nil_r.
  - rewrite Nat.add_succ_r. cbn [hexFixed]. rewrite IH, pow16_S.
    pose proof (pow16_pos b) as Hp.
    rewrite Z.div_div by lia.
    rewrite (Z.rem_mul_r n 16 (16 ^ Z.of_nat b)) by lia.
    replace ((n mod 16 + 16 * ((n / 16) mod 16 ^ Z.of_nat b)) / 16)
      with ((n / 16) mod 16 ^ Z.of_nat b).
    2:{ rewrite (Z.mul_comm 16), Z.div_add by lia.
        rewrite (Z.div_small (n mod 16)) by (apply Z.mod_pos_bound; lia). lia. }
    replace ((n mod 16 + 16 * ((n / 16) mod 16 ^ Z.of_nat b)) mod 16)
      with (n mod 16).
    2:{ rewrite (Z.mul_comm 16), Z.mod_add by lia.
        rewrite Z.mod_mod by lia. reflexivity. }
    rewrite append_assoc. reflexivity.
Qed.

Lemma hexFixed_length k : forall n, String.length (hexFixed k n) = k.
Proof.
  induction k as [|k IH]; intros n; [reflexivity |].
  cbn [hexFixed]. rewrite length_append, IH. cbn. lia.
Qed.

Lemma strcat_app a b : strcat (a ++ b) = strcat a ++ strcat b.
Proof.
  induction a as [|x a IH]; cbn [app strcat]; [reflexivity |].
  rewrite IH, append_assoc. reflexivity.
Qed.

Lemma hexFixed_groupsRev k : forall n,
  hexFixed (4 * k) n = strcat (map (hexFixed 4) (rev (groupsRev k n))).
Proof.
  induction k as [|k IH]; intros n; [reflexivity |].
  rewrite Nat.mul_succ_r, hexFixed_split.
  change (16 ^ Z.of_nat 4) with 65536.
  cbn [groupsRev rev]. rewrite map_app, strcat_app, IH.
  cbn [map strcat]. rewrite append_nil_r. reflexivity.
Qed.

Lemma string4 s :
  String.length s = 4%nat ->
  exists a b c d, s = String a (String b (String c (String d EmptyString))).
Proof.
  destruct s as [|a [|b [|c [|d [|e r]]]]]; try discriminate.
  intros _. exists a, b, c, d. reflexivity.
Qed.

Lemma slices8 s0 s1 s2 s3 s4 s5 s6 s7 :
  String.length s0 = 4%nat -> String.length s1 = 4%nat ->
  String.length s2 = 4%nat -> String.length s3 = 4%nat ->
  String.length s4 = 4%nat -> String.length s5 = 4%nat ->
  String.length s6 = 4%nat -> String.length s7 = 4%nat ->
  map (fun k => JS.slice (4 * k) (4 * k + 4) (strcat [s0; s1; s2; s3; s4; s5; s6; s7]))
    (seq 0 8)
  = [s0; s1; s2; s3; s4; s5; s6; s7].
Proof.
  intros H0 H1 H2 H3 H4 H5 H6 H7.
  destruct (string4 _ H0) as (? & ? & ? & ? & ->).
  destruct (string4 _ H1) as (? & ? & ? & ? & ->).
  destruct (string4 _ H2) as (? & ? & ? & ? & ->).
  destruct (string4 _ H3) as (? & ? & ? & ? & ->).
  destruct (string4 _ H4) as (? & ? & ? & ? & ->).
  destruct (string4 _ H5) as (? & ? & ? & ? & ->).
  destruct (string4 _ H6) as (? & ? & ? & ? & ->).
  destruct (string4 _ H7) as (? & ? & ? & ? & ->).
  reflexivity.
Qed.

(** The parts that [bigIntToIPv6] cuts out of the padded hexadecimal
    string are the four digits of each group. *)
Lemma bigIntToIPv6_groups n :
  0 <= n < 2 ^ 128 ->
  bigIntToIPv6 n = compressParts (map groupText (groupsOf n)).
Proof.
  intros Hn. unfold bigIntToIPv6.
  rewrite (padStart_hex 32 n) by (change (16 ^ Z.of_nat 32) with (2 ^ 128); lia).
  f_equal. change 32%nat with (4 * 8)%nat. rewrite hexFixed_groupsRev.
  unfold groupsOf. cbn [groupsRev rev app map].
  rewrite slices8 by apply hexFixed_length.
  reflexivity.
Qed.

(** ** The text of one group *)

Lemma groupList_check : forallb groupOk groupList = true.
Proof. vm_compute. reflexivity. Qed.

Lemma zrange_In n : forall v u, v <= u < v + Z.of_nat n -> In u (zrange v n).
Proof.
  induction n as [|n IH]; intros v u H; [lia |].
  cbn [zrange]. destruct (Z.eq_dec v u) as [->|Hne]; [left; reflexivity |].
  right. apply IH. lia.
Qed.

Lemma groupOk_all g : 0 <= g < 65536 -> groupOk g = true.
Proof.
  intros H. pose proof groupList_check as C. rewrite forallb_forall in C.
  apply C. apply zrange_In. lia.
Qed.

Lemma groupText_spec g :
  0 <= g < 65536 ->
  partOk (groupText g)
  /\ (groupText g = "0" <-> g = 0)
  /\ JS.padStart0 4 (groupText g) = hexFixed 4 g
  /\ JS.parseInt16 (hexFixed 4 g) = Some g
  /\ hexGroup (groupText g) = true.
Proof.
  intros H. pose proof (groupOk_all g H) as C. unfold groupOk in C.
  cbv zeta in C.
  apply andb_true_iff in C as [C C7]. apply andb_true_iff in C as [C C6].
  apply andb_true_iff in C as [C C5]. apply andb_true_iff in C as [C C4].
  apply andb_true_iff in C as [C C3]. apply andb_true_iff in C as [C1 C2].
  apply negb_true_iff in C1, C2. apply String.eqb_neq in C1.
  apply eqb_prop in C4. apply String.eqb_eq in C7.
  split; [split; assumption |]. split.
  - rewrite <- String.eqb_eq, C4. apply Z.eqb_eq.
  - split; [assumption |]. split; [| assumption].
    rewrite <- C7.
    destruct (JS.parseInt16 (JS.padStart0 4 (groupText g))) as [v|];
      [| discriminate].
    apply Z.eqb_eq in C5. congruence.
Qed.

Lemma groupsRev_bound k : forall n,
  0 <= n -> Forall (fun g => 0 <= g < 65536) (groupsRev k n).
Proof.
  induction k as [|k IH]; intros n Hn; cbn [groupsRev]; constructor.
  - apply Z.mod_pos_bound. lia.
  - apply IH. apply Z.div_pos; lia.
Qed.

Lemma groupsOf_bound n : 0 <= n -> Forall (fun g => 0 <= g < 65536) (groupsOf n).
Proof. intros H. unfold groupsOf. apply Forall_rev, groupsRev_bound, H. Qed.

Lemma groupsOf_length n : List.length (groupsOf n) = 8%nat.
Proof. reflexivity. Qed.

(** ** Splitting what was joined *)

Lemma split_dcolon_cons s : exists h t, JS.split_dcolon s = h :: t.
Proof.
  induction s as [|a r IH]; [exists EmptyString, []; reflexivity |].
  cbn [JS.split_dcolon]. destruct r as [|b r'].
  - eexists. eexists. reflexivity.
  - destruct (Ascii.eqb a ":" && Ascii.eqb b ":").
    + eexists. eexists. reflexivity.
    + destruct IH as (h & t & ->). eexists. eexists. reflexivity.
Qed.

Lemma split_dcolon_char a r :
  Ascii.eqb a ":" = false ->
  JS.split_dcolon (String a r) = prependTo (String a EmptyString) (JS.split_dcolon r).
Proof.
  intros Ha. cbn [JS.split_dcolon]. destruct r as [|b r']; [reflexivity |].
  rewrite Ha. cbn [andb].
  destruct (split_dcolon_cons (String b r')) as (h & t & ->). reflexivity.
Qed.

Lemma prependTo_app x y l :
  prependTo x (prependTo y l) = prependTo (x ++ y) l.
Proof.
  destruct l as [|h t]; cbn [prependTo]; [| rewrite append_assoc; reflexivity].
  reflexivity.
Qed.

(** A part is skipped over as a whole. *)
Lemma split_dcolon_part x r :
  JS.mem_char ":" x = false ->
  JS.split_dcolon (x ++ r) = prependTo x (JS.split_dcolon r).
Proof.
  induction x as [|a x IH]; intros H.
  - cbn [append]. destruct (split_dcolon_cons r) as (h & t & ->). reflexivity.
  - cbn [JS.mem_char] in H. apply orb_false_iff in H as [Ha Hx].
    cbn [append]. rewrite split_dcolon_char by assumption.
    rewrite (IH Hx), prependTo_app. reflexivity.
Qed.

Lemma split_dcolon_colon b r :
  Ascii.eqb b ":" = false ->
  JS.split_dcolon (String ":" (String b r))
  = prependTo ":" (JS.split_dcolon (String b r)).
Proof.
  intros Hb.
  change (JS.split_dcolon (String ":" (String b r)))
    with (if Ascii.eqb ":" ":" && Ascii.eqb b ":"
          then EmptyString :: JS.split_dcolon r
          else match JS.split_dcolon (String b r) with
               | h :: t => String ":" h :: t
               | [] => [String ":" EmptyString]
               end).
  rewrite Hb, andb_false_r.
  destruct (split_dcolon_cons (String b r)) as (h & t & ->). reflexivity.
Qed.

(** A single colon before a part is skipped over too. *)
Lemma split_dcolon_colon_part x r :
  partOk x ->
  JS.split_dcolon (":" ++ x ++ r) = prependTo (":" ++ x) (JS.split_dcolon r).
Proof.
  intros [Hne Hx]. destruct x as [|b x]; [contradiction |].
  pose proof Hx as Hx'.
  cbn [JS.mem_char] in Hx. apply orb_false_iff in Hx as [Hb Hx].
  change (":" ++ String b x ++ r) with (String ":" (String b (x ++ r))).
  rewrite split_dcolon_colon by assumption.
  change (String b (x ++ r)) with (String b x ++ r).
  rewrite split_dcolon_part by assumption.
  rewrite prependTo_app. reflexivity.
Qed.

Lemma join_colons l : forall x, JS.join ":" (x :: l) = x ++ colons l.
Proof.
  induction l as [|y l IH]; intros x.
  - cbn [JS.join colons]. now rewrite append_nil_r.
  - change (JS.join ":" (x :: y :: l)) with (x ++ ":" ++ JS.join ":" (y :: l)).
    rewrite IH. reflexivity.
Qed.

Lemma split_dcolon_colons l : forall r,
  Forall partOk l ->
  JS.split_dcolon (colons l ++ r) = prependTo (colons l) (JS.split_dcolon r).
Proof.
  induction l as [|x l IH]; intros r Hl.
  - cbn [colons append]. destruct (split_dcolon_cons r) as (h & t & ->).
    reflexivity.
  - inversion Hl as [|? ? Hx Hl']; subst.
    cbn [colons]. rewrite !append_assoc.
    change (":" ++ x ++ colons l ++ r) with (":" ++ x ++ (colons l ++ r)).
    rewrite split_dcolon_colon_part by assumption.
    rewrite (IH r Hl'), prependTo_app, !append_assoc. reflexivity.
Qed.

Lemma split_dcolon_join l r :
  Forall partOk l ->
  JS.split_dcolon (JS.join ":" l ++ r)
  = prependTo (JS.join ":" l) (JS.split_dcolon r).
Proof.
  intros Hl. destruct l as [|x l].
  - cbn [JS.join append]. destruct (split_dcolon_cons r) as (h & t & ->).
    reflexivity.
  - inversion Hl as [|? ? Hx Hl']; subst.
    rewrite join_colons, append_assoc.
    rewrite split_dcolon_part by apply Hx.
    rewrite (split_dcolon_colons l r Hl'), prependTo_app. reflexivity.
Qed.

Lemma split_char_colons l : forall x,
  JS.mem_char ":" x = false ->
  Forall partOk l ->
  JS.split_char ":" (x ++ colons l) = x :: l.
Proof.
  induction l as [|y l IH]; intros x Hx Hl.
  - cbn [colons]. rewrite append_nil_r. apply split_char_nomem, Hx.
  - inversion Hl as [|? ? Hy Hl']; subst.
    cbn [colons]. change (":" ++ y ++ colons l) with (String ":" (y ++ colons l)).
    rewrite split_char_app by assumption.
    rewrite (IH y (proj2 Hy) Hl'). reflexivity.
Qed.

Lemma split_char_join l :
  Forall partOk l -> l <> [] -> JS.split_char ":" (JS.join ":" l) = l.
Proof.
  intros Hl Hne. destruct l as [|x l]; [contradiction |].
  inversion Hl as [|? ? Hx Hl']; subst.
  rewrite join_colons. apply split_char_colons; [apply Hx | assumption].
Qed.

Lemma join_empty l : Forall partOk l -> (JS.join ":" l = EmptyString <-> l = []).
Proof.
  intros Hl. split; [| intros ->; reflexivity].
  destruct l as [|x l]; [reflexivity |].
  inversion Hl as [|? ? [Hx _] _]; subst.
  rewrite join_colons. destruct x; [contradiction | discriminate].
Qed.

Lemma join_colon_free_or_colon l :
  (2 <= List.length l)%nat -> JS.mem_char ":" (JS.join ":" l) = true.
Proof.
  destruct l as [|x [|y l]]; cbn [List.length]; try lia. intros _.
  rewrite join_colons. cbn [colons]. rewrite mem_char_app.
  cbn [append JS.mem_char Ascii.eqb]. apply orb_true_iff. right. reflexivity.
Qed.

(** ** Expanding what was compressed *)

Lemma Forall_firstn {A} (P : A -> Prop) n : forall l,
  Forall P l -> Forall P (firstn n l).
Proof.
  induction n as [|n IH]; intros l H; [constructor |].
  destruct H; cbn [firstn]; constructor; auto.
Qed.

Lemma Forall_skipn {A} (P : A -> Prop) n : forall l,
  Forall P l -> Forall P (skipn n l).
Proof.
  induction n as [|n IH]; intros l H; [assumption |].
  destruct H; cbn [skipn]; [constructor | auto].
Qed.

Lemma skipn_nth {A} (l : list A) : forall i x,
  nth_error l i = Some x -> skipn i l = x :: skipn (S i) l.
Proof.
  induction l as [|a l IH]; intros i x H; [destruct i; discriminate |].
  destruct i as [|i]; cbn [nth_error] in H.
  - injection H as ->. reflexivity.
  - cbn [skipn]. exact (IH i x H).
Qed.

(** The groups of a zero run are all "0". *)
Lemma zeroRun_middle l n : forall i,
  (forall k, (i <= k < i + n)%nat -> nth_error l k = Some "0") ->
  skipn i l = (repeat "0" n ++ skipn (i + n) l)%list.
Proof.
  induction n as [|n IH]; intros i H.
  - rewrite Nat.add_0_r. reflexivity.
  - rewrite (skipn_nth l i "0") by (apply H; lia).
    cbn [repeat app]. f_equal.
    rewrite (IH (S i)) by (intros k Hk; apply H; lia).
    f_equal. f_equal. lia.
Qed.

Lemma padStart_partOk c : partOk c -> partOk (JS.padStart0 4 c).
Proof.
  intros [Hne Hc]. unfold JS.padStart0. split.
  - destruct (JS.repeat_char "0" (4 - String.length c)); [| discriminate].
    exact Hne.
  - rewrite mem_char_app, Hc, orb_false_r.
    generalize (4 - String.length c)%nat. intros k.
    induction k as [|k IH]; [reflexivity | exact IH].
Qed.

Lemma split_dcolon_simple l :
  Forall partOk l -> JS.split_dcolon (JS.join ":" l) = [JS.join ":" l].
Proof.
  intros Hl. rewrite <- (append_nil_r (JS.join ":" l)) at 1.
  rewrite split_dcolon_join by assumption.
  cbn [JS.split_dcolon prependTo]. rewrite append_nil_r. reflexivity.
Qed.

Lemma expandIPv6_two before after :
  Forall partOk before -> Forall partOk after ->
  (List.length before + List.length after <= 8)%nat ->
  expandIPv6 (JS.join ":" before ++ "::" ++ JS.join ":" after)
  = Some (JS.join ":"
            (map (JS.padStart0 4)
               (before
                ++ repeat "0000" (8 - List.length before - List.length after)
                ++ after))).
Proof.
  intros Hb Ha Hlen. unfold expandIPv6.
  rewrite split_dcolon_join by assumption.
  change ("::" ++ JS.join ":" after) with (String ":" (String ":" (JS.join ":" after))).
  change (JS.split_dcolon (String ":" (String ":" (JS.join ":" after))))
    with (EmptyString :: JS.split_dcolon (JS.join ":" after)).
  rewrite split_dcolon_simple by assumption.
  cbn [prependTo]. rewrite append_nil_r.
  assert (El : (if (JS.join ":" before =? EmptyString)%string then []
                else JS.split_char ":" (JS.join ":" before)) = before).
  { destruct before as [|x l]; [reflexivity |].
    destruct (String.eqb_spec (JS.join ":" (x :: l)) EmptyString) as [E|E].
    - apply join_empty in E; [discriminate | assumption].
    - apply split_char_join; [assumption | discriminate]. }
  assert (Er : (if (JS.join ":" after =? EmptyString)%string then []
                else JS.split_char ":" (JS.join ":" after)) = after).
  { destruct after as [|x l]; [reflexivity |].
    destruct (String.eqb_spec (JS.join ":" (x :: l)) EmptyString) as [E|E].
    - apply join_empty in E; [discriminate | assumption].
    - apply split_char_join; [assumption | discriminate]. }
  rewrite El, Er.
  destruct (Z.ltb_spec (8 - Z.of_nat (List.length before) - Z.of_nat (List.length after)) 0);
    [lia |].
  do 6 f_equal. lia.
Qed.

(** Expanding the compressed form gives the eight groups, each padded to
    four digits. *)
Lemma expandIPv6_compressParts cs :
  List.length cs = 8%nat -> Forall partOk cs ->
  expandIPv6 (compressParts cs) = Some (JS.join ":" (map (JS.padStart0 4) cs)).
Proof.
  intros Hlen Hcs. rewrite compressParts_eq.
  pose proof (bestRun_spec cs) as H.
  destruct (bestRun cs) as [bs bl]. destruct H as (H1 & H2 & H3 & _).
  destruct (bl >=? 2) eqn:E.
  - assert (Hbl : 2 <= bl) by (rewrite Z.geb_leb in E; apply Z.leb_le in E; lia).
    destruct (H3 ltac:(lia)) as (Z1 & Z2 & Z3 & Z4).
    unfold zlen in Z3. rewrite Hlen in Z3.
    set (before := firstn (Z.to_nat bs) cs).
    set (after := skipn (Z.to_nat (bs + bl)) cs).
    assert (Lb : List.length before = Z.to_nat bs).
    { unfold before. rewrite firstn_length_le; [reflexivity | lia]. }
    assert (La : List.length after = (8 - Z.to_nat (bs + bl))%nat).
    { unfold after. rewrite length_skipn, Hlen. reflexivity. }
    rewrite expandIPv6_two;
      [| apply Forall_firstn; assumption | apply Forall_skipn; assumption | lia].
    assert (Ecs : cs = (before ++ repeat "0" (Z.to_nat bl) ++ after)%list).
    { rewrite <- (firstn_skipn (Z.to_nat bs) cs) at 1. fold before. f_equal.
      rewrite (zeroRun_middle cs (Z.to_nat bl) (Z.to_nat bs)).
      - unfold after. do 2 f_equal. lia.
      - intros k Hk. rewrite <- (Nat2Z.id k). apply Z4. lia. }
    rewrite Ecs at 1. rewrite !map_app, !map_repeat.
    change (JS.padStart0 4 "0000") with "0000".
    change (JS.padStart0 4 "0") with "0000".
    do 5 f_equal. lia.
  - unfold expandIPv6. rewrite split_dcolon_simple by assumption.
    rewrite split_char_join; [reflexivity | assumption |].
    intros ->. discriminate.
Qed.

(** ** The value of the expanded form *)

Lemma hexFixed4_partOk g : partOk (hexFixed 4 g).
Proof.
  unfold partOk. cbn [hexFixed append]. split; [discriminate |].
  cbn [JS.mem_char]. rewrite !orb_false_r.
  assert (D : forall d, 0 <= d < 16 -> Ascii.eqb (JS.digitChar d) ":" = false).
  { intros d Hd.
    assert (Hc : In d (zrange 0 16)) by (apply zrange_In; lia).
    clear Hd. revert d Hc. apply Forall_forall.
    repeat (constructor; [reflexivity |]). constructor. }
  rewrite !D by (apply Z.mod_pos_bound; lia). reflexivity.
Qed.

Lemma hexPartsValue_groups gs : forall acc,
  Forall (fun g => 0 <= g < 65536) gs ->
  hexPartsValue (map (hexFixed 4) gs) acc = Some (groupsValue gs acc).
Proof.
  unfold groupsValue.
  induction gs as [|g gs IH]; intros acc H; [reflexivity |].
  inversion H as [|? ? Hg Hgs]; subst.
  cbn [map hexPartsValue fold_left].
  destruct (groupText_spec g Hg) as (_ & _ & _ & -> & _).
  rewrite Z.shiftl_mul_pow2 by lia. change (2 ^ 16) with 65536.
  apply IH. assumption.
Qed.

Lemma groupsValue_rev k : forall n,
  groupsValue (rev (groupsRev k n)) 0 = n mod 65536 ^ Z.of_nat k.
Proof.
  unfold groupsValue.
  induction k as [|k IH]; intros n.
  - cbn. rewrite Z.mod_1_r. reflexivity.
  - cbn [groupsRev rev]. rewrite fold_left_app, IH. cbn [fold_left].
    rewrite Nat2Z.inj_succ, Z.pow_succ_r by lia.
    rewrite (Z.rem_mul_r n 65536) by (try apply Z.pow_pos_nonneg; lia).
    lia.
Qed.

Lemma groupsValue_groupsOf n : 0 <= n < 2 ^ 128 -> groupsValue (groupsOf n) 0 = n.
Proof.
  intros H. unfold groupsOf. rewrite groupsValue_rev.
  change (65536 ^ Z.of_nat 8) with (2 ^ 128). apply Z.mod_small. assumption.
Qed.

Lemma groupText_parts gs :
  Forall (fun g => 0 <= g < 65536) gs -> Forall partOk (map groupText gs).
Proof.
  intros H. apply Forall_map. revert H. apply Forall_impl.
  intros g Hg. apply (groupText_spec g Hg).
Qed.

Lemma groupText_padded gs :
  Forall (fun g => 0 <= g < 65536) gs ->
  map (JS.padStart0 4) (map groupText gs) = map (hexFixed 4) gs.
Proof.
  intros H. rewrite map_map. apply map_ext_in. intros g Hg.
  rewrite Forall_forall in H. apply (groupText_spec g (H g Hg)).
Qed.

Lemma expandIPv6_bigIntToIPv6 n :
  0 <= n < 2 ^ 128 ->
  expandIPv6 (bigIntToIPv6 n) = Some (JS.join ":" (map (hexFixed 4) (groupsOf n))).
Proof.
  intros Hn. pose proof (groupsOf_bound n (proj1 Hn)) as Hb.
  rewrite (bigIntToIPv6_groups n Hn).
  rewrite expandIPv6_compressParts;
    [| rewrite length_map; reflexivity | apply groupText_parts; assumption].
  rewrite groupText_padded by assumption. reflexivity.
Qed.

Lemma ipv6Value_groups n :
  0 <= n < 2 ^ 128 ->
  ipv6Value (JS.join ":" (map (hexFixed 4) (groupsOf n))) = Some n.
Proof.
  intros Hn. pose proof (groupsOf_bound n (proj1 Hn)) as Hb.
  unfold ipv6Value. rewrite split_char_join.
  - rewrite hexPartsValue_groups by assumption.
    rewrite groupsValue_groupsOf by assumption. reflexivity.
  - apply Forall_map. apply Forall_forall. intros g _. apply hexFixed4_partOk.
  - discriminate.
Qed.

Lemma bigIntToIPv6_inj m n :
  0 <= m < 2 ^ 128 -> 0 <= n < 2 ^ 128 ->
  bigIntToIPv6 m = bigIntToIPv6 n -> m = n.
Proof.
  intros Hm Hn E.
  pose proof (expandIPv6_bigIntToIPv6 m Hm) as Em.
  pose proof (expandIPv6_bigIntToIPv6 n Hn) as En.
  pose proof (ipv6Value_groups m Hm) as Vm.
  pose proof (ipv6Value_groups n Hn) as Vn.
  rewrite E, En in Em.
  assert (Es : JS.join ":" (map (hexFixed 4) (groupsOf n))
               = JS.join ":" (map (hexFixed 4) (groupsOf m)))
    by congruence.
  rewrite <- Es, Vn in Vm. congruence.
Qed.

(** X17. Printing a 128-bit value and parsing the text back gives the
    value: for every [n] from 0 to 2^128 - 1, [expandIPv6] turns
    [bigIntToIPv6 n] into the eight groups of [n], each as four
    hexadecimal digits; the value [nextIP] computes from them is [n];
    so the text is a fixed point of expansion, evaluation and
    re-serialisation, and two different values never print alike. *)
Theorem bigIntToIPv6_parses_back n :
  0 <= n < 2 ^ 128 ->
  expandIPv6 (bigIntToIPv6 n) = Some (JS.join ":" (map (hexFixed 4) (groupsOf n)))
  /\ ipv6Value (JS.join ":" (map (hexFixed 4) (groupsOf n))) = Some n
  /\ roundTripIPv6 (bigIntToIPv6 n) = Some (bigIntToIPv6 n)
  /\ (forall m, 0 <= m < 2 ^ 128 -> bigIntToIPv6 m = bigIntToIPv6 n -> m = n).
Proof.
  intros Hn.
  split; [apply expandIPv6_bigIntToIPv6; assumption |].
  split; [apply ipv6Value_groups; assumption |].
  split.
  - unfold roundTripIPv6.
    rewrite expandIPv6_bigIntToIPv6, ipv6Value_groups by assumption.
    reflexivity.
  - intros m Hm E. exact (bigIntToIPv6_inj m n Hm Hn E).
Qed.

Lemma bigIntToIPv6_parses_back_witness :
  let n := 0x20010db8000000000000000000000001 in
  0 <= n < 2 ^ 128
  /\ expandIPv6 (bigIntToIPv6 n) = Some (JS.join ":" (map (hexFixed 4) (groupsOf n)))
  /\ ipv6Value (JS.join ":" (map (hexFixed 4) (groupsOf n))) = Some n
  /\ roundTripIPv6 (bigIntToIPv6 n) = Some (bigIntToIPv6 n)
  /\ (forall m, 0 <= m < 2 ^ 128 -> bigIntToIPv6 m = bigIntToIPv6 n -> m = n).
Proof.
  cbv zeta.
  assert (H : 0 <= 0x20010db8000000000000000000000001 < 2 ^ 128)
    by (split; [vm_compute; discriminate | vm_compute; reflexivity]).
  split; [exact H |].
  exact (bigIntToIPv6_parses_back 0x20010db8000000000000000000000001 H).
Defined.

(** ** The shape of the text *)

Lemma hexGroups_join l :
  Forall partOk l -> forallb hexGroup l = true ->
  hexGroups (JS.join ":" l) = Some (List.length l).
Proof.
  intros Hl Hh. destruct l as [|x l]; [reflexivity |].
  unfold hexGroups.
  rewrite split_char_join by (assumption || discriminate).
  rewrite Hh.
  destruct (JS.join ":" (x :: l)) eqn:E; [| reflexivity].
  apply join_empty in E; [discriminate | assumption].
Qed.

Lemma forallb_firstn {A} (f : A -> bool) n : forall l,
  forallb f l = true -> forallb f (firstn n l) = true.
Proof.
  induction n as [|n IH]; intros l H; [reflexivity |].
  destruct l as [|x l]; [reflexivity |].
  cbn [firstn forallb] in *. apply andb_true_iff in H as [-> H].
  exact (IH l H).
Qed.

Lemma forallb_skipn {A} (f : A -> bool) n : forall l,
  forallb f l = true -> forallb f (skipn n l) = true.
Proof.
  induction n as [|n IH]; intros l H; [assumption |].
  destruct l as [|x l]; [reflexivity |].
  cbn [skipn forallb] in *. apply andb_true_iff in H as [_ H].
  exact (IH l H).
Qed.

Lemma tailUnits_hex gs :
  forallb hexGroup gs = true -> tailUnits gs = Some (List.length gs).
Proof.
  induction gs as [|g r IH]; [reflexivity |].
  cbn [forallb]. intros H. apply andb_true_iff in H as [Hg Hr].
  cbn [tailUnits]. rewrite Hg. destruct r as [|g' r']; [reflexivity |].
  rewrite (IH Hr). reflexivity.
Qed.

Lemma tailGroups_join l :
  Forall partOk l -> forallb hexGroup l = true ->
  tailGroups (JS.join ":" l) = Some (List.length l).
Proof.
  intros Hl Hh. destruct l as [|x l]; [reflexivity |].
  unfold tailGroups.
  destruct (JS.join ":" (x :: l)) eqn:E.
  - apply join_empty in E; [discriminate | assumption].
  - rewrite <- E. rewrite split_char_join by (assumption || discriminate).
    apply tailUnits_hex. assumption.
Qed.

Lemma addrIPv6_compressParts cs :
  List.length cs = 8%nat -> Forall partOk cs -> forallb hexGroup cs = true ->
  addrIPv6 (compressParts cs) = true.
Proof.
  intros Hlen Hcs Hh. rewrite compressParts_eq.
  pose proof (bestRun_spec cs) as H.
  destruct (bestRun cs) as [bs bl]. destruct H as (H1 & H2 & H3 & _).
  unfold addrIPv6.
  destruct (bl >=? 2) eqn:E.
  - assert (Hbl : 2 <= bl) by (rewrite Z.geb_leb in E; apply Z.leb_le in E; lia).
    destruct (H3 ltac:(lia)) as (Z1 & Z2 & Z3 & Z4).
    unfold zlen in Z3. rewrite Hlen in Z3.
    set (before := firstn (Z.to_nat bs) cs).
    set (after := skipn (Z.to_nat (bs + bl)) cs).
    assert (Hb : Forall partOk before) by (apply Forall_firstn; assumption).
    assert (Ha : Forall partOk after) by (apply Forall_skipn; assumption).
    rewrite split_dcolon_join by assumption.
    change ("::" ++ JS.join ":" after)
      with (String ":" (String ":" (JS.join ":" after))).
    change (JS.split_dcolon (String ":" (String ":" (JS.join ":" after))))
      with (EmptyString :: JS.split_dcolon (JS.join ":" after)).
    rewrite split_dcolon_simple by assumption.
    cbn [prependTo]. rewrite append_nil_r.
    rewrite hexGroups_join, tailGroups_join;
      [| assumption | apply forallb_skipn; assumption
       | assumption | apply forallb_firstn; assumption].
    apply Nat.leb_le. unfold before, after.
    rewrite firstn_length_le, length_skipn by lia. lia.
  - rewrite split_dcolon_simple by assumption.
    rewrite tailGroups_join by assumption. rewrite Hlen. reflexivity.
Qed.

Lemma mem_colon_compressParts cs :
  List.length cs = 8%nat -> JS.mem_char ":" (compressParts cs) = true.
Proof.
  intros Hlen. rewrite compressParts_eq.
  destruct (bestRun cs) as [bs bl].
  destruct (bl >=? 2).
  - rewrite mem_char_app, mem_char_app.
    replace (JS.mem_char ":" "::") with true by reflexivity.
    cbn [orb]. apply orb_true_r.
  - apply join_colon_free_or_colon. lia.
Qed.

Lemma isIPv6_ref_compressParts cs :
  List.length cs = 8%nat -> Forall partOk cs -> forallb hexGroup cs = true ->
  isIPv6_ref (compressParts cs) = true.
Proof.
  intros Hlen Hcs Hh. unfold isIPv6_ref.
  rewrite (mem_colon_compressParts cs Hlen).
  rewrite (addrIPv6_compressParts cs Hlen Hcs Hh). reflexivity.
Qed.

Lemma groupText_hex gs :
  Forall (fun g => 0 <= g < 65536) gs -> forallb hexGroup (map groupText gs) = true.
Proof.
  intros H. apply forallb_forall. intros c Hc.
  apply in_map_iff in Hc as (g & <- & Hg).
  rewrite Forall_forall in H. apply (groupText_spec g (H g Hg)).
Qed.

Lemma isIPv6_ref_canonical n :
  0 <= n < 2 ^ 128 -> isIPv6_ref (bigIntToIPv6 n) = true.
Proof.
  intros Hn. pose proof (groupsOf_bound n (proj1 Hn)) as Hb.
  rewrite (bigIntToIPv6_groups n Hn).
  apply isIPv6_ref_compressParts;
    [rewrite length_map; reflexivity | apply groupText_parts; assumption
     | apply groupText_hex; assumption].
Qed.

Lemma isIPv6_ref_accepts n :
  0 <= n <= maxIPv6 -> isIPv6_ref (bigIntToIPv6 n) = true.
Proof.
  unfold maxIPv6. intros Hn. apply isIPv6_ref_canonical. lia.
Qed.

Lemma mem_colon_canonical n :
  0 <= n < 2 ^ 128 -> JS.mem_char ":" (bigIntToIPv6 n) = true.
Proof.
  intros Hn. rewrite (bigIntToIPv6_groups n Hn).
  apply mem_colon_compressParts. rewrite length_map. reflexivity.
Qed.

Lemma isIPv4_canonical n : 0 <= n < 2 ^ 128 -> isIPv4 (bigIntToIPv6 n) = false.
Proof.
  intros Hn. pose proof (mem_colon_canonical n Hn) as Hc.
  destruct (isIPv4 _) eqn:E; [| reflexivity].
  apply isIPv4_inv in E as (p0 & p1 & p2 & p3 & H0 & H1 & H2 & H3 & E).
  rewrite E in Hc.
  rewrite (forall_chars_nomem cidrChar ":" _ eq_refl
             (quad_chars _ _ _ _ H0 H1 H2 H3)) in Hc.
  discriminate.
Qed.

Lemma compressParts_shape cs :
  List.length cs = 8%nat ->
  compressParts cs = JS.join ":" cs
  \/ exists before after k,
       cs = (before ++ repeat "0" k ++ after)%list
       /\ (2 <= k)%nat
       /\ (List.length before + List.length after <= 6)%nat
       /\ compressParts cs
          = JS.join ":" before ++ "::" ++ JS.join ":" after.
Proof.
  intros Hlen. rewrite compressParts_eq.
  pose proof (bestRun_spec cs) as H.
  destruct (bestRun cs) as [bs bl]. destruct H as (H1 & H2 & H3 & _).
  destruct (bl >=? 2) eqn:E; [right | left; reflexivity].
  assert (Hbl : 2 <= bl) by (rewrite Z.geb_leb in E; apply Z.leb_le in E; lia).
  destruct (H3 ltac:(lia)) as (Z1 & Z2 & Z3 & Z4).
  unfold zlen in Z3. rewrite Hlen in Z3.
  exists (firstn (Z.to_nat bs) cs), (skipn (Z.to_nat (bs + bl)) cs), (Z.to_nat bl).
  split; [| split; [lia | split; [| reflexivity]]].
  - rewrite <- (firstn_skipn (Z.to_nat bs) cs) at 1. f_equal.
    rewrite (zeroRun_middle cs (Z.to_nat bl) (Z.to_nat bs)).
    + do 2 f_equal. lia.
    + intros k Hk. rewrite <- (Nat2Z.id k). apply Z4. lia.
  - rewrite firstn_length_le, length_skipn by lia. lia.
Qed.

(** X18. [bigIntToIPv6] prints a well-formed literal for every 128-bit
    value.  The text is made of the eight groups of the value, each
    printed with one to four hexadecimal digits: either all eight joined
    by colons, or, with a run of two or more zero groups left out, the at
    most six groups before and after the run around a single "::".  The
    runtime's recogniser accepts it as IPv6; it always holds a colon, so
    it is never taken for an IPv4 literal. *)
Theorem bigIntToIPv6_well_formed n :
  0 <= n < 2 ^ 128 ->
  let gs := map groupText (groupsOf n) in
  List.length gs = 8%nat
  /\ Forall (fun g => partOk g /\ hexGroup g = true) gs
  /\ (bigIntToIPv6 n = JS.join ":" gs
      \/ exists before after k,
           gs = (before ++ repeat "0" k ++ after)%list
           /\ (2 <= k)%nat
           /\ (List.length before + List.length after <= 6)%nat
           /\ bigIntToIPv6 n
              = JS.join ":" before ++ "::" ++ JS.join ":" after)
  /\ isIPv6_ref (bigIntToIPv6 n) = true
  /\ JS.mem_char ":" (bigIntToIPv6 n) = true
  /\ isIPv4 (bigIntToIPv6 n) = false.
Proof.
  intros Hn gs.
  assert (Hlen : List.length gs = 8%nat)
    by (unfold gs; rewrite length_map; reflexivity).
  split; [exact Hlen |]. split; [| split].
  - pose proof (groupsOf_bound n (proj1 Hn)) as Hb.
    unfold gs. apply Forall_forall. intros c Hc.
    apply in_map_iff in Hc as (g & <- & Hg).
    rewrite Forall_forall in Hb.
    destruct (groupText_spec g (Hb g Hg)) as (P & _ & _ & _ & Hh).
    split; assumption.
  - rewrite (bigIntToIPv6_groups n Hn). fold gs.
    exact (compressParts_shape gs Hlen).
  - split; [apply isIPv6_ref_canonical; assumption |].
    split; [apply mem_colon_canonical | apply isIPv4_canonical]; assumption.
Qed.

Lemma bigIntToIPv6_well_formed_witness :
  let n := 0x20010db8000000000000000000000001 in
  0 <= n < 2 ^ 128
  /\ bigIntToIPv6 n = "2001:db8::1"
  /\ let gs := map groupText (groupsOf n) in
     List.length gs = 8%nat
     /\ Forall (fun g => partOk g /\ hexGroup g = true) gs
     /\ (bigIntToIPv6 n = JS.join ":" gs
         \/ exists before after k,
              gs = (before ++ repeat "0" k ++ after)%list
              /\ (2 <= k)%nat
              /\ (List.length before + List.length after <= 6)%nat
              /\ bigIntToIPv6 n
                 = JS.join ":" before ++ "::" ++ JS.join ":" after)
     /\ isIPv6_ref (bigIntToIPv6 n) = true
     /\ JS.mem_char ":" (bigIntToIPv6 n) = true
     /\ isIPv4 (bigIntToIPv6 n) = false.
Proof.
  cbv zeta.
  assert (H : 0 <= 0x20010db8000000000000000000000001 < 2 ^ 128)
    by (split; [vm_compute; discriminate | vm_compute; reflexivity]).
  split; [exact H |]. split; [vm_compute; reflexivity |].
  exact (bigIntToIPv6_well_formed 0x20010db8000000000000000000000001 H).
Defined.

Section CanonicalIPv6.

Variable isIPv6 : string -> bool.

Lemma net_isIP_canonical n :
  0 <= n < 2 ^ 128 -> isIPv6 (bigIntToIPv6 n) = true ->
  net_isIP isIPv6 (bigIntToIPv6 n) = 6.
Proof.
  intros Hn H6. unfold net_isIP.
  rewrite (isIPv4_canonical n Hn), H6. reflexivity.
Qed.

Lemma nextIP_canonical n increment :
  0 <= n < 2 ^ 128 -> isIPv6 (bigIntToIPv6 n) = true ->
  nextIP isIPv6 (bigIntToIPv6 n) increment true
  = (let v := if increment then n + 1 else n - 1 in
     if (v <? 0) || (v >? maxIPv6) then None else Some (bigIntToIPv6 v)).
Proof.
  intros Hn H6. unfold nextIP. rewrite (net_isIP_canonical n Hn H6).
  cbn [Z.eqb Pos.eqb andb].
  rewrite (expandIPv6_bigIntToIPv6 n Hn), (ipv6Value_groups n Hn).
  reflexivity.
Qed.

(** X19. On the literals that [bigIntToIPv6] prints, [nextIP] is the
    successor and the predecessor of the 128-bit value: from the literal
    of [n] it gives the literal of [n + 1], or [null] at 2^128 - 1, and
    the literal of [n - 1], or [null] at 0, without wrapping; with the
    IPv6 flag off it gives [null]; and a step up followed by a step down
    returns the literal started from, whenever the runtime accepts the
    literal in between. *)
Theorem nextIP_ipv6_step n :
  0 <= n <= maxIPv6 ->
  isIPv6 (bigIntToIPv6 n) = true ->
  nextIP isIPv6 (bigIntToIPv6 n) true true
  = (if n <? maxIPv6 then Some (bigIntToIPv6 (n + 1)) else None)
  /\ nextIP isIPv6 (bigIntToIPv6 n) false true
     = (if 0 <? n then Some (bigIntToIPv6 (n - 1)) else None)
  /\ (forall increment, nextIP isIPv6 (bigIntToIPv6 n) increment false = None)
  /\ (n < maxIPv6 -> isIPv6 (bigIntToIPv6 (n + 1)) = true ->
      nextIP isIPv6 (bigIntToIPv6 (n + 1)) false true = Some (bigIntToIPv6 n)).
Proof.
  unfold maxIPv6. intros Hn H6.
  assert (Hn' : 0 <= n < 2 ^ 128) by lia.
  split; [| split; [| split]].
  - rewrite (nextIP_canonical n true Hn' H6). unfold maxIPv6. cbv zeta.
    destruct (Z.ltb_spec (n + 1) 0); [lia |].
    rewrite Z.gtb_ltb.
    destruct (Z.ltb_spec (2 ^ 128 - 1) (n + 1)); destruct (Z.ltb_spec n (2 ^ 128 - 1));
      try lia; reflexivity.
  - rewrite (nextIP_canonical n false Hn' H6). unfold maxIPv6. cbv zeta.
    rewrite Z.gtb_ltb.
    destruct (Z.ltb_spec (2 ^ 128 - 1) (n - 1)); [lia |].
    rewrite orb_false_r.
    destruct (Z.ltb_spec (n - 1) 0); destruct (Z.ltb_spec 0 n); try lia; reflexivity.
  - intros increment. unfold nextIP. rewrite (net_isIP_canonical n Hn' H6).
    reflexivity.
  - intros Hlt H6'.
    rewrite (nextIP_canonical (n + 1) false ltac:(lia) H6'). unfold maxIPv6.
    cbv zeta. replace (n + 1 - 1) with n by lia.
    destruct (Z.ltb_spec n 0); [lia |]. rewrite Z.gtb_ltb.
    destruct (Z.ltb_spec (2 ^ 128 - 1) n); [lia |]. reflexivity.
Qed.

End CanonicalIPv6.

Lemma nextIP_ipv6_step_witness :
  let n := 0x20010db80000000000000000ffffffff in
  0 <= n <= maxIPv6
  /\ isIPv6_ref (bigIntToIPv6 n) = true
  /\ nextIP isIPv6_ref (bigIntToIPv6 n) true true
     = (if n <? maxIPv6 then Some (bigIntToIPv6 (n + 1)) else None)
  /\ nextIP isIPv6_ref (bigIntToIPv6 n) false true
     = (if 0 <? n then Some (bigIntToIPv6 (n - 1)) else None)
  /\ (forall increment,
        nextIP isIPv6_ref (bigIntToIPv6 n) increment false = None)
  /\ (n < maxIPv6 -> isIPv6_ref (bigIntToIPv6 (n + 1)) = true ->
      nextIP isIPv6_ref (bigIntToIPv6 (n + 1)) false true
      = Some (bigIntToIPv6 n)).
Proof.
  cbv zeta.
  assert (H : 0 <= 0x20010db80000000000000000ffffffff <= maxIPv6)
    by (split; vm_compute; discriminate).
  assert (H6 : isIPv6_ref (bigIntToIPv6 0x20010db80000000000000000ffffffff) = true)
    by (vm_compute; reflexivity).
  split; [exact H |]. split; [exact H6 |].
  exact (nextIP_ipv6_step isIPv6_ref 0x20010db80000000000000000ffffffff H H6).
Defined.

(* ================================================================== *)
(** * The walk from an IPv6 seed *)
(* ================================================================== *)

Lemma walkValsTo_length top n : forall j l h,
  List.length (walkValsTo top n j l h) = n.
Proof.
  induction n as [|n IH]; intros j l h; [reflexivity |].
  cbn [walkValsTo]. destruct (j mod 2 =? 0); cbn [List.length]; now rewrite IH.
Qed.

Lemma walkValsTo_nth top n : forall j l h k,
  0 <= j -> (k < n)%nat ->
  nth_error (walkValsTo top n j l h) k =
    Some (if (j + Z.of_nat k) mod 2 =? 0
          then Z.max 0 (l - (Z.of_nat k + 2 - j mod 2) / 2)
          else Z.min top (h + (Z.of_nat k + 1 + j mod 2) / 2)).
Proof.
  induction n as [|n IH]; intros j l h k Hj Hk; [lia |].
  cbn [walkValsTo].
  destruct k as [|k].
  - replace (j + Z.of_nat 0) with j by lia.
    destruct (Z.eqb_spec (j mod 2) 0) as [E|E]; cbn [nth_error]; f_equal.
    + rewrite E. f_equal.
    + assert (j mod 2 = 1) as -> by lia_dm.
      f_equal.
  - replace (j + Z.of_nat (S k)) with ((j + 1) + Z.of_nat k) by lia.
    destruct (Z.eqb_spec (j mod 2) 0) as [E|E]; cbn [nth_error];
      rewrite IH by lia; apply f_equal.
    + assert ((j + 1) mod 2 = 1) as E1 by lia_dm.
      rewrite E, E1.
      destruct ((j + 1 + Z.of_nat k) mod 2 =? 0); lia_dm.
    + assert (j mod 2 = 1) as E0 by lia_dm.
      assert ((j + 1) mod 2 = 0) as E1 by lia_dm.
      rewrite E0, E1.
      destruct ((j + 1 + Z.of_nat k) mod 2 =? 0); lia_dm.
Qed.

Section WalkIPv6.

Variable isIPv6 : string -> bool.
Variable dnsLookup : string -> option string.
Hypothesis isIPv6_colon : forall s, isIPv6 s = true -> JS.mem_char ":" s = true.

(** The runtime accepts the literals that [bigIntToIPv6] prints. *)
Hypothesis isIPv6_canonical :
  forall n, 0 <= n <= maxIPv6 -> isIPv6 (bigIntToIPv6 n) = true.

Lemma orStr_canonical u y :
  0 <= u <= maxIPv6 -> JS.orStr (Some (bigIntToIPv6 u)) y = bigIntToIPv6 u.
Proof.
  intros Hu. unfold JS.orStr.
  destruct (String.eqb_spec (bigIntToIPv6 u) EmptyString) as [E|E]; [| reflexivity].
  pose proof (mem_colon_canonical u ltac:(unfold maxIPv6 in Hu; lia)) as Hc.
  rewrite E in Hc. discriminate.
Qed.

Lemma walkStep_v6 j l h :
  0 <= j < JS.MAX_SAFE_INTEGER -> 0 <= l <= maxIPv6 -> 0 <= h <= maxIPv6 ->
  walkStep isIPv6 (mkWalk j (bigIntToIPv6 l) (bigIntToIPv6 h)) =
    Some (if j mod 2 =? 0
          then (ipHost (bigIntToIPv6 (Z.max 0 (l - 1))),
                mkWalk (j + 1) (bigIntToIPv6 (Z.max 0 (l - 1))) (bigIntToIPv6 h))
          else (ipHost (bigIntToIPv6 (Z.min maxIPv6 (h + 1))),
                mkWalk (j + 1) (bigIntToIPv6 l)
                  (bigIntToIPv6 (Z.min maxIPv6 (h + 1))))).
Proof.
  intros Hj Hl Hh. unfold walkStep. cbn [w_i lowIP highIP].
  destruct (Z.ltb_spec j JS.MAX_SAFE_INTEGER) as [_|C]; [| lia].
  assert (Hl' : 0 <= l < 2 ^ 128) by (unfold maxIPv6 in Hl; lia).
  assert (Hh' : 0 <= h < 2 ^ 128) by (unfold maxIPv6 in Hh; lia).
  rewrite (nextIP_canonical isIPv6 l false Hl' (isIPv6_canonical l Hl)).
  rewrite (nextIP_canonical isIPv6 h true Hh' (isIPv6_canonical h Hh)).
  cbv zeta.
  destruct (j mod 2 =? 0).
  - destruct (Z.ltb_spec (l - 1) 0) as [L|L]; cbn [orb].
    + replace (Z.max 0 (l - 1)) with l by lia. reflexivity.
    + rewrite Z.gtb_ltb. destruct (Z.ltb_spec maxIPv6 (l - 1)); [lia |].
      rewrite orStr_canonical by lia.
      replace (Z.max 0 (l - 1)) with (l - 1) by lia. reflexivity.
  - destruct (Z.ltb_spec (h + 1) 0) as [L|L]; [lia |]. cbn [orb].
    rewrite Z.gtb_ltb. destruct (Z.ltb_spec maxIPv6 (h + 1)).
    + replace (Z.min maxIPv6 (h + 1)) with h by lia. reflexivity.
    + rewrite orStr_canonical by lia.
      replace (Z.min maxIPv6 (h + 1)) with (h + 1) by lia. reflexivity.
Qed.

Lemma walkTake_v6 n : forall j l h,
  0 <= j -> j + Z.of_nat n <= JS.MAX_SAFE_INTEGER ->
  0 <= l <= maxIPv6 -> 0 <= h <= maxIPv6 ->
  walkTake isIPv6 n (mkWalk j (bigIntToIPv6 l) (bigIntToIPv6 h))
  = map (fun u => ipHost (bigIntToIPv6 u)) (walkValsTo maxIPv6 n j l h).
Proof.
  induction n as [|n IH]; intros j l h Hj Hn Hl Hh; [reflexivity |].
  cbn [walkTake walkValsTo]. rewrite walkStep_v6 by lia.
  destruct (j mod 2 =? 0); cbn [map]; f_equal; apply IH; lia.
Qed.

(** X20. The walk seeded at the IPv6 literal that [bigIntToIPv6] prints
    for [v] behaves like the IPv4 walk, on 128-bit values: it yields the
    seed, then alternately one address further down and one further up,
    target [idx] being the literal of [v - (idx + 1) / 2] for odd [idx]
    and of [v + idx / 2] for even [idx] while that value is inside the
    address space, so that no address is skipped or yielded twice before
    a boundary is met. *)
Theorem ipv6_address_walk v n :
  0 <= v <= maxIPv6 -> Z.of_nat n <= JS.MAX_SAFE_INTEGER ->
  let out := yields (iterateAddr isIPv6 dnsLookup (bigIntToIPv6 v) n) in
  List.length out = S n
  /\ (forall idx, 0 <= idx <= Z.of_nat n -> 0 <= walkAddr v idx <= maxIPv6 ->
        nth_error out (Z.to_nat idx)
        = Some (ipHost (bigIntToIPv6 (walkAddr v idx))))
  /\ (forall i j, 0 <= i < j -> j <= Z.of_nat n ->
        0 <= walkAddr v i <= maxIPv6 -> 0 <= walkAddr v j <= maxIPv6 ->
        nth_error out (Z.to_nat i) <> nth_error out (Z.to_nat j)).
Proof.
  intros Hv Hn out.
  assert (Hv' : 0 <= v < 2 ^ 128) by (unfold maxIPv6 in Hv; lia).
  assert (Eo : out = ipHost (bigIntToIPv6 v)
                     :: map (fun u => ipHost (bigIntToIPv6 u))
                          (walkValsTo maxIPv6 n 0 v v)).
  { unfold out. rewrite (iterateAddr_literal isIPv6 dnsLookup isIPv6_colon).
    - f_equal. apply walkTake_v6; lia.
    - rewrite (net_isIP_canonical isIPv6 v Hv' (isIPv6_canonical v Hv)).
      discriminate. }
  assert (Hnth : forall idx, 0 <= idx <= Z.of_nat n ->
            0 <= walkAddr v idx <= maxIPv6 ->
            nth_error out (Z.to_nat idx)
            = Some (ipHost (bigIntToIPv6 (walkAddr v idx)))).
  { intros idx Hidx Hr. rewrite Eo.
    destruct (Z.eq_dec idx 0) as [->|Hz].
    - assert (walkAddr v 0 = v) as ->
        by (unfold walkAddr; change (0 mod 2 =? 1) with false;
            change (0 / 2) with 0; cbv iota; lia).
      reflexivity.
    - replace (Z.to_nat idx) with (S (Z.to_nat (idx - 1))) by lia.
      cbn [nth_error]. rewrite nth_error_map, walkValsTo_nth by lia.
      cbn [option_map]. do 3 f_equal.
      rewrite Z2Nat.id by lia. unfold walkAddr in *.
      change (0 mod 2) with 0.
      destruct (Z.eqb_spec ((0 + (idx - 1)) mod 2) 0),
        (Z.eqb_spec (idx mod 2) 1); lia_dm. }
  split; [| split].
  - rewrite Eo. cbn [List.length]. now rewrite length_map, walkValsTo_length.
  - exact Hnth.
  - intros i j Hij Hj Hi' Hj' E.
    rewrite !Hnth in E by lia.
    injection E as E.
    apply bigIntToIPv6_inj in E; unfold maxIPv6 in *; try lia.
    apply walkAddr_inj in E; lia.
Qed.

End WalkIPv6.

Lemma ipv6_address_walk_witness :
  let v := 0x20010db8000000000000000000000001 in
  0 <= v <= maxIPv6
  /\ Z.of_nat 4 <= JS.MAX_SAFE_INTEGER
  /\ let out := yields (iterateAddr isIPv6_ref no_dns (bigIntToIPv6 v) 4) in
     List.length out = 5%nat
     /\ (forall idx, 0 <= idx <= Z.of_nat 4 -> 0 <= walkAddr v idx <= maxIPv6 ->
           nth_error out (Z.to_nat idx)
           = Some (ipHost (bigIntToIPv6 (walkAddr v idx))))
     /\ (forall i j, 0 <= i < j -> j <= Z.of_nat 4 ->
           0 <= walkAddr v i <= maxIPv6 -> 0 <= walkAddr v j <= maxIPv6 ->
           nth_error out (Z.to_nat i) <> nth_error out (Z.to_nat j)).
Proof.
  cbv zeta.
  assert (H : 0 <= 0x20010db8000000000000000000000001 <= maxIPv6)
    by (split; vm_compute; discriminate).
  assert (Hn : Z.of_nat 4 <= JS.MAX_SAFE_INTEGER) by (vm_compute; discriminate).
  split; [exact H |]. split; [exact Hn |].
  exact (ipv6_address_walk isIPv6_ref no_dns isIPv6_ref_colon
           isIPv6_ref_accepts
           0x20010db8000000000000000000000001 4 H Hn).
Defined.

(* ================================================================== *)
(** * The coordinator: infinite mode *)
(* ================================================================== *)

Module ModeProps.

Import Scanner App Fixtures ScannerProps AppProps.

Lemma ModeInv_step env threadCount inf s l s' :
  ModeInv threadCount inf s -> step env s l = Some s' ->
  ModeInv threadCount inf s'.
Proof.
  intros (M1 & M2 & M3) Hs. unfold step in Hs.
  destruct (halted s); [discriminate |].
  destruct l as [w h|w|w|w|w| | | | |d].
  - destruct (nth_error (workers s) w) as [[| | | | |]|]; try discriminate.
    destruct h; [destruct (isShuttingDown s) |]; injection Hs as <-;
      unfold ModeInv, withWorker; cbn; rewrite length_setPhase;
      repeat split; assumption.
  - destruct (nth_error (workers s) w) as [[| | | | |]|]; try discriminate.
    destruct (fst (scanTLS env host [])); injection Hs as <-;
      unfold ModeInv, withWorker; cbn; rewrite length_setPhase;
      repeat split; assumption.
  - destruct (nth_error (workers s) w) as [[| | | | |]|]; try discriminate.
    injection Hs as <-. unfold ModeInv. cbn. rewrite length_setPhase.
    repeat split; assumption.
  - destruct (nth_error (workers s) w) as [[| | | | |]|]; try discriminate.
    injection Hs as <-. unfold ModeInv, withWorker. cbn. rewrite length_setPhase.
    repeat split; assumption.
  - destruct (nth_error (workers s) w) as [[| | | | |]|]; try discriminate.
    injection Hs as <-. unfold ModeInv. cbn. rewrite length_setPhase.
    repeat split; assumption.
  - destruct (negb (infinite s) && negb (settled s) && forallb isExited (workers s))
      eqn:E; [| discriminate].
    apply andb_true_iff in E as [E _]. apply andb_true_iff in E as [E _].
    apply negb_true_iff in E. injection Hs as <-. unfold ModeInv. cbn.
    repeat split; try assumption. intros ->. congruence.
  - destruct (shutdown s); try discriminate. injection Hs as <-.
    unfold afterWait. destruct (_ && _); unfold ModeInv; cbn;
      repeat split; assumption.
  - destruct (shutdown s); try discriminate. injection Hs as <-.
    unfold afterWait. destruct (_ && _); unfold ModeInv; cbn;
      repeat split; assumption.
  - destruct (shutdown s); try discriminate. injection Hs as <-.
    unfold ModeInv. cbn. repeat split; assumption.
  - destruct (d <? 0); [discriminate |]. injection Hs as <-.
    unfold ModeInv. cbn. repeat split; assumption.
Qed.

Lemma ModeInv_run env threadCount inf ls : forall s s',
  ModeInv threadCount inf s -> run env s ls = Some s' ->
  ModeInv threadCount inf s'.
Proof.
  induction ls as [|l r IH]; intros s s' M H; cbn [run] in H.
  - injection H as <-. assumption.
  - destruct (step env s l) as [s1|] eqn:E; [| discriminate].
    exact (IH _ _ (ModeInv_step _ _ _ _ _ _ M E) H).
Qed.

Lemma cnt_le_length f l : cnt f l <= zlen l.
Proof.
  unfold cnt, zlen. pose proof (filter_length_le f l). lia.
Qed.

Lemma cnt_active_zero l : cnt isActive l = 0 <-> forallb isExited l = true.
Proof.
  split; [| apply cnt_all_exited].
  induction l as [|p l IH]; [reflexivity |].
  rewrite cnt_cons. pose proof (cnt_nonneg isActive l) as Hn.
  unfold isActive at 1. cbn [forallb].
  destruct (isExited p); cbn [negb Z.b2z andb]; [| lia].
  intros H. apply IH. lia.
Qed.

(** X21. Under every schedule, [activeWorkers] stays between 0 and the
    number of workers started and is 0 exactly when every worker has left
    its loop.  In infinite mode (a single address as seed) the scan never
    completes by itself: [Promise.allSettled] is not awaited, so even
    when every worker has left (the seed did not resolve, or the walk is
    over) the output file stays open until a signal arrives. *)
Theorem infinite_mode_never_settles env threadCount outputPath inf t0 ls s :
  run env (start threadCount (setupOutputFile outputPath) inf t0) ls = Some s ->
  0 <= activeWorkers s <= Z.of_nat threadCount
  /\ (activeWorkers s = 0 <-> forallb isExited (workers s) = true)
  /\ (inf = true ->
      settled s = false
      /\ step env s Settled = None
      /\ (shutdown s = NoSignal -> ~ fileClosed s)).
Proof.
  intros H.
  pose proof (Inv_run env ls _ _ (Inv_start threadCount outputPath inf t0) H)
    as (I1 & _ & _ & _ & I5).
  assert (M0 : ModeInv threadCount inf
                 (start threadCount (setupOutputFile outputPath) inf t0)).
  { unfold ModeInv, start. cbn. rewrite repeat_length. repeat split. }
  pose proof (ModeInv_run env threadCount inf ls _ _ M0 H) as (M1 & M2 & M3).
  split.
  - rewrite I1. pose proof (cnt_nonneg isActive (workers s)).
    pose proof (cnt_le_length isActive (workers s)) as Hl.
    unfold zlen in Hl. rewrite M1 in Hl. lia.
  - split; [rewrite I1; apply cnt_active_zero |].
    intros ->. specialize (M3 eq_refl).
    split; [assumption |]. split.
    + unfold step. destruct (halted s); [reflexivity |].
      rewrite M2. reflexivity.
    + intros Hsh Hc. rewrite Hsh in I5. destruct I5 as [_ I5].
      specialize (I5 Hc). congruence.
Qed.

Lemma infinite_mode_never_settles_witness :
  let ls := [Next 0 None; Next 1 None; Tick 5000] in
  exists s,
    run envOk (start 2 (setupOutputFile "out.csv") true 0) ls = Some s
    /\ 0 <= activeWorkers s <= Z.of_nat 2
    /\ (activeWorkers s = 0 <-> forallb isExited (workers s) = true)
    /\ (true = true ->
        settled s = false
        /\ step envOk s Settled = None
        /\ (shutdown s = NoSignal -> ~ fileClosed s)).
Proof.
  cbv zeta. eexists. split; [vm_compute; reflexivity |].
  apply (infinite_mode_never_settles envOk 2 "out.csv" true 0
           [Next 0 None; Next 1 None; Tick 5000]).
  vm_compute. reflexivity.
Defined.

End ModeProps.

(* ================================================================== *)
(** * The choice of the input *)
(* ================================================================== *)

Module CliProps.

Import Scanner Cli.

Lemma given_truthy v : given v = true -> whenTruthy v = v.
Proof.
  destruct v as [s|]; [| discriminate]. cbn.
  destruct (String.eqb s EmptyString); [discriminate | reflexivity].
Qed.

Lemma not_given v :
  given v = false -> blankOption v = false -> whenTruthy v = None.
Proof.
  destruct v as [s|]; [| reflexivity]. cbn.
  destruct (String.eqb s EmptyString); [reflexivity |]. cbn.
  destruct (String.eqb (JS.trim s) EmptyString); discriminate.
Qed.

(** X22. When no option is set to white space only, [run] and
    [getHostIterator] agree: [run] goes on exactly when one of [addr],
    [in] and [url] is given, and then [getHostIterator] returns the
    iterator of that input and never throws its "No input specified"
    error. *)
Theorem run_selects_the_given_input addr inFile url :
  blankOption addr = false -> blankOption inFile = false ->
  blankOption url = false ->
  match runCommand addr inFile url with
  | None => inputCount addr inFile url <> 1%nat
  | Some (source, infinite) =>
      infinite = infiniteMode addr
      /\ ((given addr = true /\ given inFile = false /\ given url = false
           /\ exists a, addr = Some a /\ source = Ok (FromAddr a))
          \/ (given addr = false /\ given inFile = true /\ given url = false
              /\ exists f, inFile = Some f /\ source = Ok (FromFile f))
          \/ (given addr = false /\ given inFile = false /\ given url = true
              /\ exists u, url = Some u /\ source = Ok (FromUrl u)))
  end.
Proof.
  intros Ba Bf Bu. unfold runCommand, inputCount, getHostIterator. cbn [filter].
  destruct (given addr) eqn:Ga, (given inFile) eqn:Gf, (given url) eqn:Gu;
    cbn [List.length Nat.eqb negb]; try (intros E; discriminate E).
  - split; [reflexivity |]. left.
    rewrite (given_truthy _ Ga).
    destruct addr as [a|]; [| discriminate].
    repeat split. exists a. split; reflexivity.
  - split; [reflexivity |]. right. left.
    rewrite (not_given _ Ga Ba), (given_truthy _ Gf).
    destruct inFile as [f|]; [| discriminate].
    repeat split. exists f. split; reflexivity.
  - split; [reflexivity |]. right. right.
    rewrite (not_given _ Ga Ba), (not_given _ Gf Bf), (given_truthy _ Gu).
    destruct url as [u|]; [| discriminate].
    repeat split. exists u. split; reflexivity.
Qed.

Lemma run_selects_the_given_input_witness :
  blankOption None = false /\ blankOption (Some "hosts.txt") = false
  /\ blankOption (Some EmptyString) = false
  /\ match runCommand None (Some "hosts.txt") (Some EmptyString) with
     | None => inputCount None (Some "hosts.txt") (Some EmptyString) <> 1%nat
     | Some (source, infinite) =>
         infinite = infiniteMode None
         /\ ((given None = true /\ given (Some "hosts.txt") = false
              /\ given (Some EmptyString) = false
              /\ exists a, None = Some a /\ source = Ok (FromAddr a))
             \/ (given None = false /\ given (Some "hosts.txt") = true
                 /\ given (Some EmptyString) = false
                 /\ exists f, Some "hosts.txt" = Some f /\ source = Ok (FromFile f))
             \/ (given None = false /\ given (Some "hosts.txt") = false
                 /\ given (Some EmptyString) = true
                 /\ exists u, Some EmptyString = Some u /\ source = Ok (FromUrl u)))
     end.
Proof.
  split; [reflexivity |]. split; [reflexivity |]. split; [reflexivity |].
  exact (run_selects_the_given_input None (Some "hosts.txt") (Some EmptyString)
           eq_refl eq_refl eq_refl).
Defined.

Lemma blank_no_slash s :
  JS.trim s = EmptyString -> JS.mem_char "/" s = false.
Proof.
  unfold JS.trim. induction s as [|c r IH]; [reflexivity |].
  cbn [JS.trimStart JS.mem_char].
  destruct (JS.isSpace c) eqn:Ec.
  - intros H. rewrite (IH H), orb_false_r.
    destruct (Ascii.eqb_spec c "/") as [->|]; [discriminate | reflexivity].
  - cbn [JS.trimEnd]. destruct (JS.trimEnd r); [rewrite Ec |]; discriminate.
Qed.

(** X23. An [addr] option set to white space only is not counted by
    [run] but is taken by [getHostIterator]: given together with an input
    file or a URL it passes the check for exactly one input, and then
    the file or URL is ignored, the blank address is handed to
    [iterateAddr], and the scan runs in infinite mode. *)
Theorem blank_addr_shadows_the_input addr inFile url :
  blankOption addr = true ->
  inputCount None inFile url = 1%nat ->
  exists a,
    addr = Some a
    /\ runCommand addr inFile url = Some (Ok (FromAddr a), true).
Proof.
  intros Ba Hc. destruct addr as [a|]; [| discriminate]. cbn in Ba.
  apply andb_true_iff in Ba as [Ha Ht].
  apply String.eqb_eq in Ht.
  exists a. split; [reflexivity |].
  unfold runCommand, inputCount in *. cbn [filter given] in *.
  rewrite Ha. rewrite Ht. cbn [String.eqb negb andb] in *.
  rewrite Hc. cbn [Nat.eqb negb].
  unfold getHostIterator, infiniteMode, whenTruthy.
  apply negb_true_iff in Ha. rewrite Ha.
  rewrite (blank_no_slash a Ht). reflexivity.
Qed.

Lemma blank_addr_shadows_the_input_witness :
  blankOption (Some "  ") = true
  /\ inputCount None (Some "hosts.txt") None = 1%nat
  /\ exists a,
       Some "  " = Some a
       /\ runCommand (Some "  ") (Some "hosts.txt") None = Some (Ok (FromAddr a), true).
Proof.
  split; [reflexivity |]. split; [reflexivity |].
  exact (blank_addr_shadows_the_input (Some "  ") (Some "hosts.txt") None
           eq_refl eq_refl).
Defined.

(** X24. The mode of [startScanning] matches the iterator of
    [iterateAddr]: a seed of the CIDR form, whose expansion is finite, is
    scanned in finite mode, and an IPv4 literal, whose walk is endless,
    in infinite mode. *)
Theorem mode_matches_the_seed addr :
  (cidrMatch addr <> None -> infiniteMode (Some addr) = false)
  /\ (isIPv4 addr = true -> infiniteMode (Some addr) = true).
Proof.
  split.
  - intros H. unfold infiniteMode, whenTruthy.
    destruct (String.eqb_spec addr EmptyString) as [->|Hne];
      [reflexivity |].
    destruct (JS.mem_char "/" addr) eqn:E; [reflexivity |].
    exfalso. apply H. unfold cidrMatch.
    rewrite (split_char_nomem "/" addr E). reflexivity.
  - intros H. unfold infiniteMode, whenTruthy.
    destruct (String.eqb_spec addr EmptyString) as [->|Hne];
      [discriminate |].
    rewrite (isIPv4_no_slash addr H). reflexivity.
Qed.

End CliProps.

(* ================================================================== *)
(** * Lines of the CIDR form *)
(* ================================================================== *)

Lemma digitChar_dec m :
  0 <= m < 10 ->
  JS.digitVal (JS.digitChar m) = m /\ JS.isDigit (JS.digitChar m) = true.
Proof.
  intros H.
  assert (C : In m (zrange 0 10)) by (apply zrange_In; lia).
  clear H. revert m C. apply Forall_forall.
  repeat (constructor; [split; reflexivity |]). constructor.
Qed.

Lemma numberAcc_app x y : forall a,
  JS.numberAcc (x ++ y) a = JS.numberAcc y (JS.numberAcc x a).
Proof.
  induction x as [|c x IH]; intros a; cbn [append JS.numberAcc]; [reflexivity |].
  apply IH.
Qed.

(** The digits [toString] prints are decimal digits whose value is the
    number. *)
Lemma digitsOf_dec fuel : forall n acc,
  0 <= n < 10 ^ Z.of_nat fuel ->
  exists d,
    JS.digitsOf 10 fuel n acc = d ++ acc
    /\ JS.forall_chars JS.isDigit d = true
    /\ forall a, JS.numberAcc d a = a * 10 ^ Z.of_nat (String.length d) + n.
Proof.
  induction fuel as [|f IH]; intros n acc Hn.
  - cbn in Hn. assert (n = 0) by lia. subst n.
    exists EmptyString. repeat split. intros a. cbn. lia.
  - cbn [JS.digitsOf].
    destruct (digitChar_dec (n mod 10) (Z.mod_pos_bound n 10 ltac:(lia)))
      as [Hv Hd].
    destruct (Z.ltb_spec n 10) as [Hlt|Hge].
    + exists (String (JS.digitChar (n mod 10)) EmptyString).
      split; [reflexivity |]. split; [cbn; rewrite Hd; reflexivity |].
      intros a. cbn [JS.numberAcc String.length]. rewrite Hv.
      rewrite Z.mod_small by lia. change (10 ^ Z.of_nat 1) with 10. lia.
    + rewrite Nat2Z.inj_succ, Z.pow_succ_r in Hn by lia.
      destruct (IH (n / 10) (String (JS.digitChar (n mod 10)) acc))
        as (d & Ed & Hdig & Hval).
      { split; [apply Z.div_pos; lia | apply Z.div_lt_upper_bound; lia]. }
      exists (d ++ String (JS.digitChar (n mod 10)) EmptyString).
      split; [rewrite Ed, append_assoc; reflexivity |].
      split; [rewrite forall_chars_app, Hdig; cbn; rewrite Hd; reflexivity |].
      intros a. rewrite numberAcc_app, Hval. cbn [JS.numberAcc].
      rewrite Hv, length_append. cbn [String.length].
      rewrite Nat2Z.inj_add, Z.pow_add_r by lia.
      change (10 ^ Z.of_nat 1) with 10.
      pose proof (Z.div_mod n 10 ltac:(lia)). lia.
Qed.

Lemma toString_dec n :
  0 <= n ->
  JS.forall_chars JS.isDigit (JS.toString n) = true
  /\ JS.Number (JS.toString n) = n.
Proof.
  intros Hn. unfold JS.toString, JS.toStringRadix.
  destruct (Z.ltb_spec n 0); [lia |].
  destruct (digitsOf_dec (S (Z.to_nat (Z.log2 n))) n EmptyString)
    as (d & Ed & Hd & Hv).
  { split; [assumption |].
    rewrite Nat2Z.inj_succ, Z2Nat.id by apply Z.log2_nonneg.
    destruct (Z.eq_dec n 0) as [->|Hne]; [cbn; lia |].
    pose proof (Z.log2_spec n ltac:(lia)) as [_ H1].
    pose proof (Z.log2_nonneg n).
    apply (Z.lt_le_trans _ _ _ H1).
    apply Z.pow_le_mono_l. lia. }
  rewrite Ed, append_nil_r. split; [assumption |].
  unfold JS.Number. rewrite Hv. lia.
Qed.

Lemma toString_no_dot n : 0 <= n -> JS.mem_char "." (JS.toString n) = false.
Proof.
  intros Hn. apply (forall_chars_nomem JS.isDigit); [reflexivity |].
  apply toString_dec, Hn.
Qed.

Lemma split_quad_nonneg c0 c1 c2 c3 :
  0 <= c0 -> 0 <= c1 -> 0 <= c2 -> 0 <= c3 ->
  JS.split_char "." (quad c0 c1 c2 c3) = map JS.toString [c0; c1; c2; c3].
Proof.
  intros H0 H1 H2 H3. unfold quad. cbn [map JS.join].
  change ("." ++ JS.toString c1 ++ "." ++ JS.toString c2 ++ "." ++ JS.toString c3)
    with (String "." (JS.toString c1 ++ String "." (JS.toString c2
            ++ String "." (JS.toString c3)))).
  rewrite !split_char_app by (apply toString_no_dot; assumption).
  rewrite split_char_nomem by (apply toString_no_dot; assumption).
  reflexivity.
Qed.

Lemma quad_cidrChars c0 c1 c2 c3 :
  0 <= c0 -> 0 <= c1 -> 0 <= c2 -> 0 <= c3 ->
  JS.forall_chars cidrChar (quad c0 c1 c2 c3) = true.
Proof.
  intros H0 H1 H2 H3. unfold quad. cbn [map JS.join].
  assert (D : forall n, 0 <= n -> JS.forall_chars cidrChar (JS.toString n) = true).
  { intros n Hn. apply (forall_chars_impl JS.isDigit).
    - intros c Hc. unfold cidrChar. rewrite Hc. reflexivity.
    - apply toString_dec, Hn. }
  rewrite !forall_chars_app, !D by assumption. reflexivity.
Qed.

Section CidrLines.

Variable isIPv6 : string -> bool.
Hypothesis isIPv6_colon : forall s, isIPv6 s = true -> JS.mem_char ":" s = true.

(** No address has a first octet above 255. *)
Lemma quad_high_not_IP c0 c1 c2 c3 :
  255 < c0 -> 0 <= c1 -> 0 <= c2 -> 0 <= c3 ->
  net_isIP isIPv6 (quad c0 c1 c2 c3) = 0.
Proof.
  intros H0 H1 H2 H3. unfold net_isIP.
  assert (E4 : isIPv4 (quad c0 c1 c2 c3) = false).
  { unfold isIPv4. rewrite split_quad_nonneg by lia. cbn [map].
    destruct (v4Seg (JS.toString c0)) eqn:E; [| reflexivity].
    apply v4Seg_canon in E as [E _].
    rewrite (proj2 (toString_dec c0 ltac:(lia))) in E. lia. }
  rewrite E4, (cidrChar_not_IPv6 isIPv6 isIPv6_colon)
    by (apply quad_cidrChars; lia).
  reflexivity.
Qed.

Lemma cidrLoop_high origin0 c0 n : forall c1 c2 c3,
  255 < c0 -> 0 <= c1 -> 0 <= c2 -> 0 <= c3 ->
  cidrLoop isIPv6 n origin0 (c0, c1, c2, c3) = [].
Proof.
  induction n as [|k IH]; intros c1 c2 c3 H0 H1 H2 H3; [reflexivity |].
  cbn [cidrLoop].
  change (JS.join "." (map JS.toString [c0; c1; c2; c3])) with (quad c0 c1 c2 c3).
  rewrite quad_high_not_IP by assumption. cbn [Z.eqb app].
  destruct (c3 + 1 >? 255); [destruct (c2 + 1 >? 255);
    [destruct (c1 + 1 >? 255) |] |];
    try reflexivity; apply IH; lia.
Qed.

Lemma cidrLoop_events origin0 n : forall current,
  Forall (fun ev => exists s, ev = Yield (mkHost (Some s) origin0 CIDR))
    (cidrLoop isIPv6 n origin0 current)
  /\ (List.length (cidrLoop isIPv6 n origin0 current) <= n)%nat.
Proof.
  induction n as [|k IH]; intros [[[c0 c1] c2] c3]; cbn [cidrLoop].
  - split; [constructor | cbn; lia].
  - set (ipStr := JS.join "." (map JS.toString [c0; c1; c2; c3])).
    set (out := if net_isIP isIPv6 ipStr =? 0 then []
                else [Yield (mkHost (Some ipStr) origin0 CIDR)]).
    assert (Ho : Forall (fun ev => exists s, ev = Yield (mkHost (Some s) origin0 CIDR)) out
                 /\ (List.length out <= 1)%nat).
    { unfold out. destruct (net_isIP isIPv6 ipStr =? 0).
      - split; [constructor | cbn; lia].
      - split; [constructor; [exists ipStr; reflexivity | constructor] | cbn; lia]. }
    destruct Ho as [Ho1 Ho2].
    destruct (c3 + 1 >? 255); [destruct (c2 + 1 >? 255);
      [destruct (c1 + 1 >? 255) |] |];
      try (split; [apply Forall_app; split; [assumption | apply IH]
                  | rewrite length_app;
                    pose proof (proj2 (IH (c0, c1 + 1, 0, 0)));
                    pose proof (proj2 (IH (c0, c1, c2 + 1, 0)));
                    pose proof (proj2 (IH (c0, c1, c2, c3 + 1))); lia]).
    split; [assumption | lia].
Qed.

Lemma cidrMatch_inv s base mask :
  cidrMatch s = Some (base, mask) ->
  s <> EmptyString
  /\ exists a b c d,
       JS.split_char "." base = [a; b; c; d]
       /\ digits1 a = true /\ digits1 b = true /\ digits1 c = true
       /\ digits1 d = true /\ digits1 mask = true.
Proof.
  unfold cidrMatch. intros H. split; [intros ->; discriminate |].
  destruct (JS.split_char "/" s) as [|b0 [|m [|x l]]]; try discriminate.
  destruct (JS.split_char "." b0) as [|p0 [|p1 [|p2 [|p3 [|y l]]]]] eqn:Es;
    try discriminate.
  destruct (digits1 p0 && digits1 p1 && digits1 p2 && digits1 p3 && digits1 m
            && (String.length m <=? 2)%nat) eqn:E; [| discriminate].
  injection H as <- <-.
  apply andb_true_iff in E as [E _]. apply andb_true_iff in E as [E Dm].
  apply andb_true_iff in E as [E D3]. apply andb_true_iff in E as [E D2].
  apply andb_true_iff in E as [D0 D1].
  exists p0, p1, p2, p3. repeat split; assumption.
Qed.

(** X25. A line of the CIDR form never produces a log entry, whatever its
    base and mask: every event is a host of type CIDR with the trimmed
    line as origin, and there are at most [2^(32-mask)] of them (none for
    a mask above 32).  A base whose first octet exceeds 255 is dropped
    without notice: the line yields nothing at all. *)
Theorem cidr_line_is_silent line e base mask :
  cidrMatch (JS.trim line) = Some (base, mask) ->
  Forall (fun ev => exists s, ev = Yield (mkHost (Some s) (JS.trim line) CIDR))
    (iterateLine isIPv6 e line)
  /\ warnings (iterateLine isIPv6 e line) = []
  /\ Z.of_nat (List.length (iterateLine isIPv6 e line)) <= 2 ^ (32 - JS.Number mask)
  /\ (forall p0 rest,
        map JS.Number (JS.split_char "." base) = p0 :: rest -> 255 < p0 ->
        iterateLine isIPv6 e line = []).
Proof.
  intros Hc.
  destruct (cidrMatch_inv _ _ _ Hc)
    as (Hne & a & b & c & d & Es & Da & Db & Dc & Dd & Dm).
  assert (Hshape : iterateLine isIPv6 e line
            = if (JS.Number mask >=? 0) && (JS.Number mask <=? 32)
              then cidrLoop isIPv6 (Z.to_nat (2 ^ (32 - JS.Number mask)))
                     (JS.trim line)
                     (JS.Number a, JS.Number b, JS.Number c, JS.Number d)
              else []).
  { unfold iterateLine. apply String.eqb_neq in Hne. rewrite Hne.
    rewrite (cidrMatch_not_IP isIPv6 isIPv6_colon _ _ Hc), Hc, Es.
    reflexivity. }
  assert (Hev : Forall (fun ev => exists s,
                          ev = Yield (mkHost (Some s) (JS.trim line) CIDR))
                  (iterateLine isIPv6 e line)
                /\ Z.of_nat (List.length (iterateLine isIPv6 e line))
                   <= 2 ^ (32 - JS.Number mask)).
  { rewrite Hshape.
    destruct ((JS.Number mask >=? 0) && (JS.Number mask <=? 32)) eqn:E.
    - apply andb_true_iff in E as [_ E]. apply Z.leb_le in E.
      destruct (cidrLoop_events (JS.trim line)
                  (Z.to_nat (2 ^ (32 - JS.Number mask)))
                  (JS.Number a, JS.Number b, JS.Number c, JS.Number d))
        as [F L].
      split; [exact F |].
      assert (0 <= 2 ^ (32 - JS.Number mask)) by (apply Z.pow_nonneg; lia).
      lia.
    - split; [constructor |]. cbn [List.length Z.of_nat].
      apply Z.pow_nonneg. lia. }
  destruct Hev as [F L].
  split; [exact F |]. split; [| split; [exact L |]].
  - clear -F. induction F as [|ev l (s & ->) _ IH]; [reflexivity |].
    exact IH.
  - intros p0 rest Ep Hp. rewrite Hshape. rewrite Es in Ep. cbn [map] in Ep.
    injection Ep as <- _.
    destruct ((JS.Number mask >=? 0) && (JS.Number mask <=? 32)); [| reflexivity].
    apply cidrLoop_high; try assumption; apply Number_nonneg; assumption.
Qed.

End CidrLines.

Lemma cidr_line_is_silent_witness :
  cidrMatch (JS.trim "999.0.0.0/30") = Some ("999.0.0.0", "30")
  /\ Forall (fun ev => exists s,
               ev = Yield (mkHost (Some s) (JS.trim "999.0.0.0/30") CIDR))
       (iterateLine isIPv6_ref true "999.0.0.0/30")
  /\ warnings (iterateLine isIPv6_ref true "999.0.0.0/30") = []
  /\ Z.of_nat (List.length (iterateLine isIPv6_ref true "999.0.0.0/30"))
     <= 2 ^ (32 - JS.Number "30")
  /\ (forall p0 rest,
        map JS.Number (JS.split_char "." "999.0.0.0") = p0 :: rest -> 255 < p0 ->
        iterateLine isIPv6_ref true "999.0.0.0/30" = []).
Proof.
  assert (H : cidrMatch (JS.trim "999.0.0.0/30") = Some ("999.0.0.0", "30"))
    by (vm_compute; reflexivity).
  split; [exact H |].
  exact (cidr_line_is_silent isIPv6_ref isIPv6_ref_colon "999.0.0.0/30" true
           "999.0.0.0" "30" H).
Defined.

(* ================================================================== *)
(** * The coordinator on a finite source: a scan can complete *)
(* ================================================================== *)

Module CompletionProps.

Import Scanner App Fixtures ScannerProps AppProps ProbeProps FileProps Feed.

Lemma runFifo_app env a : forall c b,
  runFifo env c (a ++ b) =
  match runFifo env c a with
  | Some c' => runFifo env c' b
  | None => None
  end.
Proof.
  induction a as [|t a IH]; intros c b; cbn [app runFifo]; [reflexivity |].
  destruct (stepFifo env c t); [apply IH | reflexivity].
Qed.

(** A run that answers the calls in their order is a run of the event
    loop. *)
Lemma stepFifo_stepFed env s it q turn s' it' q' :
  stepFifo env (s, it, q) turn = Some (s', it', q') ->
  stepFed env (s, it) turn = Some (s', it').
Proof.
  unfold stepFifo. destruct (stepFed env (s, it) turn) as [[s1 it1]|];
    [| discriminate].
  intros H. destruct turn as [w|l].
  - destruct q as [|first rest]; [discriminate |].
    destruct (Nat.eqb w first); [| discriminate]. injection H as <- <- _.
    reflexivity.
  - destruct l as [w h|w|w|w|w| | | | |d]; try (injection H as <- <- _; reflexivity).
    destruct q as [|first rest]; [discriminate |].
    destruct (Nat.eqb w first); [| discriminate]. injection H as <- <- _.
    reflexivity.
Qed.

Lemma runFifo_runFed env turns : forall s it q s' it' q',
  runFifo env (s, it, q) turns = Some (s', it', q') ->
  runFed env (s, it) turns = Some (s', it').
Proof.
  induction turns as [|turn r IH]; intros s it q s' it' q' H;
    cbn [runFifo runFed] in *.
  - injection H as <- <- _. reflexivity.
  - destruct (stepFifo env (s, it, q) turn) as [[[s1 it1] q1]|] eqn:E;
      [| discriminate].
    rewrite (stepFifo_stepFed env s it q turn s1 it1 q1 E).
    exact (IH s1 it1 q1 s' it' q' H).
Qed.

Lemma setPhase_twice w p p' : forall l,
  setPhase w p (setPhase w p' l) = setPhase w p l.
Proof.
  induction w as [|w IH]; intros [|x l]; cbn [setPhase]; try reflexivity.
  now rewrite IH.
Qed.

Lemma setPhase_same w p : forall l,
  nth_error l w = Some p -> setPhase w p l = l.
Proof.
  induction w as [|w IH]; intros [|x l] H; cbn [setPhase nth_error] in *;
    try reflexivity.
  - now injection H as ->.
  - now rewrite (IH l H).
Qed.

Ltac fifo_norm :=
  unfold withWorker;
  cbn [halted shutdown workers scanCount feasibleCount activeWorkers
       isShuttingDown outputFile infinite settled pulled now].

Ltac fifo_turn :=
  unfold stepFifo at 1; cbn [stepFed next returned pending];
  unfold step at 1; fifo_norm.

Lemma serve_one env threadCount host left w rest c :
  (w < threadCount)%nat ->
  Ready threadCount (host :: left) (w :: rest) c ->
  exists c', runFifo env c (serveHost env w host) = Some c'
             /\ Ready threadCount left (rest ++ [w]) c'.
Proof.
  intros Hw. destruct c as [[s it] q].
  intros (Hws & Hsh & Hflag & Hset & Hinf & (f & Hf & Ho) & -> & ->).
  destruct s as [sc fc aw flag file ws sh inf st pl nw].
  cbn [workers shutdown isShuttingDown settled infinite outputFile] in *.
  subst ws sh flag st inf file.
  set (ws := repeat Pulling threadCount).
  assert (Hlen : (w < List.length ws)%nat)
    by (unfold ws; rewrite repeat_length; exact Hw).
  assert (Hp : nth_error ws w = Some Pulling)
    by (unfold ws; apply nth_error_repeat; exact Hw).
  destruct (scanTLS_total env host []) as (result & t' & Et).
  assert (Er : fst (scanTLS env host []) = Ok result) by (rewrite Et; reflexivity).
  assert (Ep : probe env host = result) by (unfold probe; rewrite Er; reflexivity).
  unfold serveHost, probeFeasible. rewrite Ep.
  destruct f as [fo chunks]. cbn [f_open] in Ho. subst fo.
  assert (Hback : forall p p' p'',
            setPhase w Pulling (setPhase w p (setPhase w p' (setPhase w p'' ws)))
            = ws).
  { intros. rewrite !setPhase_twice. apply setPhase_same. exact Hp. }
  assert (Hback3 : forall p p',
            setPhase w Pulling (setPhase w p (setPhase w p' ws)) = ws).
  { intros. rewrite !setPhase_twice. apply setPhase_same. exact Hp. }
  (* the pull *)
  cbn [app runFifo]. fifo_turn. rewrite Hp. fifo_norm.
  rewrite Nat.eqb_refl, (nth_setPhase w _ ws Hlen).
  (* the probe settles *)
  fifo_turn. rewrite (nth_setPhase w _ ws Hlen), Er. fifo_norm.
  destruct result as [r|]; [destruct (r_feasible r) eqn:Efeas |].
  - pose proof (formatScanResult_nonempty r Efeas) as Hne.
    apply String.eqb_neq in Hne.
    cbn [afterScan]. rewrite Efeas, Hne. cbn [andb negb app runFifo].
    fifo_turn. rewrite nth_setPhase by (rewrite length_setPhase; exact Hlen).
    fifo_norm. cbn [writeFile f_open f_chunks].
    fifo_turn. rewrite nth_setPhase by (rewrite !length_setPhase; exact Hlen).
    fifo_norm. rewrite Hback. cbn [runFifo].
    eexists. split; [reflexivity |].
    cbn. repeat split. eexists. split; reflexivity.
  - cbn [afterScan]. rewrite Efeas. cbn [andb app runFifo].
    fifo_turn. rewrite nth_setPhase by (rewrite length_setPhase; exact Hlen).
    fifo_norm. rewrite Hback3. cbn [runFifo].
    eexists. split; [reflexivity |].
    cbn. repeat split. eexists. split; reflexivity.
  - cbn [afterScan app runFifo].
    fifo_turn. rewrite nth_setPhase by (rewrite length_setPhase; exact Hlen).
    fifo_norm. rewrite Hback3. cbn [runFifo].
    eexists. split; [reflexivity |].
    cbn. repeat split. eexists. split; reflexivity.
Qed.

Lemma nth_setPhase_other w p : forall l w',
  w' <> w -> nth_error (setPhase w p l) w' = nth_error l w'.
Proof.
  induction w as [|w IH]; intros [|x l] [|w'] H; cbn [setPhase nth_error];
    try reflexivity; try congruence.
  apply IH. congruence.
Qed.

(** The workers of [queue] await the iterator, the others have left. *)
Lemma leave_all env threadCount : forall queue s,
  NoDup queue ->
  List.length (workers s) = threadCount ->
  (forall w, In w queue -> nth_error (workers s) w = Some Pulling) ->
  (forall w, (w < threadCount)%nat -> ~ In w queue ->
             nth_error (workers s) w = Some Exited) ->
  shutdown s = NoSignal ->
  exists s',
    runFifo env (s, mkIterator [] false, queue) (map Pull queue)
    = Some (s', mkIterator [] false, [])
    /\ List.length (workers s') = threadCount
    /\ (forall w, (w < threadCount)%nat -> nth_error (workers s') w = Some Exited)
    /\ shutdown s' = NoSignal
    /\ settled s' = settled s
    /\ infinite s' = infinite s.
Proof.
  induction queue as [|w rest IH]; intros s Hnd Hlen Hq Hx Hsh.
  - exists s. split; [reflexivity |]. split; [exact Hlen |].
    split; [| repeat split; assumption].
    intros w Hw. apply Hx; [exact Hw | intros []].
  - inversion Hnd as [|? ? Hnin Hnd']; subst.
    assert (Hw : nth_error (workers s) w = Some Pulling)
      by (apply Hq; left; reflexivity).
    assert (Hlt : (w < List.length (workers s))%nat)
      by (apply nth_error_Some; congruence).
    cbn [map runFifo]. unfold stepFifo at 1. cbn [stepFed next returned pending].
    unfold step at 1. unfold halted. rewrite Hsh, Hw.
    cbn [workers]. rewrite Nat.eqb_refl, (nth_setPhase w _ _ Hlt).
    match goal with
    | |- exists s', runFifo env (?s1, _, _) _ = _ /\ _ =>
        destruct (IH s1 Hnd') as (s' & Hr & Hl' & He' & Hsh' & Hset' & Hinf')
    end.
    + cbn [workers]. rewrite length_setPhase. reflexivity.
    + intros w' Hin. cbn [workers].
      rewrite nth_setPhase_other by (intros ->; contradiction).
      apply Hq. right. exact Hin.
    + intros w' Hlt' Hnin'. cbn [workers].
      destruct (Nat.eq_dec w' w) as [->|Hne].
      * apply nth_setPhase. exact Hlt.
      * rewrite nth_setPhase_other by exact Hne.
        apply Hx; [exact Hlt' |]. intros [E|Hin]; [congruence | contradiction].
    + reflexivity.
    + exists s'. split; [exact Hr |].
      split; [exact Hl' |]. split; [exact He' |].
      repeat split; assumption.
Qed.

Lemma all_exited l :
  (forall w, (w < List.length l)%nat -> nth_error l w = Some Exited) ->
  forallb isExited l = true.
Proof.
  intros H. apply forallb_forall. intros p Hp.
  apply In_nth_error in Hp as (w & Hw).
  assert (Hlt : (w < List.length l)%nat) by (apply nth_error_Some; congruence).
  rewrite (H w Hlt) in Hw. injection Hw as <-. reflexivity.
Qed.

Lemma settle_from env threadCount hosts : forall queue c,
  Permutation queue (seq 0 threadCount) ->
  (1 <= threadCount)%nat ->
  Ready threadCount hosts queue c ->
  exists s it q,
    runFifo env c (fifoSchedule env queue hosts) = Some (s, it, q)
    /\ settled s = true
    /\ shutdown s = NoSignal.
Proof.
  induction hosts as [|host left IH]; intros queue c Hperm Hn R.
  - destruct c as [[s it] q].
    destruct R as (Hws & Hsh & Hflag & Hset & Hinf & _ & -> & ->).
    cbn [fifoSchedule]. rewrite runFifo_app.
    destruct (leave_all env threadCount queue s) as (s' & -> & Hl & He & Hsh' & Hset' & Hinf').
    + apply (Permutation_NoDup (Permutation_sym Hperm)), seq_NoDup.
    + rewrite Hws. apply repeat_length.
    + intros w Hin. rewrite Hws. apply nth_error_repeat.
      apply (Permutation_in _ Hperm), in_seq in Hin. lia.
    + intros w Hlt Hnin. exfalso. apply Hnin.
      apply (Permutation_in _ (Permutation_sym Hperm)), in_seq. lia.
    + exact Hsh.
    + cbn [runFifo]. unfold stepFifo. cbn [stepFed]. unfold step, halted.
      rewrite Hsh', Hinf', Hinf, Hset', Hset. cbn [negb andb].
      rewrite (all_exited (workers s')) by (rewrite Hl; exact He).
      eexists. eexists. eexists. split; [reflexivity |].
      cbn [settled shutdown]. split; reflexivity.
  - destruct queue as [|w rest].
    { apply Permutation_length in Hperm. rewrite length_seq in Hperm.
      cbn [List.length] in Hperm. lia. }
    assert (Hw : (w < threadCount)%nat).
    { assert (In w (seq 0 threadCount))
        by (apply (Permutation_in _ Hperm); left; reflexivity).
      apply in_seq in H. lia. }
    cbn [fifoSchedule]. rewrite runFifo_app.
    destruct (serve_one env threadCount host left w rest c Hw R) as (c1 & -> & R1).
    apply (IH (rest ++ [w])%list c1); [| exact Hn | exact R1].
    apply (Permutation_trans (l' := w :: rest)); [| exact Hperm].
    apply Permutation_sym, Permutation_cons_append.
Qed.

(** X26. A scan of a finite source can always complete.  For every list
    of hosts and every number of workers (at least one), there is a run of
    the event loop without signal, the calls on the shared iterator being
    answered in the order in which they were made, at the end of which
    [Promise.allSettled(workers)] has returned: the worker whose call is
    the oldest takes the next host through its loop and calls the iterator
    again, and when no host is left every worker is told so. *)
Theorem finite_scan_can_settle env threadCount outputPath t0 hosts :
  (1 <= threadCount)%nat ->
  outputPath <> EmptyString ->
  exists s it q,
    runFifo env (start threadCount (setupOutputFile outputPath) false t0,
                 mkIterator hosts false, startQueue threadCount)
      (fifoSchedule env (startQueue threadCount) hosts) = Some (s, it, q)
    /\ runFed env (start threadCount (setupOutputFile outputPath) false t0,
                   mkIterator hosts false)
         (fifoSchedule env (startQueue threadCount) hosts) = Some (s, it)
    /\ settled s = true
    /\ shutdown s = NoSignal.
Proof.
  intros Hn Hp.
  assert (R0 : Ready threadCount hosts (startQueue threadCount)
                 (start threadCount (setupOutputFile outputPath) false t0,
                  mkIterator hosts false, startQueue threadCount)).
  { unfold Ready, start, setupOutputFile. apply String.eqb_neq in Hp.
    rewrite Hp. cbn. repeat split. eexists. split; reflexivity. }
  destruct (settle_from env threadCount hosts (startQueue threadCount) _
              (Permutation_refl _) Hn R0) as (s & it & q & Hr & Hset & Hsh).
  exists s, it, q. split; [exact Hr |].
  split; [exact (runFifo_runFed env _ _ _ _ _ _ _ Hr) |].
  split; assumption.
Qed.

Lemma finite_scan_can_settle_witness :
  (1 <= 3)%nat
  /\ "out.csv" <> EmptyString
  /\ fifoSchedule envOk (startQueue 3) [exampleHost; ipHost "10.0.0.1"]
     = [Pull 0; Do (Scanned 0); Do (Written 0); Do (Woke 0);
        Pull 1; Do (Scanned 1); Do (Written 1); Do (Woke 1);
        Pull 2; Pull 0; Pull 1; Do Settled]
  /\ exists s it q,
       runFifo envOk (start 3 (setupOutputFile "out.csv") false 0,
                      mkIterator [exampleHost; ipHost "10.0.0.1"] false,
                      startQueue 3)
         (fifoSchedule envOk (startQueue 3) [exampleHost; ipHost "10.0.0.1"])
       = Some (s, it, q)
       /\ runFed envOk (start 3 (setupOutputFile "out.csv") false 0,
                        mkIterator [exampleHost; ipHost "10.0.0.1"] false)
            (fifoSchedule envOk (startQueue 3) [exampleHost; ipHost "10.0.0.1"])
          = Some (s, it)
       /\ settled s = true
       /\ shutdown s = NoSignal.
Proof.
  assert (H1 : (1 <= 3)%nat) by lia.
  assert (H2 : "out.csv" <> EmptyString) by discriminate.
  split; [exact H1 |]. split; [exact H2 |]. split; [vm_compute; reflexivity |].
  exact (finite_scan_can_settle envOk 3 "out.csv" 0
           [exampleHost; ipHost "10.0.0.1"] H1 H2).
Defined.

(** X27. When [startScanning] starts no worker (a thread count that is not
    positive), no host is ever pulled: under every schedule, in either
    mode, the iterator keeps all its hosts, nothing is scanned, and the
    output file holds what it held at the start. *)
Theorem no_worker_no_scan env outputFile0 inf t0 hosts turns s it :
  runFed env (start 0 outputFile0 inf t0, mkIterator hosts false) turns
  = Some (s, it) ->
  workers s = []
  /\ it = mkIterator hosts false
  /\ scanCount s = 0 /\ feasibleCount s = 0
  /\ match outputFile0, outputFile s with
     | Some f0, Some f => f_chunks f = f_chunks f0
     | None, None => True
     | _, _ => False
     end.
Proof.
  assert (G : forall turns c c',
            runFed env c turns = Some c' ->
            workers (fst c) = [] ->
            workers (fst c') = []
            /\ snd c' = snd c
            /\ scanCount (fst c') = scanCount (fst c)
            /\ feasibleCount (fst c') = feasibleCount (fst c)
            /\ option_map f_chunks (outputFile (fst c'))
               = option_map f_chunks (outputFile (fst c))).
  { clear. induction turns as [|turn r IH]; intros c c' H Hw; cbn [runFed] in H.
    - injection H as <-. repeat split; try reflexivity. assumption.
    - destruct (stepFed env c turn) as [c1|] eqn:E; [| discriminate].
      assert (S1 : workers (fst c1) = []
                   /\ snd c1 = snd c
                   /\ scanCount (fst c1) = scanCount (fst c)
                   /\ feasibleCount (fst c1) = feasibleCount (fst c)
                   /\ option_map f_chunks (outputFile (fst c1))
                      = option_map f_chunks (outputFile (fst c))).
      { destruct c as [s it]. cbn [fst snd] in *. unfold stepFed in E.
        destruct turn as [w|l].
        - destruct (next it) as [h it1]. unfold step in E.
          destruct (halted s); [discriminate |]. rewrite Hw in E.
          destruct w; discriminate.
        - unfold step in E. destruct (halted s); [destruct l; discriminate |].
          rewrite Hw in E.
          destruct l as [w h|w|w|w|w| | | | |d]; try discriminate;
            try (destruct w; discriminate).
          + cbn [forallb] in E.
            destruct (negb (infinite s) && negb (settled s) && true);
              [| discriminate].
            injection E as <-. cbn. repeat split; try assumption.
            destruct (outputFile s); reflexivity.
          + destruct (shutdown s); try discriminate.
            injection E as <-. unfold afterWait.
            destruct (_ && _); cbn; repeat split; try assumption.
            destruct (outputFile s); reflexivity.
          + destruct (shutdown s); try discriminate.
            injection E as <-. unfold afterWait.
            destruct (_ && _); cbn; repeat split; try assumption.
            destruct (outputFile s); reflexivity.
          + destruct (shutdown s); try discriminate.
            injection E as <-. cbn. repeat split; assumption.
          + destruct (d <? 0); [discriminate |].
            injection E as <-. cbn. repeat split; assumption. }
      destruct S1 as (W1 & I1 & C1 & F1 & O1).
      destruct (IH c1 c' H W1) as (W2 & I2 & C2 & F2 & O2).
      repeat split; congruence. }
  intros H. destruct (G turns _ _ H eq_refl) as (W & I & C & F & O).
  cbn [fst snd start scanCount feasibleCount outputFile] in *.
  repeat split; try assumption.
  destruct outputFile0 as [f0|], (outputFile s) as [f|]; cbn in O;
    try discriminate; [congruence | exact Logic.I].
Qed.

Lemma no_worker_no_scan_witness :
  exists s it,
    runFed envOk (start 0 (setupOutputFile "out.csv") false 0,
                  mkIterator [exampleHost] false) [Do (Tick 10); Do Settled]
    = Some (s, it)
    /\ workers s = []
    /\ it = mkIterator [exampleHost] false
    /\ scanCount s = 0 /\ feasibleCount s = 0
    /\ match setupOutputFile "out.csv", outputFile s with
       | Some f0, Some f => f_chunks f = f_chunks f0
       | None, None => True
       | _, _ => False
       end.
Proof.
  eexists. eexists. split; [vm_compute; reflexivity |].
  apply (no_worker_no_scan envOk (setupOutputFile "out.csv") false 0
           [exampleHost] [Do (Tick 10); Do Settled]).
  vm_compute. reflexivity.
Defined.

End CompletionProps.
